(** * Rockbuster: the simulation core, embedded and verified

    A shallow embedding of the fixed-step simulation of Rockbuster
    (src/core/Game.js and the entity and system modules it drives) and the
    theorems that settle the specification's claims about it.

    Conventions of the embedding.
    - JavaScript numbers that the program only ever uses as counters (score,
      lives, wave, shield and speed levels) are [Z]; array indices and the
      asteroid tier are [nat]; every other number (coordinates, velocities,
      timers, angles) is an exact rational [Q].  The rounding of IEEE
      doubles is not part of that model; [Double.wrap] runs [wrap] on
      binary64 numbers, where rounding changes the answer.
    - The members of the JavaScript [Math] object that are not exact on
      rationals ([PI], [cos], [sin], [hypot], [atan2]) and the stream behind
      [Math.random] are the fields of the class [MathLib]: every theorem
      holds for any implementation of them.
    - Objects live in the arrays of the run state and are referred to by
      their index; mutating an object through a reference is an [alter] at
      that index.
    - Calls to the collaborators that never feed back into the simulation
      (audio cues, sprite selection, DOM events, the persistence write) are
      left out. *)

From Stdlib Require Import ZArith QArith Qround Qminmax Qabs List String Bool Lia Lqa.
From Stdlib Require PrimFloat.
From stdpp Require Import base list.

Set Default Proof Using "Type".
Open Scope Q_scope.

(** ** Numbers *)

(** [a < b] and [a <= b] on numbers, as the booleans JavaScript computes. *)
Definition Qltb (a b : Q) : bool := negb (Qle_bool b a).
Definition Qleb (a b : Q) : bool := Qle_bool a b.

(** ** The [Math] object *)

Class MathLib := {
  Math_PI : Q;
  Math_cos : Q -> Q;
  Math_sin : Q -> Q;
  Math_hypot : Q -> Q -> Q;
  Math_atan2 : Q -> Q -> Q;
  (** the n-th number [Math.random()] returns on this page *)
  Math_random : nat -> Q
}.

(** Code that draws random numbers threads the count of draws made so far. *)
Definition Rand (A : Type) : Type := nat -> A * nat.

Definition ret {A} (a : A) : Rand A := fun n => (a, n).
Definition bind {A B} (m : Rand A) (k : A -> Rand B) : Rand B :=
  fun n => let (a, n') := m n in k a n'.

Notation "'let*' x ':=' m 'in' k" := (bind m (fun x => k))
  (at level 10, x name, m at level 100, k at level 200).

Definition random `{MathLib} : Rand Q := fun n => (Math_random n, S n).

(** ** src/config.js *)

Module CONFIG.
Module CANVAS.
Definition W : Q := 960.
Definition H : Q := 540.
End CANVAS.

Module SHIP.
Definition RADIUS : Q := 14.
Definition ACCEL : Q := 180.
Definition TURN_SPEED `{MathLib} : Q := Math_PI.
Definition FRICTION : Q := 0.985.
Definition MAX_SPEED : Q := 340.
Definition FIRE_COOLDOWN : Q := 0.18.
Definition RESPAWN_INVULN : Q := 3.
Definition INVULN_BLINK_INTERVAL : Q := 0.15.
Definition LIVES : Z := 3.
Definition MAX_LIVES : Z := 5.
Definition SHIELD_MAX_LEVEL : Z := 2.
Definition SHIELD_HIT_INVULN : Q := 1.
Module SPEED_POWERUP.
Definition MAX_LEVEL : Z := 5.
Definition ACCEL_BONUS_PER_LEVEL : Q := 45.
Definition MAX_SPEED_BONUS_PER_LEVEL : Q := 55.
End SPEED_POWERUP.
End SHIP.

Module WEAPON.
Inductive Mode := MODE_SINGLE | MODE_TRIPLE | MODE_FIVE.
Definition SPREAD_RAD `{MathLib} : Q := Math_PI / 12.
End WEAPON.

Module BULLET.
Definition SPEED : Q := 520.
Definition LIFETIME : Q := 1.2.
Definition RADIUS : Q := 2.
End BULLET.

Module ASTEROID.
Definition SPEED_MIN : Q := 30.
Definition SPEED_MAX : Q := 120.
Definition SIZES : list Q := [42; 28; 18]%Q.
Definition SPLIT_COUNT : nat := 2.
Definition SPEED_GROWTH_PER_WAVE : Q := 0.1.
End ASTEROID.

Module UFO.
Definition RADIUS : Q := 22.
Definition SPEED : Q := 180.
Definition SPRITES : list string :=
  ["ufoBlue"; "ufoGreen"; "ufoRed"; "ufoYellow"]%string.
Definition HITS_TO_DESTROY : Z := 3.
Definition SCORE_VALUE : Z := 750.
Definition FIRE_INTERVAL : Q := 1.5.
Definition LASER_SPEED : Q := 360.
Definition LASER_LIFETIME : Q := 2.5.
Definition OFFSCREEN_MARGIN : Q := 36.
Module SPAWN_TIMER.
Definition START : Q := 30.
Definition DECREMENT_PER_WAVE : Q := 1.2.
Definition MIN : Q := 6.
End SPAWN_TIMER.
End UFO.

Module WAVES.
Definition START_COUNT : Z := 4.
Definition GROWTH : Z := 1.
End WAVES.

Module SCORE.
Definition SMALL : Z := 100.
Definition MED : Z := 50.
Definition LARGE : Z := 20.
End SCORE.

Module POWERUP.
Definition RADIUS : Q := 14.
Definition SPEED_MIN : Q := 20.
Definition SPEED_MAX : Q := 60.
Definition OFFSCREEN_MARGIN : Q := 40.

Inductive Type_ := tripleShot | extraLife | shield | speed.
Inductive Model := chance | interval.
Record Rules := {
  model : Model;
  chancePerWave : Q;
  everyNWaves : Z;
  duplicateScore : Z
}.
(** [CONFIG.POWERUP.types], in the order [Object.entries] lists it. *)
Definition types : list (Type_ * Rules) :=
  [ (tripleShot, {| model := chance; chancePerWave := 0.35;
                    everyNWaves := 3; duplicateScore := 5000 |});
    (extraLife,  {| model := chance; chancePerWave := 0.35;
                    everyNWaves := 5; duplicateScore := 2000 |});
    (shield,     {| model := chance; chancePerWave := 0.35;
                    everyNWaves := 4; duplicateScore := 4000 |});
    (speed,      {| model := chance; chancePerWave := 0.3;
                    everyNWaves := 3; duplicateScore := 2500 |}) ].
Definition duplicateScoreOf (ty : Type_) : Z :=
  match ty with
  | tripleShot => 5000 | extraLife => 2000 | shield => 4000 | speed => 2500
  end.
End POWERUP.
End CONFIG.

(** ** src/utils/math.js *)

Definition wrap (v max : Q) : Q :=
  if Qltb v 0 then v + max else if Qleb max v then v - max else v.

(** [wrap] on the numbers the program runs on, binary64 doubles: the same
    three branches, with the sum and the difference rounded to the nearest
    double.  [tiny] is a coordinate just left of the canvas, [-2^-47]. *)
Module Double.
Import PrimFloat.

Definition wrap (v max : float) : float :=
  (if v <? 0 then v + max else if max <=? v then v - max else v)%float.

Definition W : float := 960%float.
Definition tiny : float := (-0x1p-47)%float.
End Double.

(** [clamp] has one caller, [Ship.setShieldLevel], on a level. *)
Definition clamp (v a b : Z) : Z := Z.max a (Z.min b v).

Section MathJs.
Context `{MathLib}.

Definition randRange (a b : Q) : Rand Q :=
  let* u := random in ret (a + u * (b - a)).

Definition randSign : Rand Q :=
  let* u := random in ret (if Qltb u 0.5 then (-1) else 1).

Definition angleToVec (a : Q) : Q * Q := (Math_cos a, Math_sin a).
End MathJs.

(** ** src/entities/Entity.js *)

Module Entity.
Record t := mk {
  x : Q; y : Q; r : Q;
  vx : Q; vy : Q;
  dead : bool
}.

Definition new (x0 y0 r0 : Q) : t :=
  {| x := x0; y := y0; r := r0; vx := 0; vy := 0; dead := false |}.

Definition set_pos (x' y' : Q) (e : t) : t :=
  {| x := x'; y := y'; r := r e; vx := vx e; vy := vy e; dead := dead e |}.
Definition set_vel (vx' vy' : Q) (e : t) : t :=
  {| x := x e; y := y e; r := r e; vx := vx'; vy := vy'; dead := dead e |}.
Definition set_dead (d : bool) (e : t) : t :=
  {| x := x e; y := y e; r := r e; vx := vx e; vy := vy e; dead := d |}.

(** [this.x += this.vx * dt; this.y += this.vy * dt] *)
Definition move (dt : Q) (e : t) : t :=
  set_pos (x e + vx e * dt) (y e + vy e * dt) e.
End Entity.

(** ** src/systems/Physics.js *)

Definition integrateAndWrap (entity : Entity.t) : Entity.t :=
  Entity.set_pos (wrap (Entity.x entity) CONFIG.CANVAS.W)
                 (wrap (Entity.y entity) CONFIG.CANVAS.H) entity.

(** ** src/systems/Collision.js: the overlap test *)

Definition circleHit (a b : Entity.t) : bool :=
  let dx := Entity.x a - Entity.x b in
  let dy := Entity.y a - Entity.y b in
  let rr := (Entity.r a + Entity.r b) * (Entity.r a + Entity.r b) in
  Qleb (dx * dx + dy * dy) rr.

(** ** src/entities/Bullet.js *)

Module Bullet.
Section WithMath.
Context `{MathLib}.

Record t := mk {
  base : Entity.t;
  angle : Q;
  lifetime : Q
}.

Definition new (x0 y0 angle0 : Q) : t :=
  {| base := Entity.set_vel (Math_cos angle0 * CONFIG.BULLET.SPEED)
                            (Math_sin angle0 * CONFIG.BULLET.SPEED)
                            (Entity.new x0 y0 CONFIG.BULLET.RADIUS);
     angle := angle0;
     lifetime := CONFIG.BULLET.LIFETIME |}.

Definition set_base (e : Entity.t) (b : t) : t :=
  {| base := e; angle := angle b; lifetime := lifetime b |}.

Definition kill (b : t) : t := set_base (Entity.set_dead true (base b)) b.

Definition update (dt : Q) (b : t) : t :=
  let e := Entity.move dt (base b) in
  let lifetime' := lifetime b - dt in
  let e := if Qleb lifetime' 0 then Entity.set_dead true e else e in
  let angle' :=
    if negb (Qeq_bool (Entity.vx e) 0) || negb (Qeq_bool (Entity.vy e) 0)
    then Math_atan2 (Entity.vy e) (Entity.vx e)
    else angle b in
  {| base := e; angle := angle'; lifetime := lifetime' |}.
End WithMath.
End Bullet.

(** ** src/entities/Asteroid.js *)

Inductive ColorVariant := brown | grey.

(** [for (let i = 0; i < n; i++) parts.push(make())] *)
Fixpoint pushTimes {A} (n : nat) (make : Rand A) : Rand (list A) :=
  match n with
  | O => ret []
  | S n' => let* a := make in let* rest := pushTimes n' make in ret (a :: rest)
  end.

Module Asteroid.
Record t := mk {
  base : Entity.t;
  (** 0 = large, 1 = medium, 2 = small *)
  sizeIndex : nat;
  colorVariant : ColorVariant;
  speedMultiplier : Q;
  spin : Q;
  angle : Q
}.

Definition set_base (e : Entity.t) (a : t) : t :=
  {| base := e; sizeIndex := sizeIndex a; colorVariant := colorVariant a;
     speedMultiplier := speedMultiplier a; spin := spin a; angle := angle a |}.

Definition kill (a : t) : t := set_base (Entity.set_dead true (base a)) a.

Section WithMath.
Context `{MathLib}.

(** [new Asteroid(x, y, sizeIndex, { colorVariant, speedMultiplier })]:
    [colorVariant0 = None] is the option left out ([null]).  The radius
    is [SIZES[sizeIndex]]; every caller passes an index below
    [SIZES.length] (0 in the spawner, a checked [sizeIndex + 1] in
    [split]), and the model reads 0 where JavaScript would read
    [undefined]. *)
Definition new (x0 y0 : Q) (sizeIndex0 : nat)
    (colorVariant0 : option ColorVariant) (speedMultiplier0 : Q) : Rand t :=
  let r0 := default 0 (CONFIG.ASTEROID.SIZES !! sizeIndex0) in
  let* color :=
    match colorVariant0 with
    | Some c => ret c
    | None => let* u := random in ret (if Qltb u 0.5 then brown else grey)
    end in
  let* baseSpeed :=
    randRange CONFIG.ASTEROID.SPEED_MIN CONFIG.ASTEROID.SPEED_MAX in
  let speed := baseSpeed * speedMultiplier0 in
  let* sx := randSign in
  let* ux := random in
  let* sy := randSign in
  let* uy := random in
  let* spin0 := randRange (-1) 1 in
  let* ua := random in
  ret {| base := Entity.set_vel (sx * speed * ux) (sy * speed * uy)
                   (Entity.new x0 y0 r0);
         sizeIndex := sizeIndex0;
         colorVariant := color;
         speedMultiplier := speedMultiplier0;
         spin := spin0;
         angle := ua * Math_PI * 2 |}.

Definition split (a : t) : Rand (list t) :=
  if (length CONFIG.ASTEROID.SIZES <=? sizeIndex a + 1)%nat then ret []
  else
    let next := (sizeIndex a + 1)%nat in
    pushTimes CONFIG.ASTEROID.SPLIT_COUNT
      (new (Entity.x (base a)) (Entity.y (base a)) next
           (Some (colorVariant a)) (speedMultiplier a)).
End WithMath.

Definition update (dt : Q) (a : t) : t :=
  {| base := Entity.move dt (base a); sizeIndex := sizeIndex a;
     colorVariant := colorVariant a; speedMultiplier := speedMultiplier a;
     spin := spin a; angle := angle a + spin a * dt |}.
End Asteroid.

(** ** src/entities/PowerUp.js *)

Module PowerUp.
Record t := mk {
  base : Entity.t;
  type : CONFIG.POWERUP.Type_;
  angle : Q;
  spin : Q
}.

Definition set_base (e : Entity.t) (p : t) : t :=
  {| base := e; type := type p; angle := angle p; spin := spin p |}.

Definition kill (p : t) : t := set_base (Entity.set_dead true (base p)) p.

Section WithMath.
Context `{MathLib}.

Definition new (x0 y0 : Q) (type0 : CONFIG.POWERUP.Type_) : Rand t :=
  let* speed :=
    randRange CONFIG.POWERUP.SPEED_MIN CONFIG.POWERUP.SPEED_MAX in
  let* sx := randSign in
  let* ux := random in
  let* sy := randSign in
  let* uy := random in
  let* ua := random in
  let* spin0 := randRange (-0.8) 0.8 in
  ret {| base := Entity.set_vel (sx * speed * ux) (sy * speed * uy)
                   (Entity.new x0 y0 CONFIG.POWERUP.RADIUS);
         type := type0;
         angle := ua * Math_PI * 2;
         spin := spin0 |}.
End WithMath.

Definition update (dt : Q) (p : t) : t :=
  {| base := Entity.move dt (base p); type := type p;
     angle := angle p + spin p * dt; spin := spin p |}.
End PowerUp.

(** ** src/entities/UfoLaser.js *)

Module UfoLaser.
Record t := mk {
  base : Entity.t;
  angle : Q;
  lifetime : Q
}.

Definition set_base (e : Entity.t) (l : t) : t :=
  {| base := e; angle := angle l; lifetime := lifetime l |}.

Definition kill (l : t) : t := set_base (Entity.set_dead true (base l)) l.

Definition new `{MathLib} (x0 y0 angle0 : Q) : t :=
  {| base := Entity.set_vel (Math_cos angle0 * CONFIG.UFO.LASER_SPEED)
                            (Math_sin angle0 * CONFIG.UFO.LASER_SPEED)
                            (Entity.new x0 y0 6);
     angle := angle0;
     lifetime := CONFIG.UFO.LASER_LIFETIME |}.

Definition update (dt : Q) (l : t) : t :=
  let e := Entity.move dt (base l) in
  let lifetime' := lifetime l - dt in
  if Qleb lifetime' 0 then
    {| base := Entity.set_dead true e; angle := angle l; lifetime := lifetime' |}
  else
    let margin := CONFIG.UFO.OFFSCREEN_MARGIN in
    let out :=
      Qltb (Entity.x e) (- margin) || Qltb (CONFIG.CANVAS.W + margin) (Entity.x e)
      || Qltb (Entity.y e) (- margin) || Qltb (CONFIG.CANVAS.H + margin) (Entity.y e) in
    {| base := if out then Entity.set_dead true e else e;
       angle := angle l; lifetime := lifetime' |}.
End UfoLaser.

(** ** src/entities/Ufo.js *)

Module Ufo.
Record t := mk {
  base : Entity.t;
  spriteKey : option string;
  health : Z;
  fireCooldown : Q
}.

Definition new (x0 y0 vx0 vy0 : Q) (spriteKey0 : option string) : t :=
  {| base := Entity.set_vel vx0 vy0 (Entity.new x0 y0 CONFIG.UFO.RADIUS);
     spriteKey := spriteKey0;
     health := CONFIG.UFO.HITS_TO_DESTROY;
     fireCooldown := CONFIG.UFO.FIRE_INTERVAL |}.

(** [update(dt, target)]: the lasers fired this tick and the craft after
    it; [target] is the ship's entity (never [null] at the call). *)
Definition update `{MathLib} (dt : Q) (target : Entity.t) (u : t)
    : list UfoLaser.t * t :=
  if Entity.dead (base u) then ([], u)
  else
    let e := Entity.move dt (base u) in
    let margin := CONFIG.UFO.OFFSCREEN_MARGIN in
    let W := CONFIG.CANVAS.W in
    let H := CONFIG.CANVAS.H in
    let x1 :=
      if negb (Qeq_bool (Entity.vx e) 0) then
        if Qltb (Entity.x e) (- margin) then W + margin
        else if Qltb (W + margin) (Entity.x e) then - margin
        else Entity.x e
      else Entity.x e in
    let y1 :=
      if negb (Qeq_bool (Entity.vy e) 0) then
        if Qltb (Entity.y e) (- margin) then H + margin
        else if Qltb (H + margin) (Entity.y e) then - margin
        else Entity.y e
      else Entity.y e in
    let e := Entity.set_pos x1 y1 e in
    let cd := fireCooldown u - dt in
    if Qleb cd 0 then
      let angle := Math_atan2 (Entity.y target - y1) (Entity.x target - x1) in
      ([UfoLaser.new x1 y1 angle],
       {| base := e; spriteKey := spriteKey u; health := health u;
          fireCooldown := CONFIG.UFO.FIRE_INTERVAL |})
    else
      ([], {| base := e; spriteKey := spriteKey u; health := health u;
              fireCooldown := cd |}).

(** [takeHit()]: whether the craft was destroyed, and the craft after. *)
Definition takeHit (u : t) : bool * t :=
  if Entity.dead (base u) then (false, u)
  else
    let h := (health u - 1)%Z in
    if (h <=? 0)%Z then
      (true, {| base := Entity.set_dead true (base u); spriteKey := spriteKey u;
                health := h; fireCooldown := fireCooldown u |})
    else
      (false, {| base := base u; spriteKey := spriteKey u;
                 health := h; fireCooldown := fireCooldown u |}).
End Ufo.

(** ** src/core/Input.js *)

Module Input.
Record t := mk {
  keys : list string;
  justPressed : list string;
  justReleased : list string
}.

Definition has (code : string) (set : list string) : bool :=
  existsb (String.eqb code) set.

Definition isDown (i : t) (code : string) : bool := has code (keys i).
Definition pressed (i : t) (code : string) : bool := has code (justPressed i).
Definition released (i : t) (code : string) : bool := has code (justReleased i).

Definition postUpdate (i : t) : t :=
  {| keys := keys i; justPressed := []; justReleased := [] |}.
End Input.

(** ** src/entities/Ship.js *)

Module Ship.
Record t := mk {
  base : Entity.t;
  angle : Q;
  cooldown : Q;
  invuln : Q;
  invulnElapsed : Q;
  isInvulnVisible : bool;
  weaponMode : CONFIG.WEAPON.Mode;
  baseAccel : Q;
  baseMaxSpeed : Q;
  speedLevel : Z;
  maxSpeedLevel : Z;
  accelBonusPerLevel : Q;
  maxSpeedBonusPerLevel : Q;
  currentAccel : Q;
  currentMaxSpeed : Q;
  shieldLevel : Z;
  spriteTier : Z
}.

Definition set_base (e : Entity.t) (s : t) : t :=
  mk e (angle s) (cooldown s) (invuln s) (invulnElapsed s) (isInvulnVisible s)
     (weaponMode s) (baseAccel s) (baseMaxSpeed s) (speedLevel s)
     (maxSpeedLevel s) (accelBonusPerLevel s) (maxSpeedBonusPerLevel s)
     (currentAccel s) (currentMaxSpeed s) (shieldLevel s) (spriteTier s).
Definition set_motion (e : Entity.t) (angle' cooldown' : Q) (s : t) : t :=
  mk e angle' cooldown' (invuln s) (invulnElapsed s) (isInvulnVisible s)
     (weaponMode s) (baseAccel s) (baseMaxSpeed s) (speedLevel s)
     (maxSpeedLevel s) (accelBonusPerLevel s) (maxSpeedBonusPerLevel s)
     (currentAccel s) (currentMaxSpeed s) (shieldLevel s) (spriteTier s).
Definition set_cooldown (c : Q) (s : t) : t :=
  set_motion (base s) (angle s) c s.
Definition set_invuln (v : Q) (s : t) : t :=
  mk (base s) (angle s) (cooldown s) v (invulnElapsed s) (isInvulnVisible s)
     (weaponMode s) (baseAccel s) (baseMaxSpeed s) (speedLevel s)
     (maxSpeedLevel s) (accelBonusPerLevel s) (maxSpeedBonusPerLevel s)
     (currentAccel s) (currentMaxSpeed s) (shieldLevel s) (spriteTier s).
Definition set_blink (elapsed : Q) (visible : bool) (s : t) : t :=
  mk (base s) (angle s) (cooldown s) (invuln s) elapsed visible
     (weaponMode s) (baseAccel s) (baseMaxSpeed s) (speedLevel s)
     (maxSpeedLevel s) (accelBonusPerLevel s) (maxSpeedBonusPerLevel s)
     (currentAccel s) (currentMaxSpeed s) (shieldLevel s) (spriteTier s).
Definition set_weaponMode (m : CONFIG.WEAPON.Mode) (s : t) : t :=
  mk (base s) (angle s) (cooldown s) (invuln s) (invulnElapsed s)
     (isInvulnVisible s) m (baseAccel s) (baseMaxSpeed s) (speedLevel s)
     (maxSpeedLevel s) (accelBonusPerLevel s) (maxSpeedBonusPerLevel s)
     (currentAccel s) (currentMaxSpeed s) (shieldLevel s) (spriteTier s).
Definition set_speedLevel (l : Z) (s : t) : t :=
  mk (base s) (angle s) (cooldown s) (invuln s) (invulnElapsed s)
     (isInvulnVisible s) (weaponMode s) (baseAccel s) (baseMaxSpeed s) l
     (maxSpeedLevel s) (accelBonusPerLevel s) (maxSpeedBonusPerLevel s)
     (currentAccel s) (currentMaxSpeed s) (shieldLevel s) (spriteTier s).
Definition set_currentStats (accel maxSpeed : Q) (s : t) : t :=
  mk (base s) (angle s) (cooldown s) (invuln s) (invulnElapsed s)
     (isInvulnVisible s) (weaponMode s) (baseAccel s) (baseMaxSpeed s)
     (speedLevel s) (maxSpeedLevel s) (accelBonusPerLevel s)
     (maxSpeedBonusPerLevel s) accel maxSpeed (shieldLevel s) (spriteTier s).
Definition set_shield (level tier : Z) (s : t) : t :=
  mk (base s) (angle s) (cooldown s) (invuln s) (invulnElapsed s)
     (isInvulnVisible s) (weaponMode s) (baseAccel s) (baseMaxSpeed s)
     (speedLevel s) (maxSpeedLevel s) (accelBonusPerLevel s)
     (maxSpeedBonusPerLevel s) (currentAccel s) (currentMaxSpeed s) level tier.

Definition resetInvulnBlink (s : t) : t := set_blink 0 true s.

Definition canFire (s : t) : bool := Qleb (cooldown s) 0.

Definition didFire (s : t) : t := set_cooldown CONFIG.SHIP.FIRE_COOLDOWN s.

Definition setShieldLevel (level : Z) (s : t) : t :=
  let clampedLevel := clamp level 0 2 in
  set_shield clampedLevel clampedLevel s.

Definition recalculateSpeedStats (s : t) : t :=
  let level := Z.max 0 (speedLevel s) in
  set_currentStats (baseAccel s + inject_Z level * accelBonusPerLevel s)
                   (baseMaxSpeed s + inject_Z level * maxSpeedBonusPerLevel s) s.

(** The result, then the ship: [true] if the level rose. *)
Definition increaseSpeedLevel (s : t) : bool * t :=
  if (maxSpeedLevel s <=? speedLevel s)%Z then (false, s)
  else (true, recalculateSpeedStats (set_speedLevel (speedLevel s + 1) s)).

Definition resetSpeedLevel (s : t) : t :=
  recalculateSpeedStats (set_speedLevel 0 s).

Definition increaseShieldLevel (s : t) : bool * t :=
  let max := CONFIG.SHIP.SHIELD_MAX_LEVEL in
  if (max <=? shieldLevel s)%Z then (false, s)
  else (true, set_shield (Z.min max (shieldLevel s + 1)) (spriteTier s) s).

Definition decreaseShieldLevel (s : t) : bool * t :=
  if (shieldLevel s <=? 0)%Z then (false, s)
  else (true, set_shield (Z.max 0 (shieldLevel s - 1)) (spriteTier s) s).

(** [while (elapsed >= interval) { elapsed -= interval; visible = !visible }],
    run for at most [fuel] rounds. *)
Fixpoint blinkLoop (fuel : nat) (interval elapsed : Q) (visible : bool)
    : Q * bool :=
  match fuel with
  | O => (elapsed, visible)
  | S fuel' =>
      if Qleb interval elapsed
      then blinkLoop fuel' interval (elapsed - interval) (negb visible)
      else (elapsed, visible)
  end.

(** The rounds the blink loop makes from [elapsed]: enough fuel for it to
    leave by its own test (see [blinkLoop_exits]). *)
Definition blinkRounds (interval elapsed : Q) : nat :=
  Z.to_nat (Qfloor (elapsed / interval)).

Section WithMath.
Context `{MathLib}.

Definition new (x0 y0 : Q) (invulnBlink : bool) : t :=
  let s :=
    {| base := Entity.new x0 y0 CONFIG.SHIP.RADIUS;
       angle := - Math_PI / 2;
       cooldown := 0;
       invuln := if invulnBlink then CONFIG.SHIP.RESPAWN_INVULN else 0;
       invulnElapsed := 0;
       isInvulnVisible := true;
       weaponMode := CONFIG.WEAPON.MODE_SINGLE;
       baseAccel := CONFIG.SHIP.ACCEL;
       baseMaxSpeed := CONFIG.SHIP.MAX_SPEED;
       speedLevel := 0;
       maxSpeedLevel := Z.max 0 CONFIG.SHIP.SPEED_POWERUP.MAX_LEVEL;
       accelBonusPerLevel := CONFIG.SHIP.SPEED_POWERUP.ACCEL_BONUS_PER_LEVEL;
       maxSpeedBonusPerLevel :=
         CONFIG.SHIP.SPEED_POWERUP.MAX_SPEED_BONUS_PER_LEVEL;
       currentAccel := 0;
       currentMaxSpeed := 0;
       shieldLevel := 0;
       spriteTier := 0 |} in
  setShieldLevel 0 (recalculateSpeedStats s).

Definition update (dt : Q) (input : Input.t) (s : t) : t :=
  let accel := currentAccel s in
  let maxSpeed := currentMaxSpeed s in
  (* rotation *)
  let a := angle s in
  let a := if Input.isDown input "ArrowLeft" || Input.isDown input "KeyA"
           then a - CONFIG.SHIP.TURN_SPEED * dt else a in
  let a := if Input.isDown input "ArrowRight" || Input.isDown input "KeyD"
           then a + CONFIG.SHIP.TURN_SPEED * dt else a in
  (* thrust *)
  let vx := Entity.vx (base s) in
  let vy := Entity.vy (base s) in
  let '(vx, vy) :=
    if Input.isDown input "ArrowUp" || Input.isDown input "KeyW" then
      let dir := angleToVec a in
      (vx + fst dir * accel * dt, vy + snd dir * accel * dt)
    else (vx, vy) in
  (* friction and speed clamp *)
  let vx := vx * CONFIG.SHIP.FRICTION in
  let vy := vy * CONFIG.SHIP.FRICTION in
  let speed := Math_hypot vx vy in
  let '(vx, vy) :=
    if Qltb maxSpeed speed then
      let k := maxSpeed / speed in (vx * k, vy * k)
    else (vx, vy) in
  (* integrate position *)
  let e := Entity.move dt (Entity.set_vel vx vy (base s)) in
  (* firing cooldown *)
  let cd := Qmax 0 (cooldown s - dt) in
  (* invulnerability timer and blink *)
  let prevInvuln := invuln s in
  let inv := Qmax 0 (invuln s - dt) in
  let s := set_invuln inv (set_motion e a cd s) in
  if Qltb 0 inv then
    let interval := CONFIG.SHIP.INVULN_BLINK_INTERVAL in
    if Qltb 0 interval then
      let elapsed := invulnElapsed s + dt in
      let '(elapsed, visible) :=
        blinkLoop (blinkRounds interval elapsed) interval elapsed
                  (isInvulnVisible s) in
      set_blink elapsed visible s
    else set_blink 0 true s
  else if Qltb 0 prevInvuln then resetInvulnBlink s
  else s.

(** [fire()]: the bullets to add to the world, and the ship with its
    cooldown started. *)
Definition fire (s : t) : list Bullet.t * t :=
  let baseAngle := angle s in
  let noseX := Entity.x (base s) + Math_cos baseAngle * (Entity.r (base s) + 2) in
  let noseY := Entity.y (base s) + Math_sin baseAngle * (Entity.r (base s) + 2) in
  let spread := CONFIG.WEAPON.SPREAD_RAD in
  let bullets :=
    match weaponMode s with
    | CONFIG.WEAPON.MODE_FIVE =>
        [ Bullet.new noseX noseY (baseAngle - spread * 2);
          Bullet.new noseX noseY (baseAngle - spread);
          Bullet.new noseX noseY baseAngle;
          Bullet.new noseX noseY (baseAngle + spread);
          Bullet.new noseX noseY (baseAngle + spread * 2) ]
    | CONFIG.WEAPON.MODE_TRIPLE =>
        [ Bullet.new noseX noseY (baseAngle - spread);
          Bullet.new noseX noseY baseAngle;
          Bullet.new noseX noseY (baseAngle + spread) ]
    | CONFIG.WEAPON.MODE_SINGLE =>
        [ Bullet.new noseX noseY baseAngle ]
    end in
  (bullets, didFire s).
End WithMath.
End Ship.

(** ** src/core/Game.js: the run state *)

Inductive Mode := MENU | PLAY | GAME_OVER.

Definition Mode_eqb (a b : Mode) : bool :=
  match a, b with
  | MENU, MENU | PLAY, PLAY | GAME_OVER, GAME_OVER => true
  | _, _ => false
  end.

(** The object [createInitialState] builds ([this.state]). *)
Module State.
Record t := mk {
  mode : Mode;
  wave : Z;
  score : Z;
  lives : Z;
  highScore : Z;
  didBeatHighScore : bool;
  ship : Ship.t;
  bullets : list Bullet.t;
  asteroids : list Asteroid.t;
  powerups : list PowerUp.t;
  powerupsCollected : Z;
  ufo : option Ufo.t;
  ufoBullets : list UfoLaser.t;
  ufoSpawnTimer : option Q;
  ufoSpawnedThisWave : bool
}.

Definition set_mode (v : Mode) (s : t) : t :=
  mk v (wave s) (score s) (lives s) (highScore s) (didBeatHighScore s)
     (ship s) (bullets s) (asteroids s) (powerups s) (powerupsCollected s)
     (ufo s) (ufoBullets s) (ufoSpawnTimer s) (ufoSpawnedThisWave s).
Definition set_wave (v : Z) (s : t) : t :=
  mk (mode s) v (score s) (lives s) (highScore s) (didBeatHighScore s)
     (ship s) (bullets s) (asteroids s) (powerups s) (powerupsCollected s)
     (ufo s) (ufoBullets s) (ufoSpawnTimer s) (ufoSpawnedThisWave s).
Definition set_score (v : Z) (s : t) : t :=
  mk (mode s) (wave s) v (lives s) (highScore s) (didBeatHighScore s)
     (ship s) (bullets s) (asteroids s) (powerups s) (powerupsCollected s)
     (ufo s) (ufoBullets s) (ufoSpawnTimer s) (ufoSpawnedThisWave s).
Definition set_lives (v : Z) (s : t) : t :=
  mk (mode s) (wave s) (score s) v (highScore s) (didBeatHighScore s)
     (ship s) (bullets s) (asteroids s) (powerups s) (powerupsCollected s)
     (ufo s) (ufoBullets s) (ufoSpawnTimer s) (ufoSpawnedThisWave s).
Definition set_highScore (v : Z) (s : t) : t :=
  mk (mode s) (wave s) (score s) (lives s) v (didBeatHighScore s) (ship s)
     (bullets s) (asteroids s) (powerups s) (powerupsCollected s) (ufo s)
     (ufoBullets s) (ufoSpawnTimer s) (ufoSpawnedThisWave s).
Definition set_didBeatHighScore (v : bool) (s : t) : t :=
  mk (mode s) (wave s) (score s) (lives s) (highScore s) v (ship s)
     (bullets s) (asteroids s) (powerups s) (powerupsCollected s) (ufo s)
     (ufoBullets s) (ufoSpawnTimer s) (ufoSpawnedThisWave s).
Definition set_ship (v : Ship.t) (s : t) : t :=
  mk (mode s) (wave s) (score s) (lives s) (highScore s) (didBeatHighScore s)
     v (bullets s) (asteroids s) (powerups s) (powerupsCollected s) (ufo s)
     (ufoBullets s) (ufoSpawnTimer s) (ufoSpawnedThisWave s).
Definition set_bullets (v : list Bullet.t) (s : t) : t :=
  mk (mode s) (wave s) (score s) (lives s) (highScore s) (didBeatHighScore s)
     (ship s) v (asteroids s) (powerups s) (powerupsCollected s) (ufo s)
     (ufoBullets s) (ufoSpawnTimer s) (ufoSpawnedThisWave s).
Definition set_asteroids (v : list Asteroid.t) (s : t) : t :=
  mk (mode s) (wave s) (score s) (lives s) (highScore s) (didBeatHighScore s)
     (ship s) (bullets s) v (powerups s) (powerupsCollected s) (ufo s)
     (ufoBullets s) (ufoSpawnTimer s) (ufoSpawnedThisWave s).
Definition set_powerups (v : list PowerUp.t) (s : t) : t :=
  mk (mode s) (wave s) (score s) (lives s) (highScore s) (didBeatHighScore s)
     (ship s) (bullets s) (asteroids s) v (powerupsCollected s) (ufo s)
     (ufoBullets s) (ufoSpawnTimer s) (ufoSpawnedThisWave s).
Definition set_powerupsCollected (v : Z) (s : t) : t :=
  mk (mode s) (wave s) (score s) (lives s) (highScore s) (didBeatHighScore s)
     (ship s) (bullets s) (asteroids s) (powerups s) v (ufo s) (ufoBullets s)
     (ufoSpawnTimer s) (ufoSpawnedThisWave s).
Definition set_ufo (v : option Ufo.t) (s : t) : t :=
  mk (mode s) (wave s) (score s) (lives s) (highScore s) (didBeatHighScore s)
     (ship s) (bullets s) (asteroids s) (powerups s) (powerupsCollected s) v
     (ufoBullets s) (ufoSpawnTimer s) (ufoSpawnedThisWave s).
Definition set_ufoBullets (v : list UfoLaser.t) (s : t) : t :=
  mk (mode s) (wave s) (score s) (lives s) (highScore s) (didBeatHighScore s)
     (ship s) (bullets s) (asteroids s) (powerups s) (powerupsCollected s)
     (ufo s) v (ufoSpawnTimer s) (ufoSpawnedThisWave s).
Definition set_ufoSpawnTimer (v : option Q) (s : t) : t :=
  mk (mode s) (wave s) (score s) (lives s) (highScore s) (didBeatHighScore s)
     (ship s) (bullets s) (asteroids s) (powerups s) (powerupsCollected s)
     (ufo s) (ufoBullets s) v (ufoSpawnedThisWave s).
Definition set_ufoSpawnedThisWave (v : bool) (s : t) : t :=
  mk (mode s) (wave s) (score s) (lives s) (highScore s) (didBeatHighScore s)
     (ship s) (bullets s) (asteroids s) (powerups s) (powerupsCollected s)
     (ufo s) (ufoBullets s) (ufoSpawnTimer s) v.
End State.

(** The [Game] object: the run state, the two high-score fields kept beside
    it, and the number of [Math.random] draws made so far. *)
Module Game.
Record t := mk {
  state : State.t;
  highScore : Z;
  _lastPersistedHighScore : Z;
  draws : nat
}.

Definition set_state (s : State.t) (g : t) : t :=
  mk s (highScore g) (_lastPersistedHighScore g) (draws g).
Definition set_highScore (v : Z) (g : t) : t :=
  mk (state g) v (_lastPersistedHighScore g) (draws g).
Definition set_lastPersistedHighScore (v : Z) (g : t) : t :=
  mk (state g) (highScore g) v (draws g).
Definition set_draws (n : nat) (g : t) : t :=
  mk (state g) (highScore g) (_lastPersistedHighScore g) n.

(** A mutation of [this.state] in place. *)
Definition onState (f : State.t -> State.t) (g : t) : t :=
  set_state (f (state g)) g.

(** A mutation of [this.state] that draws random numbers. *)
Definition onStateRand (f : State.t -> Rand State.t) (g : t) : t :=
  let (s, n) := f (state g) (draws g) in set_draws n (set_state s g).
End Game.

(** [arr[i]] for a computed index: [undefined] outside the array. *)
Definition arrayAt {A} (arr : list A) (i : Z) : option A :=
  if (i <? 0)%Z then None else arr !! Z.to_nat i.

(** [for (const o of arr) body(o)] over an array of objects that [body]
    mutates through the store: the objects are visited by index. *)
Definition forEachIndex {St} (len : nat) (body : nat -> St -> St) (s : St) : St :=
  fold_left (fun s i => body i s) (seq 0 len) s.

(** The index and value of the first element [p] accepts. *)
Fixpoint findFrom {A} (p : A -> bool) (i : nat) (l : list A) : option (nat * A) :=
  match l with
  | [] => None
  | a :: l' => if p a then Some (i, a) else findFrom p (S i) l'
  end.
Definition findFirst {A} (p : A -> bool) (l : list A) : option (nat * A) :=
  findFrom p 0 l.

(** ** src/systems/Spawner.js *)

Section Spawner.
Context `{MathLib}.

Definition randomEdgeSpawn (W H margin : Q) : Rand (Q * Q) :=
  let* u := random in
  let edge := Qfloor (u * 4) in
  match edge with
  | 0%Z => let* v := random in ret (- margin, v * H)
  | 1%Z => let* v := random in ret (W + margin, v * H)
  | 2%Z => let* v := random in ret (v * W, - margin)
  | 3%Z => let* v := random in ret (v * W, H + margin)
  | _ => ret (0, 0)
  end.

(** One round of the loop of [spawnWave]. *)
Definition spawnWaveAsteroid (speedMultiplier : Q) : Rand Asteroid.t :=
  let* pos := randomEdgeSpawn CONFIG.CANVAS.W CONFIG.CANVAS.H
                              CONFIG.POWERUP.OFFSCREEN_MARGIN in
  let* u := random in
  let colorVariant := if Qltb u 0.5 then brown else grey in
  Asteroid.new (fst pos) (snd pos) 0 (Some colorVariant) speedMultiplier.

Definition spawnWave (state : State.t) : Rand State.t :=
  let count :=
    (CONFIG.WAVES.START_COUNT + State.wave state * CONFIG.WAVES.GROWTH)%Z in
  let speedMultiplier :=
    1 + inject_Z (State.wave state) * CONFIG.ASTEROID.SPEED_GROWTH_PER_WAVE in
  let* spawned := pushTimes (Z.to_nat count) (spawnWaveAsteroid speedMultiplier) in
  ret (State.set_asteroids (State.asteroids state ++ spawned) state).

Definition shouldSpawnType (rules : CONFIG.POWERUP.Rules) (wave : Z) : Rand bool :=
  match CONFIG.POWERUP.model rules with
  | CONFIG.POWERUP.chance =>
      let chance := Qmax 0 (Qmin 1 (CONFIG.POWERUP.chancePerWave rules)) in
      let* u := random in ret (Qltb u chance)
  | CONFIG.POWERUP.interval =>
      let n := CONFIG.POWERUP.everyNWaves rules in
      if (n <=? 0)%Z then ret false
      else ret (Z.rem wave n =? 0)%Z
  end.

Fixpoint maybeSpawnPowerUpLoop
    (entries : list (CONFIG.POWERUP.Type_ * CONFIG.POWERUP.Rules))
    (state : State.t) : Rand State.t :=
  match entries with
  | [] => ret state
  | (type, rules) :: rest =>
      let* spawn := shouldSpawnType rules (State.wave state) in
      if spawn then
        let* pos := randomEdgeSpawn CONFIG.CANVAS.W CONFIG.CANVAS.H
                                    CONFIG.POWERUP.OFFSCREEN_MARGIN in
        let* pu := PowerUp.new (fst pos) (snd pos) type in
        maybeSpawnPowerUpLoop rest
          (State.set_powerups (State.powerups state ++ [pu]) state)
      else maybeSpawnPowerUpLoop rest state
  end.

Definition maybeSpawnPowerUp (state : State.t) : Rand State.t :=
  maybeSpawnPowerUpLoop CONFIG.POWERUP.types state.
End Spawner.

(** ** src/systems/Collision.js: the two searches *)

(** [findShipAsteroidHit(ship, asteroids)]: the first live asteroid that
    overlaps the ship, as its index in [asteroids] and its value; [None]
    is [null]. *)
Definition findShipAsteroidHit (ship : Ship.t) (asteroids : list Asteroid.t)
    : option (nat * Asteroid.t) :=
  findFirst (fun a => negb (Entity.dead (Asteroid.base a))
                      && circleHit (Ship.base ship) (Asteroid.base a))
            asteroids.

(** The test of the inner loop of [forEachBulletAsteroidHit]: the asteroid
    is live and overlaps the bullet. *)
Definition bulletHits (b : Bullet.t) (a : Asteroid.t) : bool :=
  negb (Entity.dead (Asteroid.base a))
  && circleHit (Bullet.base b) (Asteroid.base a).

(** One round of the outer loop of [forEachBulletAsteroidHit], for the
    bullet at index [bi].  The inner loop stops at the first live asteroid
    the bullet overlaps ([onHit] then [break]); [onHit] gets the two objects
    as their indices. *)
Definition bulletAsteroidRound (onHit : nat -> nat -> Game.t -> Game.t)
    (bi : nat) (g : Game.t) : Game.t :=
  match State.bullets (Game.state g) !! bi with
  | None => g
  | Some b =>
      if Entity.dead (Bullet.base b) then g
      else
        match findFirst (bulletHits b) (State.asteroids (Game.state g)) with
        | Some (ai, _) => onHit bi ai g
        | None => g
        end
  end.

(** [forEachBulletAsteroidHit(S.bullets, S.asteroids, onHit)] *)
Definition forEachBulletAsteroidHit (onHit : nat -> nat -> Game.t -> Game.t)
    (g : Game.t) : Game.t :=
  forEachIndex (length (State.bullets (Game.state g)))
               (bulletAsteroidRound onHit) g.

(** ** src/core/Game.js: the methods *)

Section GameMethods.
Context `{MathLib}.

Definition createInitialState (g : Game.t) : State.t :=
  let ship :=
    Ship.resetSpeedLevel
      (Ship.new (CONFIG.CANVAS.W / 2) (CONFIG.CANVAS.H / 2) false) in
  {| State.mode := MENU;
     State.wave := 0;
     State.score := 0;
     State.lives := CONFIG.SHIP.LIVES;
     State.highScore := Game.highScore g;
     State.didBeatHighScore := false;
     State.ship := ship;
     State.bullets := [];
     State.asteroids := [];
     State.powerups := [];
     State.powerupsCollected := 0;
     State.ufo := None;
     State.ufoBullets := [];
     State.ufoSpawnTimer := None;
     State.ufoSpawnedThisWave := false |}.

Definition getUfoSpawnDelayForWave (wave : Z) : option Q :=
  let start := CONFIG.UFO.SPAWN_TIMER.START in
  let decrement := CONFIG.UFO.SPAWN_TIMER.DECREMENT_PER_WAVE in
  let min := CONFIG.UFO.SPAWN_TIMER.MIN in
  let delay := start - inject_Z wave * decrement in
  Some (Qmax min delay).

Definition resetUfoStateForWave (g : Game.t) : Game.t :=
  Game.onState (fun S =>
    let S := State.set_ufo None S in
    let S := State.set_ufoBullets [] S in
    let S := State.set_ufoSpawnedThisWave false S in
    State.set_ufoSpawnTimer (getUfoSpawnDelayForWave (State.wave S)) S) g.

Definition spawnUfoForCurrentWave (S : State.t) : Rand State.t :=
  let sprites := CONFIG.UFO.SPRITES in
  let* spriteKey :=
    if (length sprites =? 0)%nat then ret None
    else let* u := random in
         ret (arrayAt sprites (Qfloor (u * inject_Z (Z.of_nat (length sprites))))) in
  let margin := CONFIG.UFO.OFFSCREEN_MARGIN in
  let speed := CONFIG.UFO.SPEED in
  let W := CONFIG.CANVAS.W in
  let H := CONFIG.CANVAS.H in
  let* uh := random in
  let horizontal := Qltb uh 0.5 in
  let* ufo :=
    if horizontal then
      let* uy := random in
      let* ul := random in
      let fromLeft := Qltb ul 0.5 in
      ret (Ufo.new (if fromLeft then - margin else W + margin) (uy * H)
                   (if fromLeft then speed else - speed) 0 spriteKey)
    else
      let* ux := random in
      let* ut := random in
      let fromTop := Qltb ut 0.5 in
      ret (Ufo.new (ux * W) (if fromTop then - margin else H + margin)
                   0 (if fromTop then speed else - speed) spriteKey) in
  let S := State.set_ufo (Some ufo) S in
  let S := State.set_ufoSpawnedThisWave true S in
  ret (State.set_ufoSpawnTimer None S).

(** The callback [_loadHighScoreAsync] hands to [loadHighScore().then]:
    what the game does when the persistence store answers.  [storedScore]
    is the answer, [None] for [null]; a stored score is a counter like the
    score itself.  The constructor starts the request and the answer comes
    at any later time, also between two ticks of a run. *)
Definition _loadHighScoreAsync (storedScore : option Z) (g : Game.t) : Game.t :=
  match storedScore with
  | Some storedScore =>
      if (0 <=? storedScore)%Z then
        let g := Game.set_highScore storedScore g in
        let g := Game.set_lastPersistedHighScore storedScore g in
        Game.onState (State.set_highScore storedScore) g
      else g
  | None => g
  end.

Definition updateHighScore (score : Z) (g : Game.t) : Game.t :=
  if (score <=? Game.highScore g)%Z then g
  else
    let g := Game.set_highScore score g in
    let g := Game.onState (fun S =>
               State.set_didBeatHighScore true (State.set_highScore score S)) g in
    if (Game._lastPersistedHighScore g <? score)%Z
    then Game.set_lastPersistedHighScore score g
    else g.

(** [S.score += n; this.updateHighScore(S.score)] *)
Definition addScore (n : Z) (g : Game.t) : Game.t :=
  let g := Game.onState (fun S => State.set_score (State.score S + n) S) g in
  updateHighScore (State.score (Game.state g)) g.

Definition startGame (g : Game.t) : Game.t :=
  if negb (Mode_eqb (State.mode (Game.state g)) MENU) then g
  else
    let g := Game.onState (fun S =>
      let S := State.set_mode PLAY S in
      let S := State.set_wave 0 S in
      let S := State.set_score 0 S in
      let S := State.set_lives CONFIG.SHIP.LIVES S in
      let S := State.set_highScore (Game.highScore g) S in
      let S := State.set_didBeatHighScore false S in
      let S := State.set_ship
                 (Ship.resetSpeedLevel
                    (Ship.new (CONFIG.CANVAS.W / 2) (CONFIG.CANVAS.H / 2) false)) S in
      let S := State.set_bullets [] S in
      State.set_asteroids [] S) g in
    let g := Game.onStateRand spawnWave g in
    let g := Game.onStateRand maybeSpawnPowerUp g in
    resetUfoStateForWave g.

Definition reset (g : Game.t) : Game.t :=
  let g := Game.set_state (createInitialState g) g in
  let g := Game.onState (State.set_mode PLAY) g in
  let g := Game.onStateRand spawnWave g in
  let g := Game.onStateRand maybeSpawnPowerUp g in
  resetUfoStateForWave g.

Definition returnToMenu (g : Game.t) : Game.t :=
  Game.set_state (createInitialState g) g.

(** The score of an asteroid of tier [idx], as both collision handlers
    compute it: [idx === 2 ? SMALL : idx === 1 ? MED : LARGE]. *)
Definition scoreForSize (idx : nat) : Z :=
  if (idx =? 2)%nat then CONFIG.SCORE.SMALL
  else if (idx =? 1)%nat then CONFIG.SCORE.MED
  else CONFIG.SCORE.LARGE.

(** The closure [damageShip] of [update].  [onShieldAbsorb] is the
    optional callback, [scoreBonus] defaults to 0 at the calls that leave
    it out.  The result is the closure's return value and the game after
    the call. *)
Definition damageShip (onShieldAbsorb : option (Game.t -> Game.t))
    (scoreBonus : Z) (g : Game.t) : bool * Game.t :=
  if (0 <? Ship.shieldLevel (State.ship (Game.state g)))%Z then
    let g := match onShieldAbsorb with Some f => f g | None => g end in
    let g := if negb (scoreBonus =? 0)%Z then addScore scoreBonus g else g in
    let g := Game.onState (fun S =>
      let ship := snd (Ship.decreaseShieldLevel (State.ship S)) in
      let ship := Ship.set_invuln CONFIG.SHIP.SHIELD_HIT_INVULN ship in
      State.set_ship (Ship.resetInvulnBlink ship) S) g in
    (true, g)
  else
    let g := Game.onState (fun S => State.set_lives (State.lives S - 1) S) g in
    if (State.lives (Game.state g) <=? 0)%Z then
      let g := Game.onState (State.set_mode GAME_OVER) g in
      (false, updateHighScore (State.score (Game.state g)) g)
    else
      let g := Game.onState (State.set_ship
                 (Ship.resetSpeedLevel
                    (Ship.new (CONFIG.CANVAS.W / 2) (CONFIG.CANVAS.H / 2) true))) g in
      (true, g).

(** The callback [_handleBulletCollisions] gives [forEachBulletAsteroidHit]:
    bullet [bi] hit asteroid [ai]. *)
Definition onBulletHitsAsteroid (bi ai : nat) (g : Game.t) : Game.t :=
  match State.asteroids (Game.state g) !! ai with
  | None => g
  | Some a =>
      let g := Game.onState (fun S =>
        let S := State.set_bullets
                   (alter Bullet.kill bi (State.bullets S)) S in
        State.set_asteroids (alter Asteroid.kill ai (State.asteroids S)) S) g in
      let g := addScore (scoreForSize (Asteroid.sizeIndex a)) g in
      Game.onStateRand (fun S =>
        let* parts := Asteroid.split (Asteroid.kill a) in
        ret (State.set_asteroids (State.asteroids S ++ parts) S)) g
  end.

(** One round of the second loop of [_handleBulletCollisions]. *)
Definition bulletUfoRound (bi : nat) (g : Game.t) : Game.t :=
  let S := Game.state g in
  match State.bullets S !! bi with
  | None => g
  | Some b =>
      if Entity.dead (Bullet.base b) then g
      else
        match State.ufo S with
        | Some u =>
            if negb (Entity.dead (Ufo.base u))
               && circleHit (Bullet.base b) (Ufo.base u) then
              let g := Game.onState (fun S =>
                State.set_bullets
                  (alter Bullet.kill bi (State.bullets S)) S) g in
              let (destroyed, u') := Ufo.takeHit u in
              let g := Game.onState (State.set_ufo (Some u')) g in
              if destroyed then
                let g := addScore CONFIG.UFO.SCORE_VALUE g in
                Game.onState (State.set_ufo None) g
              else g
            else g
        | None => g
        end
  end.

Definition _handleBulletCollisions (g : Game.t) : Game.t :=
  let g := forEachBulletAsteroidHit onBulletHitsAsteroid g in
  forEachIndex (length (State.bullets (Game.state g))) bulletUfoRound g.
End GameMethods.

Section GameUpdate.
Context `{MathLib}.

(** The arrow function [_handleShipHazardCollisions] passes to [damageShip]
    as [onShieldAbsorb], closed over the asteroid found, here the one at
    index [ai]: [hitAsteroid.dead = true] (and an audio cue). *)
Definition markHitAsteroidDead (ai : nat) (g : Game.t) : Game.t :=
  Game.onState (fun S =>
    State.set_asteroids (alter Asteroid.kill ai (State.asteroids S)) S) g.

(** [_handleShipHazardCollisions(damageShip)]: the method's return value
    (whether the ship survived) and the game after it. *)
Definition _handleShipHazardCollisions (g : Game.t) : bool * Game.t :=
  let S := Game.state g in
  (* ship x asteroid *)
  let '(goOn, g) :=
    match findShipAsteroidHit (State.ship S) (State.asteroids S) with
    | Some (ai, hitAsteroid) =>
        let scoreBonus := scoreForSize (Asteroid.sizeIndex hitAsteroid) in
        let onShieldAbsorb := markHitAsteroidDead ai in
        let '(survived, g) := damageShip (Some onShieldAbsorb) scoreBonus g in
        (survived && negb (Mode_eqb (State.mode (Game.state g)) GAME_OVER), g)
    | None => (true, g)
    end in
  if negb goOn then (false, g)
  else if Mode_eqb (State.mode (Game.state g)) GAME_OVER then (false, g)
  else if Qleb (Ship.invuln (State.ship (Game.state g))) 0 then
    (* ship x enemy craft *)
    let '(goOn, g) :=
      match State.ufo (Game.state g) with
      | Some u =>
          if negb (Entity.dead (Ufo.base u))
             && circleHit (Ship.base (State.ship (Game.state g))) (Ufo.base u)
          then
            let '(survived, g) := damageShip None 0 g in
            (survived && negb (Mode_eqb (State.mode (Game.state g)) GAME_OVER), g)
          else (true, g)
      | None => (true, g)
      end in
    if negb goOn then (false, g)
    else if Qleb (Ship.invuln (State.ship (Game.state g))) 0 then
      (* ship x enemy projectile: the loop acts on the first live laser
         that overlaps the ship, then breaks or returns *)
      let ship := State.ship (Game.state g) in
      match findFirst (fun laser =>
                         negb (Entity.dead (UfoLaser.base laser))
                         && circleHit (Ship.base ship) (UfoLaser.base laser)
                         && negb (Qltb 0 (Ship.invuln ship)))
                      (State.ufoBullets (Game.state g)) with
      | Some (li, _) =>
          let g := Game.onState (fun S' =>
            State.set_ufoBullets
              (alter UfoLaser.kill li (State.ufoBullets S')) S') g in
          let '(survived, g) := damageShip None 0 g in
          if negb survived || Mode_eqb (State.mode (Game.state g)) GAME_OVER
          then (false, g) else (true, g)
      | None => (true, g)
      end
    else (true, g)
  else (true, g).

(** The effect of picking up the power-up [type]. *)
Definition applyPowerUp (type : CONFIG.POWERUP.Type_) (g : Game.t) : Game.t :=
  let S := Game.state g in
  let ship := State.ship S in
  match type with
  | CONFIG.POWERUP.tripleShot =>
      match Ship.weaponMode ship with
      | CONFIG.WEAPON.MODE_FIVE =>
          addScore (CONFIG.POWERUP.duplicateScoreOf CONFIG.POWERUP.tripleShot) g
      | CONFIG.WEAPON.MODE_TRIPLE =>
          Game.onState (State.set_ship
            (Ship.set_weaponMode CONFIG.WEAPON.MODE_FIVE ship)) g
      | CONFIG.WEAPON.MODE_SINGLE =>
          Game.onState (State.set_ship
            (Ship.set_weaponMode CONFIG.WEAPON.MODE_TRIPLE ship)) g
      end
  | CONFIG.POWERUP.extraLife =>
      let maxLives := CONFIG.SHIP.MAX_LIVES in
      if (State.lives S <? maxLives)%Z then
        Game.onState (State.set_lives (Z.min maxLives (State.lives S + 1))) g
      else addScore (CONFIG.POWERUP.duplicateScoreOf CONFIG.POWERUP.extraLife) g
  | CONFIG.POWERUP.shield =>
      let maxShield := CONFIG.SHIP.SHIELD_MAX_LEVEL in
      if (Ship.shieldLevel ship <? maxShield)%Z then
        let (raised, ship') := Ship.increaseShieldLevel ship in
        let g := Game.onState (State.set_ship ship') g in
        if raised then g
        else addScore (CONFIG.POWERUP.duplicateScoreOf CONFIG.POWERUP.shield) g
      else addScore (CONFIG.POWERUP.duplicateScoreOf CONFIG.POWERUP.shield) g
  | CONFIG.POWERUP.speed =>
      let (raised, ship') := Ship.increaseSpeedLevel ship in
      let g := Game.onState (State.set_ship ship') g in
      if raised then g
      else addScore (CONFIG.POWERUP.duplicateScoreOf CONFIG.POWERUP.speed) g
  end.

(** One round of the loop of [_handlePowerupCollisions]. *)
Definition powerupRound (pi : nat) (g : Game.t) : Game.t :=
  let S := Game.state g in
  match State.powerups S !! pi with
  | None => g
  | Some pu =>
      if negb (Entity.dead (PowerUp.base pu))
         && circleHit (Ship.base (State.ship S)) (PowerUp.base pu) then
        let g := Game.onState (fun S' =>
          let S' := State.set_powerups
                      (alter PowerUp.kill pi (State.powerups S')) S' in
          State.set_powerupsCollected (State.powerupsCollected S' + 1) S') g in
        applyPowerUp (PowerUp.type pu) g
      else g
  end.

Definition _handlePowerupCollisions (g : Game.t) : Game.t :=
  forEachIndex (length (State.powerups (Game.state g))) powerupRound g.

(** [update], PLAY branch, from the ship's update to the wrap of every
    entity (the statements between the [damageShip] closure and the call
    of [_handleBulletCollisions]). *)
Definition updateEntities (dt : Q) (input : Input.t) (g : Game.t) : Game.t :=
  (* ship controls and movement *)
  let g := Game.onState (fun S =>
             State.set_ship (Ship.update dt input (State.ship S)) S) g in
  (* shooting *)
  let g :=
    if (Input.isDown input "Space" || Input.pressed input "KeyJ")
       && Ship.canFire (State.ship (Game.state g)) then
      Game.onState (fun S =>
        let (bullets, ship') := Ship.fire (State.ship S) in
        State.set_bullets (State.bullets S ++ bullets) (State.set_ship ship' S)) g
    else g in
  (* entity-local updates *)
  let g := Game.onState (fun S =>
    let S := State.set_bullets (map (Bullet.update dt) (State.bullets S)) S in
    let S := State.set_asteroids (map (Asteroid.update dt) (State.asteroids S)) S in
    State.set_powerups (map (PowerUp.update dt) (State.powerups S)) S) g in
  (* enemy craft timer *)
  let g :=
    let S := Game.state g in
    match State.ufo S, State.ufoSpawnedThisWave S, State.ufoSpawnTimer S with
    | None, false, Some timer =>
        let timer' := Qmax 0 (timer - dt) in
        let g := Game.onState (State.set_ufoSpawnTimer (Some timer')) g in
        if Qleb timer' 0 then Game.onStateRand spawnUfoForCurrentWave g else g
    | _, _, _ => g
    end in
  (* enemy craft behaviour *)
  let g :=
    match State.ufo (Game.state g) with
    | Some u =>
        let (lasers, u') := Ufo.update dt (Ship.base (State.ship (Game.state g))) u in
        Game.onState (fun S =>
          let S := State.set_ufo (Some u') S in
          let S := if (0 <? length lasers)%nat
                   then State.set_ufoBullets (State.ufoBullets S ++ lasers) S
                   else S in
          if Entity.dead (Ufo.base u') then State.set_ufo None S else S) g
    | None => g
    end in
  (* enemy projectiles *)
  let g := Game.onState (fun S =>
    State.set_ufoBullets (map (UfoLaser.update dt) (State.ufoBullets S)) S) g in
  (* wrap *)
  Game.onState (fun S =>
    let S := State.set_ship
               (Ship.set_base (integrateAndWrap (Ship.base (State.ship S)))
                              (State.ship S)) S in
    let S := State.set_bullets
               (map (fun b => Bullet.set_base (integrateAndWrap (Bullet.base b)) b)
                    (State.bullets S)) S in
    let S := State.set_asteroids
               (map (fun a => Asteroid.set_base (integrateAndWrap (Asteroid.base a)) a)
                    (State.asteroids S)) S in
    State.set_powerups
      (map (fun p => PowerUp.set_base (integrateAndWrap (PowerUp.base p)) p)
           (State.powerups S)) S) g.

(** The collision phase of the PLAY branch, up to the point where
    [update] either returns early or goes on to the cleanup: the game, and
    whether [update] goes on. *)
Definition resolveCollisions (g : Game.t) : bool * Game.t :=
  let g := _handleBulletCollisions g in
  if Mode_eqb (State.mode (Game.state g)) GAME_OVER then (false, g)
  else
    let '(goOn, g) :=
      if Qleb (Ship.invuln (State.ship (Game.state g))) 0 then
        let '(shipSurvived, g) := _handleShipHazardCollisions g in
        (shipSurvived && negb (Mode_eqb (State.mode (Game.state g)) GAME_OVER), g)
      else (true, g) in
    if negb goOn then (false, g)
    else
      let g := _handlePowerupCollisions g in
      (true, updateHighScore (State.score (Game.state g)) g).

(** The cleanup: dead entities leave the arrays. *)
Definition cleanup (g : Game.t) : Game.t :=
  Game.onState (fun S =>
    let S := State.set_bullets
               (filter (fun b => negb (Entity.dead (Bullet.base b)) = true)
                       (State.bullets S)) S in
    let S := State.set_asteroids
               (filter (fun a => negb (Entity.dead (Asteroid.base a)) = true)
                       (State.asteroids S)) S in
    let S := State.set_powerups
               (filter (fun p => negb (Entity.dead (PowerUp.base p)) = true)
                       (State.powerups S)) S in
    State.set_ufoBullets
      (filter (fun l => negb (Entity.dead (UfoLaser.base l)) = true)
              (State.ufoBullets S)) S) g.

(** The progression block that ends [update]: the next wave once every
    asteroid is cleared. *)
Definition nextWaveCheck (g : Game.t) : Game.t :=
  let S := Game.state g in
  if (length (State.asteroids S) =? 0)%nat && Mode_eqb (State.mode S) PLAY then
    let g := Game.onState (fun S => State.set_wave (State.wave S + 1) S) g in
    let g := Game.onStateRand spawnWave g in
    let g := Game.onStateRand maybeSpawnPowerUp g in
    resetUfoStateForWave g
  else g.

Definition update (dt : Q) (input : Input.t) (g : Game.t) : Game.t :=
  match State.mode (Game.state g) with
  | MENU =>
      if Input.pressed input "Enter" || Input.pressed input "Space"
      then startGame g else g
  | GAME_OVER =>
      if Input.pressed input "Enter" then reset g else g
  | PLAY =>
      let g := updateEntities dt input g in
      let '(goOn, g) := resolveCollisions g in
      if negb goOn then g
      else nextWaveCheck (cleanup g)
  end.
End GameUpdate.

(** ** src/core/Input.js: the two listeners *)

(** [set.add(code)] and [set.delete(code)] on a [Set] of key codes, kept
    as the list of its members in insertion order. *)
Definition setAdd (code : string) (set : list string) : list string :=
  if Input.has code set then set else set ++ [code].

Definition setDelete (code : string) (set : list string) : list string :=
  List.filter (fun c => negb (String.eqb code c)) set.

(** The [keydown] listener, for the event's [code]. *)
Definition keydown (code : string) (i : Input.t) : Input.t :=
  {| Input.keys := setAdd code (Input.keys i);
     Input.justPressed :=
       if negb (Input.has code (Input.keys i))
       then setAdd code (Input.justPressed i)
       else Input.justPressed i;
     Input.justReleased := Input.justReleased i |}.

(** The [keyup] listener. *)
Definition keyup (code : string) (i : Input.t) : Input.t :=
  {| Input.keys := setDelete code (Input.keys i);
     Input.justPressed := Input.justPressed i;
     Input.justReleased := setAdd code (Input.justReleased i) |}.

(** ** src/core/Game.js: the frame callback *)

(** The fields of the [Game] object that [loop] works on besides the
    game itself: the input handler and the two timing fields. *)
Module GameLoop.
Record t := mk {
  game : Game.t;
  input : Input.t;
  (** previous frame timestamp, in seconds; 0 before the first frame *)
  lastTime : Q;
  accum : Q
}.
End GameLoop.

(** [this.fixedDt], set once by the constructor. *)
Definition fixedDt : Q := 1 / 120.

Section Loop.
Context `{MathLib}.

(** [while (this.accum >= this.fixedDt) { this.update(this.fixedDt);
    this.accum -= this.fixedDt; this.input.postUpdate(); }], run for at
    most [fuel] rounds. *)
Fixpoint loopWhile (fuel : nat) (g : Game.t) (input : Input.t) (accum : Q)
    : Game.t * Input.t * Q :=
  match fuel with
  | O => (g, input, accum)
  | S fuel' =>
      if Qleb fixedDt accum
      then loopWhile fuel' (update fixedDt input g) (Input.postUpdate input)
                     (accum - fixedDt)
      else (g, input, accum)
  end.

(** The rounds the loop makes from [accum]: enough fuel for it to leave by
    its own test. *)
Definition loopRounds (accum : Q) : nat :=
  Z.to_nat (Qfloor (accum / fixedDt)).

(** [loop(t)], up to the rendering: [t] is the frame timestamp in
    milliseconds. *)
Definition loop (t : Q) (L : GameLoop.t) : GameLoop.t :=
  let time := t * 0.001 in
  let dt :=
    Qmin 0.1
         (time - (if Qeq_bool (GameLoop.lastTime L) 0 then time
                  else GameLoop.lastTime L)) in
  let accum := GameLoop.accum L + dt in
  let '(g, input, accum') :=
    loopWhile (loopRounds accum) (GameLoop.game L) (GameLoop.input L) accum in
  {| GameLoop.game := g; GameLoop.input := input;
     GameLoop.lastTime := time; GameLoop.accum := accum' |}.
End Loop.

(** ** src/core/Game.js: the pointer and the mute button *)

(** What [getBoundingClientRect()] returns of the canvas, and the fields of
    a pointer event the game reads. *)
Module ClientRect.
Record t := mk { left : Q; top : Q; width : Q; height : Q }.
End ClientRect.

Module PointerEvent.
Record t := mk { clientX : Q; clientY : Q }.
End PointerEvent.

(** [this.muteButtonBounds], as [_setupMuteButtonBounds] sets it. *)
Module Bounds.
Record t := mk { x : Q; y : Q; width : Q; height : Q }.
End Bounds.

Definition _setupMuteButtonBounds : Bounds.t :=
  let muteButtonWidth := 68 in
  let muteButtonHeight := 48 in
  let muteButtonPadding := 16 in
  {| Bounds.x := CONFIG.CANVAS.W - muteButtonPadding - muteButtonWidth;
     Bounds.y := muteButtonPadding;
     Bounds.width := muteButtonWidth;
     Bounds.height := muteButtonHeight |}.

(** [translatePointerToCanvas(event)]: [rect] is what the canvas reports,
    [None] when there is no canvas or no rectangle; the result [None] is
    [null]. *)
Definition translatePointerToCanvas (rect : option ClientRect.t)
    (event : PointerEvent.t) : option (Q * Q) :=
  match rect with
  | None => None
  | Some rect =>
      if Qeq_bool (ClientRect.width rect) 0 || Qeq_bool (ClientRect.height rect) 0
      then None
      else
        let scaleX := CONFIG.CANVAS.W / ClientRect.width rect in
        let scaleY := CONFIG.CANVAS.H / ClientRect.height rect in
        Some ((PointerEvent.clientX event - ClientRect.left rect) * scaleX,
              (PointerEvent.clientY event - ClientRect.top rect) * scaleY)
  end.

(** [isPointInMuteButton(point)], with [this.muteButtonBounds] as
    [bounds]. *)
Definition isPointInMuteButton (bounds : option Bounds.t)
    (point : option (Q * Q)) : bool :=
  match point, bounds with
  | Some (px, py), Some b =>
      Qleb (Bounds.x b) px && Qleb px (Bounds.x b + Bounds.width b)
      && Qleb (Bounds.y b) py && Qleb py (Bounds.y b + Bounds.height b)
  | _, _ => false
  end.

(** * The vocabulary of the statements *)

(** The part of the game the progression claims are about. *)
Definition stateProgress (S : State.t) : Mode * Z * Z * Z * Z :=
  (State.mode S, State.wave S, State.score S, State.lives S, State.highScore S).

Definition progress (g : Game.t) : (Mode * Z * Z * Z * Z) * Z :=
  (stateProgress (Game.state g), Game.highScore g).

(** [g'] comes from [g] by steps that keep the wave, never lower the score,
    and move the high score only up and only as far as the score. *)
Definition scoredFrom (g g' : Game.t) : Prop :=
  State.wave (Game.state g') = State.wave (Game.state g)
  /\ (State.score (Game.state g) <= State.score (Game.state g'))%Z
  /\ (Game.highScore g <= Game.highScore g')%Z
  /\ (Game.highScore g' <= Z.max (Game.highScore g) (State.score (Game.state g')))%Z
  /\ (State.highScore (Game.state g) = Game.highScore g ->
      State.highScore (Game.state g') = Game.highScore g').

(** What [damageShip] needs of the callback it is given: it leaves the
    ship and the progress of the run alone (the one callback of the
    program marks an asteroid dead). *)
Definition absorbCallbackOk (onShieldAbsorb : option (Game.t -> Game.t)) : Prop :=
  match onShieldAbsorb with
  | None => True
  | Some f => forall g, progress (f g) = progress g
                        /\ State.ship (Game.state (f g)) = State.ship (Game.state g)
  end.

(** The ship [damageShip] puts in place of a destroyed one. *)
Definition freshShip `{MathLib} : Ship.t :=
  Ship.resetSpeedLevel (Ship.new (CONFIG.CANVAS.W / 2) (CONFIG.CANVAS.H / 2) true).

(** How many elements of [l] satisfy [p]. *)
Definition countIf {A} (p : A -> bool) (l : list A) : nat :=
  length (List.filter p l).

Definition asteroidDead (a : Asteroid.t) : bool := Entity.dead (Asteroid.base a).

Definition bulletLive (b : Bullet.t) : bool := negb (Entity.dead (Bullet.base b)).

(** Dead asteroids plus live bullets: a round keeps the sum. *)
Definition hitPotential (g : Game.t) : nat :=
  (countIf asteroidDead (State.asteroids (Game.state g))
   + countIf bulletLive (State.bullets (Game.state g)))%nat.

(** The sum of the weights [w] of the elements of [l]. *)
Definition sumOver {A} (w : A -> Z) (l : list A) : Z :=
  fold_right (fun a acc => (w a + acc)%Z) 0%Z l.

(** The total tier score of the dead asteroids of [l]. *)
Definition deadValue (l : list Asteroid.t) : Z :=
  sumOver (fun a => if asteroidDead a then scoreForSize (Asteroid.sizeIndex a)
                    else 0%Z) l.

(** The number of children the dead asteroids of [l] are due: [SPLIT_COUNT]
    for each one above the smallest tier. *)
Definition splitDue (l : list Asteroid.t) : Z :=
  sumOver (fun a => if asteroidDead a
                    then if (length CONFIG.ASTEROID.SIZES <=? Asteroid.sizeIndex a + 1)%nat
                         then 0%Z else Z.of_nat CONFIG.ASTEROID.SPLIT_COUNT
                    else 0%Z) l.

(** [g'] comes from [g] by rounds of bullets against asteroids: every
    bullet and every asteroid of [g] is in its place, as it was or marked
    dead; one asteroid died for each bullet that did; the score rose by
    the tier scores of the asteroids that died; and the collection grew by
    the children they were due. *)
Definition markedFrom (g g' : Game.t) : Prop :=
  length (State.bullets (Game.state g')) = length (State.bullets (Game.state g))
  /\ (forall i b, State.bullets (Game.state g) !! i = Some b ->
        State.bullets (Game.state g') !! i = Some b
        \/ State.bullets (Game.state g') !! i = Some (Bullet.kill b))
  /\ (forall j a, State.asteroids (Game.state g) !! j = Some a ->
        State.asteroids (Game.state g') !! j = Some a
        \/ State.asteroids (Game.state g') !! j = Some (Asteroid.kill a))
  /\ hitPotential g' = hitPotential g
  /\ (State.score (Game.state g') - deadValue (State.asteroids (Game.state g'))
      = State.score (Game.state g) - deadValue (State.asteroids (Game.state g)))%Z
  /\ (Z.of_nat (length (State.asteroids (Game.state g')))
      - splitDue (State.asteroids (Game.state g'))
      = Z.of_nat (length (State.asteroids (Game.state g)))
        - splitDue (State.asteroids (Game.state g)))%Z.

(** A scoring step that also keeps the mode. *)
Definition playStep (g g' : Game.t) : Prop :=
  scoredFrom g g' /\ State.mode (Game.state g') = State.mode (Game.state g).

(** What a call of [damageShip] in PLAY leaves: a scoring step; the mode
    still PLAY when it returns [true]; the run over and the high score
    caught up with the score when it returns [false]. *)
Definition damagePost (g : Game.t) (r : bool * Game.t) : Prop :=
  scoredFrom g (snd r)
  /\ (fst r = true -> State.mode (Game.state (snd r)) = PLAY)
  /\ (fst r = false ->
      State.mode (Game.state (snd r)) = GAME_OVER
      /\ (State.score (Game.state (snd r)) <= Game.highScore (snd r))%Z).

(** What happens to the game during a run: the fixed-step loop calls
    [update], or the persistence store answers the request the constructor
    made. *)
Inductive Event :=
| Tick (dt : Q) (input : Input.t)
| StoreAnswer (storedScore : option Z).

Definition isTick (e : Event) : bool :=
  match e with Tick _ _ => true | StoreAnswer _ => false end.

Definition step `{MathLib} (e : Event) (g : Game.t) : Game.t :=
  match e with
  | Tick dt input => update dt input g
  | StoreAnswer storedScore => _loadHighScoreAsync storedScore g
  end.

(** The games a run shows after each of its events, for as long as the
    mode is PLAY. *)
Fixpoint run `{MathLib} (events : list Event) (g : Game.t) : list Game.t :=
  match events with
  | [] => []
  | e :: rest =>
      match State.mode (Game.state g) with
      | PLAY => let g' := step e g in g' :: run rest g'
      | _ => []
      end
  end.

(** The highest score among the game [g] a run starts from and the games
    [seen] after its events. *)
Definition maxScoreSeen (g : Game.t) (seen : list Game.t) : Z :=
  fold_right Z.max (State.score (Game.state g))
             (map (fun g' => State.score (Game.state g')) seen).

(** The high score by the amended C5, from the scores of the games [seen]
    after the [events]: it starts as [h]; a tick raises it to the score the
    tick leaves, if that is larger; an answer of the store that is a number
    [>= 0] replaces it by that number. *)
Fixpoint highScoreAfter (h : Z) (events : list Event) (seen : list Game.t) : Z :=
  match events, seen with
  | Tick _ _ :: events', g' :: seen' =>
      highScoreAfter (Z.max h (State.score (Game.state g'))) events' seen'
  | StoreAnswer (Some storedScore) :: events', _ :: seen' =>
      highScoreAfter (if (0 <=? storedScore)%Z then storedScore else h) events' seen'
  | StoreAnswer None :: events', _ :: seen' => highScoreAfter h events' seen'
  | _, _ => h
  end.

(** * Concrete inputs *)

(** ** A concrete [Math] object

    Rational stand-ins, used only where a lemma evaluates the model on a
    concrete input: [PI] is 355/113, [cos] and [sin] are their Taylor
    polynomials of degree two and one, [hypot] is the sum of the absolute
    values, [atan2] is 0, and [Math.random] cycles through eight numbers
    of the interval from 0 to 1. *)
Definition sampleRandom (n : nat) : Q :=
  default 0.5 ([0.1; 0.6; 0.3; 0.8; 0.45; 0.9; 0.2; 0.7] !! (n mod 8)%nat).

Definition sampleMath : MathLib :=
  {| Math_PI := 355 / 113;
     Math_cos := fun a => 1 - a * a / 2;
     Math_sin := fun a => a;
     Math_hypot := fun a b => Qabs a + Qabs b;
     Math_atan2 := fun _ _ => 0;
     Math_random := sampleRandom |}.

Definition sampleLarge : Asteroid.t :=
  {| Asteroid.base := Entity.new 100 200 42; Asteroid.sizeIndex := 0;
     Asteroid.colorVariant := grey; Asteroid.speedMultiplier := 1.2;
     Asteroid.spin := 0.5; Asteroid.angle := 0 |}.

Definition sampleSmall : Asteroid.t :=
  {| Asteroid.base := Entity.new 300 50 18; Asteroid.sizeIndex := 2;
     Asteroid.colorVariant := brown; Asteroid.speedMultiplier := 1;
     Asteroid.spin := 0.25; Asteroid.angle := 0 |}.

Definition noInput : Input.t := Input.mk [] [] [].

(** The game as the constructor leaves it, with the high score [hs] loaded
    from the persistence store. *)
Definition bootGame `{MathLib} (hs : Z) : Game.t :=
  let blank :=
    {| Game.state :=
         {| State.mode := MENU; State.wave := 0; State.score := 0;
            State.lives := CONFIG.SHIP.LIVES; State.highScore := hs;
            State.didBeatHighScore := false;
            State.ship := Ship.new 0 0 false;
            State.bullets := []; State.asteroids := []; State.powerups := [];
            State.powerupsCollected := 0; State.ufo := None;
            State.ufoBullets := []; State.ufoSpawnTimer := None;
            State.ufoSpawnedThisWave := false |};
       Game.highScore := hs;
       Game._lastPersistedHighScore := hs;
       Game.draws := 0 |} in
  Game.set_state (createInitialState blank) blank.

Definition sampleShip : Ship.t := @Ship.new sampleMath 480 270 false.

(** The ship after one shield pick-up. *)
Definition shieldedShip : Ship.t := snd (Ship.increaseShieldLevel sampleShip).

(** An asteroid of tier [tier] at rest at [(x0, y0)]. *)
Definition rockAt (x0 y0 : Q) (tier : nat) : Asteroid.t :=
  {| Asteroid.base := Entity.new x0 y0 (default 0 (CONFIG.ASTEROID.SIZES !! tier));
     Asteroid.sizeIndex := tier;
     Asteroid.colorVariant := grey;
     Asteroid.speedMultiplier := 1;
     Asteroid.spin := 0;
     Asteroid.angle := 0 |}.

(** A game in PLAY at wave 0 with score 0, the stored high score [hs] and
    the given lives, ship, bullets and asteroids. *)
Definition sampleGame (hs lives : Z) (ship : Ship.t) (bullets : list Bullet.t)
    (asteroids : list Asteroid.t) : Game.t :=
  {| Game.state :=
       {| State.mode := PLAY; State.wave := 0; State.score := 0;
          State.lives := lives; State.highScore := hs;
          State.didBeatHighScore := false;
          State.ship := ship; State.bullets := bullets;
          State.asteroids := asteroids; State.powerups := [];
          State.powerupsCollected := 0; State.ufo := None;
          State.ufoBullets := []; State.ufoSpawnTimer := Some 30;
          State.ufoSpawnedThisWave := false |};
     Game.highScore := hs;
     Game._lastPersistedHighScore := hs;
     Game.draws := 0 |}.

(** The shielded ship sits on a large asteroid; a second one is far off. *)
Definition rammedGame : Game.t :=
  sampleGame 0 3 shieldedShip [] [rockAt 480 270 0; rockAt 100 100 0].

(** The unshielded ship sits on a large asteroid, with three lives and
    with one. *)
Definition hitGame : Game.t :=
  sampleGame 0 3 sampleShip [] [rockAt 480 270 0; rockAt 100 100 0].

Definition lastLifeGame : Game.t :=
  sampleGame 0 1 sampleShip [] [rockAt 480 270 0; rockAt 100 100 0].

(** A bullet overlaps a large and a medium asteroid; the stored high score
    is 1000. *)
Definition scoringGame : Game.t :=
  sampleGame 1000 3 sampleShip [@Bullet.new sampleMath 100 100 0]
             [rockAt 100 100 0; rockAt 110 100 1; rockAt 700 400 0].

(** Two bullets, both inside the large and the medium asteroid. *)
Definition twoBulletGame : Game.t :=
  sampleGame 0 3 sampleShip
             [@Bullet.new sampleMath 100 100 0; @Bullet.new sampleMath 110 100 0]
             [rockAt 100 100 0; rockAt 110 100 1; rockAt 700 400 0].

(** Every asteroid of the wave is gone. *)
Definition clearedGame : Game.t := sampleGame 0 3 sampleShip [] [].

Definition overGame : Game.t := Game.onState (State.set_mode GAME_OVER) clearedGame.

(** [scoringGame] before the store has answered: the high score is 0. *)
Definition unloadedGame : Game.t :=
  sampleGame 0 3 sampleShip [@Bullet.new sampleMath 100 100 0]
             [rockAt 100 100 0; rockAt 110 100 1; rockAt 700 400 0].

Definition oneTick : Event := Tick (1 / 120) noInput.

(** [Math.random()] as its contract has it: every draw is in [0, 1). *)
Definition unitRandom `{MathLib} : Prop :=
  forall n : nat, 0 <= Math_random n < 1.

(** The point [(x, y)] is on the frame that runs [margin] outside a
    [W] by [H] canvas: on one of its edges, level with the canvas. *)
Definition onSpawnFrame (W H margin x y : Q) : Prop :=
  ((x = - margin \/ x = W + margin) /\ 0 <= y < H)
  \/ ((y = - margin \/ y = H + margin) /\ 0 <= x < W).

(** The ship's levels and timers are in range. *)
Definition shipOk (s : Ship.t) : Prop :=
  (0 <= Ship.shieldLevel s <= CONFIG.SHIP.SHIELD_MAX_LEVEL)%Z
  /\ (0 <= Ship.speedLevel s <= Ship.maxSpeedLevel s)%Z
  /\ 0 <= Ship.cooldown s
  /\ 0 <= Ship.invuln s.

(** The ship [s'] comes from [s] with its ranges kept and no shield lost. *)
Definition shipStep (s s' : Ship.t) : Prop :=
  (shipOk s -> shipOk s') /\ (Ship.shieldLevel s <= Ship.shieldLevel s')%Z.

(** What holds of the game between ticks: the ship in range, the lives at
    most [MAX_LIVES], none left exactly when the run is over, the wave and
    the score not negative, the score no higher than the high score, and
    the three copies of the high score equal. *)
Definition runOk (g : Game.t) : Prop :=
  let S := Game.state g in
  shipOk (State.ship S)
  /\ (State.lives S <= CONFIG.SHIP.MAX_LIVES)%Z
  /\ (State.mode S = GAME_OVER -> State.lives S = 0%Z)
  /\ (State.mode S <> GAME_OVER -> (1 <= State.lives S)%Z)
  /\ (0 <= State.wave S)%Z
  /\ (0 <= State.score S <= Game.highScore g)%Z
  /\ State.highScore S = Game.highScore g
  /\ Game._lastPersistedHighScore g = Game.highScore g.

(** [g'] comes from [g] by steps that keep the mode, cost no life and no
    shield, and raise the lives at most to [MAX_LIVES]. *)
Definition steady (g g' : Game.t) : Prop :=
  State.mode (Game.state g') = State.mode (Game.state g)
  /\ (State.lives (Game.state g) <= State.lives (Game.state g')
      <= Z.max (State.lives (Game.state g)) CONFIG.SHIP.MAX_LIVES)%Z
  /\ shipStep (State.ship (Game.state g)) (State.ship (Game.state g'))
  /\ (Game._lastPersistedHighScore g = Game.highScore g ->
      Game._lastPersistedHighScore g' = Game.highScore g').

(** What a call that may hit the ship leaves of a game in PLAY: at most
    one life and one shield level gone, the ship still in range, the mode
    PLAY with a life left when it answers [true], and the run over with no
    life left when it answers [false]. *)
Definition hitPost (g : Game.t) (r : bool * Game.t) : Prop :=
  let S := Game.state g in
  let S' := Game.state (snd r) in
  (State.lives S - 1 <= State.lives S' <= State.lives S)%Z
  /\ (Ship.shieldLevel (State.ship S) - 1 <= Ship.shieldLevel (State.ship S'))%Z
  /\ (shipOk (State.ship S) -> shipOk (State.ship S'))
  /\ (Game._lastPersistedHighScore g = Game.highScore g ->
      Game._lastPersistedHighScore (snd r) = Game.highScore (snd r))
  /\ (fst r = true ->
      State.mode S' = PLAY /\ ((1 <= State.lives S)%Z -> (1 <= State.lives S')%Z))
  /\ (fst r = false -> State.mode S' = GAME_OVER /\ (State.lives S' <= 0)%Z).

(** The game after [k] fixed steps within one frame: the first step sees
    the input as the listeners left it, the later ones see it with the
    pressed and released edges cleared. *)
Fixpoint frameTicks `{MathLib} (k : nat) (input : Input.t) (g : Game.t) : Game.t :=
  match k with
  | O => g
  | S k' => frameTicks k' (Input.postUpdate input) (update fixedDt input g)
  end.

(** * Theorems *)

(** ** Numbers and modes *)

Lemma Qltb_lt (a b : Q) : Qltb a b = true <-> (a < b)%Q.
Proof.
  unfold Qltb. rewrite negb_true_iff. split.
  - intros Hf. apply Qnot_le_lt. intros Hle.
    apply Qle_bool_iff in Hle. congruence.
  - intros Hlt. destruct (Qle_bool b a) eqn:E; [|reflexivity].
    apply Qle_bool_iff in E. exfalso. exact (Qlt_not_le _ _ Hlt E).
Qed.

Lemma Qltb_ge (a b : Q) : Qltb a b = false <-> (b <= a)%Q.
Proof.
  unfold Qltb. rewrite negb_false_iff. apply Qle_bool_iff.
Qed.

Lemma Qleb_le (a b : Q) : Qleb a b = true <-> (a <= b)%Q.
Proof. apply Qle_bool_iff. Qed.

Lemma Qleb_gt (a b : Q) : Qleb a b = false <-> (b < a)%Q.
Proof.
  unfold Qleb. split.
  - intros Hf. apply Qnot_le_lt. intros Hle.
    apply Qle_bool_iff in Hle. congruence.
  - intros Hlt. destruct (Qle_bool a b) eqn:E; [|reflexivity].
    apply Qle_bool_iff in E. exfalso. exact (Qlt_not_le _ _ Hlt E).
Qed.

Lemma Mode_eqb_eq (a b : Mode) : Mode_eqb a b = true <-> a = b.
Proof. destruct a, b; simpl; split; congruence. Qed.

(** ** The blink loop of [Ship.update] *)

Lemma blinkLoop_bound (interval : Q) (fuel : nat) (elapsed : Q) (visible : bool) :
  elapsed < inject_Z (Z.of_nat fuel + 1) * interval ->
  fst (Ship.blinkLoop fuel interval elapsed visible) < interval.
Proof.
  revert elapsed visible. induction fuel as [|fuel IH]; intros elapsed visible Hlt.
  - change (inject_Z (Z.of_nat 0 + 1)) with 1 in Hlt. cbn [Ship.blinkLoop fst]. lra.
  - cbn [Ship.blinkLoop]. destruct (Qleb interval elapsed) eqn:E.
    + apply IH. rewrite Nat2Z.inj_succ in Hlt.
      replace (Z.succ (Z.of_nat fuel) + 1)%Z with ((Z.of_nat fuel + 1) + 1)%Z in Hlt by lia.
      rewrite inject_Z_plus in Hlt.
      set (c := inject_Z (Z.of_nat fuel + 1)) in *.
      change (inject_Z 1) with 1 in Hlt.
      assert (Heq : (c + 1) * interval == c * interval + interval) by ring.
      rewrite Heq in Hlt. lra.
    + apply Qleb_gt in E. exact E.
Qed.

(** The fuel [Ship.update] gives the loop is enough: the loop ends by its
    own test, with less than one interval left. *)
Lemma blinkLoop_exits (interval elapsed : Q) (visible : bool) :
  0 < interval ->
  fst (Ship.blinkLoop (Ship.blinkRounds interval elapsed) interval elapsed visible)
  < interval.
Proof.
  intros Hpos. apply blinkLoop_bound. unfold Ship.blinkRounds.
  set (q := elapsed / interval).
  assert (Hq : elapsed == q * interval).
  { unfold q. field. intros H0. rewrite H0 in Hpos. apply (Qlt_irrefl 0 Hpos). }
  pose proof (Qlt_floor q) as Hfl. clearbody q.
  destruct (Z.le_gt_cases 0 (Qfloor q)) as [Hnn|Hneg].
  - rewrite Z2Nat.id by exact Hnn. rewrite Hq.
    apply Qmult_lt_r; assumption.
  - replace (Z.to_nat (Qfloor q)) with 0%nat by lia.
    change (inject_Z (Z.of_nat 0 + 1)) with 1.
    assert (Hq0 : q < 0).
    { eapply Qlt_le_trans; [exact Hfl|].
      change 0 with (inject_Z 0). rewrite <- Zle_Qle. lia. }
    assert (Hneg' : q * interval < 0 * interval) by (apply Qmult_lt_r; assumption).
    lra.
Qed.

(** ** Toroidal wrap (src/utils/math.js, src/systems/Physics.js) *)

Lemma wrap_below (v max : Q) : v < 0 -> wrap v max = v + max.
Proof. intros Hv. unfold wrap. apply Qltb_lt in Hv. now rewrite Hv. Qed.

Lemma wrap_above (v max : Q) : 0 <= v -> max <= v -> wrap v max = v - max.
Proof.
  intros H0 Hm. unfold wrap.
  apply Qltb_ge in H0. apply Qleb_le in Hm. now rewrite H0, Hm.
Qed.

Lemma wrap_inside (v max : Q) : 0 <= v -> v < max -> wrap v max = v.
Proof.
  intros H0 Hm. unfold wrap.
  apply Qltb_ge in H0. apply Qleb_gt in Hm. now rewrite H0, Hm.
Qed.

Lemma wrap_one_period (v max : Q) :
  - max <= v -> v < 2 * max -> 0 <= wrap v max /\ wrap v max < max.
Proof.
  intros Hlo Hhi.
  destruct (Qlt_le_dec v 0) as [Hneg|Hpos].
  - rewrite wrap_below by exact Hneg. split; lra.
  - destruct (Qlt_le_dec v max) as [Hin|Hout].
    + rewrite wrap_inside by assumption. split; assumption.
    + rewrite wrap_above by assumption. split; lra.
Qed.

Lemma wrap_closed_period (v max : Q) :
  - max <= v -> v <= 2 * max -> 0 <= wrap v max /\ wrap v max <= max.
Proof.
  intros Hlo Hhi.
  destruct (Qlt_le_dec v 0) as [Hneg|Hpos].
  - rewrite wrap_below by exact Hneg. split; lra.
  - destruct (Qlt_le_dec v max) as [Hin|Hout].
    + rewrite wrap_inside by assumption. split; lra.
    + rewrite wrap_above by assumption. split; lra.
Qed.

Lemma wrap_from_the_right (v max : Q) :
  0 <= v -> v < 2 * max -> 0 <= wrap v max /\ wrap v max < max.
Proof. intros Hlo Hhi. apply wrap_one_period; lra. Qed.

(** C3, as stated, fails twice.  [wrap] shifts by one period only, so a
    coordinate more than one canvas away stays outside: an entity at
    (2000, -600) is left at (1040, -60).  And on the doubles of the
    program the upper bound is not strict even next to the canvas: for the
    coordinate [-2^-47], less than a canvas width to the left of the
    canvas, the sum [v + max] rounds to [max], so [wrap] returns the width
    itself. *)
Lemma C3_wrap_counterexample :
  ~ (0 <= Entity.x (integrateAndWrap (Entity.new 2000 (-600) 2))
     /\ Entity.x (integrateAndWrap (Entity.new 2000 (-600) 2)) < CONFIG.CANVAS.W
     /\ 0 <= Entity.y (integrateAndWrap (Entity.new 2000 (-600) 2))
     /\ Entity.y (integrateAndWrap (Entity.new 2000 (-600) 2)) < CONFIG.CANVAS.H)
  /\ (PrimFloat.leb (PrimFloat.opp Double.W) Double.tiny = true
      /\ PrimFloat.ltb Double.tiny (PrimFloat.add Double.W Double.W) = true
      /\ Double.wrap Double.tiny Double.W = Double.W
      /\ PrimFloat.ltb (Double.wrap Double.tiny Double.W) Double.W = false).
Proof.
  split.
  - intros (_ & Hx & _ & _). vm_compute in Hx. discriminate Hx.
  - vm_compute. repeat split.
Qed.

(** C3, amended.  A coordinate inside [[0, max)] is returned as it is.  For
    every [v] with [-max <= v <= 2 * max], [wrap v max] lies in the closed
    interval [[0, max]], and in [[0, max)] when [v] is not negative (the
    difference [v - max] is exact on doubles); for a negative [v] the sum
    [v + max] is below [max] on rationals but may round to [max] on
    doubles, so only [<= max] is stated.  Hence [integrateAndWrap] puts
    every entity that is at most one canvas width and height outside the
    canvas back at [0 <= x <= W] and [0 <= y <= H], with [x < W] and
    [y < H] when it came from the right and from below. *)
Theorem C3_wrap_within_one_canvas (entity : Entity.t) (v max : Q) :
  (0 <= v -> v < max -> wrap v max = v)
  /\ (- max <= v -> v <= 2 * max -> 0 <= wrap v max /\ wrap v max <= max)
  /\ (0 <= v -> v < 2 * max -> wrap v max < max)
  /\ (- CONFIG.CANVAS.W <= Entity.x entity ->
      Entity.x entity <= 2 * CONFIG.CANVAS.W ->
      - CONFIG.CANVAS.H <= Entity.y entity ->
      Entity.y entity <= 2 * CONFIG.CANVAS.H ->
      0 <= Entity.x (integrateAndWrap entity)
      /\ Entity.x (integrateAndWrap entity) <= CONFIG.CANVAS.W
      /\ 0 <= Entity.y (integrateAndWrap entity)
      /\ Entity.y (integrateAndWrap entity) <= CONFIG.CANVAS.H
      /\ (0 <= Entity.x entity -> Entity.x entity < 2 * CONFIG.CANVAS.W ->
          Entity.x (integrateAndWrap entity) < CONFIG.CANVAS.W)
      /\ (0 <= Entity.y entity -> Entity.y entity < 2 * CONFIG.CANVAS.H ->
          Entity.y (integrateAndWrap entity) < CONFIG.CANVAS.H)
      /\ Entity.vx (integrateAndWrap entity) = Entity.vx entity
      /\ Entity.vy (integrateAndWrap entity) = Entity.vy entity
      /\ Entity.r (integrateAndWrap entity) = Entity.r entity
      /\ Entity.dead (integrateAndWrap entity) = Entity.dead entity).
Proof.
  split; [apply wrap_inside|].
  split; [apply wrap_closed_period|].
  split; [intros Hp Hq; apply (wrap_from_the_right v max Hp Hq)|].
  intros Hx1 Hx2 Hy1 Hy2. simpl.
  destruct (wrap_closed_period _ _ Hx1 Hx2) as [Hxa Hxb].
  destruct (wrap_closed_period _ _ Hy1 Hy2) as [Hya Hyb].
  split; [exact Hxa|]. split; [exact Hxb|].
  split; [exact Hya|]. split; [exact Hyb|].
  split; [intros Hp Hq; apply (wrap_from_the_right _ _ Hp Hq)|].
  split; [intros Hp Hq; apply (wrap_from_the_right _ _ Hp Hq)|].
  repeat split; reflexivity.
Qed.

(** C3 at an asteroid spawned 40 pixels outside the left and bottom
    edges, and at a coordinate on the right edge. *)
Lemma C3_wrap_within_one_canvas_witness :
  (0 <= wrap (-40) 960 /\ wrap (-40) 960 <= 960)
  /\ wrap 960 960 < 960
  /\ (0 <= Entity.x (integrateAndWrap (Entity.new (-40) 580 42))
      /\ Entity.x (integrateAndWrap (Entity.new (-40) 580 42)) <= CONFIG.CANVAS.W
      /\ 0 <= Entity.y (integrateAndWrap (Entity.new (-40) 580 42))
      /\ Entity.y (integrateAndWrap (Entity.new (-40) 580 42)) < CONFIG.CANVAS.H).
Proof.
  destruct (C3_wrap_within_one_canvas (Entity.new (-40) 580 42) (-40) 960)
    as (_ & Hw & _ & He).
  destruct (C3_wrap_within_one_canvas (Entity.new 0 0 1) 960 960)
    as (_ & _ & Hr & _).
  split; [apply Hw; vm_compute; congruence|].
  split; [apply Hr; vm_compute; congruence|].
  assert (Hin : 0 <= Entity.x (integrateAndWrap (Entity.new (-40) 580 42))
                /\ Entity.x (integrateAndWrap (Entity.new (-40) 580 42))
                   <= CONFIG.CANVAS.W
                /\ 0 <= Entity.y (integrateAndWrap (Entity.new (-40) 580 42))
                /\ Entity.y (integrateAndWrap (Entity.new (-40) 580 42))
                   < CONFIG.CANVAS.H).
  { destruct He as (Hx0 & Hx1 & Hy0 & _ & _ & Hy1 & _);
      [vm_compute; congruence ..|].
    split; [exact Hx0|]. split; [exact Hx1|]. split; [exact Hy0|].
    apply Hy1; vm_compute; congruence. }
  exact Hin.
Defined.

(** ** Splitting (src/entities/Asteroid.js) *)

Section SplitFacts.
Context `{MathLib}.

Lemma pushTimes_length {A} (make : Rand A) (k n : nat) :
  length (fst (pushTimes k make n)) = k.
Proof.
  revert n. induction k as [|k IH]; intros n; simpl; [reflexivity|].
  unfold bind. destruct (make n) as [a n1].
  specialize (IH n1). destruct (pushTimes k make n1) as [rest n2].
  simpl in *. now rewrite IH.
Qed.

Lemma pushTimes_Forall {A} (P : A -> Prop) (make : Rand A) :
  (forall n, P (fst (make n))) ->
  forall k n, Forall P (fst (pushTimes k make n)).
Proof.
  intros Hmake k. induction k as [|k IH]; intros n; simpl.
  - constructor.
  - unfold bind. pose proof (Hmake n) as Ha.
    destruct (make n) as [a n1].
    specialize (IH n1). destruct (pushTimes k make n1) as [rest n2].
    simpl in *. constructor; assumption.
Qed.

(** What the constructor copies from its arguments, whatever it draws. *)
Lemma Asteroid_new_fields (x0 y0 : Q) (i : nat) (c : ColorVariant) (m : Q) (n : nat) :
  let a := fst (Asteroid.new x0 y0 i (Some c) m n) in
  Entity.x (Asteroid.base a) = x0
  /\ Entity.y (Asteroid.base a) = y0
  /\ Entity.r (Asteroid.base a) = default 0 (CONFIG.ASTEROID.SIZES !! i)
  /\ Entity.dead (Asteroid.base a) = false
  /\ Asteroid.sizeIndex a = i
  /\ Asteroid.colorVariant a = c
  /\ Asteroid.speedMultiplier a = m.
Proof. simpl. repeat split; reflexivity. Qed.

(** C6: [split()] on a tier-0 asteroid returns exactly [SPLIT_COUNT]
    tier-1 asteroids, each at the parent's position with the parent's
    colour variant and speed multiplier; on a tier-2 asteroid it returns
    no children.  ([n] is the number of random draws made before the
    call.) *)
Theorem C6_split_children (a : Asteroid.t) (n : nat) :
  (Asteroid.sizeIndex a = 0%nat ->
     length (fst (Asteroid.split a n)) = CONFIG.ASTEROID.SPLIT_COUNT
     /\ Forall (fun child =>
                  Asteroid.sizeIndex child = 1%nat
                  /\ Entity.x (Asteroid.base child) = Entity.x (Asteroid.base a)
                  /\ Entity.y (Asteroid.base child) = Entity.y (Asteroid.base a)
                  /\ Asteroid.colorVariant child = Asteroid.colorVariant a
                  /\ Asteroid.speedMultiplier child = Asteroid.speedMultiplier a)
               (fst (Asteroid.split a n)))
  /\ (Asteroid.sizeIndex a = 2%nat -> fst (Asteroid.split a n) = []).
Proof.
  split.
  - intros Hsize. unfold Asteroid.split. rewrite Hsize. simpl Nat.leb. cbv iota.
    split.
    + apply pushTimes_length.
    + apply pushTimes_Forall. intros k.
      pose proof (Asteroid_new_fields (Entity.x (Asteroid.base a))
                    (Entity.y (Asteroid.base a)) 1 (Asteroid.colorVariant a)
                    (Asteroid.speedMultiplier a) k) as Hf.
      cbv zeta in Hf. simpl Nat.add. tauto.
  - intros Hsize. unfold Asteroid.split. rewrite Hsize. reflexivity.
Qed.
End SplitFacts.

(** C6 at a large and at a small asteroid. *)
Lemma C6_split_children_witness :
  (length (fst (@Asteroid.split sampleMath sampleLarge 0%nat))
   = CONFIG.ASTEROID.SPLIT_COUNT
   /\ Forall (fun child =>
                Asteroid.sizeIndex child = 1%nat
                /\ Entity.x (Asteroid.base child) = 100
                /\ Entity.y (Asteroid.base child) = 200
                /\ Asteroid.colorVariant child = grey
                /\ Asteroid.speedMultiplier child = 1.2)
             (fst (@Asteroid.split sampleMath sampleLarge 0%nat)))
  /\ fst (@Asteroid.split sampleMath sampleSmall 0%nat) = [].
Proof.
  split.
  - apply (@C6_split_children sampleMath sampleLarge 0%nat). reflexivity.
  - apply (@C6_split_children sampleMath sampleSmall 0%nat). reflexivity.
Defined.

(** ** Firing (src/entities/Ship.js) *)

Section FireFacts.
Context `{MathLib}.

(** C7: a ship whose weapon mode is "five" fires exactly five bullets, at
    the angles [baseAngle + k * SPREAD_RAD] for [k] from -2 to 2 in that
    order, all of them placed at the nose offset
    [(x + cos baseAngle * (r + 2), y + sin baseAngle * (r + 2))]. *)
Theorem C7_fire_five (s : Ship.t) :
  Ship.weaponMode s = CONFIG.WEAPON.MODE_FIVE ->
  let bullets := fst (Ship.fire s) in
  let noseX := Entity.x (Ship.base s)
               + Math_cos (Ship.angle s) * (Entity.r (Ship.base s) + 2) in
  let noseY := Entity.y (Ship.base s)
               + Math_sin (Ship.angle s) * (Entity.r (Ship.base s) + 2) in
  length bullets = 5%nat
  /\ Forall (fun b => Entity.x (Bullet.base b) = noseX
                      /\ Entity.y (Bullet.base b) = noseY) bullets
  /\ Forall2 (fun b k =>
                Bullet.angle b == Ship.angle s + inject_Z k * CONFIG.WEAPON.SPREAD_RAD)
             bullets [-2; -1; 0; 1; 2]%Z.
Proof.
  intros Hmode bullets noseX noseY. subst bullets.
  unfold Ship.fire. rewrite Hmode. cbn [fst].
  split; [reflexivity|]. split.
  - repeat constructor.
  - repeat (constructor; [cbn [Bullet.angle Bullet.new]; unfold inject_Z; ring|]).
    constructor.
Qed.
End FireFacts.

(** C7 at a fresh ship upgraded to the five-bullet fan. *)
Lemma C7_fire_five_witness :
  length (fst (@Ship.fire sampleMath
                 (Ship.set_weaponMode CONFIG.WEAPON.MODE_FIVE
                    (@Ship.new sampleMath 480 270 false)))) = 5%nat.
Proof.
  apply (@C7_fire_five sampleMath
           (Ship.set_weaponMode CONFIG.WEAPON.MODE_FIVE
              (@Ship.new sampleMath 480 270 false))).
  reflexivity.
Defined.

(** ** The state machine (src/core/Game.js) *)

Section StateMachine.
Context `{MathLib}.

(** C10: [startGame()] called in a mode other than MENU returns at once
    and leaves the whole game as it was. *)
Theorem C10_startGame_outside_menu (g : Game.t) :
  State.mode (Game.state g) <> MENU -> startGame g = g.
Proof.
  intros Hmode. unfold startGame.
  destruct (State.mode (Game.state g)); [contradiction| |]; reflexivity.
Qed.

(** C8: a tick in MENU or GAME_OVER simulates nothing.  Without the start
    command (Enter or Space in MENU, Enter in GAME_OVER) pressed on that
    tick, [update] returns the game unchanged; with it, [update] is
    exactly the transition [startGame] (from MENU) or [reset] (from
    GAME_OVER). *)
Theorem C8_idle_modes_do_not_simulate (dt : Q) (input : Input.t) (g : Game.t) :
  (State.mode (Game.state g) = MENU ->
     (Input.pressed input "Enter" = false ->
      Input.pressed input "Space" = false -> update dt input g = g)
     /\ (Input.pressed input "Enter" = true \/ Input.pressed input "Space" = true ->
         update dt input g = startGame g))
  /\ (State.mode (Game.state g) = GAME_OVER ->
        (Input.pressed input "Enter" = false -> update dt input g = g)
        /\ (Input.pressed input "Enter" = true -> update dt input g = reset g)).
Proof.
  unfold update. split; intros Hmode; rewrite Hmode; split.
  - intros -> ->. reflexivity.
  - intros [-> | ->]; [reflexivity|]. now rewrite orb_true_r.
  - intros ->. reflexivity.
  - intros ->. reflexivity.
Qed.
End StateMachine.

(** ** What a tick changes *)

Lemma stateProgress_eq (S S' : State.t) :
  stateProgress S' = stateProgress S ->
  State.mode S' = State.mode S /\ State.wave S' = State.wave S
  /\ State.score S' = State.score S /\ State.lives S' = State.lives S
  /\ State.highScore S' = State.highScore S.
Proof. unfold stateProgress. intros Heq. repeat split; congruence. Qed.

Lemma progress_eq (g g' : Game.t) :
  progress g' = progress g ->
  State.mode (Game.state g') = State.mode (Game.state g)
  /\ State.wave (Game.state g') = State.wave (Game.state g)
  /\ State.score (Game.state g') = State.score (Game.state g)
  /\ State.lives (Game.state g') = State.lives (Game.state g)
  /\ State.highScore (Game.state g') = State.highScore (Game.state g)
  /\ Game.highScore g' = Game.highScore g.
Proof. unfold progress, stateProgress. intros Heq. repeat split; congruence. Qed.

Lemma forEachIndex_ind {St} (P : St -> Prop) (body : nat -> St -> St) :
  (forall i s, P s -> P (body i s)) ->
  forall len s, P s -> P (forEachIndex len body s).
Proof.
  intros Hbody len s. unfold forEachIndex.
  generalize (seq 0 len). intros l. revert s.
  induction l as [|i l IH]; intros s Hs; simpl; [exact Hs|].
  apply IH, Hbody, Hs.
Qed.

Ltac break_branches :=
  repeat match goal with
         | |- context [let (_, _) := ?e in _] => destruct e
         | |- context [if ?c then _ else _] => destruct c
         | |- context [match ?e with Some _ => _ | None => _ end] => destruct e
         end.

Section Frames.
Context `{MathLib}.

Lemma spawnWave_progress (S : State.t) (n : nat) :
  stateProgress (fst (spawnWave S n)) = stateProgress S.
Proof.
  unfold spawnWave, bind. destruct (pushTimes _ _ n) as [spawned n']. reflexivity.
Qed.

Lemma maybeSpawnPowerUpLoop_progress entries (S : State.t) (n : nat) :
  stateProgress (fst (maybeSpawnPowerUpLoop entries S n)) = stateProgress S.
Proof.
  revert S n. induction entries as [|[type rules] rest IH]; intros S n; simpl.
  - reflexivity.
  - unfold bind. destruct (shouldSpawnType rules (State.wave S) n) as [spawn n1].
    destruct spawn.
    + destruct (randomEdgeSpawn _ _ _ n1) as [pos n2].
      destruct (PowerUp.new _ _ type n2) as [pu n3].
      rewrite IH. reflexivity.
    + apply IH.
Qed.

Lemma spawnUfoForCurrentWave_progress (S : State.t) (n : nat) :
  stateProgress (fst (spawnUfoForCurrentWave S n)) = stateProgress S.
Proof.
  unfold spawnUfoForCurrentWave, bind. break_branches; reflexivity.
Qed.

Lemma onState_progress (f : State.t -> State.t) (g : Game.t) :
  (forall S, stateProgress (f S) = stateProgress S) ->
  progress (Game.onState f g) = progress g.
Proof. intros Hf. unfold progress. simpl. now rewrite Hf. Qed.

Lemma onStateRand_progress (f : State.t -> Rand State.t) (g : Game.t) :
  (forall S n, stateProgress (fst (f S n)) = stateProgress S) ->
  progress (Game.onStateRand f g) = progress g.
Proof.
  intros Hf. unfold Game.onStateRand, progress.
  specialize (Hf (Game.state g) (Game.draws g)).
  destruct (f (Game.state g) (Game.draws g)) as [S n]. simpl in *. now rewrite Hf.
Qed.

(** Peels the mutations off a goal [progress (f g) = progress g]. *)
Ltac frame :=
  cbv zeta;
  repeat first
    [ reflexivity
    | match goal with
      | |- progress (Game.onState _ _) = _ =>
          etransitivity;
          [apply onState_progress; intros; cbv beta zeta; break_branches; reflexivity|]
      | |- progress (Game.onStateRand _ _) = _ =>
          etransitivity;
          [apply onStateRand_progress;
           first [apply spawnWave_progress | apply spawnUfoForCurrentWave_progress
                 | intros; apply maybeSpawnPowerUpLoop_progress]|]
      | |- progress (if ?c then _ else _) = _ => destruct c
      | |- progress (let (_, _) := ?e in _) = _ => destruct e
      | |- progress (match ?e with Some _ => _ | None => _ end) = _ => destruct e
      end ].

Lemma updateEntities_progress (dt : Q) (input : Input.t) (g : Game.t) :
  progress (updateEntities dt input g) = progress g.
Proof. unfold updateEntities. frame. Qed.

Lemma cleanup_progress (g : Game.t) : progress (cleanup g) = progress g.
Proof. unfold cleanup. frame. Qed.

Lemma resetUfoStateForWave_progress (g : Game.t) :
  progress (resetUfoStateForWave g) = progress g.
Proof. unfold resetUfoStateForWave. frame. Qed.

(** *** Scoring steps *)

Lemma scoredFrom_refl (g : Game.t) : scoredFrom g g.
Proof. unfold scoredFrom. repeat split; lia. Qed.

Lemma scoredFrom_trans (g1 g2 g3 : Game.t) :
  scoredFrom g1 g2 -> scoredFrom g2 g3 -> scoredFrom g1 g3.
Proof. unfold scoredFrom. intros (?&?&?&?&?) (?&?&?&?&?). repeat split; try lia; auto. Qed.

Lemma progress_scoredFrom (g g' : Game.t) :
  progress g' = progress g -> scoredFrom g g'.
Proof.
  unfold progress, stateProgress, scoredFrom. intros Heq.
  injection Heq as Hm Hw Hs Hl Hh Hg. repeat split; lia.
Qed.

Lemma updateHighScore_max (score : Z) (g : Game.t) :
  Game.highScore (updateHighScore score g) = Z.max (Game.highScore g) score.
Proof.
  unfold updateHighScore. destruct (score <=? Game.highScore g)%Z eqn:E.
  - apply Z.leb_le in E. lia.
  - apply Z.leb_gt in E. break_branches; simpl; lia.
Qed.

Lemma updateHighScore_state_max (score : Z) (g : Game.t) :
  State.highScore (Game.state g) = Game.highScore g ->
  State.highScore (Game.state (updateHighScore score g))
  = Z.max (Game.highScore g) score.
Proof.
  intros Hsync. unfold updateHighScore.
  destruct (score <=? Game.highScore g)%Z eqn:E.
  - apply Z.leb_le in E. lia.
  - apply Z.leb_gt in E. break_branches; simpl; lia.
Qed.

(** [updateHighScore] touches the two high-score fields, the flag and the
    persisted mark, nothing else. *)
Lemma updateHighScore_world (score : Z) (g : Game.t) :
  let S := Game.state g in
  let S' := Game.state (updateHighScore score g) in
  State.mode S' = State.mode S /\ State.wave S' = State.wave S
  /\ State.score S' = State.score S /\ State.lives S' = State.lives S
  /\ State.ship S' = State.ship S /\ State.bullets S' = State.bullets S
  /\ State.asteroids S' = State.asteroids S /\ State.powerups S' = State.powerups S
  /\ State.ufo S' = State.ufo S /\ State.ufoBullets S' = State.ufoBullets S
  /\ Game.draws (updateHighScore score g) = Game.draws g.
Proof.
  unfold updateHighScore. break_branches; simpl; repeat split; reflexivity.
Qed.

Lemma addScore_world (n : Z) (g : Game.t) :
  let S := Game.state g in
  let S' := Game.state (addScore n g) in
  State.mode S' = State.mode S /\ State.wave S' = State.wave S
  /\ State.score S' = (State.score S + n)%Z /\ State.lives S' = State.lives S
  /\ State.ship S' = State.ship S /\ State.bullets S' = State.bullets S
  /\ State.asteroids S' = State.asteroids S /\ State.powerups S' = State.powerups S
  /\ State.ufo S' = State.ufo S /\ State.ufoBullets S' = State.ufoBullets S
  /\ Game.draws (addScore n g) = Game.draws g.
Proof.
  unfold addScore. cbv zeta.
  pose proof (updateHighScore_world
    (State.score (Game.state (Game.onState
       (fun S => State.set_score (State.score S + n) S) g)))
    (Game.onState (fun S => State.set_score (State.score S + n) S) g)) as Hw.
  cbv zeta in Hw. simpl in Hw |- *. exact Hw.
Qed.

Lemma updateHighScore_scoredFrom (g : Game.t) :
  scoredFrom g (updateHighScore (State.score (Game.state g)) g)
  /\ (State.score (Game.state (updateHighScore (State.score (Game.state g)) g))
      <= Game.highScore (updateHighScore (State.score (Game.state g)) g))%Z.
Proof.
  pose proof (updateHighScore_max (State.score (Game.state g)) g) as Hmax.
  pose proof (updateHighScore_state_max (State.score (Game.state g)) g) as Hst.
  pose proof (updateHighScore_world (State.score (Game.state g)) g) as Hw.
  cbv zeta in Hw. destruct Hw as (_ & Hwave & Hscore & _).
  unfold scoredFrom. rewrite Hwave, Hscore, Hmax.
  repeat split; lia.
Qed.

Lemma addScore_scoredFrom (n : Z) (g : Game.t) :
  (0 <= n)%Z ->
  scoredFrom g (addScore n g)
  /\ (State.score (Game.state (addScore n g)) <= Game.highScore (addScore n g))%Z.
Proof.
  intros Hn. unfold addScore. cbv zeta.
  set (g1 := Game.onState (fun S => State.set_score (State.score S + n) S) g).
  destruct (updateHighScore_scoredFrom g1) as [Hsc Hle].
  split; [|exact Hle].
  apply scoredFrom_trans with g1; [|exact Hsc].
  unfold scoredFrom, g1. simpl. repeat split; lia.
Qed.
End Frames.

Section WorldRewrites.
Context `{MathLib}.
Variables (n : Z) (g : Game.t).

Lemma addScore_mode :
  State.mode (Game.state (addScore n g)) = State.mode (Game.state g).
Proof. apply (addScore_world n g). Qed.
Lemma addScore_wave :
  State.wave (Game.state (addScore n g)) = State.wave (Game.state g).
Proof. apply (addScore_world n g). Qed.
Lemma addScore_score :
  State.score (Game.state (addScore n g)) = (State.score (Game.state g) + n)%Z.
Proof. apply (addScore_world n g). Qed.
Lemma addScore_lives :
  State.lives (Game.state (addScore n g)) = State.lives (Game.state g).
Proof. apply (addScore_world n g). Qed.
Lemma addScore_ship :
  State.ship (Game.state (addScore n g)) = State.ship (Game.state g).
Proof. apply (addScore_world n g). Qed.
Lemma addScore_bullets :
  State.bullets (Game.state (addScore n g)) = State.bullets (Game.state g).
Proof. apply (addScore_world n g). Qed.
Lemma addScore_asteroids :
  State.asteroids (Game.state (addScore n g)) = State.asteroids (Game.state g).
Proof. apply (addScore_world n g). Qed.
Lemma addScore_powerups :
  State.powerups (Game.state (addScore n g)) = State.powerups (Game.state g).
Proof. apply (addScore_world n g). Qed.
Lemma addScore_ufo :
  State.ufo (Game.state (addScore n g)) = State.ufo (Game.state g).
Proof. apply (addScore_world n g). Qed.
Lemma addScore_ufoBullets :
  State.ufoBullets (Game.state (addScore n g)) = State.ufoBullets (Game.state g).
Proof. apply (addScore_world n g). Qed.
Lemma addScore_draws : Game.draws (addScore n g) = Game.draws g.
Proof. apply (addScore_world n g). Qed.

Lemma updateHighScore_mode :
  State.mode (Game.state (updateHighScore n g)) = State.mode (Game.state g).
Proof. apply (updateHighScore_world n g). Qed.
Lemma updateHighScore_wave :
  State.wave (Game.state (updateHighScore n g)) = State.wave (Game.state g).
Proof. apply (updateHighScore_world n g). Qed.
Lemma updateHighScore_score :
  State.score (Game.state (updateHighScore n g)) = State.score (Game.state g).
Proof. apply (updateHighScore_world n g). Qed.
Lemma updateHighScore_lives :
  State.lives (Game.state (updateHighScore n g)) = State.lives (Game.state g).
Proof. apply (updateHighScore_world n g). Qed.
Lemma updateHighScore_ship :
  State.ship (Game.state (updateHighScore n g)) = State.ship (Game.state g).
Proof. apply (updateHighScore_world n g). Qed.
Lemma updateHighScore_asteroids :
  State.asteroids (Game.state (updateHighScore n g)) = State.asteroids (Game.state g).
Proof. apply (updateHighScore_world n g). Qed.
End WorldRewrites.

Create Rewrite HintDb game.
#[global] Hint Rewrite @addScore_mode @addScore_wave @addScore_score
  @addScore_lives @addScore_ship @addScore_bullets @addScore_asteroids
  @addScore_powerups @addScore_ufo @addScore_ufoBullets @addScore_draws
  @updateHighScore_mode @updateHighScore_wave @updateHighScore_score
  @updateHighScore_lives @updateHighScore_ship @updateHighScore_asteroids : game.

(** ** Damage to the ship (the closure [damageShip] of [update]) *)

Section Damage.
Context `{MathLib}.

Lemma damageShip_shielded (cb : option (Game.t -> Game.t)) (bonus : Z) (g : Game.t) :
  (0 < Ship.shieldLevel (State.ship (Game.state g)))%Z ->
  damageShip cb bonus g =
  (true,
   Game.onState (fun S =>
     State.set_ship
       (Ship.resetInvulnBlink
          (Ship.set_invuln CONFIG.SHIP.SHIELD_HIT_INVULN
             (snd (Ship.decreaseShieldLevel (State.ship S))))) S)
     (let g1 := match cb with Some f => f g | None => g end in
      if negb (bonus =? 0)%Z then addScore bonus g1 else g1)).
Proof.
  intros Hpos. unfold damageShip. apply Z.ltb_lt in Hpos. rewrite Hpos. reflexivity.
Qed.

Lemma damageShip_unshielded (cb : option (Game.t -> Game.t)) (bonus : Z) (g : Game.t) :
  (Ship.shieldLevel (State.ship (Game.state g)) <= 0)%Z ->
  damageShip cb bonus g =
  (let g1 := Game.onState (fun S => State.set_lives (State.lives S - 1) S) g in
   if (State.lives (Game.state g1) <=? 0)%Z then
     (false, updateHighScore (State.score (Game.state g1))
               (Game.onState (State.set_mode GAME_OVER) g1))
   else (true, Game.onState (State.set_ship freshShip) g1)).
Proof.
  intros Hle. unfold damageShip. apply Z.ltb_ge in Hle. rewrite Hle. reflexivity.
Qed.

Lemma shield_after_absorb (s : Ship.t) :
  (0 < Ship.shieldLevel s)%Z ->
  Ship.shieldLevel
    (Ship.resetInvulnBlink
       (Ship.set_invuln CONFIG.SHIP.SHIELD_HIT_INVULN
          (snd (Ship.decreaseShieldLevel s))))
  = (Ship.shieldLevel s - 1)%Z.
Proof.
  intros Hpos. unfold Ship.decreaseShieldLevel.
  destruct (Ship.shieldLevel s <=? 0)%Z eqn:E.
  - apply Z.leb_le in E. lia.
  - simpl. lia.
Qed.

(** The game the callback and the score bonus leave, seen from [g]. *)
Lemma absorb_prelude (cb : option (Game.t -> Game.t)) (bonus : Z) (g : Game.t) :
  absorbCallbackOk cb ->
  let g1 := match cb with Some f => f g | None => g end in
  let g2 := if negb (bonus =? 0)%Z then addScore bonus g1 else g1 in
  State.ship (Game.state g2) = State.ship (Game.state g)
  /\ State.lives (Game.state g2) = State.lives (Game.state g)
  /\ State.mode (Game.state g2) = State.mode (Game.state g)
  /\ State.wave (Game.state g2) = State.wave (Game.state g)
  /\ State.score (Game.state g2) = (State.score (Game.state g) + bonus)%Z.
Proof.
  intros Hcb g1 g2.
  assert (Hg1 : progress g1 = progress g
                /\ State.ship (Game.state g1) = State.ship (Game.state g)).
  { subst g1. destruct cb as [f|]; [apply Hcb | split; reflexivity]. }
  destruct Hg1 as [Hp Hship]. unfold progress, stateProgress in Hp.
  injection Hp as Hm Hw Hs Hl Hh Hg.
  subst g2. destruct (bonus =? 0)%Z eqn:E; simpl negb; cbv iota.
  - apply Z.eqb_eq in E. subst bonus. repeat split; try congruence. lia.
  - pose proof (addScore_world bonus g1) as Ha. cbv zeta in Ha.
    destruct Ha as (Hm' & Hw' & Hs' & Hl' & Hship' & _).
    repeat split; congruence.
Qed.

(** C2: a damaging hit resolved during a PLAY tick.  With a shield level
    above 0 the level drops by exactly 1 and lives are unchanged; with
    shield level 0 lives drop by exactly 1, the mode becomes GAME_OVER
    exactly when the resulting lives are at most 0, and otherwise the mode
    stays PLAY and a fresh ship replaces the old one. *)
Theorem C2_damageShip (onShieldAbsorb : option (Game.t -> Game.t))
    (scoreBonus : Z) (g : Game.t) :
  absorbCallbackOk onShieldAbsorb ->
  State.mode (Game.state g) = PLAY ->
  let g' := snd (damageShip onShieldAbsorb scoreBonus g) in
  ((0 < Ship.shieldLevel (State.ship (Game.state g)))%Z ->
     Ship.shieldLevel (State.ship (Game.state g'))
     = (Ship.shieldLevel (State.ship (Game.state g)) - 1)%Z
     /\ State.lives (Game.state g') = State.lives (Game.state g)
     /\ State.mode (Game.state g') = PLAY)
  /\ (Ship.shieldLevel (State.ship (Game.state g)) = 0%Z ->
        State.lives (Game.state g') = (State.lives (Game.state g) - 1)%Z
        /\ (State.mode (Game.state g') = GAME_OVER
            <-> (State.lives (Game.state g') <= 0)%Z)
        /\ ((0 < State.lives (Game.state g'))%Z ->
            State.mode (Game.state g') = PLAY
            /\ State.ship (Game.state g') = freshShip)).
Proof.
  intros Hcb Hmode g'. subst g'. split.
  - intros Hpos. rewrite damageShip_shielded by exact Hpos.
    destruct (absorb_prelude onShieldAbsorb scoreBonus g Hcb)
      as (Hship & Hlives & Hm & _).
    cbv zeta in Hship, Hlives, Hm |- *. simpl.
    rewrite Hship, Hlives, Hm. split; [|split; [reflexivity|exact Hmode]].
    pose proof (shield_after_absorb _ Hpos) as Hs. simpl in Hs. exact Hs.
  - intros Hzero. rewrite damageShip_unshielded by lia. cbv zeta. simpl.
    destruct (State.lives (Game.state g) - 1 <=? 0)%Z eqn:E.
    + apply Z.leb_le in E.
      match goal with
      | |- context [updateHighScore ?s ?g0] =>
          pose proof (updateHighScore_world s g0) as Hw
      end.
      cbv zeta in Hw. destruct Hw as (Hm & _ & _ & Hl & _).
      simpl in Hm, Hl |- *. rewrite Hm, Hl.
      split; [reflexivity|]. split; [tauto|]. lia.
    + apply Z.leb_gt in E. simpl. rewrite Hmode.
      split; [reflexivity|]. split; [|tauto].
      split; [discriminate|lia].
Qed.
End Damage.

(** ** Ship against asteroid ([_handleShipHazardCollisions]) *)

Section ShipHazard.
Context `{MathLib}.

(** The callback [_handleShipHazardCollisions] hands to [damageShip]. *)
Lemma killAsteroid_callback_ok (ai : nat) :
  absorbCallbackOk (Some (markHitAsteroidDead ai)).
Proof. intros g. split; reflexivity. Qed.

(** C1, what the code does: when the ship (invulnerability at most 0,
    shield level 1) overlaps a tier-0 asteroid, the first live one in the
    collection, the handler leaves shield level 0, the invulnerability
    window [SHIELD_HIT_INVULN] (positive), the lives unchanged, the score
    raised by the tier's value and that asteroid marked dead; but the
    asteroid collection is the old one with that one mark: [split()] is not
    called and no tier-1 child is added. *)
Theorem C1_shield_ram_does_not_split (g : Game.t) (ai : nat) (a : Asteroid.t) :
  State.mode (Game.state g) = PLAY ->
  Ship.invuln (State.ship (Game.state g)) <= 0 ->
  Ship.shieldLevel (State.ship (Game.state g)) = 1%Z ->
  findShipAsteroidHit (State.ship (Game.state g)) (State.asteroids (Game.state g))
  = Some (ai, a) ->
  Asteroid.sizeIndex a = 0%nat ->
  let g' := snd (_handleShipHazardCollisions g) in
  fst (_handleShipHazardCollisions g) = true
  /\ Ship.shieldLevel (State.ship (Game.state g')) = 0%Z
  /\ Ship.invuln (State.ship (Game.state g')) = CONFIG.SHIP.SHIELD_HIT_INVULN
  /\ 0 < Ship.invuln (State.ship (Game.state g'))
  /\ State.lives (Game.state g') = State.lives (Game.state g)
  /\ State.mode (Game.state g') = PLAY
  /\ State.score (Game.state g') = (State.score (Game.state g) + CONFIG.SCORE.LARGE)%Z
  /\ State.asteroids (Game.state g')
     = alter Asteroid.kill ai (State.asteroids (Game.state g))
  /\ length (State.asteroids (Game.state g'))
     = length (State.asteroids (Game.state g)).
Proof.
  intros Hmode Hinv Hshield Hfind Hsize g'. subst g'.
  unfold _handleShipHazardCollisions. cbv zeta. rewrite Hfind.
  rewrite damageShip_shielded by lia. rewrite Hsize.
  replace (negb (scoreForSize 0 =? 0)%Z) with true by reflexivity.
  cbv zeta iota.
  set (gK := markHitAsteroidDead ai g).
  set (gA := Game.onState _ (addScore (scoreForSize 0) gK)).
  assert (HmA : State.mode (Game.state gA) = PLAY).
  { subst gA. simpl. rewrite addScore_mode. exact Hmode. }
  assert (HiA : Ship.invuln (State.ship (Game.state gA))
                = CONFIG.SHIP.SHIELD_HIT_INVULN) by reflexivity.
  rewrite HmA. cbn [Mode_eqb negb andb]. rewrite HiA.
  replace (Qleb CONFIG.SHIP.SHIELD_HIT_INVULN 0) with false by reflexivity.
  cbn [fst snd]. rewrite HiA.
  split; [reflexivity|]. split.
  { subst gA. simpl. rewrite addScore_ship. subst gK. simpl.
    unfold Ship.decreaseShieldLevel. rewrite Hshield. reflexivity. }
  split; [reflexivity|]. split; [reflexivity|]. split.
  { subst gA. simpl. rewrite addScore_lives. reflexivity. }
  split; [exact HmA|]. split.
  { subst gA. simpl. rewrite addScore_score. reflexivity. }
  assert (Hast : State.asteroids (Game.state gA)
                 = alter Asteroid.kill ai (State.asteroids (Game.state g))).
  { subst gA. simpl. rewrite addScore_asteroids. reflexivity. }
  split; [exact Hast|]. rewrite Hast. apply length_alter.
Qed.
End ShipHazard.

(** ** Bullets against asteroids ([forEachBulletAsteroidHit]) *)

Lemma findFrom_none {A} (p : A -> bool) (l : list A) (k : nat) :
  findFrom p k l = None <-> Forall (fun a => p a = false) l.
Proof.
  revert k. induction l as [|x l IH]; intros k; simpl.
  - split; [constructor|reflexivity].
  - destruct (p x) eqn:Hpx.
    + split; [discriminate|]. intros Hall. inversion Hall; subst. congruence.
    + rewrite IH. split.
      * intros Hall. constructor; assumption.
      * intros Hall. inversion Hall; subst. assumption.
Qed.

Lemma findFrom_spec {A} (p : A -> bool) (l : list A) (k i : nat) (a : A) :
  findFrom p k l = Some (i, a) ->
  exists j, i = (k + j)%nat /\ l !! j = Some a /\ p a = true
            /\ forall j' b, (j' < j)%nat -> l !! j' = Some b -> p b = false.
Proof.
  revert k. induction l as [|x l IH]; intros k Hfind; simpl in Hfind.
  - discriminate.
  - destruct (p x) eqn:Hpx.
    + injection Hfind as <- <-. exists 0%nat.
      repeat split; [lia|assumption|]. intros j' b Hlt. lia.
    + destruct (IH _ Hfind) as (j & -> & Hj & Hpa & Hbefore).
      exists (S j). repeat split; [lia|exact Hj|exact Hpa|].
      intros [|j'] b Hlt Hb; simpl in Hb.
      * injection Hb as <-. exact Hpx.
      * apply (Hbefore j' b); [lia|exact Hb].
Qed.

Lemma findFirst_spec {A} (p : A -> bool) (l : list A) (i : nat) (a : A) :
  findFirst p l = Some (i, a) ->
  l !! i = Some a /\ p a = true
  /\ forall j b, (j < i)%nat -> l !! j = Some b -> p b = false.
Proof.
  intros Hfind. destruct (findFrom_spec _ _ _ _ _ Hfind) as (j & -> & ?).
  simpl. assumption.
Qed.

Lemma countIf_app {A} (p : A -> bool) (l1 l2 : list A) :
  countIf p (l1 ++ l2) = (countIf p l1 + countIf p l2)%nat.
Proof. unfold countIf. rewrite List.filter_app. apply length_app. Qed.

Lemma countIf_none {A} (p : A -> bool) (l : list A) :
  Forall (fun a => p a = false) l -> countIf p l = 0%nat.
Proof.
  unfold countIf. induction 1 as [|a l Ha _ IH]; simpl; [reflexivity|].
  now rewrite Ha.
Qed.

Lemma countIf_alter {A} (p : A -> bool) (f : A -> A) (l : list A) (i : nat) (a : A) :
  l !! i = Some a ->
  (countIf p (alter f i l) + (if p a then 1 else 0)
   = countIf p l + (if p (f a) then 1 else 0))%nat.
Proof.
  unfold countIf. revert i. induction l as [|x l IH]; intros i Hi.
  - destruct i; discriminate.
  - destruct i as [|i]; simpl in Hi |- *.
    + injection Hi as ->. destruct (p a), (p (f a)); simpl; lia.
    + specialize (IH i Hi). change (alter f i l) with (list_alter f i l) in IH.
      destruct (p x); simpl; lia.
Qed.

Section BulletHits.
Context `{MathLib}.

Lemma split_children_live (a : Asteroid.t) (n : nat) :
  Forall (fun c => asteroidDead c = false) (fst (Asteroid.split a n)).
Proof.
  unfold Asteroid.split. break_branches.
  - constructor.
  - apply pushTimes_Forall. intros k. reflexivity.
Qed.

(** The round of a live bullet whose first live overlapping asteroid is
    [a], at index [ai]. *)
Lemma bulletAsteroidRound_hit (g : Game.t) (bi ai : nat) (b : Bullet.t) (a : Asteroid.t) :
  State.bullets (Game.state g) !! bi = Some b ->
  Entity.dead (Bullet.base b) = false ->
  findFirst (bulletHits b) (State.asteroids (Game.state g)) = Some (ai, a) ->
  let g' := bulletAsteroidRound onBulletHitsAsteroid bi g in
  State.bullets (Game.state g') = alter Bullet.kill bi (State.bullets (Game.state g))
  /\ State.asteroids (Game.state g')
     = alter Asteroid.kill ai (State.asteroids (Game.state g))
       ++ fst (Asteroid.split (Asteroid.kill a) (Game.draws g))
  /\ State.score (Game.state g')
     = (State.score (Game.state g) + scoreForSize (Asteroid.sizeIndex a))%Z.
Proof.
  intros Hb Hlive Hfind g'. subst g'.
  destruct (findFirst_spec _ _ _ _ Hfind) as (Ha & _ & _).
  unfold bulletAsteroidRound. rewrite Hb, Hlive, Hfind.
  unfold onBulletHitsAsteroid. rewrite Ha. cbv zeta.
  unfold Game.onStateRand, bind.
  rewrite addScore_draws. cbn [Game.draws Game.onState Game.set_state].
  destruct (Asteroid.split (Asteroid.kill a) (Game.draws g)) as [parts n'].
  cbn [ret fst snd Game.state Game.set_draws Game.set_state
       State.bullets State.asteroids State.score State.set_asteroids].
  autorewrite with game. repeat split; reflexivity.
Qed.

Lemma bulletAsteroidRound_miss (g : Game.t) (bi : nat) :
  (forall b, State.bullets (Game.state g) !! bi = Some b ->
             Entity.dead (Bullet.base b) = true
             \/ findFirst (bulletHits b) (State.asteroids (Game.state g)) = None) ->
  bulletAsteroidRound onBulletHitsAsteroid bi g = g.
Proof.
  intros Hmiss. unfold bulletAsteroidRound.
  destruct (State.bullets (Game.state g) !! bi) as [b|] eqn:Hb; [|reflexivity].
  destruct (Hmiss b eq_refl) as [-> | ->]; [reflexivity|].
  now destruct (Entity.dead (Bullet.base b)).
Qed.

Lemma bulletAsteroidRound_potential (g : Game.t) (bi : nat) :
  hitPotential (bulletAsteroidRound onBulletHitsAsteroid bi g) = hitPotential g.
Proof.
  destruct (State.bullets (Game.state g) !! bi) as [b|] eqn:Hb.
  2:{ rewrite bulletAsteroidRound_miss; [reflexivity|]. intros b Hb'. congruence. }
  destruct (Entity.dead (Bullet.base b)) eqn:Hdead.
  { rewrite bulletAsteroidRound_miss; [reflexivity|].
    intros b' Hb'. left. congruence. }
  destruct (findFirst (bulletHits b) (State.asteroids (Game.state g)))
    as [[ai a]|] eqn:Hfind.
  2:{ rewrite bulletAsteroidRound_miss; [reflexivity|].
      intros b' Hb'. right. congruence. }
  destruct (bulletAsteroidRound_hit g bi ai b a Hb Hdead Hfind) as (HB & HA & _).
  cbv zeta in HB, HA. unfold hitPotential. rewrite HB, HA.
  destruct (findFirst_spec _ _ _ _ Hfind) as (Ha & Hp & _).
  rewrite countIf_app.
  rewrite (countIf_none asteroidDead _ (split_children_live _ _)).
  pose proof (countIf_alter asteroidDead Asteroid.kill _ _ _ Ha) as HcA.
  pose proof (countIf_alter bulletLive Bullet.kill _ _ _ Hb) as HcB.
  unfold bulletHits in Hp. apply andb_true_iff in Hp as [Hal _].
  apply negb_true_iff in Hal.
  assert (HdA : asteroidDead a = false) by exact Hal.
  assert (HdA' : asteroidDead (Asteroid.kill a) = true) by reflexivity.
  assert (HlB : bulletLive b = true) by (unfold bulletLive; now rewrite Hdead).
  assert (HlB' : bulletLive (Bullet.kill b) = false) by reflexivity.
  rewrite HdA, HdA' in HcA. rewrite HlB, HlB' in HcB. lia.
Qed.

(** *** The whole loop *)

Lemma forEachIndex_S {St} (body : nat -> St -> St) (k : nat) (s : St) :
  forEachIndex (S k) body s = body k (forEachIndex k body s).
Proof. unfold forEachIndex. rewrite seq_S, fold_left_app. reflexivity. Qed.

Lemma sumOver_app {A} (w : A -> Z) (l1 l2 : list A) :
  sumOver w (l1 ++ l2) = (sumOver w l1 + sumOver w l2)%Z.
Proof. induction l1 as [|x l1 IH]; simpl; [reflexivity|]. rewrite IH. lia. Qed.

Lemma sumOver_zero {A} (w : A -> Z) (l : list A) :
  Forall (fun a => w a = 0%Z) l -> sumOver w l = 0%Z.
Proof. induction 1 as [|a l Ha _ IH]; simpl; [reflexivity|]. lia. Qed.

Lemma sumOver_alter {A} (w : A -> Z) (f : A -> A) (l : list A) (i : nat) (a : A) :
  l !! i = Some a ->
  sumOver w (alter f i l) = (sumOver w l - w a + w (f a))%Z.
Proof.
  revert i. induction l as [|x l IH]; intros i Hi.
  - destruct i; discriminate.
  - destruct i as [|i]; simpl in Hi |- *.
    + injection Hi as ->. lia.
    + specialize (IH i Hi). change (alter f i l) with (list_alter f i l) in IH.
      rewrite IH. lia.
Qed.

Lemma split_length (a : Asteroid.t) (n : nat) :
  Z.of_nat (length (fst (Asteroid.split a n)))
  = if (length CONFIG.ASTEROID.SIZES <=? Asteroid.sizeIndex a + 1)%nat
    then 0%Z else Z.of_nat CONFIG.ASTEROID.SPLIT_COUNT.
Proof.
  unfold Asteroid.split.
  destruct (length CONFIG.ASTEROID.SIZES <=? Asteroid.sizeIndex a + 1)%nat.
  - reflexivity.
  - rewrite pushTimes_length. reflexivity.
Qed.

Lemma markedFrom_refl (g : Game.t) : markedFrom g g.
Proof. unfold markedFrom. repeat split; auto. Qed.

Lemma markedFrom_trans (g1 g2 g3 : Game.t) :
  markedFrom g1 g2 -> markedFrom g2 g3 -> markedFrom g1 g3.
Proof.
  intros (Hl & Hb & Ha & Hp & Hs & Hc) (Hl' & Hb' & Ha' & Hp' & Hs' & Hc').
  split; [congruence|]. split; [|split; [|split; [congruence|split; lia]]].
  - intros i b Hi. destruct (Hb i b Hi) as [H1|H1];
      destruct (Hb' i _ H1) as [H2|H2]; rewrite H2; auto.
  - intros j a Hj. destruct (Ha j a Hj) as [H1|H1];
      destruct (Ha' j _ H1) as [H2|H2]; rewrite H2; auto.
Qed.

(** One round is such a step. *)
Lemma bulletAsteroidRound_markedFrom (bi : nat) (g : Game.t) :
  markedFrom g (bulletAsteroidRound onBulletHitsAsteroid bi g).
Proof.
  destruct (State.bullets (Game.state g) !! bi) as [b|] eqn:Hb.
  2:{ rewrite bulletAsteroidRound_miss; [apply markedFrom_refl|].
      intros b Hb'. congruence. }
  destruct (Entity.dead (Bullet.base b)) eqn:Hdead.
  { rewrite bulletAsteroidRound_miss; [apply markedFrom_refl|].
    intros b' Hb'. left. congruence. }
  destruct (findFirst (bulletHits b) (State.asteroids (Game.state g)))
    as [[ai a]|] eqn:Hfind.
  2:{ rewrite bulletAsteroidRound_miss; [apply markedFrom_refl|].
      intros b' Hb'. right. congruence. }
  pose proof (bulletAsteroidRound_potential g bi) as Hpot.
  destruct (bulletAsteroidRound_hit g bi ai b a Hb Hdead Hfind) as (HB & HA & HS).
  cbv zeta in HB, HA, HS.
  destruct (findFirst_spec _ _ _ _ Hfind) as (Ha & Hp & _).
  unfold bulletHits in Hp. apply andb_true_iff in Hp as [Hal _].
  apply negb_true_iff in Hal.
  assert (HdA : asteroidDead a = false) by exact Hal.
  unfold markedFrom. rewrite HB, HA, HS.
  split; [apply length_alter|]. split; [|split; [|split; [exact Hpot|split]]].
  - intros i b0 Hi. destruct (decide (bi = i)) as [<-|Hne].
    + right. rewrite list_lookup_alter_eq, Hi. reflexivity.
    + left. rewrite list_lookup_alter_ne by exact Hne. exact Hi.
  - intros j a0 Hj.
    rewrite lookup_app_l
      by (rewrite length_alter; apply (lookup_lt_Some _ _ _ Hj)).
    destruct (decide (ai = j)) as [<-|Hne].
    + right. rewrite list_lookup_alter_eq, Hj. reflexivity.
    + left. rewrite list_lookup_alter_ne by exact Hne. exact Hj.
  - unfold deadValue. rewrite sumOver_app.
    rewrite (sumOver_alter _ _ _ _ _ Ha).
    rewrite (sumOver_zero _ (fst (Asteroid.split (Asteroid.kill a) (Game.draws g)))).
    2:{ eapply Forall_impl; [apply split_children_live|].
        intros c Hc. cbv beta in *. now rewrite Hc. }
    cbv beta. rewrite HdA.
    change (asteroidDead (Asteroid.kill a)) with true.
    change (Asteroid.sizeIndex (Asteroid.kill a)) with (Asteroid.sizeIndex a).
    cbv iota. lia.
  - unfold splitDue. rewrite sumOver_app, length_app, length_alter.
    rewrite (sumOver_alter _ _ _ _ _ Ha).
    rewrite (sumOver_zero _ (fst (Asteroid.split (Asteroid.kill a) (Game.draws g)))).
    2:{ eapply Forall_impl; [apply split_children_live|].
        intros c Hc. cbv beta in *. now rewrite Hc. }
    cbv beta. rewrite HdA.
    change (asteroidDead (Asteroid.kill a)) with true.
    change (Asteroid.sizeIndex (Asteroid.kill a)) with (Asteroid.sizeIndex a).
    cbv iota. rewrite Nat2Z.inj_add.
    pose proof (split_length (Asteroid.kill a) (Game.draws g)) as Hlen.
    change (Asteroid.sizeIndex (Asteroid.kill a)) with (Asteroid.sizeIndex a) in Hlen.
    rewrite Hlen. lia.
Qed.

Lemma rounds_markedFrom (k : nat) (g : Game.t) :
  markedFrom g (forEachIndex k (bulletAsteroidRound onBulletHitsAsteroid) g).
Proof.
  apply (forEachIndex_ind (markedFrom g)); [|apply markedFrom_refl].
  intros i s Hs. eapply markedFrom_trans; [exact Hs|].
  apply bulletAsteroidRound_markedFrom.
Qed.

(** The round of the bullet at [bi] touches no other bullet. *)
Lemma bulletAsteroidRound_other_bullets (bi i : nat) (g : Game.t) :
  bi <> i ->
  State.bullets (Game.state (bulletAsteroidRound onBulletHitsAsteroid bi g)) !! i
  = State.bullets (Game.state g) !! i.
Proof.
  intros Hne.
  destruct (State.bullets (Game.state g) !! bi) as [b|] eqn:Hb.
  2:{ rewrite bulletAsteroidRound_miss; [reflexivity|]. intros b Hb'. congruence. }
  destruct (Entity.dead (Bullet.base b)) eqn:Hdead.
  { rewrite bulletAsteroidRound_miss; [reflexivity|].
    intros b' Hb'. left. congruence. }
  destruct (findFirst (bulletHits b) (State.asteroids (Game.state g)))
    as [[ai a]|] eqn:Hfind.
  2:{ rewrite bulletAsteroidRound_miss; [reflexivity|].
      intros b' Hb'. right. congruence. }
  destruct (bulletAsteroidRound_hit g bi ai b a Hb Hdead Hfind) as (HB & _).
  cbv zeta in HB. rewrite HB. apply list_lookup_alter_ne. exact Hne.
Qed.

(** Until its turn comes a bullet is as the loop found it. *)
Lemma rounds_before_turn (k bi : nat) (g : Game.t) :
  (k <= bi)%nat ->
  State.bullets (Game.state
    (forEachIndex k (bulletAsteroidRound onBulletHitsAsteroid) g)) !! bi
  = State.bullets (Game.state g) !! bi.
Proof.
  induction k as [|k IH]; intros Hle; [reflexivity|].
  rewrite forEachIndex_S, bulletAsteroidRound_other_bullets by lia.
  apply IH. lia.
Qed.

(** After its turn a bullet is not touched again. *)
Lemma rounds_after_turn (k bi : nat) (g : Game.t) :
  (bi < k)%nat ->
  State.bullets (Game.state
    (forEachIndex k (bulletAsteroidRound onBulletHitsAsteroid) g)) !! bi
  = State.bullets (Game.state
      (forEachIndex (S bi) (bulletAsteroidRound onBulletHitsAsteroid) g)) !! bi.
Proof.
  induction k as [|k IH]; intros Hlt; [lia|].
  destruct (decide (bi = k)) as [->|Hne]; [reflexivity|].
  rewrite forEachIndex_S, bulletAsteroidRound_other_bullets by lia.
  apply IH. lia.
Qed.

(** A bullet the first [k] rounds leave live overlaps none of the
    asteroids the loop started with that are still live. *)
Lemma rounds_resolve (k : nat) (g : Game.t) :
  let g' := forEachIndex k (bulletAsteroidRound onBulletHitsAsteroid) g in
  forall bi b j a,
    (bi < k)%nat ->
    State.bullets (Game.state g') !! bi = Some b ->
    Entity.dead (Bullet.base b) = false ->
    (j < length (State.asteroids (Game.state g)))%nat ->
    State.asteroids (Game.state g') !! j = Some a ->
    Entity.dead (Asteroid.base a) = false ->
    circleHit (Bullet.base b) (Asteroid.base a) = false.
Proof.
  induction k as [|k IH]; intros g' bi b' j a' Hbi Hb' Hlive Hj Ha' Halive; [lia|].
  subst g'. rewrite forEachIndex_S in Hb', Ha'.
  set (s := forEachIndex k (bulletAsteroidRound onBulletHitsAsteroid) g) in *.
  cbv zeta in IH.
  assert (Hlen : (length (State.asteroids (Game.state g))
                  <= length (State.asteroids (Game.state s)))%nat).
  { destruct (rounds_markedFrom k g) as (_ & _ & Hast & _). fold s in Hast.
    destruct (State.asteroids (Game.state g)
                !! pred (length (State.asteroids (Game.state g)))) as [a0|] eqn:Hlast.
    - destruct (Hast _ _ Hlast) as [H1|H1]; apply lookup_lt_Some in H1; lia.
    - apply lookup_ge_None in Hlast. lia. }
  destruct (State.bullets (Game.state s) !! k) as [b|] eqn:Hb.
  2:{ rewrite bulletAsteroidRound_miss in Hb', Ha'
        by (intros b0 Hb0; congruence).
      destruct (decide (bi = k)) as [->|Hne]; [congruence|].
      apply (IH bi b' j a'); try assumption. lia. }
  destruct (Entity.dead (Bullet.base b)) eqn:Hdead.
  { rewrite bulletAsteroidRound_miss in Hb', Ha'
      by (intros b0 Hb0; left; congruence).
    destruct (decide (bi = k)) as [->|Hne]; [congruence|].
    apply (IH bi b' j a'); try assumption. lia. }
  destruct (findFirst (bulletHits b) (State.asteroids (Game.state s)))
    as [[ai a]|] eqn:Hfind.
  2:{ rewrite bulletAsteroidRound_miss in Hb', Ha'
        by (intros b0 Hb0; right; congruence).
      destruct (decide (bi = k)) as [->|Hne].
      - assert (b' = b) as -> by congruence.
        apply findFrom_none in Hfind.
        pose proof (Forall_lookup_1 _ _ _ _ Hfind Ha') as Hmiss.
        cbv beta in Hmiss. unfold bulletHits in Hmiss.
        rewrite Halive in Hmiss. exact Hmiss.
      - apply (IH bi b' j a'); try assumption. lia. }
  destruct (bulletAsteroidRound_hit s k ai b a Hb Hdead Hfind) as (HB & HA & _).
  cbv zeta in HB, HA. rewrite HB in Hb'. rewrite HA in Ha'.
  destruct (findFirst_spec _ _ _ _ Hfind) as (Hai & _ & _).
  rewrite lookup_app_l in Ha' by (rewrite length_alter; lia).
  destruct (decide (bi = k)) as [->|Hne].
  { rewrite list_lookup_alter_eq, Hb in Hb'. injection Hb' as <-.
    discriminate Hlive. }
  rewrite list_lookup_alter_ne in Hb' by congruence.
  destruct (decide (ai = j)) as [->|Hnj].
  { rewrite list_lookup_alter_eq, Hai in Ha'. injection Ha' as <-.
    discriminate Halive. }
  rewrite list_lookup_alter_ne in Ha' by exact Hnj.
  apply (IH bi b' j a'); try assumption. lia.
Qed.

End BulletHits.

(** ** Score and high score through a PLAY tick *)

Lemma playStep_refl (g : Game.t) : playStep g g.
Proof. split; [apply scoredFrom_refl|reflexivity]. Qed.

Lemma playStep_trans (g1 g2 g3 : Game.t) :
  playStep g1 g2 -> playStep g2 g3 -> playStep g1 g3.
Proof.
  intros [H12 M12] [H23 M23]. split; [|congruence].
  eapply scoredFrom_trans; eassumption.
Qed.

Lemma progress_playStep (g g' : Game.t) :
  progress g' = progress g -> playStep g g'.
Proof.
  intros Hp. split; [apply progress_scoredFrom, Hp|].
  unfold progress, stateProgress in Hp. congruence.
Qed.

Section PlayTick.
Context `{MathLib}.

Lemma addScore_playStep (n : Z) (g : Game.t) :
  (0 <= n)%Z -> playStep g (addScore n g).
Proof.
  intros Hn. split; [apply addScore_scoredFrom, Hn|apply addScore_mode].
Qed.

Lemma scoreForSize_nonneg (idx : nat) : (0 <= scoreForSize idx)%Z.
Proof. unfold scoreForSize. break_branches; vm_compute; discriminate. Qed.

Lemma duplicateScoreOf_nonneg (ty : CONFIG.POWERUP.Type_) :
  (0 <= CONFIG.POWERUP.duplicateScoreOf ty)%Z.
Proof. destruct ty; vm_compute; discriminate. Qed.

(** Peels the mutations off a goal [playStep g (f g)]. *)
Ltac play_step :=
  cbv zeta;
  repeat first
    [ apply playStep_refl
    | match goal with
      | |- playStep ?g (Game.onState _ ?x) =>
          apply (playStep_trans g x);
          [|first
              [ apply progress_playStep, onState_progress;
                intros; cbv beta zeta; break_branches; reflexivity
              | unfold playStep, scoredFrom; simpl; repeat split; lia ]]
      | |- playStep ?g (Game.onStateRand _ ?x) =>
          apply (playStep_trans g x);
          [|apply progress_playStep, onStateRand_progress;
            first [ apply spawnWave_progress
                  | apply spawnUfoForCurrentWave_progress
                  | intros; apply maybeSpawnPowerUpLoop_progress
                  | intros; unfold bind; break_branches; reflexivity ]]
      | |- playStep ?g (addScore _ ?x) =>
          apply (playStep_trans g x);
          [|apply addScore_playStep;
            first [ apply scoreForSize_nonneg | apply duplicateScoreOf_nonneg
                  | vm_compute; discriminate ]]
      | |- playStep _ (if ?c then _ else _) => destruct c
      | |- playStep _ (let (_, _) := ?e in _) => destruct e
      | |- playStep _ (match ?e with Some _ => _ | None => _ end) => destruct e
      | |- playStep _ (match ?e with
                       | CONFIG.WEAPON.MODE_SINGLE => _
                       | CONFIG.WEAPON.MODE_TRIPLE => _
                       | CONFIG.WEAPON.MODE_FIVE => _
                       end) => destruct e
      end ].

Lemma onBulletHitsAsteroid_playStep (bi ai : nat) (g : Game.t) :
  playStep g (onBulletHitsAsteroid bi ai g).
Proof. unfold onBulletHitsAsteroid. play_step. Qed.

Lemma bulletAsteroidRound_playStep (bi : nat) (g : Game.t) :
  playStep g (bulletAsteroidRound onBulletHitsAsteroid bi g).
Proof.
  unfold bulletAsteroidRound.
  destruct (State.bullets (Game.state g) !! bi) as [b|]; [|apply playStep_refl].
  destruct (Entity.dead (Bullet.base b)); [apply playStep_refl|].
  destruct (findFirst _ _) as [[ai a]|]; [|apply playStep_refl].
  apply onBulletHitsAsteroid_playStep.
Qed.

Lemma forEachIndex_playStep (body : nat -> Game.t -> Game.t) (len : nat) (g : Game.t) :
  (forall i s, playStep s (body i s)) -> playStep g (forEachIndex len body g).
Proof.
  intros Hbody. apply (forEachIndex_ind (playStep g)); [|apply playStep_refl].
  intros i s Hs. eapply playStep_trans; [exact Hs|apply Hbody].
Qed.

Lemma bulletUfoRound_playStep (bi : nat) (g : Game.t) :
  playStep g (bulletUfoRound bi g).
Proof. unfold bulletUfoRound. play_step. Qed.

Lemma _handleBulletCollisions_playStep (g : Game.t) :
  playStep g (_handleBulletCollisions g).
Proof.
  unfold _handleBulletCollisions. cbv zeta.
  eapply playStep_trans.
  - apply forEachIndex_playStep. apply bulletAsteroidRound_playStep.
  - apply forEachIndex_playStep. apply bulletUfoRound_playStep.
Qed.

Lemma applyPowerUp_playStep (type : CONFIG.POWERUP.Type_) (g : Game.t) :
  playStep g (applyPowerUp type g).
Proof. unfold applyPowerUp. destruct type; play_step. Qed.

Lemma powerupRound_playStep (pi : nat) (g : Game.t) :
  playStep g (powerupRound pi g).
Proof.
  unfold powerupRound. cbv zeta.
  destruct (State.powerups (Game.state g) !! pi) as [pu|]; [|apply playStep_refl].
  destruct (_ && _); [|apply playStep_refl].
  eapply playStep_trans; [|apply applyPowerUp_playStep].
  play_step.
Qed.

Lemma _handlePowerupCollisions_playStep (g : Game.t) :
  playStep g (_handlePowerupCollisions g).
Proof. apply forEachIndex_playStep, powerupRound_playStep. Qed.
End PlayTick.

Section ShipDamageTick.
Context `{MathLib}.

Lemma damageShip_post (cb : option (Game.t -> Game.t)) (bonus : Z) (g : Game.t) :
  absorbCallbackOk cb -> (0 <= bonus)%Z ->
  State.mode (Game.state g) = PLAY ->
  damagePost g (damageShip cb bonus g).
Proof.
  intros Hcb Hbonus Hmode. unfold damagePost.
  destruct (Z.lt_ge_cases 0 (Ship.shieldLevel (State.ship (Game.state g))))
    as [Hpos|Hle].
  - rewrite damageShip_shielded by exact Hpos. cbn [fst snd]. cbv zeta.
    match goal with
    | |- scoredFrom g ?x /\ _ => assert (Hstep : playStep g x)
    end.
    { match goal with
      | |- playStep ?g (Game.onState _ ?x) => apply (playStep_trans g x)
      end.
      - apply (playStep_trans g (match cb with Some f => f g | None => g end)).
        + destruct cb as [f|]; [|apply playStep_refl].
          apply progress_playStep, Hcb.
        + destruct (negb (bonus =? 0)%Z); [|apply playStep_refl].
          apply addScore_playStep, Hbonus.
      - apply progress_playStep, onState_progress. intros S. reflexivity. }
    destruct Hstep as [Hsc Hm]. split; [exact Hsc|].
    split; [intros _; congruence|discriminate].
  - rewrite damageShip_unshielded by exact Hle. cbv zeta.
    set (g1 := Game.onState (fun S => State.set_lives (State.lives S - 1) S) g).
    assert (H1 : playStep g g1).
    { unfold playStep, scoredFrom, g1. simpl. repeat split; lia. }
    destruct H1 as [Hsc1 Hm1].
    destruct (State.lives (Game.state g1) <=? 0)%Z; cbn [fst snd].
    + set (g2 := Game.onState (State.set_mode GAME_OVER) g1).
      destruct (updateHighScore_scoredFrom g2) as [Hsc2 Hle2].
      assert (Hsc12 : scoredFrom g1 g2).
      { unfold scoredFrom, g2. simpl. repeat split; lia. }
      change (State.score (Game.state g1)) with (State.score (Game.state g2)).
      split; [|split; [discriminate|]].
      * eapply scoredFrom_trans; [exact Hsc1|].
        eapply scoredFrom_trans; [exact Hsc12|exact Hsc2].
      * intros _. split; [|exact Hle2]. rewrite updateHighScore_mode. reflexivity.
    + split; [|split; [|discriminate]].
      * eapply scoredFrom_trans; [exact Hsc1|].
        unfold scoredFrom. simpl. repeat split; lia.
      * intros _. simpl. simpl in Hm1. congruence.
Qed.

(** The same, for the whole of [_handleShipHazardCollisions]: [false] is
    returned only with the run over. *)
Lemma _handleShipHazardCollisions_post (g : Game.t) :
  State.mode (Game.state g) = PLAY ->
  damagePost g (_handleShipHazardCollisions g).
Proof.
  intros Hmode. unfold _handleShipHazardCollisions. cbv zeta.
  (* ship x asteroid *)
  assert (Hstage1 : forall r1 : bool * Game.t,
            damagePost g r1 ->
            damagePost g
              (fst r1 && negb (Mode_eqb (State.mode (Game.state (snd r1))) GAME_OVER),
               snd r1)).
  { intros [b g1] (Hsc & Ht & Hf). cbn [fst snd] in *.
    split; [exact Hsc|]. split.
    - intros Hb. apply andb_true_iff in Hb as [-> _]. auto.
    - destruct b; [|auto]. rewrite (Ht eq_refl). discriminate. }
  set (stage1 :=
    match findShipAsteroidHit (State.ship (Game.state g))
            (State.asteroids (Game.state g)) with
    | Some (ai, hitAsteroid) => _
    | None => (true, g)
    end).
  assert (H1 : damagePost g stage1).
  { subst stage1.
    destruct (findShipAsteroidHit _ _) as [[ai hit]|].
    - pose proof (damageShip_post _ (scoreForSize (Asteroid.sizeIndex hit)) g
                    (killAsteroid_callback_ok ai) (scoreForSize_nonneg _) Hmode) as Hd.
      destruct (damageShip _ _ g) as [survived g1].
      apply (Hstage1 (survived, g1) Hd).
    - split; [apply scoredFrom_refl|]. split; [auto|discriminate]. }
  clearbody stage1. destruct stage1 as [goOn g1].
  destruct H1 as (Hsc1 & Ht1 & Hf1). cbn [fst snd] in *.
  destruct goOn; cbn [negb].
  2:{ split; [exact Hsc1|]. split; [discriminate|auto]. }
  specialize (Ht1 eq_refl). rewrite Ht1. cbn [Mode_eqb].
  destruct (Qleb (Ship.invuln (State.ship (Game.state g1))) 0).
  2:{ split; [exact Hsc1|]. split; [auto|discriminate]. }
  (* ship x enemy craft *)
  set (stage2 :=
    match State.ufo (Game.state g1) with
    | Some u => _
    | None => (true, g1)
    end).
  assert (H2 : damagePost g1 stage2).
  { subst stage2. destruct (State.ufo (Game.state g1)) as [u|].
    - destruct (_ && _).
      + pose proof (damageShip_post None 0 g1 I (Z.le_refl 0) Ht1) as Hd.
        destruct (damageShip None 0 g1) as [survived g2].
        destruct Hd as (Hsc & Ht & Hf). cbn [fst snd] in *.
        split; [exact Hsc|]. split.
        * intros Hb. apply andb_true_iff in Hb as [-> _]. auto.
        * destruct survived; [|auto]. rewrite (Ht eq_refl). discriminate.
      + split; [apply scoredFrom_refl|]. split; [auto|discriminate].
    - split; [apply scoredFrom_refl|]. split; [auto|discriminate]. }
  clearbody stage2. destruct stage2 as [goOn2 g2].
  destruct H2 as (Hsc2 & Ht2 & Hf2). cbn [fst snd] in *.
  assert (Hsc12 : scoredFrom g g2) by (eapply scoredFrom_trans; eassumption).
  destruct goOn2; cbn [negb].
  2:{ split; [exact Hsc12|]. split; [discriminate|auto]. }
  specialize (Ht2 eq_refl).
  destruct (Qleb (Ship.invuln (State.ship (Game.state g2))) 0).
  2:{ split; [exact Hsc12|]. split; [auto|discriminate]. }
  (* ship x enemy projectile *)
  destruct (findFirst _ (State.ufoBullets (Game.state g2))) as [[li laser]|].
  2:{ split; [exact Hsc12|]. split; [auto|discriminate]. }
  set (g3 := Game.onState _ g2).
  assert (Hp3 : progress g3 = progress g2) by reflexivity.
  assert (Hm3 : State.mode (Game.state g3) = PLAY) by exact Ht2.
  pose proof (damageShip_post None 0 g3 I (Z.le_refl 0) Hm3) as Hd.
  destruct (damageShip None 0 g3) as [survived g4].
  destruct Hd as (Hsc & Ht & Hf). cbn [fst snd] in *.
  assert (Hsc4 : scoredFrom g g4).
  { eapply scoredFrom_trans; [exact Hsc12|].
    eapply scoredFrom_trans; [apply progress_scoredFrom, Hp3|exact Hsc]. }
  destruct survived; cbn [negb orb].
  - rewrite (Ht eq_refl). cbn [Mode_eqb].
    split; [exact Hsc4|]. split; [auto|discriminate].
  - split; [exact Hsc4|]. split; [discriminate|auto].
Qed.

(** The collision phase of a PLAY tick: a scoring step that ends with the
    high score caught up with the score, and in PLAY when [update] goes
    on to the cleanup. *)
Lemma resolveCollisions_post (g : Game.t) :
  State.mode (Game.state g) = PLAY ->
  scoredFrom g (snd (resolveCollisions g))
  /\ (State.score (Game.state (snd (resolveCollisions g)))
      <= Game.highScore (snd (resolveCollisions g)))%Z
  /\ (fst (resolveCollisions g) = true ->
      State.mode (Game.state (snd (resolveCollisions g))) = PLAY).
Proof.
  intros Hmode. unfold resolveCollisions. cbv zeta.
  destruct (_handleBulletCollisions_playStep g) as [Hsc1 Hm1].
  set (g1 := _handleBulletCollisions g) in *.
  assert (Hmode1 : State.mode (Game.state g1) = PLAY) by congruence.
  rewrite Hmode1. cbn [Mode_eqb].
  set (stage :=
    if Qleb (Ship.invuln (State.ship (Game.state g1))) 0 then _ else (true, g1)).
  assert (Hstage : damagePost g1 stage).
  { subst stage. destruct (Qleb _ 0).
    - pose proof (_handleShipHazardCollisions_post g1 Hmode1) as Hd.
      destruct (_handleShipHazardCollisions g1) as [survived g2].
      destruct Hd as (Hsc & Ht & Hf). cbn [fst snd] in *.
      split; [exact Hsc|]. split.
      + intros Hb. apply andb_true_iff in Hb as [-> _]. auto.
      + destruct survived; [|auto]. rewrite (Ht eq_refl). discriminate.
    - split; [apply scoredFrom_refl|]. split; [auto|discriminate]. }
  clearbody stage. destruct stage as [goOn g2].
  destruct Hstage as (Hsc2 & Ht2 & Hf2). cbn [fst snd] in *.
  assert (Hsc12 : scoredFrom g g2) by (eapply scoredFrom_trans; eassumption).
  destruct goOn; cbn [negb fst snd].
  - specialize (Ht2 eq_refl).
    destruct (_handlePowerupCollisions_playStep g2) as [Hsc3 Hm3].
    set (g3 := _handlePowerupCollisions g2) in *.
    destruct (updateHighScore_scoredFrom g3) as [Hsc4 Hle4].
    split; [|split; [exact Hle4|]].
    + eapply scoredFrom_trans; [exact Hsc12|].
      eapply scoredFrom_trans; [exact Hsc3|exact Hsc4].
    + intros _. rewrite updateHighScore_mode. congruence.
  - destruct (Hf2 eq_refl) as [_ Hle]. split; [exact Hsc12|].
    split; [exact Hle|discriminate].
Qed.
End ShipDamageTick.

(** ** Wave progression (the block that ends [update]; src/systems/Spawner.js) *)

Section Waves.
Context `{MathLib}.

Lemma onStateRand_state (f : State.t -> Rand State.t) (g : Game.t) :
  Game.state (Game.onStateRand f g) = fst (f (Game.state g) (Game.draws g)).
Proof.
  unfold Game.onStateRand. destruct (f (Game.state g) (Game.draws g)). reflexivity.
Qed.

Lemma maybeSpawnPowerUpLoop_asteroids entries (S : State.t) (n : nat) :
  State.asteroids (fst (maybeSpawnPowerUpLoop entries S n)) = State.asteroids S.
Proof.
  revert S n. induction entries as [|[type rules] rest IH]; intros S n; simpl.
  - reflexivity.
  - unfold bind. destruct (shouldSpawnType rules (State.wave S) n) as [spawn n1].
    destruct spawn.
    + destruct (randomEdgeSpawn _ _ _ n1) as [pos n2].
      destruct (PowerUp.new _ _ type n2) as [pu n3].
      rewrite IH. reflexivity.
    + apply IH.
Qed.

Lemma spawnWaveAsteroid_tier (speedMultiplier : Q) (n : nat) :
  Asteroid.sizeIndex (fst (spawnWaveAsteroid speedMultiplier n)) = 0%nat
  /\ Entity.dead (Asteroid.base (fst (spawnWaveAsteroid speedMultiplier n))) = false.
Proof.
  unfold spawnWaveAsteroid, bind.
  destruct (randomEdgeSpawn _ _ _ n) as [pos n1].
  destruct (random n1) as [u n2].
  split; reflexivity.
Qed.

(** The wave [spawnWave] adds: [START_COUNT + wave * GROWTH] asteroids (none
    if that is negative), all of tier 0 and live, after the ones there. *)
Lemma spawnWave_asteroids (S : State.t) (n : nat) :
  exists spawned,
    State.asteroids (fst (spawnWave S n)) = State.asteroids S ++ spawned
    /\ length spawned
       = Z.to_nat (CONFIG.WAVES.START_COUNT + State.wave S * CONFIG.WAVES.GROWTH)
    /\ Forall (fun a => Asteroid.sizeIndex a = 0%nat
                        /\ Entity.dead (Asteroid.base a) = false) spawned.
Proof.
  unfold spawnWave, bind.
  set (count := Z.to_nat _). set (make := spawnWaveAsteroid _).
  pose proof (pushTimes_length make count n) as Hlen.
  pose proof (pushTimes_Forall
                (fun a => Asteroid.sizeIndex a = 0%nat
                          /\ Entity.dead (Asteroid.base a) = false)
                make (spawnWaveAsteroid_tier _) count n) as Hall.
  destruct (pushTimes count make n) as [spawned n']. cbn [fst] in *.
  exists spawned. repeat split; assumption.
Qed.

(** The progression block when it fires. *)
Lemma nextWaveCheck_fires (g : Game.t) :
  State.asteroids (Game.state g) = [] ->
  State.mode (Game.state g) = PLAY ->
  State.wave (Game.state (nextWaveCheck g)) = (State.wave (Game.state g) + 1)%Z
  /\ length (State.asteroids (Game.state (nextWaveCheck g)))
     = Z.to_nat (CONFIG.WAVES.START_COUNT
                 + (State.wave (Game.state g) + 1) * CONFIG.WAVES.GROWTH)
  /\ Forall (fun a => Asteroid.sizeIndex a = 0%nat
                      /\ Entity.dead (Asteroid.base a) = false)
            (State.asteroids (Game.state (nextWaveCheck g))).
Proof.
  intros Hempty Hmode. unfold nextWaveCheck. cbv zeta.
  rewrite Hempty, Hmode. cbn [length Nat.eqb Mode_eqb andb].
  set (g1 := Game.onState (fun S => State.set_wave (State.wave S + 1) S) g).
  set (g2 := Game.onStateRand spawnWave g1).
  set (g3 := Game.onStateRand maybeSpawnPowerUp g2).
  assert (H3 : State.wave (Game.state (resetUfoStateForWave g3))
               = State.wave (Game.state g3)
               /\ State.asteroids (Game.state (resetUfoStateForWave g3))
                  = State.asteroids (Game.state g3)) by (split; reflexivity).
  destruct H3 as [-> ->].
  assert (H2 : State.wave (Game.state g3) = State.wave (Game.state g2)
               /\ State.asteroids (Game.state g3) = State.asteroids (Game.state g2)).
  { unfold g3. rewrite onStateRand_state. unfold maybeSpawnPowerUp. split.
    - apply (stateProgress_eq _ _ (maybeSpawnPowerUpLoop_progress _ _ _)).
    - apply maybeSpawnPowerUpLoop_asteroids. }
  destruct H2 as [-> ->].
  unfold g2. rewrite onStateRand_state.
  destruct (stateProgress_eq _ _ (spawnWave_progress (Game.state g1) (Game.draws g1)))
    as (_ & Hw1 & _).
  destruct (spawnWave_asteroids (Game.state g1) (Game.draws g1))
    as (spawned & Hast & Hlen & Hall).
  rewrite Hw1, Hast.
  assert (Hg1w : State.wave (Game.state g1) = (State.wave (Game.state g) + 1)%Z)
    by reflexivity.
  assert (Hg1a : State.asteroids (Game.state g1) = []).
  { unfold g1. simpl. exact Hempty. }
  rewrite Hg1w in *. rewrite Hg1a. cbn [app].
  repeat split; assumption.
Qed.

(** The progression block otherwise. *)
Lemma nextWaveCheck_idle (g : Game.t) :
  ~ (State.asteroids (Game.state g) = [] /\ State.mode (Game.state g) = PLAY) ->
  nextWaveCheck g = g.
Proof.
  intros Hnot. unfold nextWaveCheck. cbv zeta.
  destruct (State.asteroids (Game.state g)) as [|a l] eqn:Ha; [|reflexivity].
  destruct (State.mode (Game.state g)) eqn:Hm; try reflexivity.
  exfalso. apply Hnot. split; reflexivity.
Qed.

(** The block never touches the score, the high scores or the mode. *)
Lemma nextWaveCheck_keeps (g : Game.t) :
  State.score (Game.state (nextWaveCheck g)) = State.score (Game.state g)
  /\ Game.highScore (nextWaveCheck g) = Game.highScore g
  /\ State.highScore (Game.state (nextWaveCheck g)) = State.highScore (Game.state g)
  /\ State.mode (Game.state (nextWaveCheck g)) = State.mode (Game.state g).
Proof.
  unfold nextWaveCheck. cbv zeta.
  destruct (_ && _); [|repeat split; reflexivity].
  set (g1 := Game.onState (fun S => State.set_wave (State.wave S + 1) S) g).
  assert (Hp : progress (resetUfoStateForWave
                 (Game.onStateRand maybeSpawnPowerUp (Game.onStateRand spawnWave g1)))
               = progress g1).
  { rewrite resetUfoStateForWave_progress.
    rewrite onStateRand_progress
      by (intros; apply maybeSpawnPowerUpLoop_progress).
    apply onStateRand_progress, spawnWave_progress. }
  destruct (progress_eq _ _ Hp) as (Hm & _ & Hs & _ & Hh & Hg).
  rewrite Hm, Hs, Hh, Hg. repeat split; reflexivity.
Qed.

(** C4: within a PLAY tick the wave index changes and a wave is spawned
    exactly at the check that ends the tick, when the tick reaches it
    ([update] did not return early) with the asteroid collection empty and
    the mode PLAY (which it is whenever the check is reached).  Then the
    wave index is incremented and the collection holds exactly
    [START_COUNT + wave * GROWTH] asteroids for the new index, all of
    tier 0; in every other case the tick ends with the wave index
    unchanged and nothing spawned. *)
Theorem C4_next_wave_exactly_when_cleared (dt : Q) (input : Input.t) (g : Game.t) :
  State.mode (Game.state g) = PLAY ->
  (0 <= State.wave (Game.state g))%Z ->
  let reached := fst (resolveCollisions (updateEntities dt input g)) in
  let atCheck := cleanup (snd (resolveCollisions (updateEntities dt input g))) in
  let cleared := reached = true
                 /\ State.asteroids (Game.state atCheck) = []
                 /\ State.mode (Game.state atCheck) = PLAY in
  State.wave (Game.state atCheck) = State.wave (Game.state g)
  /\ (reached = true -> State.mode (Game.state atCheck) = PLAY)
  /\ (cleared ->
      State.wave (Game.state (update dt input g)) = (State.wave (Game.state g) + 1)%Z
      /\ Z.of_nat (length (State.asteroids (Game.state (update dt input g))))
         = (CONFIG.WAVES.START_COUNT
            + (State.wave (Game.state g) + 1) * CONFIG.WAVES.GROWTH)%Z
      /\ Forall (fun a => Asteroid.sizeIndex a = 0%nat)
                (State.asteroids (Game.state (update dt input g))))
  /\ (~ cleared ->
      State.wave (Game.state (update dt input g)) = State.wave (Game.state g)
      /\ update dt input g
         = if reached then atCheck
           else snd (resolveCollisions (updateEntities dt input g))).
Proof.
  intros Hmode Hwave reached atCheck cleared.
  pose proof (updateEntities_progress dt input g) as Hp1.
  set (g1 := updateEntities dt input g) in *.
  assert (Hmode1 : State.mode (Game.state g1) = PLAY).
  { unfold progress, stateProgress in Hp1. congruence. }
  assert (Hwave1 : State.wave (Game.state g1) = State.wave (Game.state g)).
  { unfold progress, stateProgress in Hp1. congruence. }
  destruct (resolveCollisions_post g1 Hmode1) as ((Hwave2 & _) & _ & Hmode2).
  assert (HwaveC : State.wave (Game.state atCheck) = State.wave (Game.state g)).
  { subst atCheck. pose proof (cleanup_progress (snd (resolveCollisions g1))) as Hpc.
    unfold progress, stateProgress in Hpc. congruence. }
  assert (Hupd : update dt input g
                 = if reached then nextWaveCheck atCheck
                   else snd (resolveCollisions g1)).
  { unfold update. rewrite Hmode. cbv zeta. fold g1.
    subst reached atCheck. destruct (resolveCollisions g1) as [goOn g2].
    cbn [fst snd]. destruct goOn; reflexivity. }
  split; [exact HwaveC|]. split; [|split].
  - intros Hreached. subst atCheck.
    destruct (progress_eq _ _ (cleanup_progress (snd (resolveCollisions g1))))
      as (Hm & _).
    rewrite Hm. apply Hmode2. exact Hreached.
  - intros (Hreached & Hempty & HmodeC). rewrite Hupd, Hreached.
    destruct (nextWaveCheck_fires atCheck Hempty HmodeC) as (Hw & Hlen & Hall).
    rewrite Hw, Hlen, HwaveC. split; [reflexivity|]. split.
    + apply Z2Nat.id. unfold CONFIG.WAVES.START_COUNT, CONFIG.WAVES.GROWTH. lia.
    + eapply Forall_impl; [exact Hall|]. intros a [Ha _]. exact Ha.
  - intros Hnot. rewrite Hupd. destruct reached eqn:Hreached.
    + rewrite nextWaveCheck_idle.
      * split; [exact HwaveC|reflexivity].
      * intros [Hempty HmodeC]. apply Hnot. repeat split; assumption.
    + split; [|reflexivity]. congruence.
Qed.
End Waves.

(** ** Bullets against asteroids: the claim *)

Section BulletTick.
Context `{MathLib}.

(** What follows the bullet loops in [resolveCollisions] never lowers the
    score. *)
Lemma resolveCollisions_after_bullets (g : Game.t) :
  State.mode (Game.state g) = PLAY ->
  scoredFrom (_handleBulletCollisions g) (snd (resolveCollisions g)).
Proof.
  intros Hmode. unfold resolveCollisions. cbv zeta.
  destruct (_handleBulletCollisions_playStep g) as [_ Hm1].
  set (g1 := _handleBulletCollisions g) in *.
  assert (Hmode1 : State.mode (Game.state g1) = PLAY) by congruence.
  rewrite Hmode1. cbn [Mode_eqb].
  set (stage :=
    if Qleb (Ship.invuln (State.ship (Game.state g1))) 0 then _ else (true, g1)).
  assert (Hstage : scoredFrom g1 (snd stage)).
  { subst stage. destruct (Qleb _ 0).
    - pose proof (_handleShipHazardCollisions_post g1 Hmode1) as Hd.
      destruct (_handleShipHazardCollisions g1) as [survived g2].
      destruct Hd as (Hsc & _). exact Hsc.
    - apply scoredFrom_refl. }
  clearbody stage. destruct stage as [goOn g2]. cbn [fst snd] in *.
  destruct goOn; cbn [negb fst snd]; [|exact Hstage].
  destruct (_handlePowerupCollisions_playStep g2) as [Hsc3 _].
  destruct (updateHighScore_scoredFrom (_handlePowerupCollisions g2)) as [Hsc4 _].
  eapply scoredFrom_trans; [exact Hstage|].
  eapply scoredFrom_trans; [exact Hsc3|exact Hsc4].
Qed.

(** C9: each bullet destroys at most one asteroid per tick.

    One round.  For a live bullet whose first live overlapping asteroid
    in collection order is the one at [ai]: the bullet and that asteroid
    are marked dead, the asteroid's [split()] children are appended, the
    score rises by the tier's value, every other asteroid of the
    collection is untouched (the bullet's other overlaps are skipped),
    and no asteroid before [ai] was a live overlap.  A dead bullet or one
    without a live overlap changes nothing.  The tier values grow with
    the tier (the smallest asteroid scores highest).

    The whole loop.  The loop gives every bullet its round, in collection
    order, on the game the rounds before it have left; until its round a
    bullet is as the loop found it, and after its round it is not touched
    again.  When the loop is done, every bullet and every asteroid it
    started with is in its place, as it was or marked dead; exactly one
    asteroid has died for each bullet that has; the score has risen by
    exactly the tier scores of the asteroids that died, and the
    collection has grown by exactly the children they were due; and no
    bullet that is still live overlaps an asteroid of the starting
    collection that is still live: every first overlap has been
    resolved.

    The tick.  In PLAY, [update] runs this loop on the game the entity
    phase leaves, before the loop of the bullets against the UFO and the
    other collisions, and the score the loop leaves is not lowered in the
    rest of the tick. *)
Theorem C9_one_asteroid_per_bullet
    (dt : Q) (input : Input.t) (g : Game.t) (bi : nat) :
  (forall b ai a,
     State.bullets (Game.state g) !! bi = Some b ->
     Entity.dead (Bullet.base b) = false ->
     findFirst (bulletHits b) (State.asteroids (Game.state g)) = Some (ai, a) ->
     let g' := bulletAsteroidRound onBulletHitsAsteroid bi g in
     State.bullets (Game.state g') = alter Bullet.kill bi (State.bullets (Game.state g))
     /\ State.asteroids (Game.state g')
        = alter Asteroid.kill ai (State.asteroids (Game.state g))
          ++ fst (Asteroid.split (Asteroid.kill a) (Game.draws g))
     /\ State.score (Game.state g')
        = (State.score (Game.state g) + scoreForSize (Asteroid.sizeIndex a))%Z
     /\ (forall j, j <> ai -> (j < length (State.asteroids (Game.state g)))%nat ->
           State.asteroids (Game.state g') !! j
           = State.asteroids (Game.state g) !! j)
     /\ (forall j a', (j < ai)%nat ->
           State.asteroids (Game.state g) !! j = Some a' ->
           bulletHits b a' = false))
  /\ ((forall b, State.bullets (Game.state g) !! bi = Some b ->
                 Entity.dead (Bullet.base b) = true
                 \/ findFirst (bulletHits b) (State.asteroids (Game.state g)) = None) ->
      bulletAsteroidRound onBulletHitsAsteroid bi g = g)
  /\ (scoreForSize 0 < scoreForSize 1 < scoreForSize 2)%Z
  /\ (countIf asteroidDead
        (State.asteroids (Game.state (forEachBulletAsteroidHit onBulletHitsAsteroid g)))
      <= countIf asteroidDead (State.asteroids (Game.state g))
         + countIf bulletLive (State.bullets (Game.state g)))%nat
  /\ (let turn := fun k => forEachIndex k (bulletAsteroidRound onBulletHitsAsteroid) g in
      let g' := forEachBulletAsteroidHit onBulletHitsAsteroid g in
      g' = turn (length (State.bullets (Game.state g)))
      /\ turn 0%nat = g
      /\ (forall k, turn (S k) = bulletAsteroidRound onBulletHitsAsteroid k (turn k))
      /\ State.bullets (Game.state (turn bi)) !! bi
         = State.bullets (Game.state g) !! bi
      /\ ((bi < length (State.bullets (Game.state g)))%nat ->
          State.bullets (Game.state g') !! bi
          = State.bullets (Game.state (turn (S bi))) !! bi)
      /\ markedFrom g g'
      /\ (forall b j a,
            State.bullets (Game.state g') !! bi = Some b ->
            Entity.dead (Bullet.base b) = false ->
            (j < length (State.asteroids (Game.state g)))%nat ->
            State.asteroids (Game.state g') !! j = Some a ->
            Entity.dead (Asteroid.base a) = false ->
            circleHit (Bullet.base b) (Asteroid.base a) = false))
  /\ (State.mode (Game.state g) = PLAY ->
      let g1 := updateEntities dt input g in
      let g2 := forEachBulletAsteroidHit onBulletHitsAsteroid g1 in
      _handleBulletCollisions g1
      = forEachIndex (length (State.bullets (Game.state g2))) bulletUfoRound g2
      /\ markedFrom g1 g2
      /\ (State.score (Game.state g2)
          <= State.score (Game.state (update dt input g)))%Z).
Proof.
  split; [|split; [|split; [|split; [|split]]]].
  - intros b ai a Hb Hlive Hfind g'.
    destruct (bulletAsteroidRound_hit g bi ai b a Hb Hlive Hfind) as (HB & HA & HS).
    destruct (findFirst_spec _ _ _ _ Hfind) as (Ha & _ & Hbefore).
    repeat split; [exact HB|exact HA|exact HS| |exact Hbefore].
    intros j Hne Hlt. subst g'. cbv zeta in HA. rewrite HA.
    rewrite lookup_app_l by (rewrite length_alter; exact Hlt).
    apply list_lookup_alter_ne. congruence.
  - apply bulletAsteroidRound_miss.
  - vm_compute. split; reflexivity.
  - destruct (rounds_markedFrom (length (State.bullets (Game.state g))) g)
      as (_ & _ & _ & Hpot & _).
    unfold forEachBulletAsteroidHit. unfold hitPotential in Hpot. lia.
  - cbv zeta. unfold forEachBulletAsteroidHit.
    split; [reflexivity|]. split; [reflexivity|].
    split; [intros k; apply forEachIndex_S|].
    split; [apply rounds_before_turn; lia|].
    split; [intros Hlt; apply rounds_after_turn; exact Hlt|].
    split; [apply rounds_markedFrom|].
    intros b j a Hb Hlive Hj Ha Halive.
    assert (Hlt : (bi < length (State.bullets (Game.state g)))%nat).
    { destruct (rounds_markedFrom (length (State.bullets (Game.state g))) g)
        as (Hlen & _).
      apply lookup_lt_Some in Hb. lia. }
    exact (rounds_resolve _ g bi b j a Hlt Hb Hlive Hj Ha Halive).
  - intros Hmode. cbv zeta.
    set (g1 := updateEntities dt input g).
    set (g2 := forEachBulletAsteroidHit onBulletHitsAsteroid g1).
    split; [reflexivity|]. split; [apply rounds_markedFrom|].
    assert (Hmode1 : State.mode (Game.state g1) = PLAY).
    { destruct (progress_eq _ _ (updateEntities_progress dt input g)) as (Hm & _).
      fold g1 in Hm. congruence. }
    assert (Hufo : playStep g2 (_handleBulletCollisions g1)).
    { unfold _handleBulletCollisions. cbv zeta. fold g2.
      apply forEachIndex_playStep. apply bulletUfoRound_playStep. }
    destruct Hufo as ((_ & Hs1 & _) & _).
    destruct (resolveCollisions_after_bullets g1 Hmode1) as (_ & Hs2 & _).
    assert (Hscore : State.score (Game.state (update dt input g))
                     = State.score (Game.state (snd (resolveCollisions g1)))).
    { unfold update. rewrite Hmode. cbv zeta. fold g1.
      destruct (resolveCollisions g1) as [goOn g3].
      cbn [fst snd]. destruct goOn; cbn [negb]; [|reflexivity].
      destruct (nextWaveCheck_keeps (cleanup g3)) as (Hs & _).
      destruct (progress_eq _ _ (cleanup_progress g3)) as (_ & _ & Hs' & _).
      congruence. }
    rewrite Hscore. lia.
Qed.
End BulletTick.

(** ** Score and high score over a run *)

Lemma fold_right_max_base (c b : Z) (l : list Z) :
  Z.max c (fold_right Z.max b l) = fold_right Z.max (Z.max c b) l.
Proof. induction l as [|a l IH]; simpl; [reflexivity|]. rewrite <- IH. lia. Qed.

Lemma fold_right_max_ge (b : Z) (l : list Z) : (b <= fold_right Z.max b l)%Z.
Proof. induction l as [|a l IH]; simpl; lia. Qed.

Lemma last_cons_default {A} (a d : A) (l : list A) :
  List.last (a :: l) d = List.last l a.
Proof.
  revert a d. induction l as [|b l IH]; intros a d; [reflexivity|].
  change (List.last (a :: b :: l) d) with (List.last (b :: l) d).
  rewrite (IH b d), (IH b a). reflexivity.
Qed.

Section Runs.
Context `{MathLib}.

(** One PLAY tick: the score does not drop and the high score ends as the
    larger of its old value and the new score. *)
Lemma update_play_tick (dt : Q) (input : Input.t) (g : Game.t) :
  State.mode (Game.state g) = PLAY ->
  (State.score (Game.state g) <= State.score (Game.state (update dt input g)))%Z
  /\ Game.highScore (update dt input g)
     = Z.max (Game.highScore g) (State.score (Game.state (update dt input g)))
  /\ (State.highScore (Game.state g) = Game.highScore g ->
      State.highScore (Game.state (update dt input g))
      = Game.highScore (update dt input g)).
Proof.
  intros Hmode.
  destruct (progress_eq _ _ (updateEntities_progress dt input g))
    as (Hm1 & _ & Hs1 & _ & Hh1 & Hg1).
  set (g1 := updateEntities dt input g) in *.
  assert (Hmode1 : State.mode (Game.state g1) = PLAY) by congruence.
  destruct (resolveCollisions_post g1 Hmode1)
    as ((_ & Hs2 & Hlo & Hhi & Hsync) & Hle & _).
  assert (Hupd : exists g3,
            update dt input g = g3
            /\ State.score (Game.state g3)
               = State.score (Game.state (snd (resolveCollisions g1)))
            /\ Game.highScore g3 = Game.highScore (snd (resolveCollisions g1))
            /\ State.highScore (Game.state g3)
               = State.highScore (Game.state (snd (resolveCollisions g1)))).
  { unfold update. rewrite Hmode. cbv zeta. fold g1.
    destruct (resolveCollisions g1) as [goOn g2]. cbn [fst snd].
    destruct goOn; cbn [negb].
    - eexists. split; [reflexivity|].
      destruct (nextWaveCheck_keeps (cleanup g2)) as (Hs & Hg & Hh & _).
      destruct (progress_eq _ _ (cleanup_progress g2)) as (_ & _ & Hs' & _ & Hh' & Hg').
      repeat split; congruence.
    - eexists. repeat split; reflexivity. }
  destruct Hupd as (g3 & -> & Hs3 & Hg3 & Hh3).
  rewrite Hs3, Hg3, Hh3. repeat split; lia.
Qed.

(** The answer of the store: with a number [>= 0] it overwrites the three
    high-score fields, whatever they were, and touches nothing else. *)
Lemma _loadHighScoreAsync_spec (storedScore : option Z) (g : Game.t) :
  let g' := _loadHighScoreAsync storedScore g in
  State.score (Game.state g') = State.score (Game.state g)
  /\ State.mode (Game.state g') = State.mode (Game.state g)
  /\ Game.highScore g'
     = match storedScore with
       | Some s => if (0 <=? s)%Z then s else Game.highScore g
       | None => Game.highScore g
       end
  /\ (State.highScore (Game.state g) = Game.highScore g ->
      State.highScore (Game.state g') = Game.highScore g').
Proof.
  unfold _loadHighScoreAsync.
  destruct storedScore as [s|]; [destruct (0 <=? s)%Z|]; cbn;
    repeat split; auto.
Qed.

Lemma run_scores (events : list Event) (g : Game.t) :
  State.highScore (Game.state g) = Game.highScore g ->
  (forall i g1 g2,
     (g :: run events g) !! i = Some g1 ->
     (g :: run events g) !! S i = Some g2 ->
     (State.score (Game.state g1) <= State.score (Game.state g2))%Z)
  /\ Game.highScore (List.last (run events g) g)
     = highScoreAfter (Game.highScore g) events (run events g)
  /\ State.highScore (Game.state (List.last (run events g) g))
     = Game.highScore (List.last (run events g) g).
Proof.
  revert g. induction events as [|e rest IH]; intros g Hsync.
  - cbn [run List.last highScoreAfter].
    split; [|split; [reflexivity|exact Hsync]].
    intros i g1 g2 _ H2. destruct i; discriminate.
  - cbn [run]. destruct (State.mode (Game.state g)) eqn:Hmode.
    1,3: (cbn [List.last]; destruct e as [dt input|[s|]]; cbn [highScoreAfter];
          (split; [|split; [reflexivity|exact Hsync]]);
          intros i g1 g2 _ H2; destruct i; discriminate).
    cbv zeta.
    assert (Hstep : (State.score (Game.state g) <= State.score (Game.state (step e g)))%Z
              /\ State.highScore (Game.state (step e g)) = Game.highScore (step e g)
              /\ highScoreAfter (Game.highScore g) (e :: rest)
                                (step e g :: run rest (step e g))
                 = highScoreAfter (Game.highScore (step e g)) rest
                                  (run rest (step e g))).
    { destruct e as [dt input|storedScore]; cbn [step].
      - destruct (update_play_tick dt input g Hmode) as (Hmono & Hmax & Hsync').
        split; [exact Hmono|]. split; [exact (Hsync' Hsync)|].
        cbn [highScoreAfter]. rewrite Hmax. reflexivity.
      - destruct (_loadHighScoreAsync_spec storedScore g) as (Hs & _ & Hh & Hsync').
        cbv zeta in Hs, Hh, Hsync'.
        split; [rewrite Hs; lia|]. split; [exact (Hsync' Hsync)|].
        rewrite Hh. destruct storedScore as [s|]; reflexivity. }
    destruct Hstep as (Hmono & Hsync' & Hafter).
    set (g' := step e g) in *.
    destruct (IH g' Hsync') as (IHmono & IHmax & IHsync).
    split; [|split].
    + intros [|i] g1 g2 H1 H2.
      * cbn in H1, H2. injection H1 as <-. injection H2 as <-. exact Hmono.
      * apply (IHmono i g1 g2); assumption.
    + rewrite last_cons_default, IHmax, Hafter. reflexivity.
    + rewrite last_cons_default. exact IHsync.
Qed.

(** Without an answer of the store in between, the high score is a running
    maximum. *)
Lemma highScoreAfter_short (events : list Event) (seen : list Game.t) (h : Z) :
  forallb isTick events = true ->
  (length seen <= length events)%nat ->
  highScoreAfter h events seen
  = fold_right Z.max h (map (fun g' => State.score (Game.state g')) seen).
Proof.
  revert seen h. induction events as [|e rest IH]; intros seen h Hticks Hlen.
  - destruct seen; [reflexivity|simpl in Hlen; lia].
  - cbn [forallb] in Hticks. apply andb_true_iff in Hticks as [He Hrest].
    destruct e as [dt input|s]; [|discriminate].
    destruct seen as [|g' seen]; [reflexivity|].
    cbn [highScoreAfter map fold_right].
    rewrite IH by (try assumption; simpl in Hlen; lia).
    rewrite fold_right_max_base, (Z.max_comm h). reflexivity.
Qed.

Lemma run_length (events : list Event) (g : Game.t) :
  (length (run events g) <= length events)%nat.
Proof.
  revert g. induction events as [|e rest IH]; intros g; cbn [run].
  - simpl. lia.
  - destruct (State.mode (Game.state g)); simpl; try lia.
    specialize (IH (step e g)). lia.
Qed.
End Runs.

Section RunTheorems.
Context `{MathLib}.

(** C5, amended: within a run the score never decreases from one event
    (a tick, or the answer of the persistence store) to the next; every
    scoring event leaves the stored high score at the larger of its
    previous value and the current score; the answer of the store, when
    it is a number that is not negative, replaces the three high-score
    fields by that number whatever the score is, and changes nothing else
    (any other answer changes nothing at all); so at the end
    of the run the high score is the running maximum started at the last
    such answer, or at the high score the run began with, over the scores
    the ticks since then have left ([highScoreAfter]), and the state's
    copy of the high score agrees with it.  In a run without an answer of
    the store that is the larger of the high score the run started with
    and the highest score seen in the run.  [g] is the game at the start
    of the run, with its two high-score fields in step, as [startGame] and
    [reset] leave it. *)
Theorem C5_score_grows_high_score_is_max (events : list Event) (g : Game.t) :
  State.highScore (Game.state g) = Game.highScore g ->
  (forall i g1 g2,
     (g :: run events g) !! i = Some g1 ->
     (g :: run events g) !! S i = Some g2 ->
     (State.score (Game.state g1) <= State.score (Game.state g2))%Z)
  /\ (forall n g0,
        Game.highScore (addScore n g0)
        = Z.max (Game.highScore g0) (State.score (Game.state (addScore n g0)))
        /\ (State.highScore (Game.state g0) = Game.highScore g0 ->
            State.highScore (Game.state (addScore n g0))
            = Z.max (Game.highScore g0) (State.score (Game.state (addScore n g0)))))
  /\ (forall storedScore g0,
        (0 <= storedScore)%Z ->
        Game.highScore (_loadHighScoreAsync (Some storedScore) g0) = storedScore
        /\ State.highScore (Game.state (_loadHighScoreAsync (Some storedScore) g0))
           = storedScore
        /\ Game._lastPersistedHighScore (_loadHighScoreAsync (Some storedScore) g0)
           = storedScore
        /\ Game.state (_loadHighScoreAsync (Some storedScore) g0)
           = State.set_highScore storedScore (Game.state g0)
        /\ Game.draws (_loadHighScoreAsync (Some storedScore) g0) = Game.draws g0)
  /\ (forall storedScore g0,
        (storedScore < 0)%Z ->
        _loadHighScoreAsync (Some storedScore) g0 = g0
        /\ _loadHighScoreAsync None g0 = g0)
  /\ Game.highScore (List.last (run events g) g)
     = highScoreAfter (Game.highScore g) events (run events g)
  /\ State.highScore (Game.state (List.last (run events g) g))
     = Game.highScore (List.last (run events g) g)
  /\ (forallb isTick events = true ->
      (State.score (Game.state g) <= Game.highScore g)%Z ->
      Game.highScore (List.last (run events g) g)
      = Z.max (Game.highScore g) (maxScoreSeen g (run events g))).
Proof.
  intros Hsync.
  destruct (run_scores events g Hsync) as (Hmono & Hmax & Hsync').
  split; [exact Hmono|]. split; [|split; [|split; [|split; [exact Hmax|split; [exact Hsync'|]]]]].
  - intros n g0. rewrite addScore_score. unfold addScore. cbv zeta.
    set (g1 := Game.onState (fun S => State.set_score (State.score S + n) S) g0).
    change (State.score (Game.state g0) + n)%Z with (State.score (Game.state g1)).
    change (Game.highScore g0) with (Game.highScore g1).
    split; [apply updateHighScore_max|].
    intros Hs. apply updateHighScore_state_max. exact Hs.
  - intros s g0 Hs. unfold _loadHighScoreAsync.
    apply Z.leb_le in Hs. rewrite Hs. repeat split.
  - intros s g0 Hs. unfold _loadHighScoreAsync.
    apply Z.leb_gt in Hs. rewrite Hs. split; reflexivity.
  - intros Hticks Hle. rewrite Hmax.
    rewrite highScoreAfter_short by (try assumption; apply run_length).
    unfold maxScoreSeen.
    pose proof (fold_right_max_base (Game.highScore g) (State.score (Game.state g))
                  (map (fun g' => State.score (Game.state g')) (run events g))) as Hb.
    replace (Z.max (Game.highScore g) (State.score (Game.state g)))
      with (Game.highScore g) in Hb by lia.
    exact (eq_sym Hb).
Qed.
End RunTheorems.

(** ** The theorems at concrete games *)

(** C1 at [rammedGame]: the handler leaves two asteroids, the rammed one
    dead, and no child. *)
Lemma C1_shield_ram_does_not_split_witness :
  fst (@_handleShipHazardCollisions sampleMath rammedGame) = true
  /\ Ship.shieldLevel (State.ship (Game.state
       (snd (@_handleShipHazardCollisions sampleMath rammedGame)))) = 0%Z
  /\ Ship.invuln (State.ship (Game.state
       (snd (@_handleShipHazardCollisions sampleMath rammedGame))))
     = CONFIG.SHIP.SHIELD_HIT_INVULN
  /\ 0 < Ship.invuln (State.ship (Game.state
       (snd (@_handleShipHazardCollisions sampleMath rammedGame))))
  /\ State.lives (Game.state
       (snd (@_handleShipHazardCollisions sampleMath rammedGame))) = 3%Z
  /\ State.mode (Game.state
       (snd (@_handleShipHazardCollisions sampleMath rammedGame))) = PLAY
  /\ State.score (Game.state
       (snd (@_handleShipHazardCollisions sampleMath rammedGame)))
     = (0 + CONFIG.SCORE.LARGE)%Z
  /\ State.asteroids (Game.state
       (snd (@_handleShipHazardCollisions sampleMath rammedGame)))
     = alter Asteroid.kill 0%nat [rockAt 480 270 0; rockAt 100 100 0]
  /\ length (State.asteroids (Game.state
       (snd (@_handleShipHazardCollisions sampleMath rammedGame)))) = 2%nat.
Proof.
  apply (@C1_shield_ram_does_not_split sampleMath rammedGame 0%nat (rockAt 480 270 0)).
  - reflexivity.
  - vm_compute. discriminate.
  - reflexivity.
  - reflexivity.
  - reflexivity.
Defined.

(** The same game through a whole tick: the rammed asteroid leaves the
    collection at the cleanup and no tier-1 asteroid is in it. *)
Example shield_ram_whole_tick :
  map Asteroid.sizeIndex
      (State.asteroids (Game.state (@update sampleMath (1 / 120) noInput rammedGame)))
  = [0%nat]
  /\ Ship.shieldLevel
       (State.ship (Game.state (@update sampleMath (1 / 120) noInput rammedGame))) = 0%Z
  /\ State.lives (Game.state (@update sampleMath (1 / 120) noInput rammedGame)) = 3%Z
  /\ State.wave (Game.state (@update sampleMath (1 / 120) noInput rammedGame)) = 0%Z.
Proof. vm_compute. repeat split; reflexivity. Qed.

(** C2 at a shielded ship, at an unshielded ship on its last life and at
    an unshielded ship with lives to spare. *)
Lemma C2_damageShip_witness :
  (Ship.shieldLevel (State.ship (Game.state
     (snd (@damageShip sampleMath (Some (markHitAsteroidDead 0)) 20 rammedGame))))
   = (1 - 1)%Z
   /\ State.lives (Game.state
        (snd (@damageShip sampleMath (Some (markHitAsteroidDead 0)) 20 rammedGame)))
      = 3%Z
   /\ State.mode (Game.state
        (snd (@damageShip sampleMath (Some (markHitAsteroidDead 0)) 20 rammedGame)))
      = PLAY)
  /\ (State.lives (Game.state (snd (@damageShip sampleMath None 0 lastLifeGame)))
      = (1 - 1)%Z
      /\ (State.mode (Game.state (snd (@damageShip sampleMath None 0 lastLifeGame)))
          = GAME_OVER
          <-> (State.lives (Game.state (snd (@damageShip sampleMath None 0 lastLifeGame)))
               <= 0)%Z))
  /\ (State.mode (Game.state (snd (@damageShip sampleMath None 0 hitGame))) = PLAY
      /\ State.ship (Game.state (snd (@damageShip sampleMath None 0 hitGame)))
         = @freshShip sampleMath).
Proof.
  split; [|split].
  - apply (@C2_damageShip sampleMath (Some (markHitAsteroidDead 0)) 20%Z rammedGame
             (killAsteroid_callback_ok 0) eq_refl).
    vm_compute. reflexivity.
  - destruct (proj2 (@C2_damageShip sampleMath None 0%Z lastLifeGame I eq_refl) eq_refl)
      as (Hl & Hm & _).
    split; assumption.
  - apply (@C2_damageShip sampleMath None 0%Z hitGame I eq_refl).
    + reflexivity.
    + vm_compute. reflexivity.
Defined.

(** C4 at a game whose wave 0 is cleared: the tick starts wave 1 with five
    large asteroids. *)
Lemma C4_next_wave_exactly_when_cleared_witness :
  State.wave (Game.state (@update sampleMath (1 / 120) noInput clearedGame)) = (0 + 1)%Z
  /\ Z.of_nat (length (State.asteroids
                 (Game.state (@update sampleMath (1 / 120) noInput clearedGame))))
     = (CONFIG.WAVES.START_COUNT + (0 + 1) * CONFIG.WAVES.GROWTH)%Z
  /\ Forall (fun a => Asteroid.sizeIndex a = 0%nat)
            (State.asteroids
               (Game.state (@update sampleMath (1 / 120) noInput clearedGame))).
Proof.
  apply (@C4_next_wave_exactly_when_cleared sampleMath (1 / 120) noInput clearedGame).
  - reflexivity.
  - vm_compute. discriminate.
  - vm_compute. repeat split; reflexivity.
Defined.

(** C5, as stated, fails: the run's high score need not be the highest
    score seen in the run.  The high score a run starts with comes from
    the persistence store and may exceed every score of the run: with a
    stored high score of 1000, a tick in which a bullet destroys a large
    asteroid raises the score from 0 to 20 and leaves the high score at
    1000.  And the store may answer in the middle of a run: from a high
    score of 0 the same tick leaves score and high score at 20, and an
    answer of 500 then puts the high score at 500, an answer of 10 puts it
    at 10, below the score. *)
Lemma C5_high_score_counterexample :
  (State.score (Game.state (List.last (@run sampleMath [oneTick] scoringGame) scoringGame))
   = 20%Z
   /\ Game.highScore (List.last (@run sampleMath [oneTick] scoringGame) scoringGame)
      <> maxScoreSeen scoringGame (@run sampleMath [oneTick] scoringGame))
  /\ (map progress (@run sampleMath [oneTick; StoreAnswer (Some 500%Z)] unloadedGame)
      = [(PLAY, 0%Z, 20%Z, 3%Z, 20%Z, 20%Z); (PLAY, 0%Z, 20%Z, 3%Z, 500%Z, 500%Z)]
      /\ maxScoreSeen unloadedGame
           (@run sampleMath [oneTick; StoreAnswer (Some 500%Z)] unloadedGame) = 20%Z)
  /\ map progress (@run sampleMath [oneTick; StoreAnswer (Some 10%Z)] unloadedGame)
     = [(PLAY, 0%Z, 20%Z, 3%Z, 20%Z, 20%Z); (PLAY, 0%Z, 20%Z, 3%Z, 10%Z, 10%Z)].
Proof. vm_compute. repeat split; discriminate. Qed.

(** C5, amended, over a run of [unloadedGame] in which the store answers
    500 after the first tick, and over two ticks of [scoringGame]. *)
Lemma C5_score_grows_high_score_is_max_witness :
  Game.highScore
    (List.last (@run sampleMath [oneTick; StoreAnswer (Some 500%Z); oneTick] unloadedGame)
               unloadedGame)
  = highScoreAfter 0 [oneTick; StoreAnswer (Some 500%Z); oneTick]
      (@run sampleMath [oneTick; StoreAnswer (Some 500%Z); oneTick] unloadedGame)
  /\ Game.highScore (List.last (@run sampleMath [oneTick; oneTick] scoringGame) scoringGame)
     = Z.max (Game.highScore scoringGame)
             (maxScoreSeen scoringGame (@run sampleMath [oneTick; oneTick] scoringGame)).
Proof.
  split.
  - apply (@C5_score_grows_high_score_is_max sampleMath
             [oneTick; StoreAnswer (Some 500%Z); oneTick] unloadedGame).
    reflexivity.
  - apply (@C5_score_grows_high_score_is_max sampleMath [oneTick; oneTick] scoringGame).
    + reflexivity.
    + reflexivity.
    + vm_compute. discriminate.
Defined.

(** C8 at the menu and at a finished run, without and with Enter. *)
Lemma C8_idle_modes_do_not_simulate_witness :
  @update sampleMath (1 / 120) noInput (@bootGame sampleMath 0) = @bootGame sampleMath 0
  /\ @update sampleMath (1 / 120) (Input.mk [] ["Enter"%string] [])
             (@bootGame sampleMath 0)
     = @startGame sampleMath (@bootGame sampleMath 0)
  /\ @update sampleMath (1 / 120) noInput overGame = overGame
  /\ @update sampleMath (1 / 120) (Input.mk [] ["Enter"%string] []) overGame
     = @reset sampleMath overGame.
Proof.
  destruct (@C8_idle_modes_do_not_simulate sampleMath (1 / 120) noInput
              (@bootGame sampleMath 0)) as [Hmenu _].
  destruct (@C8_idle_modes_do_not_simulate sampleMath (1 / 120)
              (Input.mk [] ["Enter"%string] []) (@bootGame sampleMath 0))
    as [Hstart _].
  destruct (@C8_idle_modes_do_not_simulate sampleMath (1 / 120) noInput overGame)
    as [_ Hover].
  destruct (@C8_idle_modes_do_not_simulate sampleMath (1 / 120)
              (Input.mk [] ["Enter"%string] []) overGame) as [_ Hreset].
  split; [|split; [|split]].
  - apply (proj1 (Hmenu eq_refl)); reflexivity.
  - apply (proj2 (Hstart eq_refl)). left. reflexivity.
  - apply (proj1 (Hover eq_refl)). reflexivity.
  - apply (proj2 (Hreset eq_refl)). reflexivity.
Defined.

(** C9 at [scoringGame]: the bullet overlaps the large asteroid at index 0
    and the medium one at index 1; only the first is resolved.  And over
    the whole loop at [twoBulletGame]: the first bullet takes the large
    asteroid, the second, for which that one is dead, the medium one; both
    bullets and both asteroids end dead, the third asteroid is untouched,
    four live children are appended and the score is 20 + 50. *)
Lemma C9_one_asteroid_per_bullet_witness :
  State.asteroids (Game.state
    (bulletAsteroidRound (@onBulletHitsAsteroid sampleMath) 0 scoringGame))
  !! 1%nat = Some (rockAt 110 100 1)
  /\ State.score (Game.state
       (bulletAsteroidRound (@onBulletHitsAsteroid sampleMath) 0 scoringGame))
     = (0 + scoreForSize 0)%Z
  /\ markedFrom twoBulletGame
       (forEachBulletAsteroidHit (@onBulletHitsAsteroid sampleMath) twoBulletGame)
  /\ map bulletLive (State.bullets (Game.state
       (forEachBulletAsteroidHit (@onBulletHitsAsteroid sampleMath) twoBulletGame)))
     = [false; false]
  /\ map asteroidDead (State.asteroids (Game.state
       (forEachBulletAsteroidHit (@onBulletHitsAsteroid sampleMath) twoBulletGame)))
     = [true; true; false; false; false; false; false]
  /\ map Asteroid.sizeIndex (State.asteroids (Game.state
       (forEachBulletAsteroidHit (@onBulletHitsAsteroid sampleMath) twoBulletGame)))
     = [0; 1; 0; 1; 1; 2; 2]%nat
  /\ State.score (Game.state
       (forEachBulletAsteroidHit (@onBulletHitsAsteroid sampleMath) twoBulletGame))
     = 70%Z.
Proof.
  destruct (@C9_one_asteroid_per_bullet sampleMath (1 / 120) noInput
              scoringGame 0%nat) as [Hhit _].
  destruct (Hhit (@Bullet.new sampleMath 100 100 0) 0%nat (rockAt 100 100 0)
              eq_refl eq_refl eq_refl) as (_ & _ & Hscore & Hothers & _).
  destruct (@C9_one_asteroid_per_bullet sampleMath (1 / 120) noInput
              twoBulletGame 1%nat)
    as (_ & _ & _ & _ & Hloop & _).
  cbv zeta in Hloop. destruct Hloop as (_ & _ & _ & _ & _ & Hmarked & _).
  split; [rewrite (Hothers 1%nat); [reflexivity|discriminate|vm_compute; lia]|].
  split; [exact Hscore|].
  split; [exact Hmarked|].
  vm_compute. repeat split.
Defined.

(** C10 in PLAY and in GAME_OVER. *)
Lemma C10_startGame_outside_menu_witness :
  @startGame sampleMath scoringGame = scoringGame
  /\ @startGame sampleMath overGame = overGame.
Proof.
  split; apply (@C10_startGame_outside_menu sampleMath); discriminate.
Defined.

(** * Further properties of the code *)

(** ** Overlap and the collision searches (src/systems/Collision.js) *)

(** X1: the overlap test does not depend on the order of its arguments. *)
Theorem X1_circleHit_symmetric (a b : Entity.t) : circleHit a b = circleHit b a.
Proof.
  unfold circleHit, Qleb. cbv zeta. apply Qleb_comp; ring.
Qed.

(** X2: [findShipAsteroidHit] returns [null] exactly when no live asteroid
    overlaps the ship; otherwise it returns a live asteroid of the
    collection that overlaps the ship, and none before it in collection
    order is one. *)
Theorem X2_findShipAsteroidHit_first_live_overlap (ship : Ship.t)
    (asteroids : list Asteroid.t) :
  (findShipAsteroidHit ship asteroids = None <->
   Forall (fun a => Entity.dead (Asteroid.base a) = true
                    \/ circleHit (Ship.base ship) (Asteroid.base a) = false)
          asteroids)
  /\ (forall i a,
        findShipAsteroidHit ship asteroids = Some (i, a) ->
        asteroids !! i = Some a
        /\ Entity.dead (Asteroid.base a) = false
        /\ circleHit (Ship.base ship) (Asteroid.base a) = true
        /\ forall j a', (j < i)%nat -> asteroids !! j = Some a' ->
             Entity.dead (Asteroid.base a') = true
             \/ circleHit (Ship.base ship) (Asteroid.base a') = false).
Proof.
  unfold findShipAsteroidHit, findFirst. split.
  - rewrite findFrom_none. split; intros Hall; eapply Forall_impl; try exact Hall;
      intros a Ha; cbv beta in *.
    + apply andb_false_iff in Ha as [Ha|Ha]; [left|right; exact Ha].
      now apply negb_false_iff in Ha.
    + destruct Ha as [-> | ->]; [reflexivity|apply andb_false_r].
  - intros i a Hfind.
    destruct (findFirst_spec _ _ _ _ Hfind) as (Hi & Hp & Hbefore).
    apply andb_true_iff in Hp as [Hlive Hhit]. apply negb_true_iff in Hlive.
    repeat split; try assumption.
    intros j a' Hlt Hj. specialize (Hbefore j a' Hlt Hj). cbv beta in Hbefore.
    apply andb_false_iff in Hbefore as [Hd|Hh]; [left|right; exact Hh].
    now apply negb_false_iff in Hd.
Qed.

(** ** The ship's levels (src/entities/Ship.js) *)

(** X3: the shield level stays within 0 and [SHIELD_MAX_LEVEL].
    [increaseShieldLevel] and [decreaseShieldLevel] move it by exactly one
    and return [true], or leave the ship as it is and return [false] at
    the cap and at 0; a decrease undoes an increase.  [setShieldLevel]
    clamps the requested level: a level below 0 gives 0, one above 2
    gives 2, one in between is taken as it is; the sprite tier is set to
    the same value and no other field of the ship changes. *)
Theorem X3_shield_level_bounds (s : Ship.t) (level : Z) :
  (0 <= Ship.shieldLevel s <= CONFIG.SHIP.SHIELD_MAX_LEVEL)%Z ->
  (0 <= Ship.shieldLevel (snd (Ship.increaseShieldLevel s))
     <= CONFIG.SHIP.SHIELD_MAX_LEVEL)%Z
  /\ (0 <= Ship.shieldLevel (snd (Ship.decreaseShieldLevel s))
        <= CONFIG.SHIP.SHIELD_MAX_LEVEL)%Z
  /\ (if fst (Ship.increaseShieldLevel s)
      then Ship.shieldLevel (snd (Ship.increaseShieldLevel s))
           = (Ship.shieldLevel s + 1)%Z
      else Ship.shieldLevel s = CONFIG.SHIP.SHIELD_MAX_LEVEL
           /\ snd (Ship.increaseShieldLevel s) = s)
  /\ (if fst (Ship.decreaseShieldLevel s)
      then Ship.shieldLevel (snd (Ship.decreaseShieldLevel s))
           = (Ship.shieldLevel s - 1)%Z
      else Ship.shieldLevel s = 0%Z /\ snd (Ship.decreaseShieldLevel s) = s)
  /\ (fst (Ship.increaseShieldLevel s) = true ->
      Ship.shieldLevel
        (snd (Ship.decreaseShieldLevel (snd (Ship.increaseShieldLevel s))))
      = Ship.shieldLevel s)
  /\ (0 <= Ship.shieldLevel (Ship.setShieldLevel level s) <= 2)%Z
  /\ ((0 <= level <= 2)%Z -> Ship.shieldLevel (Ship.setShieldLevel level s) = level)
  /\ ((level < 0)%Z -> Ship.shieldLevel (Ship.setShieldLevel level s) = 0%Z)
  /\ ((2 < level)%Z -> Ship.shieldLevel (Ship.setShieldLevel level s) = 2%Z)
  /\ Ship.spriteTier (Ship.setShieldLevel level s)
     = Ship.shieldLevel (Ship.setShieldLevel level s)
  /\ Ship.set_shield (Ship.shieldLevel s) (Ship.spriteTier s)
                     (Ship.setShieldLevel level s) = s.
Proof.
  unfold CONFIG.SHIP.SHIELD_MAX_LEVEL. intros Hrange.
  unfold Ship.increaseShieldLevel, Ship.decreaseShieldLevel, Ship.setShieldLevel,
    clamp, CONFIG.SHIP.SHIELD_MAX_LEVEL.
  destruct (2 <=? Ship.shieldLevel s)%Z eqn:Einc;
    destruct (Ship.shieldLevel s <=? 0)%Z eqn:Edec;
    try apply Z.leb_le in Einc; try apply Z.leb_gt in Einc;
    try apply Z.leb_le in Edec; try apply Z.leb_gt in Edec;
    cbn [fst snd Ship.shieldLevel Ship.spriteTier Ship.set_shield];
    repeat split; try lia; try discriminate.
  all: try (intros _; destruct (_ <=? 0)%Z eqn:E;
            [apply Z.leb_le in E | apply Z.leb_gt in E];
            cbn [fst snd Ship.shieldLevel Ship.set_shield]; lia).
  all: destruct s; reflexivity.
Qed.

Lemma X3_shield_level_bounds_witness :
  Ship.shieldLevel (snd (Ship.increaseShieldLevel sampleShip)) = (0 + 1)%Z
  /\ snd (Ship.decreaseShieldLevel sampleShip) = sampleShip
  /\ Ship.shieldLevel (Ship.setShieldLevel 7 sampleShip) = 2%Z
  /\ Ship.spriteTier (Ship.setShieldLevel 7 sampleShip)
     = Ship.shieldLevel (Ship.setShieldLevel 7 sampleShip).
Proof.
  assert (Hrange : (0 <= Ship.shieldLevel sampleShip <= CONFIG.SHIP.SHIELD_MAX_LEVEL)%Z)
    by (vm_compute; split; discriminate).
  destruct (X3_shield_level_bounds sampleShip 7 Hrange)
    as (_ & _ & Hinc & Hdec & _ & _ & _ & _ & Habove & Htier & _).
  split; [exact Hinc|]. split; [apply Hdec|].
  split; [apply Habove; reflexivity|exact Htier].
Defined.

(** X4: the speed level stays within 0 and [maxSpeedLevel].
    [increaseSpeedLevel] raises it by one and returns [true], or leaves the
    ship as it is and returns [false] at the cap; after a raise and after
    [resetSpeedLevel] the live acceleration and top speed are the
    baselines plus the level times the per-level bonus. *)
Theorem X4_speed_level_bounds (s : Ship.t) :
  (0 <= Ship.speedLevel s <= Ship.maxSpeedLevel s)%Z ->
  let r := Ship.increaseSpeedLevel s in
  (0 <= Ship.speedLevel (snd r) <= Ship.maxSpeedLevel (snd r))%Z
  /\ Ship.maxSpeedLevel (snd r) = Ship.maxSpeedLevel s
  /\ (if fst r
      then Ship.speedLevel (snd r) = (Ship.speedLevel s + 1)%Z
           /\ Ship.currentAccel (snd r)
              = Ship.baseAccel s
                + inject_Z (Ship.speedLevel s + 1) * Ship.accelBonusPerLevel s
           /\ Ship.currentMaxSpeed (snd r)
              = Ship.baseMaxSpeed s
                + inject_Z (Ship.speedLevel s + 1) * Ship.maxSpeedBonusPerLevel s
      else Ship.speedLevel s = Ship.maxSpeedLevel s /\ snd r = s)
  /\ Ship.speedLevel (Ship.resetSpeedLevel s) = 0%Z
  /\ Ship.currentAccel (Ship.resetSpeedLevel s) == Ship.baseAccel s
  /\ Ship.currentMaxSpeed (Ship.resetSpeedLevel s) == Ship.baseMaxSpeed s.
Proof.
  intros Hrange r. subst r.
  unfold Ship.increaseSpeedLevel, Ship.resetSpeedLevel, Ship.recalculateSpeedStats.
  destruct (Ship.maxSpeedLevel s <=? Ship.speedLevel s)%Z eqn:E;
    [apply Z.leb_le in E | apply Z.leb_gt in E];
    cbn [fst snd Ship.speedLevel Ship.maxSpeedLevel Ship.set_speedLevel
         Ship.set_currentStats Ship.currentAccel Ship.currentMaxSpeed
         Ship.baseAccel Ship.baseMaxSpeed Ship.accelBonusPerLevel
         Ship.maxSpeedBonusPerLevel].
  - repeat split; try lia; change (inject_Z (Z.max 0 0)) with 0; ring.
  - rewrite Z.max_r by lia.
    repeat split; try lia; change (inject_Z (Z.max 0 0)) with 0; ring.
Qed.

Lemma X4_speed_level_bounds_witness :
  Ship.speedLevel (snd (Ship.increaseSpeedLevel sampleShip)) = (0 + 1)%Z.
Proof.
  assert (Hrange : (0 <= Ship.speedLevel sampleShip <= Ship.maxSpeedLevel sampleShip)%Z)
    by (vm_compute; split; discriminate).
  apply (X4_speed_level_bounds sampleShip Hrange).
Defined.

(** ** Firing and the ship's timers (src/entities/Ship.js) *)

Lemma Qmax_0_cases (q : Q) :
  (q <= 0 /\ Qmax 0 q == 0) \/ (0 < q /\ Qmax 0 q == q).
Proof.
  destruct (Q.max_spec 0 q) as [[Hlt Heq]|[Hle Heq]]; [right|left]; split; assumption.
Qed.

Section ShipTimers.
Context `{MathLib}.

Lemma Ship_update_cooldown (dt : Q) (input : Input.t) (s : Ship.t) :
  Ship.cooldown (Ship.update dt input s) = Qmax 0 (Ship.cooldown s - dt).
Proof. unfold Ship.update. break_branches; reflexivity. Qed.

Lemma Ship_update_invuln (dt : Q) (input : Input.t) (s : Ship.t) :
  Ship.invuln (Ship.update dt input s) = Qmax 0 (Ship.invuln s - dt).
Proof. unfold Ship.update. break_branches; reflexivity. Qed.


End ShipTimers.


(** The blink loop takes whole intervals off the elapsed time, flipping the
    visibility once for each, and never goes below zero. *)
Lemma blinkLoop_flips (interval : Q) (fuel : nat) (elapsed : Q) (visible : bool) :
  0 <= elapsed ->
  exists k : nat,
    fst (Ship.blinkLoop fuel interval elapsed visible)
    == elapsed - inject_Z (Z.of_nat k) * interval
    /\ snd (Ship.blinkLoop fuel interval elapsed visible) = Nat.iter k negb visible
    /\ 0 <= fst (Ship.blinkLoop fuel interval elapsed visible).
Proof.
  revert elapsed visible. induction fuel as [|fuel IH]; intros elapsed visible Hnn.
  - exists 0%nat. cbn [Ship.blinkLoop fst snd Nat.iter].
    change (inject_Z (Z.of_nat 0)) with 0. repeat split; [ring | exact Hnn].
  - cbn [Ship.blinkLoop]. destruct (Qleb interval elapsed) eqn:E.
    + apply Qleb_le in E.
      destruct (IH (elapsed - interval) (negb visible)) as (k & Hk1 & Hk2 & Hk3);
        [lra|].
      exists (S k). split; [|split].
      * rewrite Hk1. rewrite Nat2Z.inj_succ. unfold Z.succ. rewrite inject_Z_plus.
        change (inject_Z 1) with 1. ring.
      * rewrite Hk2. rewrite Nat.iter_succ_r. reflexivity.
      * exact Hk3.
    + exists 0%nat. cbn [fst snd Nat.iter].
      change (inject_Z (Z.of_nat 0)) with 0. repeat split; [ring | exact Hnn].
Qed.

Section ShipBlink.
Context `{MathLib}.

(** X6: one tick of the ship's invulnerability window.  The timer counts
    down by [dt] and stops at zero.  While it is still running after the tick
    the blink clock advances by [dt], the visibility flips once for every
    whole blink interval taken off it, and the clock ends inside one
    interval; on the tick that ends the window the ship is made visible with
    the clock at zero; a ship that was not invulnerable keeps its blink
    state. *)
Theorem X6_invulnerability_blink (dt : Q) (input : Input.t) (s : Ship.t) :
  0 <= dt ->
  0 <= Ship.invulnElapsed s ->
  let s' := Ship.update dt input s in
  0 <= Ship.invuln s'
  /\ (0 < Ship.invuln s' <-> dt < Ship.invuln s)
  /\ (0 < Ship.invuln s' ->
      Ship.invuln s' == Ship.invuln s - dt
      /\ exists k : nat,
           Ship.invulnElapsed s'
           == Ship.invulnElapsed s + dt
              - inject_Z (Z.of_nat k) * CONFIG.SHIP.INVULN_BLINK_INTERVAL
           /\ Ship.isInvulnVisible s' = Nat.iter k negb (Ship.isInvulnVisible s)
           /\ 0 <= Ship.invulnElapsed s' < CONFIG.SHIP.INVULN_BLINK_INTERVAL)
  /\ (Ship.invuln s' <= 0 -> 0 < Ship.invuln s ->
      Ship.invulnElapsed s' = 0 /\ Ship.isInvulnVisible s' = true)
  /\ (Ship.invuln s <= 0 ->
      Ship.invulnElapsed s' = Ship.invulnElapsed s
      /\ Ship.isInvulnVisible s' = Ship.isInvulnVisible s).
Proof.
  intros Hdt Hel s'. subst s'.
  pose proof (Ship_update_invuln dt input s) as Hinv.
  destruct (Qmax_0_cases (Ship.invuln s - dt)) as [[Hle Emax]|[Hgt Emax]].
  - (* the window is over after this tick *)
    assert (Hoff : Qltb 0 (Qmax 0 (Ship.invuln s - dt)) = false).
    { apply Qltb_ge. lra. }
    rewrite Hinv. split; [lra|]. split; [split; intros; lra|].
    split; [intros; lra|]. split.
    + intros _ Hprev. unfold Ship.update. cbv zeta.
      repeat match goal with
             | |- context [let '(_, _) := ?p in _] => destruct p
             end.
      cbn -[Qmax Qltb]. rewrite Hoff.
      assert (Hon : Qltb 0 (Ship.invuln s) = true) by (apply Qltb_lt; exact Hprev).
      rewrite Hon. split; reflexivity.
    + intros Hprev. unfold Ship.update. cbv zeta.
      repeat match goal with
             | |- context [let '(_, _) := ?p in _] => destruct p
             end.
      cbn -[Qmax Qltb]. rewrite Hoff.
      assert (Hon : Qltb 0 (Ship.invuln s) = false) by (apply Qltb_ge; exact Hprev).
      rewrite Hon. split; reflexivity.
  - (* still invulnerable *)
    assert (Hon : Qltb 0 (Qmax 0 (Ship.invuln s - dt)) = true).
    { apply Qltb_lt. lra. }
    rewrite Hinv. split; [lra|]. split; [split; intros; lra|].
    split; [|split; intros; lra].
    intros _. split; [exact Emax|].
    destruct (blinkLoop_flips CONFIG.SHIP.INVULN_BLINK_INTERVAL
                (Ship.blinkRounds CONFIG.SHIP.INVULN_BLINK_INTERVAL
                   (Ship.invulnElapsed s + dt))
                (Ship.invulnElapsed s + dt) (Ship.isInvulnVisible s))
      as (k & Hk1 & Hk2 & Hk3); [lra|].
    pose proof (blinkLoop_exits CONFIG.SHIP.INVULN_BLINK_INTERVAL
                  (Ship.invulnElapsed s + dt) (Ship.isInvulnVisible s)
                  eq_refl) as Hk4.
    exists k. unfold Ship.update. cbv zeta.
    repeat match goal with
           | |- context [let '(_, _) := ?p in _] =>
               lazymatch p with
               | Ship.blinkLoop _ _ _ _ => fail
               | _ => destruct p
               end
           end.
    cbn -[Qmax Qltb Ship.blinkLoop Ship.blinkRounds CONFIG.SHIP.INVULN_BLINK_INTERVAL].
    rewrite Hon.
    change (Qltb 0 CONFIG.SHIP.INVULN_BLINK_INTERVAL) with true. cbv iota.
    destruct (Ship.blinkLoop _ _ _ _) as [e v] eqn:Eloop.
    cbn [fst snd] in *. cbn. repeat split; assumption.
Qed.
End ShipBlink.

Lemma X6_invulnerability_blink_witness :
  0 <= Ship.invuln (@Ship.update sampleMath (1 / 120) noInput sampleShip).
Proof.
  apply (@X6_invulnerability_blink sampleMath (1 / 120) noInput sampleShip);
    vm_compute; discriminate.
Defined.

(** ** Projectiles (src/entities/Bullet.js, src/entities/UfoLaser.js) *)

Section Projectiles.
Context `{MathLib}.

(** One tick of a bullet, field by field. *)
Lemma Bullet_update_fields (dt : Q) (b : Bullet.t) :
  Entity.vx (Bullet.base (Bullet.update dt b)) = Entity.vx (Bullet.base b)
  /\ Entity.vy (Bullet.base (Bullet.update dt b)) = Entity.vy (Bullet.base b)
  /\ Entity.x (Bullet.base (Bullet.update dt b))
     = Entity.x (Bullet.base b) + Entity.vx (Bullet.base b) * dt
  /\ Entity.y (Bullet.base (Bullet.update dt b))
     = Entity.y (Bullet.base b) + Entity.vy (Bullet.base b) * dt
  /\ Entity.r (Bullet.base (Bullet.update dt b)) = Entity.r (Bullet.base b)
  /\ Bullet.lifetime (Bullet.update dt b) = Bullet.lifetime b - dt
  /\ Entity.dead (Bullet.base (Bullet.update dt b))
     = Qleb (Bullet.lifetime b - dt) 0 || Entity.dead (Bullet.base b).
Proof.
  unfold Bullet.update. cbv zeta. cbn [Bullet.base Bullet.lifetime].
  destruct (Qleb _ 0); repeat split; reflexivity.
Qed.

(** X7: the life of a bullet.  One tick moves it by its velocity times
    [dt], keeps its velocity and radius, takes [dt] off its lifetime, and
    leaves it dead exactly when it was dead or the lifetime it had was at
    most [dt].  Over [n] ticks of [dt >= 0]: the velocity never changes,
    the lifetime never grows, no tick revives a bullet (dead after [m]
    ticks, it is dead after any [n >= m]), a bullet whose lifetime is at
    most [dt] is dead from the first tick on, and a bullet that is live
    after a tick has lifetime left.  The lifetime is counted down tick by
    tick, each difference rounded, so the tick on which it runs out is
    not read off the product [n * dt]. *)
Theorem X7_bullet_expiry (dt : Q) (n : nat) (b : Bullet.t) :
  0 <= dt ->
  let b' := Nat.iter n (Bullet.update dt) b in
  (Entity.x (Bullet.base (Bullet.update dt b))
   = Entity.x (Bullet.base b) + Entity.vx (Bullet.base b) * dt
   /\ Entity.y (Bullet.base (Bullet.update dt b))
      = Entity.y (Bullet.base b) + Entity.vy (Bullet.base b) * dt
   /\ Entity.r (Bullet.base (Bullet.update dt b)) = Entity.r (Bullet.base b)
   /\ Bullet.lifetime (Bullet.update dt b) = Bullet.lifetime b - dt
   /\ (Entity.dead (Bullet.base (Bullet.update dt b)) = true
       <-> Entity.dead (Bullet.base b) = true \/ Bullet.lifetime b <= dt))
  /\ Entity.vx (Bullet.base b') = Entity.vx (Bullet.base b)
  /\ Entity.vy (Bullet.base b') = Entity.vy (Bullet.base b)
  /\ Bullet.lifetime b' <= Bullet.lifetime b
  /\ (forall m, (m <= n)%nat ->
        Entity.dead (Bullet.base (Nat.iter m (Bullet.update dt) b)) = true ->
        Entity.dead (Bullet.base b') = true)
  /\ ((0 < n)%nat -> Bullet.lifetime b <= dt -> Entity.dead (Bullet.base b') = true)
  /\ ((0 < n)%nat -> Entity.dead (Bullet.base b') = false -> 0 < Bullet.lifetime b').
Proof.
  intros Hdt. cbv zeta.
  assert (Hone : forall c : Bullet.t,
            Entity.dead (Bullet.base (Bullet.update dt c)) = true
            <-> Entity.dead (Bullet.base c) = true \/ Bullet.lifetime c <= dt).
  { intros c. destruct (Bullet_update_fields dt c) as (_ & _ & _ & _ & _ & _ & Hd).
    rewrite Hd, orb_true_iff, Qleb_le. split.
    - intros [Hl|Hd']; [right; lra|left; exact Hd'].
    - intros [Hd'|Hl]; [right; exact Hd'|left; lra]. }
  split.
  { destruct (Bullet_update_fields dt b) as (_ & _ & Hx & Hy & Hr & Hl & _).
    split; [exact Hx|]. split; [exact Hy|]. split; [exact Hr|].
    split; [exact Hl|]. apply Hone. }
  induction n as [|n IH].
  - change (Nat.iter 0 (Bullet.update dt) b) with b.
    split; [reflexivity|]. split; [reflexivity|]. split; [lra|].
    split; [|split; intros Hn; lia].
    intros m Hm. replace m with 0%nat by lia. intros Hd. exact Hd.
  - rewrite Nat.iter_succ. set (bn := Nat.iter n (Bullet.update dt) b) in *.
    destruct IH as (Hvx & Hvy & Hl & Hdead & Hfirst & _).
    destruct (Bullet_update_fields dt bn) as (Hvx' & Hvy' & _ & _ & _ & Hl' & _).
    split; [congruence|]. split; [congruence|]. split; [rewrite Hl'; lra|].
    split; [|split].
    + intros m Hm Hd. destruct (Nat.eq_dec m (S n)) as [->|Hne].
      * rewrite Nat.iter_succ in Hd. exact Hd.
      * apply Hone. left. apply (Hdead m); [lia|exact Hd].
    + intros _ Hexp. apply Hone. destruct n as [|n'].
      * right. exact Hexp.
      * left. apply Hfirst; [lia|exact Hexp].
    + intros _ Hlive. rewrite Hl'.
      destruct (Qlt_le_dec 0 (Bullet.lifetime bn - dt)) as [Hpos|Hneg];
        [exact Hpos|].
      assert (Hd : Entity.dead (Bullet.base (Bullet.update dt bn)) = true)
        by (apply Hone; right; lra).
      congruence.
Qed.

(** X8: one tick of a UFO laser.  It moves in a straight line and is never
    wrapped; after the tick it is live exactly when it was live, some of its
    lifetime is left, and its new position is inside the canvas widened by
    the off-screen margin on every side. *)
Theorem X8_laser_live_inside_margin (dt : Q) (l : UfoLaser.t) :
  let l' := UfoLaser.update dt l in
  let x' := Entity.x (UfoLaser.base l) + Entity.vx (UfoLaser.base l) * dt in
  let y' := Entity.y (UfoLaser.base l) + Entity.vy (UfoLaser.base l) * dt in
  Entity.x (UfoLaser.base l') = x'
  /\ Entity.y (UfoLaser.base l') = y'
  /\ UfoLaser.lifetime l' = UfoLaser.lifetime l - dt
  /\ (Entity.dead (UfoLaser.base l') = false
      <-> Entity.dead (UfoLaser.base l) = false
          /\ dt < UfoLaser.lifetime l
          /\ - CONFIG.UFO.OFFSCREEN_MARGIN <= x'
             <= CONFIG.CANVAS.W + CONFIG.UFO.OFFSCREEN_MARGIN
          /\ - CONFIG.UFO.OFFSCREEN_MARGIN <= y'
             <= CONFIG.CANVAS.H + CONFIG.UFO.OFFSCREEN_MARGIN).
Proof.
  cbv zeta. unfold UfoLaser.update. cbv zeta.
  set (m := CONFIG.UFO.OFFSCREEN_MARGIN).
  set (W := CONFIG.CANVAS.W). set (Hh := CONFIG.CANVAS.H).
  destruct (Qleb (UfoLaser.lifetime l - dt) 0) eqn:El.
  - apply Qleb_le in El. cbn [UfoLaser.base UfoLaser.lifetime].
    split; [reflexivity|]. split; [reflexivity|]. split; [reflexivity|].
    split.
    + cbn. discriminate.
    + intros (_ & Hlt & _). lra.
  - apply Qleb_gt in El. cbn [UfoLaser.base UfoLaser.lifetime].
    change (Entity.x (Entity.move dt (UfoLaser.base l)))
      with (Entity.x (UfoLaser.base l) + Entity.vx (UfoLaser.base l) * dt).
    change (Entity.y (Entity.move dt (UfoLaser.base l)))
      with (Entity.y (UfoLaser.base l) + Entity.vy (UfoLaser.base l) * dt).
    set (x' := Entity.x (UfoLaser.base l) + Entity.vx (UfoLaser.base l) * dt).
    set (y' := Entity.y (UfoLaser.base l) + Entity.vy (UfoLaser.base l) * dt).
    destruct (Qltb x' (- m)) eqn:E1; [|destruct (Qltb (W + m) x') eqn:E2;
      [|destruct (Qltb y' (- m)) eqn:E3; [|destruct (Qltb (Hh + m) y') eqn:E4]]];
      cbn [orb];
      repeat match goal with
             | E : Qltb _ _ = true |- _ => apply Qltb_lt in E
             | E : Qltb _ _ = false |- _ => apply Qltb_ge in E
             end.
    all: split; [destruct (Entity.dead (UfoLaser.base l)); reflexivity|].
    all: split; [destruct (Entity.dead (UfoLaser.base l)); reflexivity|].
    all: split; [reflexivity|].
    all: cbn [Entity.dead Entity.set_dead Entity.move Entity.set_pos].
    all: split; [intros Hd | intros (Hd & Hlt & [? ?] & [? ?])].
    all: try discriminate; try (exfalso; lra); try exact Hd.
    repeat split; try assumption; lra.
Qed.
End Projectiles.

Lemma X7_bullet_expiry_witness :
  Bullet.lifetime
    (Nat.iter 3 (@Bullet.update sampleMath (1 / 2)) (@Bullet.new sampleMath 10 10 0))
  <= Bullet.lifetime (@Bullet.new sampleMath 10 10 0)
  /\ Entity.dead
       (Bullet.base
          (Nat.iter 3 (@Bullet.update sampleMath 2) (@Bullet.new sampleMath 10 10 0)))
     = true.
Proof.
  split.
  - apply (@X7_bullet_expiry sampleMath (1 / 2) 3 (@Bullet.new sampleMath 10 10 0)).
    vm_compute. discriminate.
  - apply (@X7_bullet_expiry sampleMath 2 3 (@Bullet.new sampleMath 10 10 0)).
    + vm_compute. discriminate.
    + lia.
    + vm_compute. discriminate.
Defined.

(** ** The UFO (src/entities/Ufo.js) *)

(** What [k] hits leave of a live craft with [h >= 1] hits to take: the hits
    left while [k < h], a dead craft at health zero from the [h]-th on. *)
Lemma takeHit_iter (u : Ufo.t) (k : nat) :
  Entity.dead (Ufo.base u) = false ->
  (1 <= Ufo.health u)%Z ->
  let uk := Nat.iter k (fun u => snd (Ufo.takeHit u)) u in
  if (Z.of_nat k <? Ufo.health u)%Z
  then Entity.dead (Ufo.base uk) = false
       /\ Ufo.health uk = (Ufo.health u - Z.of_nat k)%Z
  else Entity.dead (Ufo.base uk) = true /\ Ufo.health uk = 0%Z.
Proof.
  intros Hlive Hh. cbv zeta. induction k as [|k IH].
  - change (Nat.iter 0 (fun u => snd (Ufo.takeHit u)) u) with u.
    destruct (Z.ltb_spec (Z.of_nat 0) (Ufo.health u)); [split; [assumption|lia]|lia].
  - rewrite Nat.iter_succ.
    set (uk := Nat.iter k (fun u => snd (Ufo.takeHit u)) u) in *.
    destruct (Z.ltb_spec (Z.of_nat k) (Ufo.health u)) as [Hlt|Hge].
    + destruct IH as [Hd Hk]. unfold Ufo.takeHit. rewrite Hd. cbv zeta.
      destruct (Z.leb_spec (Ufo.health uk - 1) 0) as [Hz|Hz];
        destruct (Z.ltb_spec (Z.of_nat (S k)) (Ufo.health u));
        cbn [snd Ufo.base Ufo.health Entity.dead Entity.set_dead];
        try lia; split; try reflexivity; try assumption; lia.
    + destruct IH as [Hd Hk]. unfold Ufo.takeHit. rewrite Hd. cbn [snd].
      destruct (Z.ltb_spec (Z.of_nat (S k)) (Ufo.health u)); [lia|].
      split; assumption.
Qed.

(** X9: hits on the UFO.  A live craft with [h >= 1] hits to take is live
    after fewer than [h] hits and dead from the [h]-th on; [takeHit] answers
    [true] on the [h]-th hit and on no other; a hit on a dead craft answers
    [false] and changes nothing. *)
Theorem X9_ufo_destroyed_by_last_hit (u : Ufo.t) (k : nat) :
  Entity.dead (Ufo.base u) = false ->
  (1 <= Ufo.health u)%Z ->
  let uk := Nat.iter k (fun u => snd (Ufo.takeHit u)) u in
  (Entity.dead (Ufo.base uk) = true <-> (Ufo.health u <= Z.of_nat k)%Z)
  /\ (fst (Ufo.takeHit uk) = true <-> Z.of_nat k = (Ufo.health u - 1)%Z)
  /\ (Entity.dead (Ufo.base uk) = true -> Ufo.takeHit uk = (false, uk))
  /\ Ufo.health uk = Z.max 0 (Ufo.health u - Z.of_nat k).
Proof.
  intros Hlive Hh uk. pose proof (takeHit_iter u k Hlive Hh) as Hk.
  cbv zeta in Hk. fold uk in Hk.
  destruct (Z.ltb_spec (Z.of_nat k) (Ufo.health u)) as [Hlt|Hge];
    destruct Hk as [Hd Hhk].
  - split; [rewrite Hd; split; [discriminate|lia]|].
    split; [|split; [rewrite Hd; discriminate|lia]].
    unfold Ufo.takeHit. rewrite Hd. cbv zeta. rewrite Hhk.
    destruct (Z.leb_spec (Ufo.health u - Z.of_nat k - 1) 0); cbn [fst];
      split; intros; try discriminate; try reflexivity; lia.
  - split; [split; [intros; assumption | intros; exact Hd]|].
    split; [|split; [|lia]].
    + unfold Ufo.takeHit. rewrite Hd. cbn [fst]. split; [discriminate|lia].
    + intros _. unfold Ufo.takeHit. rewrite Hd. reflexivity.
Qed.

Lemma X9_ufo_destroyed_by_last_hit_witness :
  Entity.dead
    (Ufo.base (Nat.iter 3 (fun u => snd (Ufo.takeHit u))
                        (Ufo.new 0 100 180 0 None))) = true
  <-> (Ufo.health (Ufo.new 0 100 180 0 None) <= Z.of_nat 3)%Z.
Proof.
  apply (X9_ufo_destroyed_by_last_hit (Ufo.new 0 100 180 0 None) 3);
    [reflexivity | vm_compute; discriminate].
Defined.

Section UfoFlight.
Context `{MathLib}.

(** X10: one tick of a live UFO that is inside the canvas widened by the
    off-screen margin.  It stays inside that box and stays live, its health
    is untouched, it fires at most one laser, and it fires exactly when its
    cooldown runs out on this tick; the laser starts live at the craft's new
    position, and the cooldown left after the tick is positive.  A dead
    craft does nothing. *)
Theorem X10_ufo_stays_in_box_and_fires_on_cooldown
    (dt : Q) (target : Entity.t) (u : Ufo.t) :
  - CONFIG.UFO.OFFSCREEN_MARGIN <= Entity.x (Ufo.base u)
    <= CONFIG.CANVAS.W + CONFIG.UFO.OFFSCREEN_MARGIN ->
  - CONFIG.UFO.OFFSCREEN_MARGIN <= Entity.y (Ufo.base u)
    <= CONFIG.CANVAS.H + CONFIG.UFO.OFFSCREEN_MARGIN ->
  let lasers := fst (Ufo.update dt target u) in
  let u' := snd (Ufo.update dt target u) in
  if Entity.dead (Ufo.base u) then lasers = [] /\ u' = u
  else
    - CONFIG.UFO.OFFSCREEN_MARGIN <= Entity.x (Ufo.base u')
      <= CONFIG.CANVAS.W + CONFIG.UFO.OFFSCREEN_MARGIN
    /\ - CONFIG.UFO.OFFSCREEN_MARGIN <= Entity.y (Ufo.base u')
       <= CONFIG.CANVAS.H + CONFIG.UFO.OFFSCREEN_MARGIN
    /\ Entity.dead (Ufo.base u') = false
    /\ Ufo.health u' = Ufo.health u
    /\ Entity.vx (Ufo.base u') = Entity.vx (Ufo.base u)
    /\ Entity.vy (Ufo.base u') = Entity.vy (Ufo.base u)
    /\ 0 < Ufo.fireCooldown u'
    /\ (Ufo.fireCooldown u <= dt ->
        Ufo.fireCooldown u' = CONFIG.UFO.FIRE_INTERVAL
        /\ exists l, lasers = [l]
             /\ Entity.x (UfoLaser.base l) = Entity.x (Ufo.base u')
             /\ Entity.y (UfoLaser.base l) = Entity.y (Ufo.base u')
             /\ Entity.dead (UfoLaser.base l) = false
             /\ UfoLaser.lifetime l = CONFIG.UFO.LASER_LIFETIME)
    /\ (dt < Ufo.fireCooldown u ->
        lasers = [] /\ Ufo.fireCooldown u' = Ufo.fireCooldown u - dt).
Proof.
  intros [Hx1 Hx2] [Hy1 Hy2]. cbv zeta. unfold Ufo.update.
  destruct (Entity.dead (Ufo.base u)) eqn:Hdead; [split; reflexivity|].
  cbv zeta.
  set (m := CONFIG.UFO.OFFSCREEN_MARGIN) in *.
  set (W := CONFIG.CANVAS.W) in *. set (Hh := CONFIG.CANVAS.H) in *.
  assert (Hm : m == 36) by reflexivity.
  assert (HW : 0 < W) by reflexivity. assert (HH : 0 < Hh) by reflexivity.
  change (Entity.vx (Entity.move dt (Ufo.base u))) with (Entity.vx (Ufo.base u)).
  change (Entity.vy (Entity.move dt (Ufo.base u))) with (Entity.vy (Ufo.base u)).
  change (Entity.x (Entity.move dt (Ufo.base u)))
    with (Entity.x (Ufo.base u) + Entity.vx (Ufo.base u) * dt).
  change (Entity.y (Entity.move dt (Ufo.base u)))
    with (Entity.y (Ufo.base u) + Entity.vy (Ufo.base u) * dt).
  set (x1 := if negb (Qeq_bool (Entity.vx (Ufo.base u)) 0) then _ else _).
  set (y1 := if negb (Qeq_bool (Entity.vy (Ufo.base u)) 0) then _ else _).
  assert (Bx : - m <= x1 <= W + m).
  { unfold x1. destruct (Qeq_bool (Entity.vx (Ufo.base u)) 0) eqn:Ev; cbn [negb].
    - apply Qeq_bool_iff in Ev. rewrite Ev. split; lra.
    - destruct (Qltb _ (- m)) eqn:E1; [split; lra|].
      destruct (Qltb (W + m) _) eqn:E2; [split; lra|].
      apply Qltb_ge in E1, E2. split; lra. }
  clearbody x1.
  assert (By : - m <= y1 <= Hh + m).
  { unfold y1. destruct (Qeq_bool (Entity.vy (Ufo.base u)) 0) eqn:Ev; cbn [negb].
    - apply Qeq_bool_iff in Ev. rewrite Ev. split; lra.
    - destruct (Qltb _ (- m)) eqn:E1; [split; lra|].
      destruct (Qltb (Hh + m) _) eqn:E2; [split; lra|].
      apply Qltb_ge in E1, E2. split; lra. }
  clearbody y1.
  assert (HF : 0 < CONFIG.UFO.FIRE_INTERVAL) by reflexivity.
  destruct (Qleb (Ufo.fireCooldown u - dt) 0) eqn:Ecd;
    [apply Qleb_le in Ecd | apply Qleb_gt in Ecd];
    cbn [fst snd Ufo.base Ufo.health Ufo.fireCooldown
         Entity.x Entity.y Entity.vx Entity.vy Entity.dead
         Entity.set_pos Entity.move];
    (split; [exact Bx|]); (split; [exact By|]); (split; [exact Hdead|]);
    (split; [reflexivity|]); (split; [reflexivity|]); (split; [reflexivity|]).
  - split; [exact HF|]. split.
    + intros _. split; [reflexivity|]. eexists. split; [reflexivity|].
      cbn. repeat split.
    + intros Hlt. exfalso. lra.
  - split; [lra|]. split.
    + intros Hle. exfalso. lra.
    + intros _. split; reflexivity.
Qed.
End UfoFlight.

Lemma X10_ufo_stays_in_box_and_fires_on_cooldown_witness :
  Entity.dead
    (Ufo.base
       (snd (@Ufo.update sampleMath (1 / 120) (Entity.new 400 300 14)
               (Ufo.new (- 36) 100 180 0 None)))) = false.
Proof.
  assert (Hx : - CONFIG.UFO.OFFSCREEN_MARGIN
               <= Entity.x (Ufo.base (Ufo.new (- 36) 100 180 0 None))
               <= CONFIG.CANVAS.W + CONFIG.UFO.OFFSCREEN_MARGIN)
    by (split; vm_compute; discriminate).
  assert (Hy : - CONFIG.UFO.OFFSCREEN_MARGIN
               <= Entity.y (Ufo.base (Ufo.new (- 36) 100 180 0 None))
               <= CONFIG.CANVAS.H + CONFIG.UFO.OFFSCREEN_MARGIN)
    by (split; vm_compute; discriminate).
  pose proof (@X10_ufo_stays_in_box_and_fires_on_cooldown sampleMath (1 / 120)
                (Entity.new 400 300 14) (Ufo.new (- 36) 100 180 0 None) Hx Hy)
    as P.
  cbv zeta in P.
  change (Entity.dead (Ufo.base (Ufo.new (- 36) 100 180 0 None))) with false in P.
  cbv iota in P. destruct P as (_ & _ & Hd & _). exact Hd.
Defined.

(** ** The UFO's schedule and entry (src/core/Game.js) *)

(** X11: the delay before the UFO of a wave.  It is always a number, never
    below [SPAWN_TIMER.MIN]; a later wave never waits longer than an earlier
    one; from wave 0 on the delay is at most [SPAWN_TIMER.START], it is
    [START - wave * DECREMENT_PER_WAVE] up to wave 20, and from wave 20 on it
    stays at [MIN]. *)
Theorem X11_ufo_delay_shrinks_to_floor (w1 w2 : Z) :
  (w1 <= w2)%Z ->
  exists d1 d2 : Q,
    getUfoSpawnDelayForWave w1 = Some d1
    /\ getUfoSpawnDelayForWave w2 = Some d2
    /\ CONFIG.UFO.SPAWN_TIMER.MIN <= d2
    /\ d2 <= d1
    /\ ((0 <= w1)%Z -> d1 <= CONFIG.UFO.SPAWN_TIMER.START)
    /\ ((w2 <= 20)%Z ->
        d2 == CONFIG.UFO.SPAWN_TIMER.START
              - inject_Z w2 * CONFIG.UFO.SPAWN_TIMER.DECREMENT_PER_WAVE)
    /\ ((20 <= w2)%Z -> d2 == CONFIG.UFO.SPAWN_TIMER.MIN).
Proof.
  intros Hle. unfold getUfoSpawnDelayForWave. cbv zeta.
  eexists. eexists. split; [reflexivity|]. split; [reflexivity|].
  assert (Hs : CONFIG.UFO.SPAWN_TIMER.START == 30) by reflexivity.
  assert (Hd : CONFIG.UFO.SPAWN_TIMER.DECREMENT_PER_WAVE == 12 # 10) by reflexivity.
  assert (Hm : CONFIG.UFO.SPAWN_TIMER.MIN == 6) by reflexivity.
  set (START := CONFIG.UFO.SPAWN_TIMER.START) in *.
  set (DEC := CONFIG.UFO.SPAWN_TIMER.DECREMENT_PER_WAVE) in *.
  set (MIN := CONFIG.UFO.SPAWN_TIMER.MIN) in *.
  assert (Hq : inject_Z w1 <= inject_Z w2) by (rewrite <- Zle_Qle; exact Hle).
  assert (Hmono : inject_Z w1 * DEC <= inject_Z w2 * DEC).
  { apply Qmult_le_compat_r; [exact Hq | rewrite Hd; discriminate]. }
  destruct (Q.max_spec MIN (START - inject_Z w1 * DEC)) as [[H1 E1]|[H1 E1]];
    destruct (Q.max_spec MIN (START - inject_Z w2 * DEC)) as [[H2 E2]|[H2 E2]];
    rewrite E1, E2.
  all: split; [lra|]. all: split; [lra|].
  all: split;
    [intros H0; assert (0 <= inject_Z w1)
       by (change 0 with (inject_Z 0); rewrite <- Zle_Qle; exact H0);
     assert (0 <= inject_Z w1 * DEC)
       by (apply Qmult_le_0_compat; [assumption | rewrite Hd; discriminate]);
     lra|].
  all: split;
    [intros H20; assert (inject_Z w2 <= 20)
       by (change 20 with (inject_Z 20); rewrite <- Zle_Qle; exact H20);
     assert (inject_Z w2 * DEC <= 20 * DEC)
       by (apply Qmult_le_compat_r; [assumption | rewrite Hd; discriminate]);
     try reflexivity; lra
    |intros H20; assert (20 <= inject_Z w2)
       by (change 20 with (inject_Z 20); rewrite <- Zle_Qle; exact H20);
     assert (20 * DEC <= inject_Z w2 * DEC)
       by (apply Qmult_le_compat_r; [assumption | rewrite Hd; discriminate]);
     try reflexivity; lra].
Qed.

Lemma X11_ufo_delay_shrinks_to_floor_witness :
  exists d1 d2 : Q,
    getUfoSpawnDelayForWave 3 = Some d1
    /\ getUfoSpawnDelayForWave 25 = Some d2
    /\ CONFIG.UFO.SPAWN_TIMER.MIN <= d2
    /\ d2 <= d1
    /\ ((0 <= 3)%Z -> d1 <= CONFIG.UFO.SPAWN_TIMER.START)
    /\ ((25 <= 20)%Z ->
        d2 == CONFIG.UFO.SPAWN_TIMER.START
              - inject_Z 25 * CONFIG.UFO.SPAWN_TIMER.DECREMENT_PER_WAVE)
    /\ ((20 <= 25)%Z -> d2 == CONFIG.UFO.SPAWN_TIMER.MIN).
Proof. apply (X11_ufo_delay_shrinks_to_floor 3 25). lia. Defined.

(** [Math.floor(Math.random() * k)] is an index below [k]. *)
Lemma floor_of_unit (u : Q) (k : Z) :
  0 <= u < 1 -> (0 < k)%Z -> (0 <= Qfloor (u * inject_Z k) < k)%Z.
Proof.
  intros [H0 H1] Hk.
  assert (Hkq : 0 < inject_Z k).
  { change 0 with (inject_Z 0). rewrite <- Zlt_Qlt. exact Hk. }
  assert (Hlo : 0 <= u * inject_Z k) by (apply Qmult_le_0_compat; lra).
  assert (Hhi : u * inject_Z k < inject_Z k).
  { assert (Hm : u * inject_Z k < 1 * inject_Z k)
      by (apply Qmult_lt_compat_r; assumption).
    lra. }
  split.
  - change 0%Z with (Qfloor 0). apply Qfloor_resp_le. exact Hlo.
  - rewrite Zlt_Qlt. eapply Qle_lt_trans; [apply Qfloor_le | exact Hhi].
Qed.

Lemma sampleRandom_unit : @unitRandom sampleMath.
Proof.
  intros n. change (@Math_random sampleMath n) with (sampleRandom n).
  unfold sampleRandom.
  pose proof (Nat.mod_upper_bound n 8 ltac:(lia)) as Hlt.
  destruct (n mod 8)%nat as [|[|[|[|[|[|[|[|k]]]]]]]];
    split; vm_compute; congruence.
Qed.

Section UfoEntry.
Context `{MathLib}.

(** X12: the UFO a wave brings in, when [Math.random] keeps to [0, 1).  The
    call makes four draws; the craft starts live with all its hits to take
    and a full fire interval, wears one of the configured sprites, and
    enters from one edge of the canvas widened by the off-screen margin,
    flying straight into it at [UFO.SPEED] along one axis with its other
    coordinate inside the canvas.  The wave is marked as having had its UFO
    and the spawn timer is cleared; the rest of the state is untouched:
    the new state is the old one with these three fields set. *)
Theorem X12_ufo_enters_from_an_edge (S : State.t) (n : nat) :
  unitRandom ->
  let S' := fst (spawnUfoForCurrentWave S n) in
  snd (spawnUfoForCurrentWave S n) = (n + 4)%nat
  /\ State.ufoSpawnedThisWave S' = true
  /\ State.ufoSpawnTimer S' = None
  /\ stateProgress S' = stateProgress S
  /\ State.asteroids S' = State.asteroids S
  /\ State.bullets S' = State.bullets S
  /\ State.ship S' = State.ship S
  /\ State.powerups S' = State.powerups S
  /\ State.powerupsCollected S' = State.powerupsCollected S
  /\ State.ufoBullets S' = State.ufoBullets S
  /\ State.didBeatHighScore S' = State.didBeatHighScore S
  /\ exists u key,
       State.ufo S' = Some u
       /\ S' = State.set_ufoSpawnTimer None
                (State.set_ufoSpawnedThisWave true (State.set_ufo (Some u) S))
       /\ Entity.dead (Ufo.base u) = false
       /\ Ufo.health u = CONFIG.UFO.HITS_TO_DESTROY
       /\ Ufo.fireCooldown u = CONFIG.UFO.FIRE_INTERVAL
       /\ Entity.r (Ufo.base u) = CONFIG.UFO.RADIUS
       /\ Ufo.spriteKey u = Some key /\ In key CONFIG.UFO.SPRITES
       /\ let x := Entity.x (Ufo.base u) in
          let y := Entity.y (Ufo.base u) in
          let vx := Entity.vx (Ufo.base u) in
          let vy := Entity.vy (Ufo.base u) in
          let m := CONFIG.UFO.OFFSCREEN_MARGIN in
          (x = - m /\ vx = CONFIG.UFO.SPEED /\ vy = 0
           /\ 0 <= y < CONFIG.CANVAS.H)
          \/ (x = CONFIG.CANVAS.W + m /\ vx = - CONFIG.UFO.SPEED /\ vy = 0
              /\ 0 <= y < CONFIG.CANVAS.H)
          \/ (y = - m /\ vy = CONFIG.UFO.SPEED /\ vx = 0
              /\ 0 <= x < CONFIG.CANVAS.W)
          \/ (y = CONFIG.CANVAS.H + m /\ vy = - CONFIG.UFO.SPEED /\ vx = 0
              /\ 0 <= x < CONFIG.CANVAS.W).
Proof.
  intros Hunit. cbv zeta.
  assert (Hscale : forall k c, 0 < c -> 0 <= Math_random k * c < c).
  { intros k c Hc. destruct (Hunit k) as [H0 H1]. split.
    - apply Qmult_le_0_compat; lra.
    - assert (Hm : Math_random k * c < 1 * c)
        by (apply Qmult_lt_compat_r; assumption).
      lra. }
  assert (Hkey : exists key,
             arrayAt CONFIG.UFO.SPRITES
               (Qfloor (Math_random n
                        * inject_Z (Z.of_nat (length CONFIG.UFO.SPRITES))))
             = Some key /\ In key CONFIG.UFO.SPRITES).
  { pose proof (floor_of_unit (Math_random n) 4 (Hunit n) ltac:(lia)) as Hi.
    change (inject_Z (Z.of_nat (length CONFIG.UFO.SPRITES))) with (inject_Z 4).
    set (i := Qfloor _) in *.
    assert (Hcases : i = 0%Z \/ i = 1%Z \/ i = 2%Z \/ i = 3%Z) by lia.
    destruct Hcases as [ -> | [ -> | [ -> | -> ] ] ]; eexists; (split; [reflexivity|]);
      cbn; tauto. }
  destruct Hkey as (key & Hkey & Hin).
  unfold spawnUfoForCurrentWave, bind, random, ret. cbv zeta.
  change ((length CONFIG.UFO.SPRITES =? 0)%nat) with false.
  cbv beta iota zeta. rewrite Hkey.
  assert (HW : 0 < CONFIG.CANVAS.W) by reflexivity.
  assert (HH : 0 < CONFIG.CANVAS.H) by reflexivity.
  destruct (Qltb (Math_random (Datatypes.S n)) 0.5);
    destruct (Qltb (Math_random (Datatypes.S (Datatypes.S (Datatypes.S n)))) 0.5);
    cbn [fst snd].
  all: split; [lia|].
  all: do 10 (split; [reflexivity|]).
  all: eexists; exists key; split; [reflexivity|].
  all: do 5 (split; [reflexivity|]).
  all: split; [reflexivity|]. all: split; [exact Hin|].
  all: cbn [Ufo.base Ufo.new Entity.x Entity.y Entity.vx Entity.vy
            Entity.set_vel Entity.new].
  - left. repeat split; try reflexivity; apply Hscale; exact HH.
  - right; left. repeat split; try reflexivity; apply Hscale; exact HH.
  - right; right; left. repeat split; try reflexivity; apply Hscale; exact HW.
  - right; right; right. repeat split; try reflexivity; apply Hscale; exact HW.
Qed.
End UfoEntry.

Lemma X12_ufo_enters_from_an_edge_witness :
  snd (@spawnUfoForCurrentWave sampleMath (Game.state clearedGame) 0%nat) = 4%nat
  /\ State.powerups (fst (@spawnUfoForCurrentWave sampleMath (Game.state clearedGame) 0%nat))
     = State.powerups (Game.state clearedGame).
Proof.
  destruct (@X12_ufo_enters_from_an_edge sampleMath (Game.state clearedGame) 0%nat
              sampleRandom_unit) as (Hdraws & _ & _ & _ & _ & _ & _ & Hpow & _).
  split; [exact Hdraws|exact Hpow].
Defined.

(** ** Spawning (src/systems/Spawner.js) *)

Section Spawning.
Context `{MathLib}.

Lemma unit_scale (k : nat) (c : Q) :
  unitRandom -> 0 < c -> 0 <= Math_random k * c < c.
Proof.
  intros Hunit Hc. destruct (Hunit k) as [H0 H1]. split.
  - apply Qmult_le_0_compat; lra.
  - assert (Hm : Math_random k * c < 1 * c)
      by (apply Qmult_lt_compat_r; assumption).
    lra.
Qed.

(** [randomEdgeSpawn] with draws in [0, 1): two draws, a point of the
    frame. *)
Lemma randomEdgeSpawn_frame (W H0 margin : Q) (n : nat) :
  unitRandom -> 0 < W -> 0 < H0 ->
  let p := fst (randomEdgeSpawn W H0 margin n) in
  snd (randomEdgeSpawn W H0 margin n) = (n + 2)%nat
  /\ onSpawnFrame W H0 margin (fst p) (snd p).
Proof.
  intros Hunit HW HH. cbv zeta.
  pose proof (floor_of_unit (Math_random n) 4 (Hunit n) ltac:(lia)) as Hi.
  pose proof (unit_scale (Datatypes.S n) W Hunit HW) as Hx.
  pose proof (unit_scale (Datatypes.S n) H0 Hunit HH) as Hy.
  unfold randomEdgeSpawn, bind, random, ret. cbv beta iota zeta.
  change (inject_Z 4) with 4 in Hi.
  set (i := Qfloor (Math_random n * 4)) in *.
  assert (Hcases : i = 0%Z \/ i = 1%Z \/ i = 2%Z \/ i = 3%Z) by lia.
  unfold onSpawnFrame.
  destruct Hcases as [ -> | [ -> | [ -> | -> ] ] ]; cbn [fst snd].
  all: split; [lia|].
  - left; split; [left; reflexivity | exact Hy].
  - left; split; [right; reflexivity | exact Hy].
  - right; split; [left; reflexivity | exact Hx].
  - right; split; [right; reflexivity | exact Hx].
Qed.

(** X13: where things enter.  When [Math.random] keeps to [0, 1),
    [randomEdgeSpawn] makes exactly two draws and returns a point on the
    frame [margin] outside the canvas, so with a positive margin never a
    point of the canvas itself; the fallback point [(0, 0)] of the source is
    never returned. *)
Theorem X13_edge_spawn_on_frame (W H0 margin : Q) (n : nat) :
  unitRandom -> 0 < W -> 0 < H0 -> 0 < margin ->
  let p := fst (randomEdgeSpawn W H0 margin n) in
  snd (randomEdgeSpawn W H0 margin n) = (n + 2)%nat
  /\ onSpawnFrame W H0 margin (fst p) (snd p)
  /\ ~ (0 <= fst p <= W /\ 0 <= snd p <= H0)
  /\ p <> (0, 0).
Proof.
  intros Hunit HW HH Hm. cbv zeta.
  destruct (randomEdgeSpawn_frame W H0 margin n Hunit HW HH) as [Hd Hf].
  cbv zeta in Hf. split; [exact Hd|]. split; [exact Hf|].
  destruct (fst (randomEdgeSpawn W H0 margin n)) as [x y]. cbn [fst snd] in *.
  split.
  - intros [[Hx0 Hx1] [Hy0 Hy1]].
    destruct Hf as [[[Hx|Hx] _]|[[Hy|Hy] _]];
      [rewrite Hx in Hx0 | rewrite Hx in Hx1 | rewrite Hy in Hy0 | rewrite Hy in Hy1];
      lra.
  - intros Heq. injection Heq as Hx0 Hy0.
    destruct Hf as [[[Hx|Hx] _]|[[Hy|Hy] _]];
      [rewrite Hx0 in Hx | rewrite Hx0 in Hx | rewrite Hy0 in Hy | rewrite Hy0 in Hy].
    + assert (E : 0 == - margin) by (rewrite <- Hx; reflexivity). lra.
    + assert (E : 0 == W + margin) by (rewrite <- Hx; reflexivity). lra.
    + assert (E : 0 == - margin) by (rewrite <- Hy; reflexivity). lra.
    + assert (E : 0 == H0 + margin) by (rewrite <- Hy; reflexivity). lra.
Qed.
End Spawning.

Lemma X13_edge_spawn_on_frame_witness :
  snd (@randomEdgeSpawn sampleMath CONFIG.CANVAS.W CONFIG.CANVAS.H
         CONFIG.POWERUP.OFFSCREEN_MARGIN 0%nat) = 2%nat.
Proof.
  apply (@X13_edge_spawn_on_frame sampleMath CONFIG.CANVAS.W CONFIG.CANVAS.H
           CONFIG.POWERUP.OFFSCREEN_MARGIN 0%nat);
    [exact sampleRandom_unit | reflexivity | reflexivity | reflexivity].
Defined.

Lemma pushTimes_draws {A} (make : Rand A) (d : nat) :
  (forall n, snd (make n) = (n + d)%nat) ->
  forall k n, snd (pushTimes k make n) = (n + k * d)%nat.
Proof.
  intros Hmake k. induction k as [|k IH]; intros n; simpl.
  - unfold ret. simpl. lia.
  - unfold bind. pose proof (Hmake n) as Ha.
    destruct (make n) as [a n1].
    specialize (IH n1). destruct (pushTimes k make n1) as [rest n2].
    simpl in *. lia.
Qed.

(** A product of a sign, a speed and a unit draw stays inside the speed. *)
Lemma signed_unit_bound (sign speed u bound : Q) :
  sign = -1 \/ sign = 1 -> 0 <= speed < bound -> 0 <= u < 1 ->
  - bound < sign * speed * u < bound.
Proof.
  intros Hs [Hs0 Hs1] [Hu0 Hu1].
  assert (Hp0 : 0 <= speed * u) by (apply Qmult_le_0_compat; assumption).
  assert (Hp1 : u * speed <= 1 * speed)
    by (apply Qmult_le_compat_r; lra).
  destruct Hs as [ -> | -> ].
  - assert (E : -1 * speed * u == - (speed * u)) by ring. rewrite E. split; lra.
  - assert (E : 1 * speed * u == speed * u) by ring. rewrite E. split; lra.
Qed.

Section WaveAsteroids.
Context `{MathLib}.

(** What the constructor draws, for draws in [0, 1) and a positive speed
    multiplier: seven numbers, a velocity inside [SPEED_MAX] times the
    multiplier on each axis, a spin in [-1, 1). *)
Lemma Asteroid_new_motion (x0 y0 : Q) (i : nat) (c : ColorVariant) (m : Q) (n : nat) :
  unitRandom -> 0 < m ->
  let a := fst (Asteroid.new x0 y0 i (Some c) m n) in
  snd (Asteroid.new x0 y0 i (Some c) m n) = (n + 7)%nat
  /\ - (CONFIG.ASTEROID.SPEED_MAX * m) < Entity.vx (Asteroid.base a)
     < CONFIG.ASTEROID.SPEED_MAX * m
  /\ - (CONFIG.ASTEROID.SPEED_MAX * m) < Entity.vy (Asteroid.base a)
     < CONFIG.ASTEROID.SPEED_MAX * m
  /\ -1 <= Asteroid.spin a < 1.
Proof.
  intros Hunit Hm. cbv zeta.
  unfold Asteroid.new, randRange, randSign. unfold bind, random, ret.
  cbv beta iota zeta. cbn [fst snd Asteroid.base Asteroid.spin Entity.vx Entity.vy
                           Entity.set_vel].
  split; [lia|].
  assert (Hmin : CONFIG.ASTEROID.SPEED_MIN == 30) by reflexivity.
  assert (Hmax : CONFIG.ASTEROID.SPEED_MAX == 120) by reflexivity.
  set (MIN := CONFIG.ASTEROID.SPEED_MIN) in *.
  set (MAX := CONFIG.ASTEROID.SPEED_MAX) in *.
  pose proof (Hunit n) as [Hb0 Hb1].
  set (ub := Math_random n) in *.
  assert (Hspeed : 0 <= (MIN + ub * (MAX - MIN)) * m < MAX * m).
  { assert (Hr0 : 0 <= ub * (MAX - MIN)) by (apply Qmult_le_0_compat; lra).
    assert (Hr1 : ub * (MAX - MIN) < 1 * (MAX - MIN))
      by (apply Qmult_lt_compat_r; lra).
    split.
    - apply Qmult_le_0_compat; lra.
    - apply Qmult_lt_compat_r; lra. }
  split; [|split].
  - apply signed_unit_bound; [|exact Hspeed|apply Hunit].
    destruct (Qltb _ 0.5); [left|right]; reflexivity.
  - apply signed_unit_bound; [|exact Hspeed|apply Hunit].
    destruct (Qltb _ 0.5); [left|right]; reflexivity.
  - match goal with
    | |- _ <= _ + Math_random ?k * _ < _ =>
        pose proof (Hunit k) as [Hu0 Hu1]; set (us := Math_random k) in *
    end.
    split; lra.
Qed.

(** What one round of [spawnWave] makes. *)
Lemma spawnWaveAsteroid_spec (m : Q) (n : nat) :
  unitRandom -> 0 < m ->
  let a := fst (spawnWaveAsteroid m n) in
  snd (spawnWaveAsteroid m n) = (n + 10)%nat
  /\ onSpawnFrame CONFIG.CANVAS.W CONFIG.CANVAS.H CONFIG.POWERUP.OFFSCREEN_MARGIN
       (Entity.x (Asteroid.base a)) (Entity.y (Asteroid.base a))
  /\ Entity.r (Asteroid.base a) = 42
  /\ Asteroid.sizeIndex a = 0%nat
  /\ Entity.dead (Asteroid.base a) = false
  /\ Asteroid.speedMultiplier a = m
  /\ - (CONFIG.ASTEROID.SPEED_MAX * m) < Entity.vx (Asteroid.base a)
     < CONFIG.ASTEROID.SPEED_MAX * m
  /\ - (CONFIG.ASTEROID.SPEED_MAX * m) < Entity.vy (Asteroid.base a)
     < CONFIG.ASTEROID.SPEED_MAX * m
  /\ -1 <= Asteroid.spin a < 1.
Proof.
  intros Hunit Hm. cbv zeta.
  pose proof (randomEdgeSpawn_frame CONFIG.CANVAS.W CONFIG.CANVAS.H
                CONFIG.POWERUP.OFFSCREEN_MARGIN n Hunit eq_refl eq_refl)
    as (Hd & Hframe).
  unfold spawnWaveAsteroid, bind.
  destruct (randomEdgeSpawn _ _ _ n) as [pos n1]. cbn [fst snd] in *. subst n1.
  unfold random. cbv beta iota zeta.
  set (c := if Qltb _ 0.5 then brown else grey).
  pose proof (Asteroid_new_fields (fst pos) (snd pos) 0 c m (Datatypes.S (n + 2)))
    as (Fx & Fy & Fr & Fd & Fi & _ & Fm).
  pose proof (Asteroid_new_motion (fst pos) (snd pos) 0 c m (Datatypes.S (n + 2))
                Hunit Hm) as (Md & Mx & My & Ms).
  cbv zeta in *.
  split; [rewrite Md; lia|].
  split; [rewrite Fx, Fy; exact Hframe|].
  split; [rewrite Fr; reflexivity|].
  repeat split; try assumption; try apply Mx; try apply My; apply Ms.
Qed.

(** X14: the asteroids of a new wave, when [Math.random] keeps to [0, 1)
    and the wave number is not negative.  [spawnWave] keeps the asteroids
    there were and puts [START_COUNT + wave * GROWTH] new ones after them,
    using ten draws for each.  Every new one is live, of the largest tier
    with radius 42, starts on the frame [OFFSCREEN_MARGIN] outside the
    canvas, carries the wave's speed multiplier [1 + wave *
    SPEED_GROWTH_PER_WAVE], moves slower than [SPEED_MAX] times that
    multiplier along each axis, and spins at a rate in [-1, 1). *)
Theorem X14_wave_asteroids_enter_from_frame (S : State.t) (n : nat) :
  unitRandom -> (0 <= State.wave S)%Z ->
  let count := Z.to_nat (CONFIG.WAVES.START_COUNT
                         + State.wave S * CONFIG.WAVES.GROWTH) in
  let m := 1 + inject_Z (State.wave S) * CONFIG.ASTEROID.SPEED_GROWTH_PER_WAVE in
  snd (spawnWave S n) = (n + count * 10)%nat
  /\ exists spawned,
       State.asteroids (fst (spawnWave S n)) = State.asteroids S ++ spawned
       /\ length spawned = count
       /\ Forall (fun a =>
            onSpawnFrame CONFIG.CANVAS.W CONFIG.CANVAS.H
              CONFIG.POWERUP.OFFSCREEN_MARGIN
              (Entity.x (Asteroid.base a)) (Entity.y (Asteroid.base a))
            /\ Entity.r (Asteroid.base a) = 42
            /\ Asteroid.sizeIndex a = 0%nat
            /\ Entity.dead (Asteroid.base a) = false
            /\ Asteroid.speedMultiplier a = m
            /\ - (CONFIG.ASTEROID.SPEED_MAX * m) < Entity.vx (Asteroid.base a)
               < CONFIG.ASTEROID.SPEED_MAX * m
            /\ - (CONFIG.ASTEROID.SPEED_MAX * m) < Entity.vy (Asteroid.base a)
               < CONFIG.ASTEROID.SPEED_MAX * m
            /\ -1 <= Asteroid.spin a < 1) spawned.
Proof.
  intros Hunit Hwave. cbv zeta.
  set (m := 1 + inject_Z (State.wave S) * CONFIG.ASTEROID.SPEED_GROWTH_PER_WAVE).
  assert (Hm : 0 < m).
  { unfold m.
    assert (0 <= inject_Z (State.wave S))
      by (change 0 with (inject_Z 0); rewrite <- Zle_Qle; exact Hwave).
    assert (0 <= inject_Z (State.wave S) * CONFIG.ASTEROID.SPEED_GROWTH_PER_WAVE)
      by (apply Qmult_le_0_compat; [assumption | discriminate]).
    lra. }
  unfold spawnWave, bind. fold m.
  set (count := Z.to_nat _). set (make := spawnWaveAsteroid m).
  pose proof (pushTimes_length make count n) as Hlen.
  pose proof (pushTimes_draws make 10
                (fun k => proj1 (spawnWaveAsteroid_spec m k Hunit Hm)) count n)
    as Hdraws.
  destruct (pushTimes count make n) as [spawned n1] eqn:E. cbn [fst snd] in *.
  split; [exact Hdraws|].
  exists spawned. split; [reflexivity|]. split; [exact Hlen|].
  replace spawned with (fst (pushTimes count make n)) by (rewrite E; reflexivity).
  apply pushTimes_Forall. intros k.
  exact (proj2 (spawnWaveAsteroid_spec m k Hunit Hm)).
Qed.
End WaveAsteroids.

Lemma X14_wave_asteroids_enter_from_frame_witness :
  snd (@spawnWave sampleMath (Game.state clearedGame) 0%nat) = 40%nat.
Proof.
  apply (@X14_wave_asteroids_enter_from_frame sampleMath
           (Game.state clearedGame) 0%nat);
    [exact sampleRandom_unit | vm_compute; discriminate].
Defined.

Section PowerUpSpawns.
Context `{MathLib}.

Lemma PowerUp_new_fields (x0 y0 : Q) (ty : CONFIG.POWERUP.Type_) (n : nat) :
  let p := fst (PowerUp.new x0 y0 ty n) in
  Entity.x (PowerUp.base p) = x0
  /\ Entity.y (PowerUp.base p) = y0
  /\ Entity.r (PowerUp.base p) = CONFIG.POWERUP.RADIUS
  /\ Entity.dead (PowerUp.base p) = false
  /\ PowerUp.type p = ty.
Proof.
  cbv zeta. unfold PowerUp.new, randRange, randSign. unfold bind, random, ret.
  cbv beta iota zeta. cbn. repeat split; reflexivity.
Qed.

(** The loop of [maybeSpawnPowerUp] over the configured [entries]: it only
    appends to the power-ups, at most one for each entry and in the order of
    the entries. *)
Lemma maybeSpawnPowerUpLoop_spec entries (S : State.t) (n : nat) :
  unitRandom ->
  exists added,
    fst (maybeSpawnPowerUpLoop entries S n)
    = State.set_powerups (State.powerups S ++ added) S
    /\ sublist (map PowerUp.type added) (map fst entries)
    /\ Forall (fun p =>
         Entity.dead (PowerUp.base p) = false
         /\ Entity.r (PowerUp.base p) = CONFIG.POWERUP.RADIUS
         /\ onSpawnFrame CONFIG.CANVAS.W CONFIG.CANVAS.H
              CONFIG.POWERUP.OFFSCREEN_MARGIN
              (Entity.x (PowerUp.base p)) (Entity.y (PowerUp.base p))) added.
Proof.
  intros Hunit. revert S n.
  induction entries as [|[type rules] rest IH]; intros S n; simpl.
  - exists []. rewrite app_nil_r. split; [destruct S; reflexivity|].
    split; constructor.
  - unfold bind. destruct (shouldSpawnType rules (State.wave S) n) as [spawn n1].
    destruct spawn.
    + pose proof (randomEdgeSpawn_frame CONFIG.CANVAS.W CONFIG.CANVAS.H
                    CONFIG.POWERUP.OFFSCREEN_MARGIN n1 Hunit eq_refl eq_refl)
        as [_ Hframe].
      destruct (randomEdgeSpawn _ _ _ n1) as [pos n2]. cbn [fst snd] in *.
      pose proof (PowerUp_new_fields (fst pos) (snd pos) type n2)
        as (Fx & Fy & Fr & Fd & Ft).
      destruct (PowerUp.new _ _ type n2) as [pu n3]. cbn [fst] in *.
      destruct (IH (State.set_powerups (State.powerups S ++ [pu]) S) n3)
        as (added & Heq & Hsub & Hall).
      exists (pu :: added). split; [|split].
      * rewrite Heq. cbn. rewrite <- app_assoc. reflexivity.
      * cbn [map]. rewrite Ft. apply sublist_skip. exact Hsub.
      * constructor; [|exact Hall].
        split; [exact Fd|]. split; [exact Fr|]. rewrite Fx, Fy. exact Hframe.
    + destruct (IH S n1) as (added & Heq & Hsub & Hall).
      exists added. split; [exact Heq|]. split; [|exact Hall].
      cbn [map]. apply sublist_cons. exact Hsub.
Qed.

(** X15: the power-ups of a new wave, when [Math.random] keeps to [0, 1).
    [maybeSpawnPowerUp] changes nothing of the state but the power-up
    array, and that only by appending: the power-ups there were stay, in
    place.  It adds at most one power-up of each configured type, in the
    order triple shot, extra life, shield, speed; each is live, has the
    power-up radius and starts on the frame [OFFSCREEN_MARGIN] outside the
    canvas. *)
Theorem X15_powerups_at_most_one_per_type (S : State.t) (n : nat) :
  unitRandom ->
  exists added,
    fst (maybeSpawnPowerUp S n)
    = State.set_powerups (State.powerups S ++ added) S
    /\ sublist (map PowerUp.type added)
         [CONFIG.POWERUP.tripleShot; CONFIG.POWERUP.extraLife;
          CONFIG.POWERUP.shield; CONFIG.POWERUP.speed]
    /\ NoDup (map PowerUp.type added)
    /\ (length added <= 4)%nat
    /\ Forall (fun p =>
         Entity.dead (PowerUp.base p) = false
         /\ Entity.r (PowerUp.base p) = CONFIG.POWERUP.RADIUS
         /\ onSpawnFrame CONFIG.CANVAS.W CONFIG.CANVAS.H
              CONFIG.POWERUP.OFFSCREEN_MARGIN
              (Entity.x (PowerUp.base p)) (Entity.y (PowerUp.base p))) added.
Proof.
  intros Hunit. unfold maybeSpawnPowerUp.
  destruct (maybeSpawnPowerUpLoop_spec CONFIG.POWERUP.types S n Hunit)
    as (added & Heq & Hsub & Hall).
  change (map fst CONFIG.POWERUP.types)
    with [CONFIG.POWERUP.tripleShot; CONFIG.POWERUP.extraLife;
          CONFIG.POWERUP.shield; CONFIG.POWERUP.speed] in Hsub.
  exists added. split; [exact Heq|]. split; [exact Hsub|].
  split; [|split; [|exact Hall]].
  - refine (sublist_NoDup _ _ _ Hsub).
    repeat (apply NoDup_cons_2;
            [rewrite ?elem_of_cons, elem_of_nil; intuition discriminate|]).
    apply NoDup_nil_2.
  - apply sublist_length in Hsub. rewrite length_map in Hsub. exact Hsub.
Qed.
End PowerUpSpawns.

Lemma X15_powerups_at_most_one_per_type_witness :
  exists added,
    fst (@maybeSpawnPowerUp sampleMath (Game.state clearedGame) 0%nat)
    = State.set_powerups (State.powerups (Game.state clearedGame) ++ added)
        (Game.state clearedGame)
    /\ sublist (map PowerUp.type added)
         [CONFIG.POWERUP.tripleShot; CONFIG.POWERUP.extraLife;
          CONFIG.POWERUP.shield; CONFIG.POWERUP.speed]
    /\ NoDup (map PowerUp.type added)
    /\ (length added <= 4)%nat
    /\ Forall (fun p =>
         Entity.dead (PowerUp.base p) = false
         /\ Entity.r (PowerUp.base p) = CONFIG.POWERUP.RADIUS
         /\ onSpawnFrame CONFIG.CANVAS.W CONFIG.CANVAS.H
              CONFIG.POWERUP.OFFSCREEN_MARGIN
              (Entity.x (PowerUp.base p)) (Entity.y (PowerUp.base p))) added.
Proof.
  apply (@X15_powerups_at_most_one_per_type sampleMath
           (Game.state clearedGame) 0%nat).
  exact sampleRandom_unit.
Defined.

(** ** Starting and restarting a run (src/core/Game.js) *)

Section Starting.
Context `{MathLib}.

(** [spawnWave] touches the asteroid array only, and only by appending. *)
Lemma spawnWave_appends (S : State.t) (n : nat) :
  exists spawned,
    fst (spawnWave S n) = State.set_asteroids (State.asteroids S ++ spawned) S
    /\ length spawned
       = Z.to_nat (CONFIG.WAVES.START_COUNT + State.wave S * CONFIG.WAVES.GROWTH)
    /\ Forall (fun a => Asteroid.sizeIndex a = 0%nat
                        /\ Entity.dead (Asteroid.base a) = false) spawned.
Proof.
  unfold spawnWave, bind.
  set (count := Z.to_nat _). set (make := spawnWaveAsteroid _).
  pose proof (pushTimes_length make count n) as Hlen.
  pose proof (pushTimes_Forall
                (fun a => Asteroid.sizeIndex a = 0%nat
                          /\ Entity.dead (Asteroid.base a) = false)
                make (spawnWaveAsteroid_tier _) count n) as Hall.
  destruct (pushTimes count make n) as [spawned n']. cbn [fst] in *.
  exists spawned. repeat split; assumption.
Qed.

(** [maybeSpawnPowerUp] touches the power-up array only, and only by
    appending live power-ups. *)
Lemma maybeSpawnPowerUpLoop_appends entries (S : State.t) (n : nat) :
  exists added,
    fst (maybeSpawnPowerUpLoop entries S n)
    = State.set_powerups (State.powerups S ++ added) S
    /\ Forall (fun p => Entity.dead (PowerUp.base p) = false) added.
Proof.
  revert S n. induction entries as [|[type rules] rest IH]; intros S n; simpl.
  - exists []. rewrite app_nil_r. split; [destruct S; reflexivity | constructor].
  - unfold bind. destruct (shouldSpawnType rules (State.wave S) n) as [spawn n1].
    destruct spawn.
    + destruct (randomEdgeSpawn _ _ _ n1) as [pos n2]. cbn [fst snd] in *.
      pose proof (PowerUp_new_fields (fst pos) (snd pos) type n2)
        as (_ & _ & _ & Fd & _).
      destruct (PowerUp.new _ _ type n2) as [pu n3]. cbn [fst] in *.
      destruct (IH (State.set_powerups (State.powerups S ++ [pu]) S) n3)
        as (added & Heq & Hall).
      exists (pu :: added). split.
      * rewrite Heq. cbn. rewrite <- app_assoc. reflexivity.
      * constructor; assumption.
    + apply IH.
Qed.

(** The three calls that open a wave, on a state with no asteroid. *)
Lemma openWave_state (g : Game.t) :
  State.asteroids (Game.state g) = [] ->
  let g' := resetUfoStateForWave
              (Game.onStateRand maybeSpawnPowerUp (Game.onStateRand spawnWave g)) in
  Game.highScore g' = Game.highScore g
  /\ Game._lastPersistedHighScore g' = Game._lastPersistedHighScore g
  /\ exists spawned added,
       Game.state g'
       = State.set_ufoSpawnTimer (getUfoSpawnDelayForWave (State.wave (Game.state g)))
           (State.set_ufoSpawnedThisWave false
              (State.set_ufoBullets []
                 (State.set_ufo None
                    (State.set_powerups (State.powerups (Game.state g) ++ added)
                       (State.set_asteroids spawned (Game.state g))))))
       /\ length spawned
          = Z.to_nat (CONFIG.WAVES.START_COUNT
                      + State.wave (Game.state g) * CONFIG.WAVES.GROWTH)
       /\ Forall (fun a => Asteroid.sizeIndex a = 0%nat
                           /\ Entity.dead (Asteroid.base a) = false) spawned
       /\ Forall (fun p => Entity.dead (PowerUp.base p) = false) added.
Proof.
  intros Hempty. cbv zeta.
  destruct (spawnWave_appends (Game.state g) (Game.draws g))
    as (spawned & Hs & Hlen & Hall).
  rewrite Hempty in Hs. cbn [app] in Hs.
  set (g1 := Game.onStateRand spawnWave g).
  assert (Hg1 : Game.state g1 = State.set_asteroids spawned (Game.state g)).
  { unfold g1. rewrite onStateRand_state. exact Hs. }
  assert (Hh1 : Game.highScore g1 = Game.highScore g
                /\ Game._lastPersistedHighScore g1 = Game._lastPersistedHighScore g).
  { unfold g1, Game.onStateRand. destruct (spawnWave _ _). split; reflexivity. }
  destruct (maybeSpawnPowerUpLoop_appends CONFIG.POWERUP.types
              (Game.state g1) (Game.draws g1)) as (added & Ha & Hlive).
  set (g2 := Game.onStateRand maybeSpawnPowerUp g1).
  assert (Hg2 : Game.state g2
                = State.set_powerups (State.powerups (Game.state g1) ++ added)
                    (Game.state g1)).
  { unfold g2. rewrite onStateRand_state. exact Ha. }
  assert (Hh2 : Game.highScore g2 = Game.highScore g1
                /\ Game._lastPersistedHighScore g2 = Game._lastPersistedHighScore g1).
  { unfold g2, Game.onStateRand. destruct (maybeSpawnPowerUp _ _).
    split; reflexivity. }
  destruct Hh1 as [Hh1 Hp1]. destruct Hh2 as [Hh2 Hp2].
  split; [cbn; congruence|]. split; [cbn; congruence|].
  exists spawned, added. split; [|repeat split; assumption].
  unfold resetUfoStateForWave, Game.onState. cbn [Game.state Game.set_state].
  rewrite Hg2, Hg1. reflexivity.
Qed.

(** The state [startGame()] builds from a MENU state. *)
Lemma startGame_menu_state (g : Game.t) :
  State.mode (Game.state g) = MENU ->
  exists spawned added,
    Game.state (startGame g)
    = {| State.mode := PLAY;
         State.wave := 0;
         State.score := 0;
         State.lives := CONFIG.SHIP.LIVES;
         State.highScore := Game.highScore g;
         State.didBeatHighScore := false;
         State.ship :=
           Ship.resetSpeedLevel
             (Ship.new (CONFIG.CANVAS.W / 2) (CONFIG.CANVAS.H / 2) false);
         State.bullets := [];
         State.asteroids := spawned;
         State.powerups := State.powerups (Game.state g) ++ added;
         State.powerupsCollected := State.powerupsCollected (Game.state g);
         State.ufo := None;
         State.ufoBullets := [];
         State.ufoSpawnTimer := getUfoSpawnDelayForWave 0;
         State.ufoSpawnedThisWave := false |}
    /\ length spawned = Z.to_nat CONFIG.WAVES.START_COUNT
    /\ Forall (fun a => Asteroid.sizeIndex a = 0%nat
                        /\ Entity.dead (Asteroid.base a) = false) spawned
    /\ Forall (fun p => Entity.dead (PowerUp.base p) = false) added.
Proof.
  intros Hmenu. unfold startGame. rewrite Hmenu. cbn [Mode_eqb negb]. cbv zeta.
  set (g0 := Game.onState _ g).
  destruct (openWave_state g0 eq_refl)
    as (_ & _ & spawned & added & Hst & Hlen & Ha & Hl).
  cbv zeta in *.
  exists spawned, added. rewrite Hst.
  split; [reflexivity|]. split; [exact Hlen|]. split; [exact Ha | exact Hl].
Qed.

Lemma reset_startGame (g : Game.t) : reset g = startGame (returnToMenu g).
Proof.
  unfold reset, startGame, returnToMenu. cbv zeta.
  change (State.mode (Game.state (Game.set_state (createInitialState g) g)))
    with MENU.
  cbn [Mode_eqb negb]. reflexivity.
Qed.

(** [startGame()] never touches the game's own high-score fields. *)
Lemma startGame_highScore (g : Game.t) :
  Game.highScore (startGame g) = Game.highScore g
  /\ Game._lastPersistedHighScore (startGame g) = Game._lastPersistedHighScore g.
Proof.
  unfold startGame. destruct (negb _); [split; reflexivity|]. cbv zeta.
  set (g0 := Game.onState _ g).
  destruct (openWave_state g0 eq_refl) as (Hh & Hp & _). cbv zeta in Hh, Hp.
  rewrite Hh, Hp. split; reflexivity.
Qed.

(** X16: [startGame()] in MENU.  It leaves the two high-score fields of the
    game alone and builds the state of a first wave: PLAY, wave 0, score
    0, the configured lives, the high score copied in, a new ship at the
    centre of the canvas that can fire at once and has no shield and no
    invulnerability, no bullet, exactly [START_COUNT] asteroids, all live
    and of the largest tier, no UFO and no laser, and the UFO timer at its
    wave-0 delay.  The power-ups of the menu state and its pick-up counter
    are kept; power-ups are only added. *)
Theorem X16_startGame_from_menu (g : Game.t) :
  State.mode (Game.state g) = MENU ->
  let S' := Game.state (startGame g) in
  Game.highScore (startGame g) = Game.highScore g
  /\ Game._lastPersistedHighScore (startGame g) = Game._lastPersistedHighScore g
  /\ State.mode S' = PLAY
  /\ State.wave S' = 0%Z /\ State.score S' = 0%Z
  /\ State.lives S' = CONFIG.SHIP.LIVES
  /\ State.highScore S' = Game.highScore g
  /\ State.didBeatHighScore S' = false
  /\ State.ship S'
     = Ship.resetSpeedLevel
         (Ship.new (CONFIG.CANVAS.W / 2) (CONFIG.CANVAS.H / 2) false)
  /\ Ship.invuln (State.ship S') = 0
  /\ Ship.canFire (State.ship S') = true
  /\ Ship.shieldLevel (State.ship S') = 0%Z
  /\ State.bullets S' = []
  /\ length (State.asteroids S') = Z.to_nat CONFIG.WAVES.START_COUNT
  /\ Forall (fun a => Asteroid.sizeIndex a = 0%nat
                      /\ Entity.dead (Asteroid.base a) = false)
            (State.asteroids S')
  /\ (exists added,
        State.powerups S' = State.powerups (Game.state g) ++ added
        /\ Forall (fun p => Entity.dead (PowerUp.base p) = false) added)
  /\ State.powerupsCollected S' = State.powerupsCollected (Game.state g)
  /\ State.ufo S' = None /\ State.ufoBullets S' = []
  /\ State.ufoSpawnTimer S' = getUfoSpawnDelayForWave 0
  /\ State.ufoSpawnedThisWave S' = false.
Proof.
  intros Hmenu. cbv zeta.
  destruct (startGame_menu_state g Hmenu) as (spawned & added & Hst & Hlen & Ha & Hl).
  rewrite Hst. cbn [State.mode State.wave State.score State.lives State.highScore
                    State.didBeatHighScore State.ship State.bullets State.asteroids
                    State.powerups State.powerupsCollected State.ufo
                    State.ufoBullets State.ufoSpawnTimer State.ufoSpawnedThisWave].
  split; [apply startGame_highScore|]. split; [apply startGame_highScore|].
  do 7 (split; [reflexivity|]).
  split; [reflexivity|]. split; [reflexivity|]. split; [reflexivity|].
  split; [reflexivity|]. split; [exact Hlen|]. split; [exact Ha|].
  split; [exists added; split; [reflexivity | exact Hl]|].
  repeat split; reflexivity.
Qed.

(** X17: restarting.  [returnToMenu()] throws the run away: it keeps only
    the game's high-score fields and the random stream, and doing it twice
    is doing it once.  The state it leaves is the menu state, with wave 0,
    score 0, the configured lives, a new ship at the canvas centre and
    every collection empty, whatever the run was: two games with the same
    high score are left in the same state, and in the same game when they
    also agree on the persisted high score and the random stream.
    [reset()], the restart from the game-over screen, is
    exactly [returnToMenu()] followed by [startGame()], so it opens a first
    wave with score 0, the configured lives and the pick-up counter at 0. *)
Theorem X17_reset_is_menu_then_start (g : Game.t) :
  reset g = startGame (returnToMenu g)
  /\ returnToMenu (returnToMenu g) = returnToMenu g
  /\ State.mode (Game.state (returnToMenu g)) = MENU
  /\ State.highScore (Game.state (returnToMenu g)) = Game.highScore g
  /\ Game.highScore (returnToMenu g) = Game.highScore g
  /\ Game._lastPersistedHighScore (returnToMenu g) = Game._lastPersistedHighScore g
  /\ Game.draws (returnToMenu g) = Game.draws g
  /\ Game.state (returnToMenu g)
     = {| State.mode := MENU; State.wave := 0; State.score := 0;
          State.lives := CONFIG.SHIP.LIVES;
          State.highScore := Game.highScore g;
          State.didBeatHighScore := false;
          State.ship :=
            Ship.resetSpeedLevel
              (Ship.new (CONFIG.CANVAS.W / 2) (CONFIG.CANVAS.H / 2) false);
          State.bullets := []; State.asteroids := []; State.powerups := [];
          State.powerupsCollected := 0; State.ufo := None;
          State.ufoBullets := []; State.ufoSpawnTimer := None;
          State.ufoSpawnedThisWave := false |}
  /\ (forall g0 : Game.t,
        Game.highScore g0 = Game.highScore g ->
        Game.state (returnToMenu g0) = Game.state (returnToMenu g))
  /\ (forall g0 : Game.t,
        Game.highScore g0 = Game.highScore g ->
        Game._lastPersistedHighScore g0 = Game._lastPersistedHighScore g ->
        Game.draws g0 = Game.draws g ->
        returnToMenu g0 = returnToMenu g /\ reset g0 = reset g)
  /\ State.mode (Game.state (reset g)) = PLAY
  /\ State.wave (Game.state (reset g)) = 0%Z
  /\ State.score (Game.state (reset g)) = 0%Z
  /\ State.lives (Game.state (reset g)) = CONFIG.SHIP.LIVES
  /\ State.powerupsCollected (Game.state (reset g)) = 0%Z
  /\ length (State.asteroids (Game.state (reset g)))
     = Z.to_nat CONFIG.WAVES.START_COUNT.
Proof.
  pose proof (reset_startGame g) as Hcomp.
  split; [exact Hcomp|].
  do 7 (split; [reflexivity|]).
  split.
  { intros g0 Hh. unfold returnToMenu, createInitialState.
    cbn [Game.state Game.set_state]. rewrite Hh. reflexivity. }
  split.
  { intros g0 Hh Hp Hd.
    assert (Hmenu : returnToMenu g0 = returnToMenu g).
    { unfold returnToMenu, createInitialState, Game.set_state.
      rewrite Hh, Hp, Hd. reflexivity. }
    split; [exact Hmenu|].
    rewrite (reset_startGame g0), Hcomp, Hmenu. reflexivity. }
  rewrite Hcomp.
  destruct (startGame_menu_state (returnToMenu g) eq_refl)
    as (spawned & added & Hst & Hlen & _).
  rewrite Hst. cbn [State.mode State.wave State.score State.lives
                    State.powerupsCollected State.asteroids].
  repeat split; try reflexivity. exact Hlen.
Qed.
End Starting.

Lemma X16_startGame_from_menu_witness :
  State.mode (Game.state (@startGame sampleMath (@bootGame sampleMath 1000))) = PLAY.
Proof.
  apply (@X16_startGame_from_menu sampleMath (@bootGame sampleMath 1000)).
  reflexivity.
Defined.

(** ** What a tick keeps (src/core/Game.js) *)

Lemma shipStep_refl (s : Ship.t) : shipStep s s.
Proof. split; [tauto|lia]. Qed.

Lemma shipStep_trans (s1 s2 s3 : Ship.t) :
  shipStep s1 s2 -> shipStep s2 s3 -> shipStep s1 s3.
Proof. intros [A1 B1] [A2 B2]. split; [tauto|lia]. Qed.

Lemma steady_refl (g : Game.t) : steady g g.
Proof.
  unfold steady. split; [reflexivity|]. split; [lia|].
  split; [apply shipStep_refl | tauto].
Qed.

Lemma steady_trans (g1 g2 g3 : Game.t) :
  steady g1 g2 -> steady g2 g3 -> steady g1 g3.
Proof.
  intros (M1 & L1 & S1 & P1) (M2 & L2 & S2 & P2).
  split; [congruence|]. split; [lia|].
  split; [eapply shipStep_trans; eassumption | tauto].
Qed.

Lemma onState_steady (f : State.t -> State.t) (g : Game.t) :
  (forall S, State.mode (f S) = State.mode S
             /\ State.lives (f S) = State.lives S
             /\ shipStep (State.ship S) (State.ship (f S))) ->
  steady g (Game.onState f g).
Proof.
  intros Hf. destruct (Hf (Game.state g)) as (Hm & Hl & Hs).
  unfold steady. cbn [Game.onState Game.state Game.set_state
                      Game.highScore Game._lastPersistedHighScore].
  rewrite Hm, Hl. split; [reflexivity|]. split; [lia|]. split; [exact Hs|tauto].
Qed.

Lemma onStateRand_steady (f : State.t -> Rand State.t) (g : Game.t) :
  (forall S n, State.mode (fst (f S n)) = State.mode S
               /\ State.lives (fst (f S n)) = State.lives S
               /\ State.ship (fst (f S n)) = State.ship S) ->
  steady g (Game.onStateRand f g).
Proof.
  intros Hf. destruct (Hf (Game.state g) (Game.draws g)) as (Hm & Hl & Hs).
  unfold steady, Game.onStateRand.
  destruct (f (Game.state g) (Game.draws g)) as [S' n']. cbn [fst] in *.
  cbn [Game.state Game.set_state Game.set_draws
       Game.highScore Game._lastPersistedHighScore].
  rewrite Hm, Hl, Hs. split; [reflexivity|]. split; [lia|].
  split; [apply shipStep_refl|tauto].
Qed.

Lemma updateHighScore_steady (score : Z) (g : Game.t) :
  steady g (updateHighScore score g).
Proof.
  unfold steady, updateHighScore.
  destruct (score <=? Game.highScore g)%Z eqn:E.
  - split; [reflexivity|]. split; [lia|]. split; [apply shipStep_refl | tauto].
  - apply Z.leb_gt in E. cbv zeta.
    cbn [Game.onState Game.state Game.set_state Game.set_highScore
         Game.highScore Game._lastPersistedHighScore].
    destruct (Game._lastPersistedHighScore g <? score)%Z eqn:E2; cbn.
    + split; [reflexivity|]. split; [lia|]. split; [apply shipStep_refl | tauto].
    + apply Z.ltb_ge in E2.
      split; [reflexivity|]. split; [lia|]. split; [apply shipStep_refl|].
      intros Heq. lia.
Qed.

Lemma addScore_steady (n : Z) (g : Game.t) : steady g (addScore n g).
Proof.
  unfold addScore. cbv zeta.
  eapply steady_trans; [|apply updateHighScore_steady].
  apply onState_steady. intros S. cbn. split; [reflexivity|].
  split; [reflexivity|apply shipStep_refl].
Qed.

Section SteadyTick.
Context `{MathLib}.

(** *** Steps of the ship *)

Lemma Ship_update_levels (dt : Q) (input : Input.t) (s : Ship.t) :
  Ship.shieldLevel (Ship.update dt input s) = Ship.shieldLevel s
  /\ Ship.speedLevel (Ship.update dt input s) = Ship.speedLevel s
  /\ Ship.maxSpeedLevel (Ship.update dt input s) = Ship.maxSpeedLevel s
  /\ Ship.weaponMode (Ship.update dt input s) = Ship.weaponMode s.
Proof. unfold Ship.update. break_branches; repeat split; reflexivity. Qed.

Lemma shipStep_update (dt : Q) (input : Input.t) (s : Ship.t) :
  shipStep s (Ship.update dt input s).
Proof.
  destruct (Ship_update_levels dt input s) as (E1 & E2 & E3 & _).
  unfold shipStep, shipOk.
  rewrite E1, E2, E3, Ship_update_cooldown, Ship_update_invuln.
  split; [|lia]. intros (A & B & _ & _).
  split; [exact A|]. split; [exact B|]. split; apply Q.le_max_l.
Qed.

Lemma shipStep_fire (s : Ship.t) : shipStep s (snd (Ship.fire s)).
Proof.
  unfold shipStep, shipOk. cbn. split; [|lia].
  intros (A & B & _ & D). repeat split; try tauto; try lia. discriminate.
Qed.

Lemma shipStep_set_base (e : Entity.t) (s : Ship.t) :
  shipStep s (Ship.set_base e s).
Proof. unfold shipStep, shipOk. cbn. split; [tauto|lia]. Qed.

Lemma shipStep_set_weaponMode (m : CONFIG.WEAPON.Mode) (s : Ship.t) :
  shipStep s (Ship.set_weaponMode m s).
Proof. unfold shipStep, shipOk. cbn. split; [tauto|lia]. Qed.

Lemma shipStep_increaseShield (s : Ship.t) :
  shipStep s (snd (Ship.increaseShieldLevel s)).
Proof.
  unfold shipStep, shipOk, Ship.increaseShieldLevel. cbv zeta.
  destruct (CONFIG.SHIP.SHIELD_MAX_LEVEL <=? Ship.shieldLevel s)%Z eqn:E;
    cbn [snd]; [split; [tauto|lia]|].
  apply Z.leb_gt in E. cbn. split; [|lia].
  intros (A & B & C & D). repeat split; try tauto; lia.
Qed.

Lemma shipStep_increaseSpeed (s : Ship.t) :
  shipStep s (snd (Ship.increaseSpeedLevel s)).
Proof.
  unfold shipStep, shipOk, Ship.increaseSpeedLevel.
  destruct (Ship.maxSpeedLevel s <=? Ship.speedLevel s)%Z eqn:E;
    cbn [snd]; [split; [tauto|lia]|].
  apply Z.leb_gt in E. cbn. split; [|lia].
  intros (A & B & C & D). repeat split; try tauto; lia.
Qed.
End SteadyTick.

Section SteadyBlocks.
Context `{MathLib}.

Lemma spawnWave_core (S : State.t) (n : nat) :
  State.mode (fst (spawnWave S n)) = State.mode S
  /\ State.lives (fst (spawnWave S n)) = State.lives S
  /\ State.ship (fst (spawnWave S n)) = State.ship S.
Proof.
  destruct (spawnWave_appends S n) as (spawned & -> & _). repeat split.
Qed.

Lemma maybeSpawnPowerUp_core (S : State.t) (n : nat) :
  State.mode (fst (maybeSpawnPowerUp S n)) = State.mode S
  /\ State.lives (fst (maybeSpawnPowerUp S n)) = State.lives S
  /\ State.ship (fst (maybeSpawnPowerUp S n)) = State.ship S.
Proof.
  unfold maybeSpawnPowerUp.
  destruct (maybeSpawnPowerUpLoop_appends CONFIG.POWERUP.types S n)
    as (added & -> & _).
  repeat split.
Qed.

Lemma spawnUfoForCurrentWave_core (S : State.t) (n : nat) :
  State.mode (fst (spawnUfoForCurrentWave S n)) = State.mode S
  /\ State.lives (fst (spawnUfoForCurrentWave S n)) = State.lives S
  /\ State.ship (fst (spawnUfoForCurrentWave S n)) = State.ship S.
Proof.
  unfold spawnUfoForCurrentWave, bind. break_branches; repeat split; reflexivity.
Qed.

(** Peels the mutations off a goal [steady g (f g)]. *)
Ltac steady_step :=
  cbv zeta;
  repeat first
    [ apply steady_refl
    | match goal with
      | |- steady ?g (Game.onState _ ?x) =>
          apply (steady_trans g x);
          [|apply onState_steady; intros; cbv beta zeta; break_branches;
            (split; [reflexivity|]); (split; [reflexivity|]);
            first [ apply shipStep_refl | apply shipStep_update
                  | apply shipStep_set_base | apply shipStep_set_weaponMode ]]
      | |- steady ?g (Game.onStateRand _ ?x) =>
          apply (steady_trans g x);
          [|apply onStateRand_steady;
            first [ apply spawnWave_core
                  | apply spawnUfoForCurrentWave_core
                  | apply maybeSpawnPowerUp_core
                  | intros; unfold bind; break_branches;
                    repeat split; reflexivity ]]
      | |- steady ?g (addScore _ ?x) =>
          apply (steady_trans g x); [|apply addScore_steady]
      | |- steady ?g (updateHighScore _ ?x) =>
          apply (steady_trans g x); [|apply updateHighScore_steady]
      | |- steady _ (if ?c then _ else _) => destruct c
      | |- steady _ (let (_, _) := ?e in _) => destruct e
      | |- steady _ (match ?e with Some _ => _ | None => _ end) => destruct e
      | |- steady _ (match ?e with
                     | CONFIG.WEAPON.MODE_SINGLE => _
                     | CONFIG.WEAPON.MODE_TRIPLE => _
                     | CONFIG.WEAPON.MODE_FIVE => _
                     end) => destruct e
      end ].

Lemma forEachIndex_steady (body : nat -> Game.t -> Game.t) (len : nat) (g : Game.t) :
  (forall i s, steady s (body i s)) -> steady g (forEachIndex len body g).
Proof.
  intros Hbody. apply (forEachIndex_ind (steady g)); [|apply steady_refl].
  intros i s Hs. eapply steady_trans; [exact Hs|apply Hbody].
Qed.

Lemma updateEntities_steady (dt : Q) (input : Input.t) (g : Game.t) :
  steady g (updateEntities dt input g).
Proof.
  unfold updateEntities. cbv zeta.
  set (g1 := Game.onState
               (fun S => State.set_ship (Ship.update dt input (State.ship S)) S) g).
  assert (H1 : steady g g1) by (unfold g1; steady_step).
  set (g2 := if _ && Ship.canFire (State.ship (Game.state g1)) then _ else g1).
  assert (H2 : steady g1 g2).
  { unfold g2. destruct (_ && _); [|apply steady_refl].
    apply onState_steady. intros S.
    pose proof (shipStep_fire (State.ship S)) as Hf.
    destruct (Ship.fire (State.ship S)) as [bullets ship']. cbn [snd] in Hf.
    cbn. split; [reflexivity|]. split; [reflexivity|]. exact Hf. }
  apply (steady_trans g g2); [eapply steady_trans; eassumption|].
  clearbody g2. clear.
  steady_step.
Qed.

Lemma onBulletHitsAsteroid_steady (bi ai : nat) (g : Game.t) :
  steady g (onBulletHitsAsteroid bi ai g).
Proof. unfold onBulletHitsAsteroid. steady_step. Qed.

Lemma bulletAsteroidRound_steady (bi : nat) (g : Game.t) :
  steady g (bulletAsteroidRound onBulletHitsAsteroid bi g).
Proof.
  unfold bulletAsteroidRound.
  destruct (State.bullets (Game.state g) !! bi) as [b|]; [|apply steady_refl].
  destruct (Entity.dead (Bullet.base b)); [apply steady_refl|].
  destruct (findFirst _ _) as [[ai a]|]; [|apply steady_refl].
  apply onBulletHitsAsteroid_steady.
Qed.

Lemma bulletUfoRound_steady (bi : nat) (g : Game.t) :
  steady g (bulletUfoRound bi g).
Proof. unfold bulletUfoRound. steady_step. Qed.

Lemma _handleBulletCollisions_steady (g : Game.t) :
  steady g (_handleBulletCollisions g).
Proof.
  unfold _handleBulletCollisions. cbv zeta.
  eapply steady_trans.
  - apply forEachIndex_steady. apply bulletAsteroidRound_steady.
  - apply forEachIndex_steady. apply bulletUfoRound_steady.
Qed.

Lemma set_ship_steady (s' : Ship.t) (g : Game.t) :
  shipStep (State.ship (Game.state g)) s' ->
  steady g (Game.onState (State.set_ship s') g).
Proof.
  intros Hs. unfold steady. cbn. split; [reflexivity|]. split; [lia|].
  split; [exact Hs|tauto].
Qed.

Lemma applyPowerUp_steady (type : CONFIG.POWERUP.Type_) (g : Game.t) :
  steady g (applyPowerUp type g).
Proof.
  unfold applyPowerUp. cbv zeta. destruct type.
  - destruct (Ship.weaponMode (State.ship (Game.state g)));
      first [ apply addScore_steady
            | apply set_ship_steady, shipStep_set_weaponMode ].
  - destruct (State.lives (Game.state g) <? CONFIG.SHIP.MAX_LIVES)%Z eqn:E;
      [|apply addScore_steady].
    apply Z.ltb_lt in E. unfold steady. cbn.
    split; [reflexivity|]. split; [lia|]. split; [apply shipStep_refl|tauto].
  - destruct (Ship.shieldLevel (State.ship (Game.state g))
              <? CONFIG.SHIP.SHIELD_MAX_LEVEL)%Z; [|apply addScore_steady].
    pose proof (shipStep_increaseShield (State.ship (Game.state g))) as Hs.
    destruct (Ship.increaseShieldLevel (State.ship (Game.state g)))
      as [raised ship']. cbn [snd] in Hs.
    pose proof (set_ship_steady ship' g Hs) as H1.
    destruct raised; [exact H1|].
    eapply steady_trans; [exact H1|apply addScore_steady].
  - pose proof (shipStep_increaseSpeed (State.ship (Game.state g))) as Hs.
    destruct (Ship.increaseSpeedLevel (State.ship (Game.state g)))
      as [raised ship']. cbn [snd] in Hs.
    pose proof (set_ship_steady ship' g Hs) as H1.
    destruct raised; [exact H1|].
    eapply steady_trans; [exact H1|apply addScore_steady].
Qed.

Lemma powerupRound_steady (pi : nat) (g : Game.t) :
  steady g (powerupRound pi g).
Proof.
  unfold powerupRound. cbv zeta.
  destruct (State.powerups (Game.state g) !! pi) as [pu|]; [|apply steady_refl].
  destruct (_ && _); [|apply steady_refl].
  eapply steady_trans; [|apply applyPowerUp_steady].
  steady_step.
Qed.

Lemma _handlePowerupCollisions_steady (g : Game.t) :
  steady g (_handlePowerupCollisions g).
Proof. apply forEachIndex_steady, powerupRound_steady. Qed.

Lemma cleanup_steady (g : Game.t) : steady g (cleanup g).
Proof. unfold cleanup. steady_step. Qed.

Lemma nextWaveCheck_steady (g : Game.t) : steady g (nextWaveCheck g).
Proof. unfold nextWaveCheck, resetUfoStateForWave. steady_step. Qed.
End SteadyBlocks.

Section HitTick.
Context `{MathLib}.

Lemma freshShip_ok : shipOk freshShip /\ 0 < Ship.invuln freshShip
                     /\ Ship.shieldLevel freshShip = 0%Z.
Proof.
  unfold shipOk. cbn. repeat split; try discriminate; try reflexivity; lia.
Qed.

(** A step that keeps the game steady leaves [hitPost] where it was. *)
Lemma hitPost_after_steady (g g1 : Game.t) (r : bool * Game.t) :
  steady g g1 ->
  State.lives (Game.state g1) = State.lives (Game.state g) ->
  Ship.shieldLevel (State.ship (Game.state g1))
  = Ship.shieldLevel (State.ship (Game.state g)) ->
  hitPost g1 r -> hitPost g r.
Proof.
  intros (Hm & Hl & [Hok Hsh] & Hp) Hlives Hshield (A & B & C & D & E & F).
  unfold hitPost in *. cbv zeta in *. rewrite Hlives, Hshield in *.
  split; [exact A|]. split; [exact B|]. split; [tauto|]. split; [tauto|].
  split; assumption.
Qed.

(** One call of the closure [damageShip] in PLAY, with a callback and a
    bonus that keep the game steady: what [hitPost] says, and the ship is
    invulnerable whenever the call answers [true]. *)
Lemma damageShip_hit (cb : option (Game.t -> Game.t)) (bonus : Z) (g : Game.t) :
  (forall f, cb = Some f ->
     forall g0, steady g0 (f g0)
                /\ State.ship (Game.state (f g0)) = State.ship (Game.state g0)
                /\ State.lives (Game.state (f g0)) = State.lives (Game.state g0)) ->
  State.mode (Game.state g) = PLAY ->
  hitPost g (damageShip cb bonus g)
  /\ (fst (damageShip cb bonus g) = true ->
      0 < Ship.invuln (State.ship (Game.state (snd (damageShip cb bonus g))))).
Proof.
  intros Hcb Hmode.
  destruct (Z.lt_ge_cases 0 (Ship.shieldLevel (State.ship (Game.state g))))
    as [Hpos|Hle].
  - rewrite damageShip_shielded by exact Hpos. cbn [fst snd]. cbv zeta.
    set (g1 := match cb with Some f => f g | None => g end).
    assert (H1 : steady g g1
                 /\ State.ship (Game.state g1) = State.ship (Game.state g)
                 /\ State.lives (Game.state g1) = State.lives (Game.state g)).
    { unfold g1. destruct cb as [f|].
      - apply (Hcb f eq_refl).
      - split; [apply steady_refl|]. split; reflexivity. }
    destruct H1 as (H1 & Hs1 & Hl1).
    set (g2 := if negb (bonus =? 0)%Z then addScore bonus g1 else g1).
    assert (H2 : steady g1 g2
                 /\ State.ship (Game.state g2) = State.ship (Game.state g1)
                 /\ State.lives (Game.state g2) = State.lives (Game.state g1)).
    { unfold g2. destruct (negb _).
      - split; [apply addScore_steady|].
        split; [apply addScore_ship | apply addScore_lives].
      - split; [apply steady_refl|]. split; reflexivity. }
    destruct H2 as (H2 & Hs2 & Hl2).
    pose proof (steady_trans _ _ _ H1 H2) as (Hm & _ & _ & Hp).
    unfold hitPost. cbn [fst snd Game.onState Game.state Game.set_state
                         Game.highScore Game._lastPersistedHighScore
                         State.ship State.set_ship State.lives State.mode].
    rewrite Hs2, Hs1, Hl2, Hl1, Hm, Hmode.
    rewrite (shield_after_absorb _ Hpos).
    split; [|intros _; reflexivity].
    split; [lia|]. split; [lia|]. split.
    { unfold shipOk. rewrite (shield_after_absorb _ Hpos).
      unfold Ship.decreaseShieldLevel.
      destruct (Ship.shieldLevel (State.ship (Game.state g)) <=? 0)%Z; cbn;
        intros (A & B & C & D); repeat split; try tauto; try lia; discriminate. }
    split; [exact Hp|]. split; [intros _; split; [reflexivity|tauto]|discriminate].
  - rewrite damageShip_unshielded by exact Hle. cbv zeta.
    set (g1 := Game.onState (fun S => State.set_lives (State.lives S - 1) S) g).
    destruct (State.lives (Game.state g1) <=? 0)%Z eqn:El; cbn [fst snd].
    + apply Z.leb_le in El.
      set (g2 := Game.onState (State.set_mode GAME_OVER) g1).
      pose proof (updateHighScore_steady (State.score (Game.state g1)) g2)
        as (Hm & Hl & [Hok Hsh] & Hp).
      pose proof (updateHighScore_world (State.score (Game.state g1)) g2)
        as (_ & _ & _ & Hl' & Hs' & _).
      cbv zeta in Hl', Hs'.
      unfold hitPost. cbn [fst snd]. cbv zeta. rewrite Hl', Hs', Hm.
      cbn in El |- *.
      split; [|discriminate].
      split; [lia|]. split; [lia|]. split; [tauto|]. split; [exact Hp|].
      split; [discriminate|]. intros _. split; [reflexivity|lia].
    + apply Z.leb_gt in El. cbn in El.
      destruct freshShip_ok as (Fok & Finv & Fsh).
      unfold hitPost. cbn [fst snd]. cbv zeta. cbn -[freshShip].
      rewrite Fsh. split; [|intros _; exact Finv].
      split; [lia|]. split; [lia|]. split; [intros _; exact Fok|].
      split; [tauto|]. split; [|discriminate].
      intros _. split; [exact Hmode|lia].
Qed.
End HitTick.

Section HazardTick.
Context `{MathLib}.

Lemma hitPost_untouched (g : Game.t) :
  State.mode (Game.state g) = PLAY -> hitPost g (true, g).
Proof.
  intros Hmode. unfold hitPost. cbn [fst snd]. cbv zeta.
  split; [lia|]. split; [lia|]. split; [tauto|]. split; [tauto|].
  split; [intros _; split; [exact Hmode|tauto] | discriminate].
Qed.

(** The answer of a hit, narrowed by the mode check that follows it. *)
Lemma hitPost_and_mode (g : Game.t) (r : bool * Game.t) :
  hitPost g r ->
  hitPost g (fst r && negb (Mode_eqb (State.mode (Game.state (snd r))) GAME_OVER),
             snd r).
Proof.
  destruct r as [b g1]. intros (A & B & C & D & E & F). cbn [fst snd] in *.
  unfold hitPost. cbn [fst snd]. cbv zeta.
  split; [exact A|]. split; [exact B|]. split; [exact C|]. split; [exact D|].
  split.
  - intros Hb. apply andb_true_iff in Hb as [-> _]. auto.
  - destruct b; [|auto]. destruct (E eq_refl) as [Hm _]. rewrite Hm. discriminate.
Qed.

(** [_handleShipHazardCollisions] on a game in PLAY hits the ship at most
    once. *)
Lemma _handleShipHazardCollisions_hit (g : Game.t) :
  State.mode (Game.state g) = PLAY ->
  hitPost g (_handleShipHazardCollisions g).
Proof.
  intros Hmode. unfold _handleShipHazardCollisions. cbv zeta.
  (* ship x asteroid *)
  set (stage1 :=
    match findShipAsteroidHit (State.ship (Game.state g))
            (State.asteroids (Game.state g)) with
    | Some (ai, hitAsteroid) => _
    | None => (true, g)
    end).
  assert (H1 : hitPost g stage1
               /\ (fst stage1 = true ->
                   snd stage1 = g
                   \/ 0 < Ship.invuln (State.ship (Game.state (snd stage1))))).
  { subst stage1.
    destruct (findShipAsteroidHit _ _) as [[ai hit]|].
    - assert (Hcb : forall f, Some (markHitAsteroidDead ai) = Some f ->
                forall g0, steady g0 (f g0)
                  /\ State.ship (Game.state (f g0)) = State.ship (Game.state g0)
                  /\ State.lives (Game.state (f g0)) = State.lives (Game.state g0)).
      { intros f Hf g0. injection Hf as <-.
        split; [|split; reflexivity].
        unfold markHitAsteroidDead. apply onState_steady. intros S.
        split; [reflexivity|]. split; [reflexivity|apply shipStep_refl]. }
      pose proof (damageShip_hit _ (scoreForSize (Asteroid.sizeIndex hit)) g
                    Hcb Hmode) as [Hd Hinv].
      destruct (damageShip _ _ g) as [survived g1].
      split; [apply (hitPost_and_mode g (survived, g1) Hd)|].
      cbn [fst snd] in *. intros Hb. apply andb_true_iff in Hb as [-> _].
      right. apply Hinv. reflexivity.
    - split; [apply hitPost_untouched, Hmode|]. intros _. left. reflexivity. }
  clearbody stage1. destruct stage1 as [goOn g1].
  destruct H1 as (Hp1 & Hu1). cbn [fst snd] in *.
  destruct goOn; cbn [negb].
  2:{ exact Hp1. }
  assert (Ht1 : State.mode (Game.state g1) = PLAY) by (apply Hp1; reflexivity).
  rewrite Ht1. cbn [Mode_eqb].
  destruct (Qleb (Ship.invuln (State.ship (Game.state g1))) 0) eqn:Einv1;
    [|exact Hp1].
  apply Qleb_le in Einv1.
  destruct (Hu1 eq_refl) as [->|Hinv]; [|exfalso; lra].
  clear Hp1 Hu1 Ht1.
  (* ship x enemy craft *)
  set (stage2 :=
    match State.ufo (Game.state g) with
    | Some u => _
    | None => (true, g)
    end).
  assert (H2 : hitPost g stage2
               /\ (fst stage2 = true ->
                   snd stage2 = g
                   \/ 0 < Ship.invuln (State.ship (Game.state (snd stage2))))).
  { subst stage2. destruct (State.ufo (Game.state g)) as [u|].
    - destruct (_ && _).
      + assert (Hcb : forall f, @None (Game.t -> Game.t) = Some f ->
                  forall g0, steady g0 (f g0)
                    /\ State.ship (Game.state (f g0)) = State.ship (Game.state g0)
                    /\ State.lives (Game.state (f g0)) = State.lives (Game.state g0))
          by discriminate.
        pose proof (damageShip_hit None 0 g Hcb Hmode) as [Hd Hinv].
        destruct (damageShip None 0 g) as [survived g2].
        split; [apply (hitPost_and_mode g (survived, g2) Hd)|].
        cbn [fst snd] in *. intros Hb. apply andb_true_iff in Hb as [-> _].
        right. apply Hinv. reflexivity.
      + split; [apply hitPost_untouched, Hmode|]. intros _. left. reflexivity.
    - split; [apply hitPost_untouched, Hmode|]. intros _. left. reflexivity. }
  clearbody stage2. destruct stage2 as [goOn2 g2].
  destruct H2 as (Hp2 & Hu2). cbn [fst snd] in *.
  destruct goOn2; cbn [negb].
  2:{ exact Hp2. }
  destruct (Qleb (Ship.invuln (State.ship (Game.state g2))) 0) eqn:Einv2;
    [|exact Hp2].
  apply Qleb_le in Einv2.
  destruct (Hu2 eq_refl) as [->|Hinv]; [|exfalso; lra].
  clear Hp2 Hu2.
  (* ship x enemy projectile *)
  destruct (findFirst _ (State.ufoBullets (Game.state g))) as [[li laser]|];
    [|apply hitPost_untouched, Hmode].
  set (g3 := Game.onState _ g).
  assert (Hs3 : steady g g3).
  { unfold g3. apply onState_steady. intros S.
    split; [reflexivity|]. split; [reflexivity|apply shipStep_refl]. }
  assert (Hm3 : State.mode (Game.state g3) = PLAY) by exact Hmode.
  assert (Hcb : forall f, @None (Game.t -> Game.t) = Some f ->
            forall g0, steady g0 (f g0)
              /\ State.ship (Game.state (f g0)) = State.ship (Game.state g0)
              /\ State.lives (Game.state (f g0)) = State.lives (Game.state g0))
    by discriminate.
  pose proof (damageShip_hit None 0 g3 Hcb Hm3) as [Hd _].
  apply (hitPost_after_steady g g3 _ Hs3 eq_refl eq_refl).
  destruct (damageShip None 0 g3) as [survived g4].
  destruct survived; cbn [negb orb]; [|exact Hd].
  assert (Hm4 : State.mode (Game.state g4) = PLAY) by (apply Hd; reflexivity).
  rewrite Hm4. cbn [Mode_eqb]. exact Hd.
Qed.
End HazardTick.

Section WholeTick.
Context `{MathLib}.

(** The bullet handlers never touch the ship. *)
Lemma _handleBulletCollisions_ship (g : Game.t) :
  State.ship (Game.state (_handleBulletCollisions g)) = State.ship (Game.state g).
Proof.
  unfold _handleBulletCollisions, forEachBulletAsteroidHit. cbv zeta.
  assert (Hround1 : forall i s,
            State.ship (Game.state (bulletAsteroidRound onBulletHitsAsteroid i s))
            = State.ship (Game.state s)).
  { intros i s. unfold bulletAsteroidRound, onBulletHitsAsteroid.
    destruct (State.bullets (Game.state s) !! i) as [b|]; [|reflexivity].
    destruct (Entity.dead (Bullet.base b)); [reflexivity|].
    destruct (findFirst _ _) as [[ai a]|]; [|reflexivity].
    destruct (State.asteroids (Game.state s) !! ai) as [a'|]; [|reflexivity].
    cbv zeta. rewrite onStateRand_state. unfold bind.
    destruct (Asteroid.split _ _) as [parts n']. cbn [fst ret State.ship
      State.set_asteroids].
    rewrite addScore_ship. reflexivity. }
  assert (Hround2 : forall i s,
            State.ship (Game.state (bulletUfoRound i s)) = State.ship (Game.state s)).
  { intros i s. unfold bulletUfoRound. cbv zeta.
    destruct (State.bullets (Game.state s) !! i) as [b|]; [|reflexivity].
    destruct (Entity.dead (Bullet.base b)); [reflexivity|].
    destruct (State.ufo (Game.state s)) as [u|]; [|reflexivity].
    destruct (_ && _); [|reflexivity].
    destruct (Ufo.takeHit u) as [destroyed u'].
    destruct destroyed; [|reflexivity].
    cbn [Game.onState Game.state Game.set_state State.ship State.set_ufo].
    rewrite addScore_ship. reflexivity. }
  set (g1 := forEachIndex _ (bulletAsteroidRound onBulletHitsAsteroid) g).
  assert (H1 : State.ship (Game.state g1) = State.ship (Game.state g)).
  { unfold g1.
    apply (forEachIndex_ind
             (fun s => State.ship (Game.state s) = State.ship (Game.state g)));
      [|reflexivity].
    intros i s Hs. rewrite Hround1. exact Hs. }
  rewrite <- H1.
  apply (forEachIndex_ind
           (fun s => State.ship (Game.state s) = State.ship (Game.state g1)));
    [|reflexivity].
  intros i s Hs. rewrite Hround2. exact Hs.
Qed.

(** The collision phase of a tick in PLAY hits the ship at most once, and
    not at all while it is invulnerable. *)
Lemma resolveCollisions_hit (g : Game.t) :
  State.mode (Game.state g) = PLAY ->
  let S := Game.state g in
  let S' := Game.state (snd (resolveCollisions g)) in
  (State.lives S - 1 <= State.lives S'
   <= Z.max (State.lives S) CONFIG.SHIP.MAX_LIVES)%Z
  /\ (Ship.shieldLevel (State.ship S) - 1 <= Ship.shieldLevel (State.ship S'))%Z
  /\ (shipOk (State.ship S) -> shipOk (State.ship S'))
  /\ (Game._lastPersistedHighScore g = Game.highScore g ->
      Game._lastPersistedHighScore (snd (resolveCollisions g))
      = Game.highScore (snd (resolveCollisions g)))
  /\ (fst (resolveCollisions g) = true ->
      State.mode S' = PLAY /\ ((1 <= State.lives S)%Z -> (1 <= State.lives S')%Z))
  /\ (fst (resolveCollisions g) = false ->
      State.mode S' = GAME_OVER /\ (State.lives S' <= 0)%Z)
  /\ (0 < Ship.invuln (State.ship S) ->
      fst (resolveCollisions g) = true
      /\ (State.lives S <= State.lives S')%Z
      /\ (Ship.shieldLevel (State.ship S) <= Ship.shieldLevel (State.ship S'))%Z).
Proof.
  intros Hmode. cbv zeta. unfold resolveCollisions. cbv zeta.
  pose proof (_handleBulletCollisions_steady g) as Hb.
  pose proof (_handleBulletCollisions_ship g) as Hship.
  set (g1 := _handleBulletCollisions g) in *.
  assert (Hmode1 : State.mode (Game.state g1) = PLAY)
    by (destruct Hb as (Hm & _); congruence).
  clearbody g1.
  rewrite Hmode1. cbn [Mode_eqb].
  set (stage :=
    if Qleb (Ship.invuln (State.ship (Game.state g1))) 0 then _ else (true, g1)).
  assert (Hstage : hitPost g1 stage
                   /\ (0 < Ship.invuln (State.ship (Game.state g1)) ->
                       stage = (true, g1))).
  { subst stage. destruct (Qleb _ 0) eqn:E.
    - apply Qleb_le in E. split; [|intros; exfalso; lra].
      pose proof (_handleShipHazardCollisions_hit g1 Hmode1) as Hd.
      destruct (_handleShipHazardCollisions g1) as [survived g2].
      apply (hitPost_and_mode g1 (survived, g2) Hd).
    - split; [apply hitPost_untouched, Hmode1|]. reflexivity. }
  clearbody stage. destruct stage as [goOn g2].
  destruct Hstage as ((A & B & C & D & E & F) & Hinv). cbn [fst snd] in *.
  destruct Hb as (_ & Hl1 & [Hok1 Hsh1] & Hp1).
  rewrite Hship in *.
  destruct goOn; cbn [negb fst snd].
  - destruct (E eq_refl) as [Hm2 Hl2].
    pose proof (_handlePowerupCollisions_steady g2) as Hpu.
    set (g3 := _handlePowerupCollisions g2) in *.
    pose proof (updateHighScore_steady (State.score (Game.state g3)) g3) as Hhs.
    pose proof (steady_trans _ _ _ Hpu Hhs) as (Hm4 & Hl4 & [Hok4 Hsh4] & Hp4).
    split; [lia|]. split; [lia|]. split; [tauto|]. split; [tauto|].
    split; [intros _; split; [congruence|lia]|].
    split; [discriminate|].
    intros Hpos. specialize (Hinv Hpos).
    assert (Heq : g2 = g1) by congruence. subst g2. rewrite Hship in *.
    split; [reflexivity|]. split; lia.
  - destruct (F eq_refl) as [Hm2 Hl2].
    split; [lia|]. split; [lia|]. split; [tauto|]. split; [tauto|].
    split; [discriminate|]. split; [intros _; split; assumption|].
    intros Hpos. specialize (Hinv Hpos). discriminate.
Qed.

(** The ship's invulnerability through the entity phase of a tick. *)
Lemma updateEntities_invuln (dt : Q) (input : Input.t) (g : Game.t) :
  Ship.invuln (State.ship (Game.state (updateEntities dt input g)))
  = Qmax 0 (Ship.invuln (State.ship (Game.state g)) - dt)
  /\ Ship.shieldLevel (State.ship (Game.state (updateEntities dt input g)))
     = Ship.shieldLevel (State.ship (Game.state g)).
Proof.
  pose proof (Ship_update_invuln dt input (State.ship (Game.state g))) as Hi.
  destruct (Ship_update_levels dt input (State.ship (Game.state g))) as (Hs & _).
  unfold updateEntities. cbv zeta.
  set (g1 := Game.onState
               (fun S => State.set_ship (Ship.update dt input (State.ship S)) S) g).
  change (Ship.update dt input (State.ship (Game.state g)))
    with (State.ship (Game.state g1)) in Hi, Hs.
  rewrite <- Hi, <- Hs. clearbody g1. clear Hi Hs.
  set (g2 := if _ && Ship.canFire (State.ship (Game.state g1)) then _ else g1).
  assert (H2 : Ship.invuln (State.ship (Game.state g2))
               = Ship.invuln (State.ship (Game.state g1))
               /\ Ship.shieldLevel (State.ship (Game.state g2))
                  = Ship.shieldLevel (State.ship (Game.state g1))).
  { unfold g2. destruct (_ && _); [|split; reflexivity]. split; reflexivity. }
  destruct H2 as [<- <-]. clearbody g2.
  set (g3 := Game.onState _ g2).
  assert (H3 : State.ship (Game.state g3) = State.ship (Game.state g2))
    by reflexivity.
  rewrite <- H3. clearbody g3. clear H3.
  set (g4 := match State.ufo (Game.state g3) with Some _ => _ | None => _ end).
  assert (H4 : State.ship (Game.state g4) = State.ship (Game.state g3)).
  { unfold g4.
    destruct (State.ufo (Game.state g3)); [reflexivity|].
    destruct (State.ufoSpawnedThisWave (Game.state g3)); [reflexivity|].
    destruct (State.ufoSpawnTimer (Game.state g3)); [|reflexivity].
    cbv zeta. destruct (Qleb _ 0); [|reflexivity].
    rewrite onStateRand_state.
    destruct (spawnUfoForCurrentWave_core
                (Game.state (Game.onState
                   (State.set_ufoSpawnTimer (Some (Qmax 0 (q - dt)))) g3))
                (Game.draws (Game.onState
                   (State.set_ufoSpawnTimer (Some (Qmax 0 (q - dt)))) g3)))
      as (_ & _ & ->).
    reflexivity. }
  rewrite <- H4. clearbody g4. clear H4.
  set (g5 := match State.ufo (Game.state g4) with Some _ => _ | None => g4 end).
  assert (H5 : State.ship (Game.state g5) = State.ship (Game.state g4)).
  { unfold g5. destruct (State.ufo (Game.state g4)); [|reflexivity].
    destruct (Ufo.update _ _ _) as [lasers u'].
    cbn [Game.onState Game.state Game.set_state].
    destruct (0 <? length lasers)%nat; destruct (Entity.dead (Ufo.base u'));
      reflexivity. }
  rewrite <- H5. clearbody g5. clear H5.
  split; reflexivity.
Qed.
End WholeTick.

Section RunInvariant.
Context `{MathLib}.

(** The wave through a tick in PLAY: kept, or raised by one. *)
Lemma update_play_wave (dt : Q) (input : Input.t) (g : Game.t) :
  State.mode (Game.state g) = PLAY ->
  (State.wave (Game.state g) <= State.wave (Game.state (update dt input g))
   <= State.wave (Game.state g) + 1)%Z.
Proof.
  intros Hmode. unfold update. rewrite Hmode.
  destruct (progress_eq _ _ (updateEntities_progress dt input g))
    as (Hm1 & Hw1 & _).
  set (g1 := updateEntities dt input g) in *.
  assert (Hmode1 : State.mode (Game.state g1) = PLAY) by congruence.
  destruct (resolveCollisions_post g1 Hmode1) as ((Hw2 & _) & _ & _).
  destruct (resolveCollisions g1) as [goOn g2]. cbn [fst snd] in *.
  destruct goOn; cbn [negb]; [|lia].
  destruct (progress_eq _ _ (cleanup_progress g2)) as (_ & Hw3 & _).
  set (g3 := cleanup g2) in *.
  unfold nextWaveCheck. cbv zeta. destruct (_ && _); [|lia].
  set (g4 := Game.onState (fun S => State.set_wave (State.wave S + 1) S) g3).
  assert (Hp : progress (resetUfoStateForWave
                 (Game.onStateRand maybeSpawnPowerUp (Game.onStateRand spawnWave g4)))
               = progress g4).
  { rewrite resetUfoStateForWave_progress.
    rewrite onStateRand_progress
      by (intros; apply maybeSpawnPowerUpLoop_progress).
    apply onStateRand_progress, spawnWave_progress. }
  destruct (progress_eq _ _ Hp) as (_ & Hw4 & _).
  rewrite Hw4. unfold g4. cbn. lia.
Qed.

(** The lives, the shield and the mode through a tick in PLAY. *)
Lemma update_play_hit (dt : Q) (input : Input.t) (g : Game.t) :
  State.mode (Game.state g) = PLAY ->
  let S := Game.state g in
  let S' := Game.state (update dt input g) in
  (State.lives S - 1 <= State.lives S'
   <= Z.max (State.lives S) CONFIG.SHIP.MAX_LIVES)%Z
  /\ (Ship.shieldLevel (State.ship S) - 1 <= Ship.shieldLevel (State.ship S'))%Z
  /\ (shipOk (State.ship S) -> shipOk (State.ship S'))
  /\ (Game._lastPersistedHighScore g = Game.highScore g ->
      Game._lastPersistedHighScore (update dt input g)
      = Game.highScore (update dt input g))
  /\ ((State.mode S' = PLAY /\ ((1 <= State.lives S)%Z -> (1 <= State.lives S')%Z))
      \/ (State.mode S' = GAME_OVER /\ (State.lives S' <= 0)%Z))
  /\ (dt < Ship.invuln (State.ship S) ->
      State.mode S' = PLAY
      /\ (State.lives S <= State.lives S')%Z
      /\ (Ship.shieldLevel (State.ship S) <= Ship.shieldLevel (State.ship S'))%Z).
Proof.
  intros Hmode. cbv zeta. unfold update. rewrite Hmode.
  pose proof (updateEntities_steady dt input g) as (Hm1 & Hl1 & [Hok1 Hsh1] & Hp1).
  destruct (updateEntities_invuln dt input g) as [Hinv1 Hshield1].
  set (g1 := updateEntities dt input g) in *.
  assert (Hmode1 : State.mode (Game.state g1) = PLAY) by congruence.
  assert (Hlives1 : State.lives (Game.state g1) = State.lives (Game.state g)).
  { destruct (progress_eq _ _ (updateEntities_progress dt input g))
      as (_ & _ & _ & Hl & _). exact Hl. }
  pose proof (resolveCollisions_hit g1 Hmode1) as (A & B & C & D & E & F & G).
  cbv zeta in *. clearbody g1.
  destruct (resolveCollisions g1) as [goOn g2]. cbn [fst snd] in *.
  assert (Ginv : dt < Ship.invuln (State.ship (Game.state g)) ->
                 0 < Ship.invuln (State.ship (Game.state g1))).
  { intros Hlt. rewrite Hinv1.
    destruct (Qmax_0_cases (Ship.invuln (State.ship (Game.state g)) - dt))
      as [[? E0]|[? E0]]; lra. }
  destruct goOn; cbn [negb].
  - destruct (E eq_refl) as [Hm2 Hl2].
    pose proof (steady_trans _ _ _ (cleanup_steady g2)
                  (nextWaveCheck_steady (cleanup g2)))
      as (Hm3 & Hl3 & [Hok3 Hsh3] & Hp3).
    set (g3 := nextWaveCheck (cleanup g2)) in *.
    split; [lia|]. split; [lia|]. split; [tauto|]. split; [tauto|].
    split; [left; split; [congruence|lia]|].
    intros Hlt. destruct (G (Ginv Hlt)) as (_ & G2 & G3).
    split; [congruence|]. split; lia.
  - destruct (F eq_refl) as [Hm2 Hl2].
    split; [lia|]. split; [lia|]. split; [tauto|]. split; [tauto|].
    split; [right; split; assumption|].
    intros Hlt. destruct (G (Ginv Hlt)) as (G1 & _). discriminate.
Qed.

(** X18: the run invariant.  If, before a tick, the ship's shield and
    speed levels are within their ranges and its timers are not negative,
    the lives are at most [MAX_LIVES], at least one outside GAME_OVER and
    none in GAME_OVER, the wave and the score are not negative, the score
    is at most the high score, and the state's copy of the high score and
    the persisted mark both equal the game's high score, then all of this
    holds after the tick, whatever the mode, the time step and the input. *)
Theorem X18_update_keeps_run_in_range (dt : Q) (input : Input.t) (g : Game.t) :
  runOk g -> runOk (update dt input g).
Proof.
  intros Hok.
  assert (Hstart : forall g0, runOk g0 -> State.mode (Game.state g0) = MENU ->
                              runOk (startGame g0)).
  { intros g0 (_ & _ & _ & _ & _ & Hsc & _ & Hps) Hmenu.
    destruct (startGame_menu_state g0 Hmenu) as (spawned & added & Hst & _).
    destruct (startGame_highScore g0) as [Hh Hp].
    unfold runOk. cbv zeta. rewrite Hst, Hh, Hp.
    cbn [State.mode State.wave State.score State.lives State.highScore State.ship].
    split; [unfold shipOk; cbn; repeat split; try discriminate; lia|].
    split; [vm_compute; discriminate|]. split; [discriminate|].
    split; [intros _; vm_compute; discriminate|].
    split; [lia|]. split; [lia|]. split; [reflexivity|exact Hps]. }
  destruct (State.mode (Game.state g)) eqn:Hmode.
  - (* MENU *)
    unfold update. rewrite Hmode. destruct (_ || _); [|exact Hok].
    apply Hstart; assumption.
  - (* PLAY *)
    destruct Hok as (Hship & Hmax & Hover & Hlive & Hwave & Hscore & Hsync & Hpers).
    pose proof (update_play_hit dt input g Hmode) as (A & B & C & D & E & _).
    pose proof (update_play_wave dt input g Hmode) as Hw.
    pose proof (update_play_tick dt input g Hmode) as (Hs & Hhs & Hsy).
    cbv zeta in *.
    assert (Hl1 : (1 <= State.lives (Game.state g))%Z)
      by (apply Hlive; rewrite Hmode; discriminate).
    unfold runOk. cbv zeta.
    split; [tauto|]. split; [lia|].
    split; [intros Hgo; destruct E as [[Hm _]|[_ Hl]]; [congruence|lia]|].
    split; [intros Hngo; destruct E as [[_ Hl]|[Hm _]]; [tauto|contradiction]|].
    split; [lia|]. split; [lia|]. split; [tauto|tauto].
  - (* GAME_OVER *)
    unfold update. rewrite Hmode. destruct (Input.pressed _ _); [|exact Hok].
    rewrite reset_startGame. apply Hstart; [|reflexivity].
    destruct Hok as (_ & _ & _ & _ & _ & Hscore & _ & Hpers).
    unfold runOk. cbv zeta.
    cbn [returnToMenu Game.state Game.set_state Game.highScore
         Game._lastPersistedHighScore createInitialState
         State.mode State.wave State.score State.lives State.highScore State.ship].
    split; [unfold shipOk; cbn; repeat split; try discriminate; lia|].
    split; [vm_compute; discriminate|]. split; [discriminate|].
    split; [intros _; vm_compute; discriminate|].
    split; [lia|]. split; [lia|]. split; [reflexivity|exact Hpers].
Qed.

(** X19: what one tick in PLAY can cost.  The tick takes at most one life
    and at most one shield level, never raises the lives above the larger
    of their old value and [MAX_LIVES], keeps the wave or raises it by one,
    and ends in PLAY or in GAME_OVER, never in MENU: in GAME_OVER exactly
    when the last life went, in PLAY with a life left otherwise.  While
    the ship's invulnerability lasts longer than the tick, the tick ends in
    PLAY with no life and no shield level lost. *)
Theorem X19_play_tick_costs_at_most_one_life
    (dt : Q) (input : Input.t) (g : Game.t) :
  State.mode (Game.state g) = PLAY ->
  (1 <= State.lives (Game.state g))%Z ->
  let S := Game.state g in
  let S' := Game.state (update dt input g) in
  (State.lives S - 1 <= State.lives S'
   <= Z.max (State.lives S) CONFIG.SHIP.MAX_LIVES)%Z
  /\ (Ship.shieldLevel (State.ship S) - 1 <= Ship.shieldLevel (State.ship S'))%Z
  /\ (State.wave S <= State.wave S' <= State.wave S + 1)%Z
  /\ ((State.mode S' = PLAY /\ (1 <= State.lives S')%Z)
      \/ (State.mode S' = GAME_OVER
          /\ State.lives S' = 0%Z /\ State.lives S = 1%Z))
  /\ (dt < Ship.invuln (State.ship S) ->
      State.mode S' = PLAY
      /\ (State.lives S <= State.lives S')%Z
      /\ (Ship.shieldLevel (State.ship S) <= Ship.shieldLevel (State.ship S'))%Z).
Proof.
  intros Hmode Hlives. cbv zeta.
  pose proof (update_play_hit dt input g Hmode) as (A & B & _ & _ & E & F).
  pose proof (update_play_wave dt input g Hmode) as Hw.
  cbv zeta in *.
  split; [exact A|]. split; [exact B|]. split; [exact Hw|]. split; [|exact F].
  destruct E as [[Hm Hl]|[Hm Hl]].
  - left. split; [exact Hm | exact (Hl Hlives)].
  - right. split; [exact Hm|]. split; lia.
Qed.
End RunInvariant.

Lemma X18_update_keeps_run_in_range_witness :
  runOk (@update sampleMath (1 / 120) noInput lastLifeGame).
Proof.
  apply (@X18_update_keeps_run_in_range sampleMath (1 / 120) noInput lastLifeGame).
  unfold runOk, shipOk. vm_compute.
  repeat split; intros; congruence.
Defined.

Lemma X19_play_tick_costs_at_most_one_life_witness :
  (State.lives (Game.state hitGame) - 1
   <= State.lives (Game.state (@update sampleMath (1 / 120) noInput hitGame))
   <= Z.max (State.lives (Game.state hitGame)) CONFIG.SHIP.MAX_LIVES)%Z.
Proof.
  apply (@X19_play_tick_costs_at_most_one_life sampleMath (1 / 120) noInput hitGame);
    [reflexivity | vm_compute; discriminate].
Defined.

Section Cleanup.
Context `{MathLib}.

(** What the cleanup leaves in the four arrays. *)
Lemma cleanup_live (g : Game.t) :
  let S' := Game.state (cleanup g) in
  Forall (fun b => Entity.dead (Bullet.base b) = false) (State.bullets S')
  /\ Forall (fun a => Entity.dead (Asteroid.base a) = false) (State.asteroids S')
  /\ Forall (fun p => Entity.dead (PowerUp.base p) = false) (State.powerups S')
  /\ Forall (fun l => Entity.dead (UfoLaser.base l) = false) (State.ufoBullets S').
Proof.
  cbv zeta. unfold cleanup.
  cbn [Game.onState Game.state Game.set_state State.bullets State.asteroids
       State.powerups State.ufoBullets State.set_bullets State.set_asteroids
       State.set_powerups State.set_ufoBullets].
  repeat split; apply Forall_forall; intros x Hx;
    apply list_elem_of_filter in Hx as [Hlive _];
    apply negb_true_iff in Hlive; exact Hlive.
Qed.

(** X20: what a tick leaves on the field.  After a tick in PLAY that ends
    in PLAY, with the wave number not negative, every bullet, asteroid,
    power-up and UFO laser in the arrays is live: whatever died during the
    tick has been removed.  And the field is never left empty: at least one
    asteroid is there, because the tick that clears the last one spawns the
    next wave. *)
Theorem X20_no_dead_entity_after_tick (dt : Q) (input : Input.t) (g : Game.t) :
  State.mode (Game.state g) = PLAY ->
  (0 <= State.wave (Game.state g))%Z ->
  State.mode (Game.state (update dt input g)) = PLAY ->
  let S' := Game.state (update dt input g) in
  Forall (fun b => Entity.dead (Bullet.base b) = false) (State.bullets S')
  /\ Forall (fun a => Entity.dead (Asteroid.base a) = false) (State.asteroids S')
  /\ Forall (fun p => Entity.dead (PowerUp.base p) = false) (State.powerups S')
  /\ Forall (fun l => Entity.dead (UfoLaser.base l) = false) (State.ufoBullets S')
  /\ State.asteroids S' <> [].
Proof.
  intros Hmode Hwave. cbv zeta. unfold update. rewrite Hmode.
  destruct (progress_eq _ _ (updateEntities_progress dt input g))
    as (Hm1 & Hw1 & _).
  set (g1 := updateEntities dt input g) in *.
  assert (Hmode1 : State.mode (Game.state g1) = PLAY) by congruence.
  destruct (resolveCollisions_post g1 Hmode1) as ((Hw2 & _) & _ & Hgo).
  pose proof (resolveCollisions_hit g1 Hmode1) as (_ & _ & _ & _ & _ & Hstop & _).
  cbv zeta in Hstop. clearbody g1.
  destruct (resolveCollisions g1) as [goOn g2]. cbn [fst snd] in *.
  destruct goOn; cbn [negb].
  2:{ intros Hplay. destruct (Hstop eq_refl) as [Hover _]. congruence. }
  intros _. specialize (Hgo eq_refl).
  destruct (progress_eq _ _ (cleanup_progress g2)) as (Hm3 & Hw3 & _).
  destruct (cleanup_live g2) as (Lb & La & Lp & Ll). cbv zeta in *.
  set (g3 := cleanup g2) in *. clearbody g3.
  unfold nextWaveCheck. cbv zeta.
  destruct (length (State.asteroids (Game.state g3)) =? 0)%nat eqn:Elen.
  - assert (Hmode3 : State.mode (Game.state g3) = PLAY) by congruence.
    rewrite Hmode3. cbn [Mode_eqb andb].
    set (g4 := Game.onState (fun S => State.set_wave (State.wave S + 1) S) g3).
    assert (Hempty : State.asteroids (Game.state g4) = []).
    { apply Nat.eqb_eq in Elen. unfold g4.
      cbn [Game.onState Game.state Game.set_state State.asteroids State.set_wave].
      destruct (State.asteroids (Game.state g3)); [reflexivity|discriminate]. }
    destruct (openWave_state g4 Hempty)
      as (_ & _ & spawned & added & Hst & Hlen & Hsp & Had).
    cbv zeta in Hst. rewrite Hst.
    cbn [State.bullets State.asteroids State.powerups State.ufoBullets
         State.set_ufoSpawnTimer State.set_ufoSpawnedThisWave State.set_ufoBullets
         State.set_ufo State.set_powerups State.set_asteroids].
    split; [exact Lb|].
    split; [eapply Forall_impl; [exact Hsp|]; intros a [_ Ha]; exact Ha|].
    split; [apply Forall_app; split; [exact Lp | exact Had]|].
    split; [constructor|].
    intros Hnil. rewrite Hnil in Hlen. cbn [length] in Hlen.
    assert (Hw4 : State.wave (Game.state g4) = (State.wave (Game.state g3) + 1)%Z)
      by reflexivity.
    rewrite Hw4 in Hlen.
    change CONFIG.WAVES.START_COUNT with 4%Z in Hlen.
    change CONFIG.WAVES.GROWTH with 1%Z in Hlen. lia.
  - cbn [andb]. split; [exact Lb|]. split; [exact La|]. split; [exact Lp|].
    split; [exact Ll|].
    intros Hnil. rewrite Hnil in Elen. discriminate.
Qed.
End Cleanup.

Lemma X20_no_dead_entity_after_tick_witness :
  State.asteroids (Game.state (@update sampleMath (1 / 120) noInput clearedGame))
  <> [].
Proof.
  apply (@X20_no_dead_entity_after_tick sampleMath (1 / 120) noInput clearedGame);
    [reflexivity | vm_compute; discriminate | reflexivity].
Defined.

(** ** The keyboard (src/core/Input.js) *)

Lemma has_app (code : string) (s1 s2 : list string) :
  Input.has code (s1 ++ s2) = Input.has code s1 || Input.has code s2.
Proof. unfold Input.has. apply existsb_app. Qed.

Lemma has_setAdd (d c : string) (set : list string) :
  Input.has d (setAdd c set) = String.eqb d c || Input.has d set.
Proof.
  unfold setAdd. destruct (Input.has c set) eqn:Ec.
  - destruct (String.eqb_spec d c) as [->|Hne]; [|reflexivity].
    rewrite Ec. reflexivity.
  - rewrite has_app. cbn. rewrite orb_false_r. apply orb_comm.
Qed.

Lemma has_setDelete (d c : string) (set : list string) :
  Input.has d (setDelete c set) = negb (String.eqb d c) && Input.has d set.
Proof.
  unfold setDelete, Input.has. induction set as [|x set IH]; cbn.
  - rewrite andb_false_r. reflexivity.
  - destruct (String.eqb_spec c x) as [->|Hcx]; cbn.
    + rewrite IH. destruct (String.eqb_spec d x); cbn; reflexivity.
    + rewrite IH. destruct (String.eqb_spec d x) as [->|Hdx]; cbn.
      * destruct (String.eqb_spec x c) as [->|_]; [contradiction|reflexivity].
      * reflexivity.
Qed.

(** X21: the keyboard handler.  After [keydown] of a code the key is down,
    and it counts as pressed exactly if it already did or the key was up:
    a repeated [keydown] of a held key, coming after [postUpdate], is not a
    new press.  After [keyup] the key is up and counts as released, and a
    press made earlier in the frame is kept, so a tap that goes down and up
    between two updates, on a key that was up, is still seen as pressed.  Events on one code leave
    every other code as it was, and [postUpdate] clears all pressed and
    released edges but no held key. *)
Theorem X21_key_edges (c d : string) (i : Input.t) :
  Input.isDown (keydown c i) c = true
  /\ Input.pressed (keydown c i) c = Input.pressed i c || negb (Input.isDown i c)
  /\ Input.released (keydown c i) d = Input.released i d
  /\ Input.pressed (keydown c (Input.postUpdate (keydown c i))) c = false
  /\ Input.isDown (keyup c i) c = false
  /\ Input.released (keyup c i) c = true
  /\ Input.pressed (keyup c i) d = Input.pressed i d
  /\ (Input.isDown i c = false ->
      Input.pressed (keyup c (keydown c i)) c = true)
  /\ (d <> c ->
      Input.isDown (keydown c i) d = Input.isDown i d
      /\ Input.pressed (keydown c i) d = Input.pressed i d
      /\ Input.isDown (keyup c i) d = Input.isDown i d
      /\ Input.released (keyup c i) d = Input.released i d)
  /\ Input.isDown (Input.postUpdate i) d = Input.isDown i d
  /\ Input.pressed (Input.postUpdate i) d = false
  /\ Input.released (Input.postUpdate i) d = false.
Proof.
  assert (Hdown : Input.isDown (keydown c i) c = true).
  { unfold Input.isDown, keydown. cbn [Input.keys].
    rewrite has_setAdd, String.eqb_refl. reflexivity. }
  assert (Hpress : Input.pressed (keydown c i) c
                   = Input.pressed i c || negb (Input.isDown i c)).
  { unfold Input.pressed, Input.isDown, keydown. cbn [Input.justPressed].
    destruct (Input.has c (Input.keys i)); cbn [negb].
    - rewrite orb_false_r. reflexivity.
    - rewrite has_setAdd, String.eqb_refl, orb_true_r. reflexivity. }
  split; [exact Hdown|]. split; [exact Hpress|]. split; [reflexivity|].
  split.
  { unfold Input.pressed, keydown at 1. cbn [Input.justPressed Input.keys
      Input.postUpdate].
    change (Input.has c (Input.keys (keydown c i)))
      with (Input.isDown (keydown c i) c).
    rewrite Hdown. reflexivity. }
  split.
  { unfold Input.isDown, keyup. cbn [Input.keys].
    rewrite has_setDelete, String.eqb_refl. reflexivity. }
  split.
  { unfold Input.released, keyup. cbn [Input.justReleased].
    rewrite has_setAdd, String.eqb_refl. reflexivity. }
  split; [reflexivity|].
  split.
  { intros Hup.
    change (Input.pressed (keyup c (keydown c i)) c)
      with (Input.pressed (keydown c i) c).
    rewrite Hpress, Hup. apply orb_true_r. }
  split.
  { intros Hne. apply String.eqb_neq in Hne.
    unfold Input.isDown, Input.pressed, Input.released, keydown, keyup.
    cbn [Input.keys Input.justPressed Input.justReleased].
    rewrite has_setAdd, has_setDelete, has_setAdd, Hne. cbn [orb negb andb].
    repeat split; try reflexivity.
    destruct (negb _); [|reflexivity].
    rewrite has_setAdd, Hne. reflexivity. }
  repeat split; reflexivity.
Qed.

(** ** The frame callback (src/core/Game.js) *)

Section FrameLoop.
Context `{MathLib}.

(** The while loop of [loop] with enough fuel: it makes some number [k] of
    fixed steps and leaves by its own test, with less than one step of
    time in the accumulator. *)
Lemma loopWhile_spec (fuel : nat) (g : Game.t) (i : Input.t) (a : Q) :
  0 <= a ->
  a < inject_Z (Z.of_nat fuel + 1) * fixedDt ->
  exists k : nat,
    (k <= fuel)%nat
    /\ fst (fst (loopWhile fuel g i a)) = frameTicks k i g
    /\ snd (fst (loopWhile fuel g i a))
       = match k with O => i | S _ => Input.postUpdate i end
    /\ snd (loopWhile fuel g i a) == a - inject_Z (Z.of_nat k) * fixedDt
    /\ 0 <= snd (loopWhile fuel g i a) < fixedDt.
Proof.
  revert g i a. induction fuel as [|fuel IH]; intros g i a Hnn Hlt.
  - change (inject_Z (Z.of_nat 0 + 1)) with 1 in Hlt.
    exists 0%nat. cbn [loopWhile fst snd frameTicks].
    change (inject_Z (Z.of_nat 0)) with 0.
    split; [lia|]. split; [reflexivity|]. split; [reflexivity|].
    split; [ring|]. split; lra.
  - cbn [loopWhile]. destruct (Qleb fixedDt a) eqn:E.
    + apply Qleb_le in E.
      assert (Hlt' : a - fixedDt < inject_Z (Z.of_nat fuel + 1) * fixedDt).
      { rewrite Nat2Z.inj_succ in Hlt. unfold Z.succ in Hlt.
        rewrite inject_Z_plus in Hlt.
        set (c := inject_Z (Z.of_nat fuel + 1)) in *.
        change (inject_Z 1) with 1 in Hlt.
        assert (Heq : (c + 1) * fixedDt == c * fixedDt + fixedDt) by ring.
        lra. }
      destruct (IH (update fixedDt i g) (Input.postUpdate i) (a - fixedDt)
                  ltac:(lra) Hlt') as (k & Hk & Hg & Hi & Ha & Hr).
      exists (Datatypes.S k). split; [lia|]. split; [exact Hg|].
      split; [rewrite Hi; destruct k; reflexivity|]. split; [|exact Hr].
      rewrite Ha. rewrite (Nat2Z.inj_succ k). unfold Z.succ.
      rewrite inject_Z_plus. change (inject_Z 1) with 1. ring.
    + apply Qleb_gt in E. exists 0%nat. cbn [fst snd frameTicks].
      change (inject_Z (Z.of_nat 0)) with 0.
      split; [lia|]. split; [reflexivity|]. split; [reflexivity|].
      split; [ring|]. split; lra.
Qed.

Lemma loopRounds_enough (a : Q) :
  a < inject_Z (Z.of_nat (loopRounds a) + 1) * fixedDt.
Proof.
  unfold loopRounds. set (q := a / fixedDt).
  assert (Hpos : 0 < fixedDt) by reflexivity.
  assert (Hq : a == q * fixedDt) by (unfold q; field; discriminate).
  pose proof (Qlt_floor q) as Hfl. clearbody q.
  destruct (Z.le_gt_cases 0 (Qfloor q)) as [Hnn|Hneg].
  - rewrite Z2Nat.id by exact Hnn. rewrite Hq.
    apply Qmult_lt_r; assumption.
  - replace (Z.to_nat (Qfloor q)) with 0%nat by lia.
    change (inject_Z (Z.of_nat 0 + 1)) with 1.
    assert (Hq1 : q < 0).
    { eapply Qlt_le_trans; [exact Hfl|].
      change 0 with (inject_Z 0). rewrite <- Zle_Qle. lia. }
    assert (Hneg' : q * fixedDt < 0 * fixedDt)
      by (apply Qmult_lt_r; assumption).
    lra.
Qed.

(** X22: one frame of the fixed-step loop.  Let the accumulator hold less
    than one step, as it does before the first frame and after every
    frame, and let the timestamp not run backwards.  Then the frame's time
    slice is between 0 and 0.1 seconds, and 0 on the first frame; the frame
    runs some number [k] of updates, at most 13 however long the pause was
    (12 steps fit into the slice and what the accumulator held; the bound
    leaves room for the one more that the rounding of the sums can let
    through), each of [fixedDt] seconds; the first update sees the input as
    the listeners left it and every later one sees it with the pressed and
    released edges cleared, so a key press is acted on by one update only;
    and the loop leaves by its own test: the accumulator again holds less
    than one step and is not negative. *)
Theorem X22_fixed_step_loop (t : Q) (L : GameLoop.t) :
  0 <= GameLoop.accum L < fixedDt ->
  GameLoop.lastTime L <= t * 0.001 ->
  let L' := loop t L in
  let time := t * 0.001 in
  let dt := Qmin 0.1
              (time - (if Qeq_bool (GameLoop.lastTime L) 0 then time
                       else GameLoop.lastTime L)) in
  GameLoop.lastTime L' = time
  /\ 0 <= dt <= 0.1
  /\ (GameLoop.lastTime L == 0 -> dt == 0)
  /\ exists k : nat,
       (k <= 13)%nat
       /\ GameLoop.game L' = frameTicks k (GameLoop.input L) (GameLoop.game L)
       /\ GameLoop.input L'
          = match k with
            | O => GameLoop.input L
            | Datatypes.S _ => Input.postUpdate (GameLoop.input L)
            end
       /\ 0 <= GameLoop.accum L' < fixedDt.
Proof.
  intros [Ha0 Ha1] Htime. cbv zeta.
  set (time := t * 0.001) in *.
  set (dt := Qmin 0.1 _).
  assert (Hdt : 0 <= dt <= 0.1 /\ (GameLoop.lastTime L == 0 -> dt == 0)).
  { unfold dt. destruct (Qeq_bool (GameLoop.lastTime L) 0) eqn:E.
    - assert (Hz : time - time == 0) by ring.
      destruct (Q.min_spec 0.1 (time - time)) as [[Hlt Heq]|[Hle Heq]];
        rewrite Heq; (split; [split; lra|]); intros _; lra.
    - assert (Hne : ~ GameLoop.lastTime L == 0).
      { intros Heq. apply Qeq_bool_iff in Heq. congruence. }
      destruct (Q.min_spec 0.1 (time - GameLoop.lastTime L))
        as [[Hlt Heq]|[Hle Heq]];
        rewrite Heq; (split; [split; lra|]); intros; contradiction. }
  destruct Hdt as [[Hd0 Hd1] Hfirst].
  unfold loop. cbv zeta. fold time. fold dt.
  set (a := GameLoop.accum L + dt).
  destruct (loopWhile_spec (loopRounds a) (GameLoop.game L) (GameLoop.input L) a
              ltac:(unfold a; lra) (loopRounds_enough a))
    as (k & _ & Hg & Hi & Hacc & Hr).
  destruct (loopWhile (loopRounds a) (GameLoop.game L) (GameLoop.input L) a)
    as [[g' i'] a'].
  cbn [fst snd GameLoop.game GameLoop.input GameLoop.lastTime GameLoop.accum] in *.
  split; [reflexivity|]. split; [split; assumption|]. split; [exact Hfirst|].
  exists k. split; [|split; [exact Hg|split; [exact Hi|exact Hr]]].
  assert (Hk : inject_Z (Z.of_nat k) * fixedDt <= a) by lra.
  assert (Hub : a < 13 * fixedDt).
  { unfold a. assert (E13 : 13 * fixedDt == fixedDt + 0.1) by reflexivity. lra. }
  assert (Hlt : inject_Z (Z.of_nat k) * fixedDt < 13 * fixedDt) by lra.
  apply Qmult_lt_r in Hlt; [|reflexivity].
  change 13 with (inject_Z 13) in Hlt. rewrite <- Zlt_Qlt in Hlt. lia.
Qed.
End FrameLoop.

Lemma X22_fixed_step_loop_witness :
  GameLoop.lastTime
    (@loop sampleMath 1050
       {| GameLoop.game := clearedGame; GameLoop.input := noInput;
          GameLoop.lastTime := 1; GameLoop.accum := 0 |})
  = 1050 * 0.001
  /\ GameLoop.game
       (@loop sampleMath 1050
          {| GameLoop.game := clearedGame; GameLoop.input := noInput;
             GameLoop.lastTime := 1; GameLoop.accum := 0 |})
     = @frameTicks sampleMath 6 noInput clearedGame.
Proof.
  destruct (@X22_fixed_step_loop sampleMath 1050
              {| GameLoop.game := clearedGame; GameLoop.input := noInput;
                 GameLoop.lastTime := 1; GameLoop.accum := 0 |})
    as (Htime & _).
  - split; vm_compute; congruence.
  - vm_compute. discriminate.
  - split; [exact Htime|]. vm_compute. reflexivity.
Defined.

(** ** Picking up power-ups (src/core/Game.js) *)

Section Pickups.
Context `{MathLib}.

Lemma applyPowerUp_powerups (type : CONFIG.POWERUP.Type_) (g : Game.t) :
  State.powerups (Game.state (applyPowerUp type g)) = State.powerups (Game.state g)
  /\ State.powerupsCollected (Game.state (applyPowerUp type g))
     = State.powerupsCollected (Game.state g).
Proof.
  assert (Hadd : forall n g0,
            State.powerups (Game.state (addScore n g0)) = State.powerups (Game.state g0)
            /\ State.powerupsCollected (Game.state (addScore n g0))
               = State.powerupsCollected (Game.state g0)).
  { intros n g0. split; [apply addScore_powerups|].
    unfold addScore, updateHighScore. cbv zeta. break_branches; reflexivity. }
  unfold applyPowerUp. cbv zeta. destruct type.
  - destruct (Ship.weaponMode (State.ship (Game.state g)));
      first [apply Hadd | split; reflexivity].
  - destruct (State.lives (Game.state g) <? CONFIG.SHIP.MAX_LIVES)%Z;
      first [apply Hadd | split; reflexivity].
  - destruct (Ship.shieldLevel (State.ship (Game.state g))
              <? CONFIG.SHIP.SHIELD_MAX_LEVEL)%Z; [|apply Hadd].
    destruct (Ship.increaseShieldLevel (State.ship (Game.state g)))
      as [raised ship'].
    destruct raised; [split; reflexivity|].
    destruct (Hadd (CONFIG.POWERUP.duplicateScoreOf CONFIG.POWERUP.shield)
                (Game.onState (State.set_ship ship') g)) as [-> ->].
    split; reflexivity.
  - destruct (Ship.increaseSpeedLevel (State.ship (Game.state g)))
      as [raised ship'].
    destruct raised; [split; reflexivity|].
    destruct (Hadd (CONFIG.POWERUP.duplicateScoreOf CONFIG.POWERUP.speed)
                (Game.onState (State.set_ship ship') g)) as [-> ->].
    split; reflexivity.
Qed.

(** X23: what a pick-up does.  A power-up either upgrades or pays, never
    both and never nothing.  Triple shot moves the weapon from single to
    triple and from triple to five shot; an extra life adds a life below
    [MAX_LIVES]; a shield adds a level below [SHIELD_MAX_LEVEL]; speed adds
    a level below the ship's maximum; each of these leaves the score alone.
    At the cap the pick-up changes neither ship nor lives and adds the
    type's duplicate score instead.  The mode and the wave are never
    touched, and one round of the pick-up loop handles a power-up at most
    once: a second round on the same power-up changes nothing. *)
Theorem X23_pickup_upgrades_or_pays
    (type : CONFIG.POWERUP.Type_) (pi : nat) (g : Game.t) :
  let S := Game.state g in
  let S' := Game.state (applyPowerUp type g) in
  let pays :=
    State.ship S' = State.ship S /\ State.lives S' = State.lives S
    /\ State.score S'
       = (State.score S + CONFIG.POWERUP.duplicateScoreOf type)%Z in
  State.mode S' = State.mode S /\ State.wave S' = State.wave S
  /\ match type with
     | CONFIG.POWERUP.tripleShot =>
         match Ship.weaponMode (State.ship S) with
         | CONFIG.WEAPON.MODE_SINGLE =>
             Ship.weaponMode (State.ship S') = CONFIG.WEAPON.MODE_TRIPLE
             /\ State.score S' = State.score S /\ State.lives S' = State.lives S
         | CONFIG.WEAPON.MODE_TRIPLE =>
             Ship.weaponMode (State.ship S') = CONFIG.WEAPON.MODE_FIVE
             /\ State.score S' = State.score S /\ State.lives S' = State.lives S
         | CONFIG.WEAPON.MODE_FIVE => pays
         end
     | CONFIG.POWERUP.extraLife =>
         if (State.lives S <? CONFIG.SHIP.MAX_LIVES)%Z
         then State.lives S' = (State.lives S + 1)%Z
              /\ State.score S' = State.score S /\ State.ship S' = State.ship S
         else pays
     | CONFIG.POWERUP.shield =>
         if (Ship.shieldLevel (State.ship S) <? CONFIG.SHIP.SHIELD_MAX_LEVEL)%Z
         then Ship.shieldLevel (State.ship S')
              = (Ship.shieldLevel (State.ship S) + 1)%Z
              /\ State.score S' = State.score S /\ State.lives S' = State.lives S
         else pays
     | CONFIG.POWERUP.speed =>
         if (Ship.speedLevel (State.ship S) <? Ship.maxSpeedLevel (State.ship S))%Z
         then Ship.speedLevel (State.ship S')
              = (Ship.speedLevel (State.ship S) + 1)%Z
              /\ State.score S' = State.score S /\ State.lives S' = State.lives S
         else pays
     end
  /\ powerupRound pi (powerupRound pi g) = powerupRound pi g.
Proof.
  cbv zeta. split; [|split; [|split]].
  - apply (applyPowerUp_playStep type g).
  - apply (applyPowerUp_playStep type g).
  - unfold applyPowerUp. cbv zeta. destruct type.
    + destruct (Ship.weaponMode (State.ship (Game.state g)));
        first [ repeat split; reflexivity
              | rewrite addScore_ship, addScore_lives, addScore_score;
                repeat split; reflexivity ].
    + destruct (State.lives (Game.state g) <? CONFIG.SHIP.MAX_LIVES)%Z eqn:E.
      * apply Z.ltb_lt in E. cbn. repeat split; lia.
      * rewrite addScore_ship, addScore_lives, addScore_score.
        repeat split; reflexivity.
    + destruct (Ship.shieldLevel (State.ship (Game.state g))
                <? CONFIG.SHIP.SHIELD_MAX_LEVEL)%Z eqn:E.
      * apply Z.ltb_lt in E. unfold Ship.increaseShieldLevel. cbv zeta.
        destruct (CONFIG.SHIP.SHIELD_MAX_LEVEL
                  <=? Ship.shieldLevel (State.ship (Game.state g)))%Z eqn:E2;
          [apply Z.leb_le in E2; lia|].
        cbn. repeat split; lia.
      * rewrite addScore_ship, addScore_lives, addScore_score.
        repeat split; reflexivity.
    + unfold Ship.increaseSpeedLevel.
      rewrite (Z.leb_antisym (Ship.speedLevel (State.ship (Game.state g)))
                             (Ship.maxSpeedLevel (State.ship (Game.state g)))).
      destruct (Ship.speedLevel (State.ship (Game.state g))
                <? Ship.maxSpeedLevel (State.ship (Game.state g)))%Z;
        cbn [negb].
      * cbn. repeat split; reflexivity.
      * rewrite addScore_ship, addScore_lives, addScore_score. cbn.
        destruct (State.ship (Game.state g)). repeat split; reflexivity.
  - destruct (State.powerups (Game.state g) !! pi) as [pu|] eqn:Hpu.
    2:{ assert (Hsame : powerupRound pi g = g)
          by (unfold powerupRound; cbv zeta; rewrite Hpu; reflexivity).
        rewrite !Hsame. reflexivity. }
    destruct (negb (Entity.dead (PowerUp.base pu))
              && circleHit (Ship.base (State.ship (Game.state g)))
                           (PowerUp.base pu)) eqn:Ehit.
    2:{ assert (Hsame : powerupRound pi g = g)
          by (unfold powerupRound; cbv zeta; rewrite Hpu, Ehit; reflexivity).
        rewrite !Hsame. reflexivity. }
    set (g1 := Game.onState (fun S' =>
                 let S'0 := State.set_powerups
                              (alter PowerUp.kill pi (State.powerups S')) S' in
                 State.set_powerupsCollected (State.powerupsCollected S'0 + 1) S'0)
                 g).
    assert (Hround : powerupRound pi g = applyPowerUp (PowerUp.type pu) g1)
      by (unfold powerupRound; cbv zeta; rewrite Hpu, Ehit; reflexivity).
    rewrite Hround.
    assert (Hdead : State.powerups (Game.state (applyPowerUp (PowerUp.type pu) g1))
                    !! pi = Some (PowerUp.kill pu)).
    { destruct (applyPowerUp_powerups (PowerUp.type pu) g1) as [-> _].
      unfold g1. cbn [Game.onState Game.state Game.set_state State.powerups
                      State.set_powerups State.set_powerupsCollected].
      rewrite list_lookup_alter, Hpu.
      destruct (decide (pi = pi)); [reflexivity|congruence]. }
    unfold powerupRound at 1. cbv zeta. rewrite Hdead. reflexivity.
Qed.
End Pickups.

(** ** Steering (src/entities/Ship.js) *)

Section Steering.
Context `{MathLib}.

(** X24: the ship's motion in one tick.  The velocity after thrust and
    friction is [(px, py)], the thrust being along the angle the turn keys
    have left.  When the length [Math.hypot] gives for it is within the
    ship's top speed, that is the ship's new velocity, and its length is
    within the top speed.  Otherwise both components are multiplied by the
    one factor [k = maxSpeed / speed], which lies between 0 and 1.  Either
    way neither component grows in size or changes its sign; the length of
    the scaled velocity is [maxSpeed] up to the rounding of the products.
    The position
    advances by the new velocity times [dt]; a turn key alone steers by
    [TURN_SPEED * dt], no turn key leaves the angle as it is; the top
    speed is not changed. *)
Theorem X24_clamp_never_speeds_up (dt : Q) (input : Input.t) (s : Ship.t) :
  0 <= Ship.currentMaxSpeed s ->
  let s' := Ship.update dt input s in
  let left := Input.isDown input "ArrowLeft" || Input.isDown input "KeyA" in
  let right := Input.isDown input "ArrowRight" || Input.isDown input "KeyD" in
  let thrust := Input.isDown input "ArrowUp" || Input.isDown input "KeyW" in
  let px :=
    (if thrust
     then Entity.vx (Ship.base s)
          + fst (angleToVec (Ship.angle s')) * Ship.currentAccel s * dt
     else Entity.vx (Ship.base s)) * CONFIG.SHIP.FRICTION in
  let py :=
    (if thrust
     then Entity.vy (Ship.base s)
          + snd (angleToVec (Ship.angle s')) * Ship.currentAccel s * dt
     else Entity.vy (Ship.base s)) * CONFIG.SHIP.FRICTION in
  let speed := Math_hypot px py in
  let maxSpeed := Ship.currentMaxSpeed s in
  let vx' := Entity.vx (Ship.base s') in
  let vy' := Entity.vy (Ship.base s') in
  (if Qltb maxSpeed speed
   then 0 <= maxSpeed / speed <= 1
        /\ vx' = px * (maxSpeed / speed) /\ vy' = py * (maxSpeed / speed)
   else vx' = px /\ vy' = py /\ Math_hypot vx' vy' <= maxSpeed)
  /\ Qabs vx' <= Qabs px /\ Qabs vy' <= Qabs py
  /\ 0 <= vx' * px /\ 0 <= vy' * py
  /\ Entity.x (Ship.base s') = Entity.x (Ship.base s) + vx' * dt
  /\ Entity.y (Ship.base s') = Entity.y (Ship.base s) + vy' * dt
  /\ (left = false -> right = false -> Ship.angle s' = Ship.angle s)
  /\ (left = true -> right = false ->
      Ship.angle s' = Ship.angle s - CONFIG.SHIP.TURN_SPEED * dt)
  /\ (left = false -> right = true ->
      Ship.angle s' = Ship.angle s + CONFIG.SHIP.TURN_SPEED * dt)
  /\ (left = true -> right = true ->
      Ship.angle s'
      = Ship.angle s - CONFIG.SHIP.TURN_SPEED * dt + CONFIG.SHIP.TURN_SPEED * dt)
  /\ Ship.currentMaxSpeed s' = Ship.currentMaxSpeed s.
Proof.
  intros Hmax.
  assert (Hangle : Ship.angle (Ship.update dt input s)
            = (let a := Ship.angle s in
               let a := if Input.isDown input "ArrowLeft" || Input.isDown input "KeyA"
                        then a - CONFIG.SHIP.TURN_SPEED * dt else a in
               if Input.isDown input "ArrowRight" || Input.isDown input "KeyD"
               then a + CONFIG.SHIP.TURN_SPEED * dt else a)).
  { unfold Ship.update. cbv zeta.
    repeat match goal with
           | |- context [let '(_, _) := ?p in _] => destruct p
           end.
    break_branches; reflexivity. }
  cbv zeta. rewrite Hangle. cbv zeta.
  set (left := Input.isDown input "ArrowLeft" || Input.isDown input "KeyA").
  set (right := Input.isDown input "ArrowRight" || Input.isDown input "KeyD").
  set (thrust := Input.isDown input "ArrowUp" || Input.isDown input "KeyW").
  set (a := if right then _ else _).
  set (px := (if thrust then _ else _) * CONFIG.SHIP.FRICTION).
  set (py := (if thrust then _ else _) * CONFIG.SHIP.FRICTION).
  set (M := Ship.currentMaxSpeed s) in *.
  assert (Hbase : Ship.base (Ship.update dt input s)
            = Entity.move dt
                (Entity.set_vel
                   (fst (if Qltb M (Math_hypot px py)
                         then (px * (M / Math_hypot px py), py * (M / Math_hypot px py))
                         else (px, py)))
                   (snd (if Qltb M (Math_hypot px py)
                         then (px * (M / Math_hypot px py), py * (M / Math_hypot px py))
                         else (px, py)))
                   (Ship.base s))
            /\ Ship.currentMaxSpeed (Ship.update dt input s) = M).
  { unfold Ship.update. cbv zeta.
    fold left. fold right. fold thrust. fold a. fold M.
    unfold px, py. destruct thrust.
    - destruct (Qltb M _);
        break_branches; split; reflexivity.
    - destruct (Qltb M _);
        break_branches; split; reflexivity. }
  destruct Hbase as [Hbase HM]. rewrite Hbase, HM.
  cbn [Entity.move Entity.set_pos Entity.set_vel Entity.x Entity.y Entity.vx Entity.vy].
  assert (Hcases :
    (if Qltb M (Math_hypot px py)
     then 0 <= M / Math_hypot px py <= 1
          /\ fst (if Qltb M (Math_hypot px py)
                  then (px * (M / Math_hypot px py), py * (M / Math_hypot px py))
                  else (px, py)) = px * (M / Math_hypot px py)
          /\ snd (if Qltb M (Math_hypot px py)
                  then (px * (M / Math_hypot px py), py * (M / Math_hypot px py))
                  else (px, py)) = py * (M / Math_hypot px py)
     else fst (if Qltb M (Math_hypot px py)
               then (px * (M / Math_hypot px py), py * (M / Math_hypot px py))
               else (px, py)) = px
          /\ snd (if Qltb M (Math_hypot px py)
                  then (px * (M / Math_hypot px py), py * (M / Math_hypot px py))
                  else (px, py)) = py
          /\ Math_hypot px py <= M)).
  { destruct (Qltb M (Math_hypot px py)) eqn:E.
    - apply Qltb_lt in E. cbn [fst snd].
      assert (Hpos : 0 < Math_hypot px py) by lra.
      split; [|split; reflexivity]. split.
      + apply Qle_shift_div_l; [exact Hpos|]. lra.
      + apply Qle_shift_div_r; [exact Hpos|]. lra.
    - apply Qltb_ge in E. cbn [fst snd]. repeat split. exact E. }
  destruct (Qltb M (Math_hypot px py)) eqn:E; cbn [fst snd] in *.
  - destruct Hcases as ([Hk0 Hk1] & _ & _).
    set (k := M / Math_hypot px py) in *.
    split; [split; [split; assumption|split; reflexivity]|].
    split; [rewrite Qabs_Qmult, (Qabs_pos k Hk0);
            pose proof (Qabs_nonneg px); nra|].
    split; [rewrite Qabs_Qmult, (Qabs_pos k Hk0);
            pose proof (Qabs_nonneg py); nra|].
    split; [nra|]. split; [nra|].
    split; [reflexivity|]. split; [reflexivity|].
    unfold a. repeat split; intros Hl Hr; rewrite Hl, Hr; reflexivity.
  - destruct Hcases as (_ & _ & Hle).
    split; [split; [reflexivity|split; [reflexivity|exact Hle]]|].
    split; [apply Qle_refl|]. split; [apply Qle_refl|].
    split; [nra|]. split; [nra|].
    split; [reflexivity|]. split; [reflexivity|].
    unfold a. repeat split; intros Hl Hr; rewrite Hl, Hr; reflexivity.
Qed.
End Steering.

(** A ship flying at (300, 400) with no key held: the clamp is at work. *)
Lemma X24_clamp_never_speeds_up_witness :
  Qabs (Entity.vx (Ship.base
          (@Ship.update sampleMath (1 / 120) noInput
             (Ship.set_base (Entity.set_vel 300 400 (Ship.base sampleShip))
                            sampleShip))))
  <= Qabs (300 * CONFIG.SHIP.FRICTION)
  /\ Qltb (Ship.currentMaxSpeed sampleShip)
          (@Math_hypot sampleMath (300 * CONFIG.SHIP.FRICTION)
                                  (400 * CONFIG.SHIP.FRICTION)) = true.
Proof.
  split; [|reflexivity].
  apply (@X24_clamp_never_speeds_up sampleMath (1 / 120) noInput
           (Ship.set_base (Entity.set_vel 300 400 (Ship.base sampleShip))
                          sampleShip)).
  vm_compute. discriminate.
Defined.

(** ** The pointer (src/core/Game.js) *)

(** X25: from the screen to the canvas.  For a canvas shown at least one
    pixel wide and high, [translatePointerToCanvas] returns a point: the
    pointer's offset from the left and top edge of the shown rectangle,
    each scaled by the canvas size over the shown size.  The left and top
    edge go to 0, and a coordinate of the point has the sign of the
    offset.  The mute button is hit exactly when the point is in the 68 by
    48 box that starts 16 from the top and ends 16 from the right edge of
    the canvas, and a pointer that hits it is strictly inside the shown
    rectangle.  With no rectangle, or one of no width or no height, the
    result is [null] and the button is not hit.  (Where the right and the
    bottom edge go is left open: the quotient and the product are
    rounded, and the edge may land a little past the canvas.) *)
Theorem X25_mute_button_hit_is_inside_canvas
    (rect : ClientRect.t) (event : PointerEvent.t) :
  1 <= ClientRect.width rect ->
  1 <= ClientRect.height rect ->
  let dx := PointerEvent.clientX event - ClientRect.left rect in
  let dy := PointerEvent.clientY event - ClientRect.top rect in
  exists px py,
    translatePointerToCanvas (Some rect) event = Some (px, py)
    /\ px = dx * (CONFIG.CANVAS.W / ClientRect.width rect)
    /\ py = dy * (CONFIG.CANVAS.H / ClientRect.height rect)
    /\ (dx == 0 -> px == 0) /\ (dy == 0 -> py == 0)
    /\ (0 <= dx -> 0 <= px) /\ (dx <= 0 -> px <= 0)
    /\ (0 <= dy -> 0 <= py) /\ (dy <= 0 -> py <= 0)
    /\ (isPointInMuteButton (Some _setupMuteButtonBounds) (Some (px, py)) = true
        <-> CONFIG.CANVAS.W - 84 <= px <= CONFIG.CANVAS.W - 16
            /\ 16 <= py <= 64)
    /\ (isPointInMuteButton (Some _setupMuteButtonBounds) (Some (px, py)) = true
        -> 0 < dx < ClientRect.width rect /\ 0 < dy < ClientRect.height rect)
    /\ translatePointerToCanvas None event = None
    /\ (forall r : ClientRect.t,
          ClientRect.width r == 0 \/ ClientRect.height r == 0 ->
          translatePointerToCanvas (Some r) event = None)
    /\ isPointInMuteButton (Some _setupMuteButtonBounds) None = false.
Proof.
  intros Hw Hh. cbv zeta.
  destruct rect as [l t w h]. destruct event as [cx cy].
  cbn [ClientRect.left ClientRect.top ClientRect.width ClientRect.height
       PointerEvent.clientX PointerEvent.clientY] in *.
  unfold translatePointerToCanvas at 1.
  cbn [ClientRect.left ClientRect.top ClientRect.width ClientRect.height
       PointerEvent.clientX PointerEvent.clientY].
  assert (Ew : Qeq_bool w 0 = false).
  { destruct (Qeq_bool w 0) eqn:E; [|reflexivity].
    apply Qeq_bool_iff in E. lra. }
  assert (Eh : Qeq_bool h 0 = false).
  { destruct (Qeq_bool h 0) eqn:E; [|reflexivity].
    apply Qeq_bool_iff in E. lra. }
  rewrite Ew, Eh. cbn [orb]. cbv zeta.
  set (W := CONFIG.CANVAS.W). set (Hc := CONFIG.CANVAS.H).
  assert (HW : W == 960) by reflexivity. assert (HH : Hc == 540) by reflexivity.
  set (kx := W / w). set (ky := Hc / h).
  assert (Hkx : 0 < kx) by (apply Qlt_shift_div_l; lra).
  assert (Hky : 0 < ky) by (apply Qlt_shift_div_l; lra).
  assert (EW : W == w * kx) by (unfold kx; field; lra).
  assert (EH : Hc == h * ky) by (unfold ky; field; lra).
  set (dx := cx - l). set (dy := cy - t).
  exists (dx * kx), (dy * ky).
  assert (HB : isPointInMuteButton (Some _setupMuteButtonBounds)
                 (Some (dx * kx, dy * ky)) = true
               <-> W - 84 <= dx * kx <= W - 16 /\ 16 <= dy * ky <= 64).
  { unfold isPointInMuteButton, _setupMuteButtonBounds. cbv zeta.
    cbn [Bounds.x Bounds.y Bounds.width Bounds.height]. fold W.
    rewrite !andb_true_iff, !Qleb_le.
    set (px := dx * kx). set (py := dy * ky).
    split; intros; repeat split; lra. }
  split; [reflexivity|]. split; [reflexivity|]. split; [reflexivity|].
  split; [intros E; rewrite E; ring|]. split; [intros E; rewrite E; ring|].
  split; [intros Hd; nra|]. split; [intros Hd; nra|].
  split; [intros Hd; nra|]. split; [intros Hd; nra|].
  split; [exact HB|].
  split; [|split; [reflexivity|split; [|reflexivity]]].
  - intros Hhit. apply HB in Hhit as [[A B] [C D]].
    assert (Hx : 0 < dx * kx < w * kx) by (split; lra).
    assert (Hy : 0 < dy * ky < h * ky) by (split; lra).
    split; split; nra.
  - intros r Hr. unfold translatePointerToCanvas.
    destruct Hr as [Hr|Hr]; apply Qeq_bool_iff in Hr; rewrite Hr;
      [reflexivity|rewrite orb_true_r; reflexivity].
Qed.

Lemma X25_mute_button_hit_is_inside_canvas_witness :
  exists px py,
    translatePointerToCanvas (Some (ClientRect.mk 10 20 480 270))
                             (PointerEvent.mk 450 40) = Some (px, py)
    /\ isPointInMuteButton (Some _setupMuteButtonBounds) (Some (px, py)) = true
    /\ 0 < 450 - 10 < 480.
Proof.
  destruct (X25_mute_button_hit_is_inside_canvas (ClientRect.mk 10 20 480 270)
              (PointerEvent.mk 450 40))
    as (px & py & Ht & _ & _ & _ & _ & _ & _ & _ & _ & _ & Hin & _).
  - vm_compute. discriminate.
  - vm_compute. discriminate.
  - exists px, py. split; [exact Ht|].
    assert (Hhit : isPointInMuteButton (Some _setupMuteButtonBounds)
                     (Some (px, py)) = true)
      by (cbv in Ht; injection Ht as <- <-; reflexivity).
    split; [exact Hhit|]. apply (Hin Hhit).
Defined.

(** ** One UFO per wave (src/core/Game.js) *)

Lemma updateHighScore_ufoFlag (score : Z) (g : Game.t) :
  State.ufo (Game.state (updateHighScore score g)) = State.ufo (Game.state g)
  /\ State.ufoSpawnedThisWave (Game.state (updateHighScore score g))
     = State.ufoSpawnedThisWave (Game.state g).
Proof. unfold updateHighScore. break_branches; split; reflexivity. Qed.

Lemma addScore_ufoFlag (n : Z) (g : Game.t) :
  State.ufo (Game.state (addScore n g)) = State.ufo (Game.state g)
  /\ State.ufoSpawnedThisWave (Game.state (addScore n g))
     = State.ufoSpawnedThisWave (Game.state g).
Proof.
  unfold addScore. cbv zeta.
  destruct (updateHighScore_ufoFlag
              (State.score (Game.state (Game.onState
                 (fun S => State.set_score (State.score S + n) S) g)))
              (Game.onState (fun S => State.set_score (State.score S + n) S) g))
    as [-> ->].
  split; reflexivity.
Qed.

Section UfoOnce.
Context `{MathLib}.

(** The wave's UFO is gone and none is due. *)
Lemma damageShip_ufoFlag (cb : option (Game.t -> Game.t)) (bonus : Z) (g : Game.t) :
  (forall f g0, cb = Some f ->
     State.ufo (Game.state (f g0)) = State.ufo (Game.state g0)
     /\ State.ufoSpawnedThisWave (Game.state (f g0))
        = State.ufoSpawnedThisWave (Game.state g0)) ->
  State.ufo (Game.state (snd (damageShip cb bonus g))) = State.ufo (Game.state g)
  /\ State.ufoSpawnedThisWave (Game.state (snd (damageShip cb bonus g)))
     = State.ufoSpawnedThisWave (Game.state g).
Proof.
  intros Hcb. unfold damageShip.
  destruct (0 <? Ship.shieldLevel (State.ship (Game.state g)))%Z.
  - cbv zeta. cbn [snd Game.onState Game.state Game.set_state State.ufo
                   State.ufoSpawnedThisWave State.set_ship].
    set (g1 := match cb with Some f => f g | None => g end).
    assert (H1 : State.ufo (Game.state g1) = State.ufo (Game.state g)
                 /\ State.ufoSpawnedThisWave (Game.state g1)
                    = State.ufoSpawnedThisWave (Game.state g)).
    { unfold g1. destruct cb as [f|]; [apply (Hcb f g eq_refl)|split; reflexivity]. }
    destruct H1 as [<- <-]. clearbody g1.
    destruct (negb (bonus =? 0)%Z); [apply addScore_ufoFlag|split; reflexivity].
  - cbv zeta.
    set (g1 := Game.onState (fun S => State.set_lives (State.lives S - 1) S) g).
    destruct (State.lives (Game.state g1) <=? 0)%Z; cbn [snd].
    + destruct (updateHighScore_ufoFlag (State.score
                  (Game.state (Game.onState (State.set_mode GAME_OVER) g1)))
                  (Game.onState (State.set_mode GAME_OVER) g1)) as [-> ->].
      split; reflexivity.
    + split; reflexivity.
Qed.

Lemma _handleShipHazardCollisions_ufoFlag (g : Game.t) :
  State.ufo (Game.state (snd (_handleShipHazardCollisions g)))
  = State.ufo (Game.state g)
  /\ State.ufoSpawnedThisWave (Game.state (snd (_handleShipHazardCollisions g)))
     = State.ufoSpawnedThisWave (Game.state g).
Proof.
  assert (Hnone : forall f g0, @None (Game.t -> Game.t) = Some f ->
            State.ufo (Game.state (f g0)) = State.ufo (Game.state g0)
            /\ State.ufoSpawnedThisWave (Game.state (f g0))
               = State.ufoSpawnedThisWave (Game.state g0)) by discriminate.
  unfold _handleShipHazardCollisions. cbv zeta.
  set (stage1 :=
    match findShipAsteroidHit (State.ship (Game.state g))
            (State.asteroids (Game.state g)) with
    | Some (ai, hitAsteroid) => _
    | None => (true, g)
    end).
  assert (H1 : State.ufo (Game.state (snd stage1)) = State.ufo (Game.state g)
               /\ State.ufoSpawnedThisWave (Game.state (snd stage1))
                  = State.ufoSpawnedThisWave (Game.state g)).
  { subst stage1. destruct (findShipAsteroidHit _ _) as [[ai hit]|];
      [|split; reflexivity].
    pose proof (damageShip_ufoFlag (Some (markHitAsteroidDead ai))
                  (scoreForSize (Asteroid.sizeIndex hit)) g) as Hd.
    destruct (damageShip _ _ g) as [survived g1]. cbn [snd] in *.
    apply Hd. intros f g0 Hf. injection Hf as <-. split; reflexivity. }
  clearbody stage1. destruct stage1 as [goOn g1]. cbn [snd] in H1.
  destruct H1 as [<- <-].
  destruct (negb goOn); [split; reflexivity|].
  destruct (Mode_eqb _ GAME_OVER); [split; reflexivity|].
  destruct (Qleb _ 0); [|split; reflexivity].
  set (stage2 :=
    match State.ufo (Game.state g1) with
    | Some u => _
    | None => (true, g1)
    end).
  assert (H2 : State.ufo (Game.state (snd stage2)) = State.ufo (Game.state g1)
               /\ State.ufoSpawnedThisWave (Game.state (snd stage2))
                  = State.ufoSpawnedThisWave (Game.state g1)).
  { subst stage2. destruct (State.ufo (Game.state g1)) as [u|] eqn:Eu;
      [|cbn [snd]; split; [exact Eu|reflexivity]].
    destruct (_ && _); [|cbn [snd]; split; [exact Eu|reflexivity]].
    pose proof (damageShip_ufoFlag None 0 g1 Hnone) as Hd.
    destruct (damageShip None 0 g1) as [survived g2]. cbn [snd] in *.
    rewrite <- Eu. exact Hd. }
  clearbody stage2. destruct stage2 as [goOn2 g2]. cbn [snd] in H2.
  destruct H2 as [<- <-].
  destruct (negb goOn2); [split; reflexivity|].
  destruct (Qleb _ 0); [|split; reflexivity].
  destruct (findFirst _ _) as [[li laser]|]; [|split; reflexivity].
  set (g3 := Game.onState _ g2).
  pose proof (damageShip_ufoFlag None 0 g3 Hnone) as Hd.
  destruct (damageShip None 0 g3) as [survived g4]. cbn [snd] in *.
  destruct (negb survived || _); exact Hd.
Qed.
End UfoOnce.

Section UfoOncePerWave.
Context `{MathLib}.

Lemma updateEntities_noUfo (dt : Q) (input : Input.t) (g : Game.t) :
  State.ufo (Game.state g) = None ->
  State.ufoSpawnedThisWave (Game.state g) = true ->
  State.ufo (Game.state (updateEntities dt input g)) = None
  /\ State.ufoSpawnedThisWave (Game.state (updateEntities dt input g)) = true.
Proof.
  intros Hufo Hflag. unfold updateEntities. cbv zeta.
  set (g1 := Game.onState
               (fun S => State.set_ship (Ship.update dt input (State.ship S)) S) g).
  set (g2 := if _ && Ship.canFire (State.ship (Game.state g1)) then _ else g1).
  assert (H2 : State.ufo (Game.state g2) = None
               /\ State.ufoSpawnedThisWave (Game.state g2) = true).
  { unfold g2. destruct (_ && _); [|split; assumption].
    cbn [Game.onState Game.state Game.set_state].
    destruct (Ship.fire _) as [bullets ship']. split; assumption. }
  clearbody g2. clear g1. destruct H2 as [Hu2 Hf2].
  set (g3 := Game.onState _ g2).
  assert (Hu3 : State.ufo (Game.state g3) = None) by exact Hu2.
  assert (Hf3 : State.ufoSpawnedThisWave (Game.state g3) = true) by exact Hf2.
  clearbody g3. rewrite Hu3, Hf3. rewrite Hu3.
  split; [exact Hu3 | exact Hf3].
Qed.

Lemma _handleBulletCollisions_ufoFlag (g : Game.t) :
  State.ufo (Game.state g) = None ->
  State.ufo (Game.state (_handleBulletCollisions g)) = None
  /\ State.ufoSpawnedThisWave (Game.state (_handleBulletCollisions g))
     = State.ufoSpawnedThisWave (Game.state g).
Proof.
  intros Hufo. unfold _handleBulletCollisions, forEachBulletAsteroidHit. cbv zeta.
  set (P := fun s : Game.t =>
              State.ufo (Game.state s) = None
              /\ State.ufoSpawnedThisWave (Game.state s)
                 = State.ufoSpawnedThisWave (Game.state g)).
  assert (Hround1 : forall i s, P s ->
            P (bulletAsteroidRound onBulletHitsAsteroid i s)).
  { intros i s [Hs1 Hs2]. unfold P, bulletAsteroidRound, onBulletHitsAsteroid.
    destruct (State.bullets (Game.state s) !! i) as [b|]; [|split; assumption].
    destruct (Entity.dead (Bullet.base b)); [split; assumption|].
    destruct (findFirst _ _) as [[ai a]|]; [|split; assumption].
    destruct (State.asteroids (Game.state s) !! ai) as [a'|]; [|split; assumption].
    cbv zeta. rewrite onStateRand_state. unfold bind.
    destruct (Asteroid.split _ _) as [parts n'].
    cbn [fst ret State.ufo State.ufoSpawnedThisWave State.set_asteroids].
    match goal with
    | |- context [addScore ?n ?x] =>
        destruct (addScore_ufoFlag n x) as [-> ->]
    end.
    split; assumption. }
  assert (Hround2 : forall i s, P s -> P (bulletUfoRound i s)).
  { intros i s [Hs1 Hs2]. unfold P, bulletUfoRound. cbv zeta.
    destruct (State.bullets (Game.state s) !! i) as [b|]; [|split; assumption].
    destruct (Entity.dead (Bullet.base b)); [split; assumption|].
    rewrite Hs1. split; assumption. }
  apply (forEachIndex_ind P); [exact Hround2|].
  apply (forEachIndex_ind P); [exact Hround1|].
  split; [exact Hufo | reflexivity].
Qed.

Lemma _handlePowerupCollisions_ufoFlag (g : Game.t) :
  State.ufo (Game.state (_handlePowerupCollisions g)) = State.ufo (Game.state g)
  /\ State.ufoSpawnedThisWave (Game.state (_handlePowerupCollisions g))
     = State.ufoSpawnedThisWave (Game.state g).
Proof.
  unfold _handlePowerupCollisions.
  apply (forEachIndex_ind
           (fun s => State.ufo (Game.state s) = State.ufo (Game.state g)
                     /\ State.ufoSpawnedThisWave (Game.state s)
                        = State.ufoSpawnedThisWave (Game.state g)));
    [|split; reflexivity].
  intros i s [<- <-]. unfold powerupRound. cbv zeta.
  destruct (State.powerups (Game.state s) !! i) as [pu|]; [|split; reflexivity].
  destruct (_ && _); [|split; reflexivity].
  set (s1 := Game.onState _ s).
  change (State.ufo (Game.state s)) with (State.ufo (Game.state s1)).
  change (State.ufoSpawnedThisWave (Game.state s))
    with (State.ufoSpawnedThisWave (Game.state s1)).
  clearbody s1. unfold applyPowerUp. cbv zeta.
  destruct (PowerUp.type pu).
  - destruct (Ship.weaponMode _);
      first [apply addScore_ufoFlag | split; reflexivity].
  - destruct (_ <? _)%Z; first [apply addScore_ufoFlag | split; reflexivity].
  - destruct (_ <? _)%Z; [|apply addScore_ufoFlag].
    destruct (Ship.increaseShieldLevel _) as [raised ship'].
    destruct raised; [split; reflexivity|].
    match goal with
    | |- context [addScore ?n ?x] =>
        destruct (addScore_ufoFlag n x) as [-> ->]
    end.
    split; reflexivity.
  - destruct (Ship.increaseSpeedLevel _) as [raised ship'].
    destruct raised; [split; reflexivity|].
    match goal with
    | |- context [addScore ?n ?x] =>
        destruct (addScore_ufoFlag n x) as [-> ->]
    end.
    split; reflexivity.
Qed.

(** X26: one UFO per wave.  Once the wave's UFO has come and gone (no UFO
    on the field, and the wave marked as having had its UFO), a tick in
    PLAY that stays in the same wave brings no other: there is still no
    UFO after it and the mark is still set, however the spawn timer
    stands. *)
Theorem X26_one_ufo_per_wave (dt : Q) (input : Input.t) (g : Game.t) :
  State.mode (Game.state g) = PLAY ->
  State.ufo (Game.state g) = None ->
  State.ufoSpawnedThisWave (Game.state g) = true ->
  State.wave (Game.state (update dt input g)) = State.wave (Game.state g) ->
  State.ufo (Game.state (update dt input g)) = None
  /\ State.ufoSpawnedThisWave (Game.state (update dt input g)) = true.
Proof.
  intros Hmode Hufo Hflag. unfold update. rewrite Hmode.
  destruct (updateEntities_noUfo dt input g Hufo Hflag) as [Hu1 Hf1].
  destruct (progress_eq _ _ (updateEntities_progress dt input g))
    as (Hm1 & Hw1 & _).
  set (g1 := updateEntities dt input g) in *.
  assert (Hmode1 : State.mode (Game.state g1) = PLAY) by congruence.
  destruct (resolveCollisions_post g1 Hmode1) as ((Hw2 & _) & _ & _).
  assert (Hres : State.ufo (Game.state (snd (resolveCollisions g1))) = None
                 /\ State.ufoSpawnedThisWave
                      (Game.state (snd (resolveCollisions g1))) = true).
  { unfold resolveCollisions. cbv zeta.
    destruct (_handleBulletCollisions_ufoFlag g1 Hu1) as [Hub Hfb].
    rewrite Hf1 in Hfb.
    set (gb := _handleBulletCollisions g1) in *. clearbody gb.
    destruct (Mode_eqb _ GAME_OVER); [split; assumption|].
    set (stage := if Qleb (Ship.invuln (State.ship (Game.state gb))) 0
                  then _ else (true, gb)).
    assert (Hst : State.ufo (Game.state (snd stage)) = None
                  /\ State.ufoSpawnedThisWave (Game.state (snd stage)) = true).
    { unfold stage. destruct (Qleb _ 0); [|split; assumption].
      destruct (_handleShipHazardCollisions_ufoFlag gb) as [Hu Hf].
      destruct (_handleShipHazardCollisions gb) as [survived g2].
      cbn [snd] in *. split; congruence. }
    clearbody stage. destruct stage as [goOn g2]. cbn [snd] in Hst.
    destruct Hst as [Hu2 Hf2].
    destruct (negb goOn); cbn [snd]; [split; assumption|].
    destruct (_handlePowerupCollisions_ufoFlag g2) as [Hu3 Hf3].
    destruct (updateHighScore_ufoFlag
                (State.score (Game.state (_handlePowerupCollisions g2)))
                (_handlePowerupCollisions g2)) as [-> ->].
    split; congruence. }
  clearbody g1.
  destruct (resolveCollisions g1) as [goOn g2]. cbn [fst snd] in *.
  destruct Hres as [Hu2 Hf2].
  destruct goOn; cbn [negb]; [|intros _; split; assumption].
  destruct (progress_eq _ _ (cleanup_progress g2)) as (_ & Hw3 & _).
  assert (Hu3 : State.ufo (Game.state (cleanup g2)) = None) by exact Hu2.
  assert (Hf3 : State.ufoSpawnedThisWave (Game.state (cleanup g2)) = true)
    by exact Hf2.
  set (g3 := cleanup g2) in *. clearbody g3.
  unfold nextWaveCheck. cbv zeta. destruct (_ && _); [|intros _; split; assumption].
  set (g4 := Game.onState (fun S => State.set_wave (State.wave S + 1) S) g3).
  assert (Hp : progress (resetUfoStateForWave
                 (Game.onStateRand maybeSpawnPowerUp (Game.onStateRand spawnWave g4)))
               = progress g4).
  { rewrite resetUfoStateForWave_progress.
    rewrite onStateRand_progress
      by (intros; apply maybeSpawnPowerUpLoop_progress).
    apply onStateRand_progress, spawnWave_progress. }
  destruct (progress_eq _ _ Hp) as (_ & Hw4 & _).
  rewrite Hw4. unfold g4. cbn. intros Hsame. lia.
Qed.
End UfoOncePerWave.

Lemma X26_one_ufo_per_wave_witness :
  State.ufo
    (Game.state
       (@update sampleMath (1 / 120) noInput
          (Game.onState (State.set_ufoSpawnedThisWave true) hitGame))) = None.
Proof.
  apply (@X26_one_ufo_per_wave sampleMath (1 / 120) noInput
           (Game.onState (State.set_ufoSpawnedThisWave true) hitGame));
    [reflexivity | reflexivity | reflexivity | vm_compute; reflexivity].
Defined.

Section UfoArrival.
Context `{MathLib}.

(** What [spawnUfoForCurrentWave] puts in the state, whatever it draws. *)
Lemma spawnUfoForCurrentWave_state (S : State.t) (n : nat) :
  exists u,
    fst (spawnUfoForCurrentWave S n)
    = State.set_ufoSpawnTimer None
        (State.set_ufoSpawnedThisWave true (State.set_ufo (Some u) S))
    /\ Entity.dead (Ufo.base u) = false
    /\ Ufo.health u = CONFIG.UFO.HITS_TO_DESTROY.
Proof.
  unfold spawnUfoForCurrentWave, bind, random, ret.
  change ((length CONFIG.UFO.SPRITES =? 0)%nat) with false.
  cbv beta iota zeta.
  repeat match goal with
         | |- context [Qltb ?a 0.5] => destruct (Qltb a 0.5)
         end;
    cbv beta iota zeta; cbn [fst];
    eexists; (split; [reflexivity|]); split; reflexivity.
Qed.

(** [Ufo.update] neither kills the craft nor touches its health. *)
Lemma Ufo_update_keeps (dt : Q) (target : Entity.t) (u : Ufo.t) :
  Entity.dead (Ufo.base (snd (Ufo.update dt target u))) = Entity.dead (Ufo.base u)
  /\ Ufo.health (snd (Ufo.update dt target u)) = Ufo.health u.
Proof.
  unfold Ufo.update. destruct (Entity.dead (Ufo.base u)) eqn:Ed.
  - cbn [snd]. split; [exact Ed|reflexivity].
  - cbv zeta. destruct (Qleb _ 0); cbn; split; (reflexivity || exact Ed).
Qed.

(** X27: when the UFO arrives.  In the entity phase of a tick, with no UFO
    on the field, the wave not yet marked and the spawn timer at [timer]
    seconds: if more than [dt] is left, the timer goes down by [dt], no UFO
    and no laser appears and the wave stays unmarked; if at most [dt] is
    left, the UFO arrives in this very tick, live and with all its hits to
    take, the wave is marked and the timer is cleared.  With the timer
    cleared and no UFO, nothing arrives. *)
Theorem X27_ufo_arrives_when_timer_runs_out
    (dt : Q) (input : Input.t) (g : Game.t) (timer : Q) :
  State.ufo (Game.state g) = None ->
  State.ufoSpawnedThisWave (Game.state g) = false ->
  let S' := Game.state (updateEntities dt input g) in
  (State.ufoSpawnTimer (Game.state g) = Some timer ->
     if Qleb timer dt
     then (exists u, State.ufo S' = Some u
                     /\ Entity.dead (Ufo.base u) = false
                     /\ Ufo.health u = CONFIG.UFO.HITS_TO_DESTROY)
          /\ State.ufoSpawnedThisWave S' = true
          /\ State.ufoSpawnTimer S' = None
     else State.ufo S' = None
          /\ State.ufoSpawnedThisWave S' = false
          /\ (exists left, State.ufoSpawnTimer S' = Some left
                           /\ left == timer - dt /\ 0 < left)
          /\ length (State.ufoBullets S')
             = length (State.ufoBullets (Game.state g)))
  /\ (State.ufoSpawnTimer (Game.state g) = None ->
      State.ufo S' = None
      /\ State.ufoSpawnedThisWave S' = false
      /\ State.ufoSpawnTimer S' = None).
Proof.
  intros Hufo Hflag. cbv zeta. unfold updateEntities. cbv zeta.
  set (g1 := Game.onState
               (fun S => State.set_ship (Ship.update dt input (State.ship S)) S) g).
  set (g2 := if _ && Ship.canFire (State.ship (Game.state g1)) then _ else g1).
  assert (H2 : State.ufo (Game.state g2) = None
               /\ State.ufoSpawnedThisWave (Game.state g2) = false
               /\ State.ufoSpawnTimer (Game.state g2)
                  = State.ufoSpawnTimer (Game.state g)
               /\ State.ufoBullets (Game.state g2)
                  = State.ufoBullets (Game.state g)).
  { unfold g2. destruct (_ && _); [|repeat split; assumption].
    cbn [Game.onState Game.state Game.set_state].
    destruct (Ship.fire _) as [bullets ship']. repeat split; assumption. }
  clearbody g2. clear g1. destruct H2 as (Hu2 & Hf2 & Ht2 & Hb2).
  set (g3 := Game.onState _ g2).
  assert (Hu3 : State.ufo (Game.state g3) = None) by exact Hu2.
  assert (Hf3 : State.ufoSpawnedThisWave (Game.state g3) = false) by exact Hf2.
  assert (Ht3 : State.ufoSpawnTimer (Game.state g3)
                = State.ufoSpawnTimer (Game.state g)) by exact Ht2.
  assert (Hb3 : State.ufoBullets (Game.state g3)
                = State.ufoBullets (Game.state g)) by exact Hb2.
  clearbody g3. clear Hu2 Hf2 Ht2 Hb2.
  set (g4 := match State.ufo (Game.state g3) with
             | Some _ => g3
             | None => _
             end).
  set (g5 := match State.ufo (Game.state g4) with
             | Some u => _
             | None => g4
             end).
  (* the last two stages touch neither the craft nor its schedule *)
  match goal with
  | |- context [Game.state (Game.onState ?f (Game.onState ?h g5))] =>
      assert (Hlast :
        State.ufo (Game.state (Game.onState f (Game.onState h g5)))
        = State.ufo (Game.state g5)
        /\ State.ufoSpawnedThisWave
             (Game.state (Game.onState f (Game.onState h g5)))
           = State.ufoSpawnedThisWave (Game.state g5)
        /\ State.ufoSpawnTimer (Game.state (Game.onState f (Game.onState h g5)))
           = State.ufoSpawnTimer (Game.state g5)
        /\ length (State.ufoBullets
                     (Game.state (Game.onState f (Game.onState h g5))))
           = length (State.ufoBullets (Game.state g5)))
        by (cbn [Game.onState Game.state Game.set_state
                 State.ufo State.ufoSpawnedThisWave State.ufoSpawnTimer
                 State.ufoBullets State.set_ufoBullets State.set_powerups
                 State.set_asteroids State.set_bullets State.set_ship];
            rewrite length_map; repeat split; reflexivity);
      destruct Hlast as (-> & -> & -> & ->)
  end.
  split.
  - intros Htimer.
    destruct (Qmax_0_cases (timer - dt)) as [[Hle Emax]|[Hgt Emax]].
    + assert (E1 : Qleb (Qmax 0 (timer - dt)) 0 = true) by (apply Qleb_le; lra).
      assert (E2 : Qleb timer dt = true) by (apply Qleb_le; lra).
      rewrite E2.
      assert (H4 : exists u,
                Game.state g4
                = State.set_ufoSpawnTimer None
                    (State.set_ufoSpawnedThisWave true
                       (State.set_ufo (Some u)
                          (State.set_ufoSpawnTimer (Some (Qmax 0 (timer - dt)))
                             (Game.state g3))))
                /\ Entity.dead (Ufo.base u) = false
                /\ Ufo.health u = CONFIG.UFO.HITS_TO_DESTROY).
      { unfold g4. rewrite Hu3, Hf3, Ht3, Htimer. cbv zeta. rewrite E1.
        set (gt := Game.onState (State.set_ufoSpawnTimer _) g3).
        destruct (spawnUfoForCurrentWave_state (Game.state gt) (Game.draws gt))
          as (u & Hst & Hlive & Hhealth).
        exists u. rewrite onStateRand_state, Hst.
        split; [reflexivity|]. split; assumption. }
      destruct H4 as (u & Hst & Hlive & Hhealth). clearbody g4.
      assert (Hu4 : State.ufo (Game.state g4) = Some u) by (rewrite Hst; reflexivity).
      unfold g5. rewrite Hu4.
      destruct (Ufo_update_keeps dt (Ship.base (State.ship (Game.state g4))) u)
        as [Hd Hh].
      destruct (Ufo.update dt _ u) as [lasers u']. cbn [snd] in Hd, Hh.
      rewrite Hlive in Hd. rewrite Hhealth in Hh.
      cbn [Game.onState Game.state Game.set_state]. rewrite Hd, Hst.
      destruct (0 <? length lasers)%nat;
        cbn; (split; [exists u'; repeat split; assumption|]); split; reflexivity.
    + assert (E1 : Qleb (Qmax 0 (timer - dt)) 0 = false) by (apply Qleb_gt; lra).
      assert (E2 : Qleb timer dt = false) by (apply Qleb_gt; lra).
      rewrite E2.
      assert (H4 : Game.state g4
                   = State.set_ufoSpawnTimer (Some (Qmax 0 (timer - dt)))
                       (Game.state g3)).
      { unfold g4. rewrite Hu3, Hf3, Ht3, Htimer. cbv zeta. rewrite E1.
        reflexivity. }
      clearbody g4.
      assert (Hu4 : State.ufo (Game.state g4) = None) by (rewrite H4; exact Hu3).
      unfold g5. rewrite Hu4, H4.
      cbn [State.ufo State.ufoSpawnedThisWave State.ufoSpawnTimer State.ufoBullets
           State.set_ufoSpawnTimer].
      split; [exact Hu3|]. split; [exact Hf3|].
      split; [eexists; split; [reflexivity|split; lra]|].
      rewrite Hb3. reflexivity.
  - intros Htimer.
    assert (H4 : g4 = g3).
    { unfold g4. rewrite Hu3, Hf3, Ht3, Htimer. reflexivity. }
    clearbody g4. subst g4. unfold g5. rewrite Hu3.
    split; [exact Hu3|]. split; [exact Hf3|]. rewrite Ht3. exact Htimer.
Qed.
End UfoArrival.

Lemma X27_ufo_arrives_when_timer_runs_out_witness :
  State.ufo (Game.state (@updateEntities sampleMath (1 / 120) noInput clearedGame))
  = None
  /\ State.ufoSpawnedThisWave
       (Game.state (@updateEntities sampleMath (1 / 120) noInput clearedGame))
     = false.
Proof.
  destruct (@X27_ufo_arrives_when_timer_runs_out sampleMath (1 / 120) noInput
              clearedGame 30 eq_refl eq_refl) as [Hrun _].
  specialize (Hrun eq_refl).
  change (Qleb 30 (1 / 120)) with false in Hrun. cbv iota in Hrun.
  destruct Hrun as (Hu & Hf & _). split; assumption.
Defined.

(** ** Shooting (src/core/Game.js) *)

Section Shooting.
Context `{MathLib}.

(** X28: shooting in a tick.  The ship fires in the entity phase exactly
    when Space is held or J was just pressed and the cooldown left before
    the tick is at most [dt].  Then one volley is added after the bullets
    already flying, of one, three or five bullets by the weapon mode, and
    the cooldown starts again from [FIRE_COOLDOWN]; otherwise no bullet is
    added and the cooldown goes down by [dt], not below zero.  No bullet
    leaves the array in this phase, and the old bullets keep their
    places. *)
Theorem X28_one_volley_per_cooldown (dt : Q) (input : Input.t) (g : Game.t) :
  let S := Game.state g in
  let S' := Game.state (updateEntities dt input g) in
  let trigger := Input.isDown input "Space" || Input.pressed input "KeyJ" in
  let fired := trigger && Ship.canFire (Ship.update dt input (State.ship S)) in
  let volley := match Ship.weaponMode (State.ship S) with
                | CONFIG.WEAPON.MODE_SINGLE => 1%nat
                | CONFIG.WEAPON.MODE_TRIPLE => 3%nat
                | CONFIG.WEAPON.MODE_FIVE => 5%nat
                end in
  (fired = true <-> trigger = true /\ Ship.cooldown (State.ship S) <= dt)
  /\ length (State.bullets S')
     = (length (State.bullets S) + (if fired then volley else 0))%nat
  /\ Ship.cooldown (State.ship S')
     = (if fired then CONFIG.SHIP.FIRE_COOLDOWN
        else Qmax 0 (Ship.cooldown (State.ship S) - dt))
  /\ (forall i b, State.bullets S !! i = Some b ->
        State.bullets S' !! i
        = Some (Bullet.set_base
                  (integrateAndWrap (Bullet.base (Bullet.update dt b)))
                  (Bullet.update dt b))).
Proof.
  cbv zeta.
  set (trigger := Input.isDown input "Space" || Input.pressed input "KeyJ").
  set (s1 := Ship.update dt input (State.ship (Game.state g))).
  assert (Hfire : trigger && Ship.canFire s1 = true
                  <-> trigger = true /\ Ship.cooldown (State.ship (Game.state g)) <= dt).
  { rewrite andb_true_iff. unfold Ship.canFire. rewrite Qleb_le.
    unfold s1. rewrite Ship_update_cooldown.
    destruct (Qmax_0_cases (Ship.cooldown (State.ship (Game.state g)) - dt))
      as [[? E]|[? E]]; split; intros [A B]; split; try assumption; lra. }
  split; [exact Hfire|].
  assert (Hmode : Ship.weaponMode s1 = Ship.weaponMode (State.ship (Game.state g)))
    by (apply Ship_update_levels).
  assert (Hcd : Ship.cooldown s1
                = Qmax 0 (Ship.cooldown (State.ship (Game.state g)) - dt))
    by (apply Ship_update_cooldown).
  unfold updateEntities. cbv zeta.
  set (g1 := Game.onState
               (fun S => State.set_ship (Ship.update dt input (State.ship S)) S) g).
  change (State.ship (Game.state g1)) with s1.
  fold trigger.
  set (g2 := if trigger && Ship.canFire s1 then _ else g1).
  assert (H2 : State.bullets (Game.state g2)
               = State.bullets (Game.state g)
                 ++ (if trigger && Ship.canFire s1 then fst (Ship.fire s1) else [])
               /\ State.ship (Game.state g2)
                  = if trigger && Ship.canFire s1 then snd (Ship.fire s1) else s1).
  { unfold g2. destruct (trigger && Ship.canFire s1).
    - cbn [Game.onState Game.state Game.set_state].
      change (State.ship (Game.state g1)) with s1.
      destruct (Ship.fire s1) as [bullets ship']. split; reflexivity.
    - rewrite app_nil_r. split; reflexivity. }
  destruct H2 as [Hb2 Hs2]. clearbody g2.
  set (g3 := Game.onState _ g2).
  assert (Hb3 : State.bullets (Game.state g3)
                = map (Bullet.update dt) (State.bullets (Game.state g2)))
    by reflexivity.
  assert (Hs3 : State.ship (Game.state g3) = State.ship (Game.state g2))
    by reflexivity.
  clearbody g3.
  set (g4 := match State.ufo (Game.state g3) with
             | Some _ => g3
             | None => _
             end).
  assert (H4 : State.bullets (Game.state g4) = State.bullets (Game.state g3)
               /\ State.ship (Game.state g4) = State.ship (Game.state g3)).
  { unfold g4.
    destruct (State.ufo (Game.state g3)); [split; reflexivity|].
    destruct (State.ufoSpawnedThisWave (Game.state g3)); [split; reflexivity|].
    destruct (State.ufoSpawnTimer (Game.state g3)) as [timer|];
      [|split; reflexivity].
    cbv zeta. destruct (Qleb _ 0); [|split; reflexivity].
    set (gt := Game.onState (State.set_ufoSpawnTimer _) g3).
    destruct (spawnUfoForCurrentWave_state (Game.state gt) (Game.draws gt))
      as (u & Hst & _).
    rewrite onStateRand_state, Hst. split; reflexivity. }
  destruct H4 as [Hb4 Hs4]. clearbody g4.
  set (g5 := match State.ufo (Game.state g4) with
             | Some u => _
             | None => g4
             end).
  assert (H5 : State.bullets (Game.state g5) = State.bullets (Game.state g4)
               /\ State.ship (Game.state g5) = State.ship (Game.state g4)).
  { unfold g5. destruct (State.ufo (Game.state g4)); [|split; reflexivity].
    destruct (Ufo.update _ _ _) as [lasers u'].
    cbn [Game.onState Game.state Game.set_state].
    destruct (0 <? length lasers)%nat; destruct (Entity.dead (Ufo.base u'));
      split; reflexivity. }
  destruct H5 as [Hb5 Hs5]. clearbody g5.
  cbn [Game.onState Game.state Game.set_state State.bullets State.ship
       State.set_ufoBullets State.set_powerups State.set_asteroids
       State.set_bullets State.set_ship].
  rewrite Hb5, Hb4, Hb3, Hb2, Hs5, Hs4, Hs3, Hs2.
  split; [|split].
  - rewrite !length_map, length_app.
    destruct (trigger && Ship.canFire s1); [|reflexivity].
    f_equal. unfold Ship.fire. rewrite Hmode.
    destruct (Ship.weaponMode (State.ship (Game.state g))); reflexivity.
  - destruct (trigger && Ship.canFire s1); [reflexivity|].
    cbn [Ship.cooldown Ship.set_base]. exact Hcd.
  - intros i b Hi. rewrite !list_lookup_fmap.
    rewrite lookup_app_l by (apply lookup_lt_Some in Hi; exact Hi).
    rewrite Hi. reflexivity.
Qed.
End Shooting.

(** ** Drifting (src/entities/Asteroid.js, src/entities/PowerUp.js,
       src/systems/Physics.js) *)

Section Drifting.
Context `{MathLib}.

(** The asteroids and the power-ups through the entity phase: each is
    updated, then wrapped, in place. *)
Lemma updateEntities_drifters (dt : Q) (input : Input.t) (g : Game.t) :
  State.asteroids (Game.state (updateEntities dt input g))
  = map (fun a => Asteroid.set_base (integrateAndWrap (Asteroid.base a)) a)
        (map (Asteroid.update dt) (State.asteroids (Game.state g)))
  /\ State.powerups (Game.state (updateEntities dt input g))
     = map (fun p => PowerUp.set_base (integrateAndWrap (PowerUp.base p)) p)
           (map (PowerUp.update dt) (State.powerups (Game.state g))).
Proof.
  unfold updateEntities. cbv zeta.
  set (g1 := Game.onState
               (fun S => State.set_ship (Ship.update dt input (State.ship S)) S) g).
  set (g2 := if _ && Ship.canFire (State.ship (Game.state g1)) then _ else g1).
  assert (H2 : State.asteroids (Game.state g2) = State.asteroids (Game.state g)
               /\ State.powerups (Game.state g2) = State.powerups (Game.state g)).
  { unfold g2. destruct (_ && _); [|split; reflexivity].
    cbn [Game.onState Game.state Game.set_state].
    destruct (Ship.fire _) as [bullets ship']. split; reflexivity. }
  destruct H2 as [Ha2 Hp2]. clearbody g2. clear g1.
  set (g3 := Game.onState _ g2).
  assert (Ha3 : State.asteroids (Game.state g3)
                = map (Asteroid.update dt) (State.asteroids (Game.state g2)))
    by reflexivity.
  assert (Hp3 : State.powerups (Game.state g3)
                = map (PowerUp.update dt) (State.powerups (Game.state g2)))
    by reflexivity.
  clearbody g3.
  set (g4 := match State.ufo (Game.state g3) with
             | Some _ => g3
             | None => _
             end).
  assert (H4 : State.asteroids (Game.state g4) = State.asteroids (Game.state g3)
               /\ State.powerups (Game.state g4) = State.powerups (Game.state g3)).
  { unfold g4.
    destruct (State.ufo (Game.state g3)); [split; reflexivity|].
    destruct (State.ufoSpawnedThisWave (Game.state g3)); [split; reflexivity|].
    destruct (State.ufoSpawnTimer (Game.state g3)) as [timer|];
      [|split; reflexivity].
    cbv zeta. destruct (Qleb _ 0); [|split; reflexivity].
    set (gt := Game.onState (State.set_ufoSpawnTimer _) g3).
    destruct (spawnUfoForCurrentWave_state (Game.state gt) (Game.draws gt))
      as (u & Hst & _).
    rewrite onStateRand_state, Hst. split; reflexivity. }
  destruct H4 as [Ha4 Hp4]. clearbody g4.
  set (g5 := match State.ufo (Game.state g4) with
             | Some u => _
             | None => g4
             end).
  assert (H5 : State.asteroids (Game.state g5) = State.asteroids (Game.state g4)
               /\ State.powerups (Game.state g5) = State.powerups (Game.state g4)).
  { unfold g5. destruct (State.ufo (Game.state g4)); [|split; reflexivity].
    destruct (Ufo.update _ _ _) as [lasers u'].
    cbn [Game.onState Game.state Game.set_state].
    destruct (0 <? length lasers)%nat; destruct (Entity.dead (Ufo.base u'));
      split; reflexivity. }
  destruct H5 as [Ha5 Hp5]. clearbody g5.
  cbn [Game.onState Game.state Game.set_state State.asteroids State.powerups
       State.set_ufoBullets State.set_powerups State.set_asteroids
       State.set_bullets State.set_ship].
  rewrite Ha5, Ha4, Ha3, Ha2, Hp5, Hp4, Hp3, Hp2. split; reflexivity.
Qed.

(** An entity on the canvas, its edges included, that moves at most one
    canvas in a tick is on the canvas after the move and the wrap. *)
Lemma move_wrap_on_canvas (dt : Q) (e : Entity.t) :
  0 <= Entity.x e <= CONFIG.CANVAS.W ->
  0 <= Entity.y e <= CONFIG.CANVAS.H ->
  - CONFIG.CANVAS.W <= Entity.vx e * dt <= CONFIG.CANVAS.W ->
  - CONFIG.CANVAS.H <= Entity.vy e * dt <= CONFIG.CANVAS.H ->
  let e' := integrateAndWrap (Entity.move dt e) in
  0 <= Entity.x e' <= CONFIG.CANVAS.W
  /\ 0 <= Entity.y e' <= CONFIG.CANVAS.H
  /\ Entity.vx e' = Entity.vx e /\ Entity.vy e' = Entity.vy e
  /\ Entity.r e' = Entity.r e /\ Entity.dead e' = Entity.dead e.
Proof.
  intros [Hx0 Hx1] [Hy0 Hy1] [Hvx0 Hvx1] [Hvy0 Hvy1]. cbv zeta.
  unfold integrateAndWrap, Entity.move.
  cbn [Entity.x Entity.y Entity.vx Entity.vy Entity.r Entity.dead Entity.set_pos].
  destruct (wrap_closed_period (Entity.x e + Entity.vx e * dt) CONFIG.CANVAS.W)
    as [A B]; [lra|lra|].
  destruct (wrap_closed_period (Entity.y e + Entity.vy e * dt) CONFIG.CANVAS.H)
    as [C D]; [lra|lra|].
  repeat split; assumption.
Qed.

(** X29: drifting keeps to the canvas.  In the entity phase of a tick
    every asteroid and every power-up keeps its place in its array, its
    velocity, its radius and whether it is dead, and its angle turns by its
    spin times [dt].  One that is on the canvas, the edges included, and
    moves at most one canvas width and height in the tick is on the canvas
    afterwards, the edges included: the wrap brings a coordinate that has
    left by less than a canvas back to [0 <= x <= W] and
    [0 <= y <= H]. *)
Theorem X29_drifters_stay_on_canvas
    (dt : Q) (input : Input.t) (g : Game.t) (i : nat) :
  let S := Game.state g in
  let S' := Game.state (updateEntities dt input g) in
  let onCanvas e :=
    0 <= Entity.x e <= CONFIG.CANVAS.W /\ 0 <= Entity.y e <= CONFIG.CANVAS.H in
  let slow e :=
    - CONFIG.CANVAS.W <= Entity.vx e * dt <= CONFIG.CANVAS.W
    /\ - CONFIG.CANVAS.H <= Entity.vy e * dt <= CONFIG.CANVAS.H in
  length (State.asteroids S') = length (State.asteroids S)
  /\ length (State.powerups S') = length (State.powerups S)
  /\ (forall a, State.asteroids S !! i = Some a ->
        exists a',
          State.asteroids S' !! i = Some a'
          /\ Entity.vx (Asteroid.base a') = Entity.vx (Asteroid.base a)
          /\ Entity.vy (Asteroid.base a') = Entity.vy (Asteroid.base a)
          /\ Entity.r (Asteroid.base a') = Entity.r (Asteroid.base a)
          /\ Entity.dead (Asteroid.base a') = Entity.dead (Asteroid.base a)
          /\ Asteroid.sizeIndex a' = Asteroid.sizeIndex a
          /\ Asteroid.angle a' = Asteroid.angle a + Asteroid.spin a * dt
          /\ (onCanvas (Asteroid.base a) -> slow (Asteroid.base a) ->
              onCanvas (Asteroid.base a')))
  /\ (forall p, State.powerups S !! i = Some p ->
        exists p',
          State.powerups S' !! i = Some p'
          /\ Entity.vx (PowerUp.base p') = Entity.vx (PowerUp.base p)
          /\ Entity.vy (PowerUp.base p') = Entity.vy (PowerUp.base p)
          /\ Entity.dead (PowerUp.base p') = Entity.dead (PowerUp.base p)
          /\ PowerUp.type p' = PowerUp.type p
          /\ PowerUp.angle p' = PowerUp.angle p + PowerUp.spin p * dt
          /\ (onCanvas (PowerUp.base p) -> slow (PowerUp.base p) ->
              onCanvas (PowerUp.base p'))).
Proof.
  cbv zeta. destruct (updateEntities_drifters dt input g) as [-> ->].
  rewrite !length_map.
  split; [reflexivity|]. split; [reflexivity|]. split.
  - intros a Ha. eexists. rewrite !list_lookup_fmap, Ha.
    split; [reflexivity|].
    cbn [Asteroid.base Asteroid.set_base Asteroid.update Asteroid.sizeIndex
         Asteroid.angle].
    do 6 (split; [reflexivity|]).
    intros [Hx Hy] [Hvx Hvy].
    destruct (move_wrap_on_canvas dt (Asteroid.base a) Hx Hy Hvx Hvy)
      as (A & B & _).
    split; assumption.
  - intros p Hp. eexists. rewrite !list_lookup_fmap, Hp.
    split; [reflexivity|].
    cbn [PowerUp.base PowerUp.set_base PowerUp.update PowerUp.type PowerUp.angle].
    do 5 (split; [reflexivity|]).
    intros [Hx Hy] [Hvx Hvy].
    destruct (move_wrap_on_canvas dt (PowerUp.base p) Hx Hy Hvx Hvy)
      as (A & B & _).
    split; assumption.
Qed.
End Drifting.

(** ** Bullets against the UFO (src/core/Game.js) *)

Section UfoPays.
Context `{MathLib}.

(** X30: the UFO pays once.  The second loop of [_handleBulletCollisions]
    does nothing when there is no UFO.  With a UFO it never touches the
    asteroids, the lives or the ship, and ends in one of two ways: the UFO is
    still there, with no more health than before and the score unchanged,
    or the UFO is gone and the score has gone up by exactly [SCORE_VALUE],
    however many bullets overlapped it. *)
Theorem X30_ufo_pays_once (len : nat) (g : Game.t) :
  let g' := forEachIndex len bulletUfoRound g in
  let S := Game.state g in
  let S' := Game.state g' in
  State.asteroids S' = State.asteroids S
  /\ State.lives S' = State.lives S
  /\ State.ship S' = State.ship S
  /\ State.mode S' = State.mode S
  /\ length (State.bullets S') = length (State.bullets S)
  /\ match State.ufo S with
     | None => g' = g
     | Some u =>
         (exists u', State.ufo S' = Some u'
                     /\ (Ufo.health u' <= Ufo.health u)%Z
                     /\ State.score S' = State.score S)
         \/ (State.ufo S' = None
             /\ Entity.dead (Ufo.base u) = false
             /\ State.score S' = (State.score S + CONFIG.UFO.SCORE_VALUE)%Z)
     end.
Proof.
  cbv zeta.
  set (P := fun s : Game.t =>
    State.asteroids (Game.state s) = State.asteroids (Game.state g)
    /\ State.lives (Game.state s) = State.lives (Game.state g)
    /\ State.ship (Game.state s) = State.ship (Game.state g)
    /\ State.mode (Game.state s) = State.mode (Game.state g)
    /\ length (State.bullets (Game.state s)) = length (State.bullets (Game.state g))
    /\ match State.ufo (Game.state g) with
       | None => s = g
       | Some u =>
           (exists u', State.ufo (Game.state s) = Some u'
                       /\ (Ufo.health u' <= Ufo.health u)%Z
                       /\ (Entity.dead (Ufo.base u') = false ->
                           Entity.dead (Ufo.base u) = false)
                       /\ State.score (Game.state s) = State.score (Game.state g))
           \/ (State.ufo (Game.state s) = None
               /\ Entity.dead (Ufo.base u) = false
               /\ State.score (Game.state s)
                  = (State.score (Game.state g) + CONFIG.UFO.SCORE_VALUE)%Z)
       end).
  assert (Hall : P (forEachIndex len bulletUfoRound g)).
  { apply (forEachIndex_ind P).
    - intros i s (Ha & Hl & Hs & Hm & Hb & Hu). unfold P.
      unfold bulletUfoRound. cbv zeta.
      destruct (State.bullets (Game.state s) !! i) as [b|];
        [|repeat (split; [assumption|]); exact Hu].
      destruct (Entity.dead (Bullet.base b));
        [repeat (split; [assumption|]); exact Hu|].
      destruct (State.ufo (Game.state s)) as [us|] eqn:Eus;
        [|repeat (split; [assumption|]); rewrite Eus in *; exact Hu].
      destruct (negb (Entity.dead (Ufo.base us)) && _) eqn:Ehit;
        [|repeat (split; [assumption|]); rewrite Eus in *; exact Hu].
      apply andb_true_iff in Ehit as [Hlive _]. apply negb_true_iff in Hlive.
      destruct (State.ufo (Game.state g)) as [u|] eqn:Eu.
      2:{ subst s. congruence. }
      destruct Hu as [(u' & Hu' & Hh & Hd & Hsc)|(Hnone & _)]; [|congruence].
      assert (u' = us) by congruence. subst u'.
      unfold Ufo.takeHit. rewrite Hlive. cbv zeta.
      destruct (Ufo.health us - 1 <=? 0)%Z eqn:Elast.
      + (* the last hit *)
        cbn [Game.onState Game.state Game.set_state State.asteroids State.lives
             State.ship State.mode State.bullets State.ufo State.score
             State.set_ufo].
        rewrite addScore_asteroids, addScore_lives, addScore_ship, addScore_mode,
          addScore_bullets, addScore_score.
        cbn [Game.onState Game.state Game.set_state State.asteroids State.lives
             State.ship State.mode State.bullets State.score State.set_ufo
             State.set_bullets].
        rewrite length_alter.
        repeat (split; [assumption|]).
        right. split; [reflexivity|]. split; [exact (Hd Hlive)|]. lia.
      + cbn [Game.onState Game.state Game.set_state State.asteroids State.lives
             State.ship State.mode State.bullets State.ufo State.score
             State.set_ufo State.set_bullets].
        rewrite length_alter.
        repeat (split; [assumption|]).
        left. eexists. split; [reflexivity|].
        cbn [Ufo.health Ufo.base]. split; [lia|]. split; [exact Hd|exact Hsc].
    - unfold P. repeat (split; [reflexivity|]).
      destruct (State.ufo (Game.state g)) as [u|]; [|reflexivity].
      left. exists u. repeat split; try reflexivity; try lia. tauto. }
  destruct Hall as (Ha & Hl & Hs & Hm & Hb & Hu).
  repeat (split; [assumption|]).
  destruct (State.ufo (Game.state g)) as [u|]; [|exact Hu].
  destruct Hu as [(u' & Hu' & Hh & _ & Hsc)|Hpaid]; [left|right; exact Hpaid].
  exists u'. repeat split; assumption.
Qed.
End UfoPays.
